(* ===== verification/_CoqProject ===== *)
-Q . S2P
Prelude.v
GoStd.v
Float.v
Json.v
Sha256.v
Url.v
AesGcm.v
CloudEvent.v
Stream.v
Publisher.v
Blob.v
Convert.v
Attest.v
Web3.v
Handler.v
Responses.v
Server.v
LakeWriter.v
LakeSQL.v
Schema.v
Layout.v
Startup.v
Backfill.v
Overlap.v
FsStore.v
S3Client.v
Sink.v
SinkLive.v
SinkWatch.v
Pipeline.v
Maintain.v
MaintSQL.v
Progress.v
Feed.v
Decode.v
Coordinates.v
Fetch.v
Relay.v
Config.v
Delivery.v
Durability.v
Commands.v
Supervise.v
Metrics.v
