(* ===== verification/Prelude.v ===== *)
(** * din: a verification library for the DIMO ingest node

    din receives vehicle data over HTTP, stores it in a write-ahead log (NATS
    JetStream, one stream per partition), and drains the log into a DuckLake
    table of Parquet files. Everything it promises is about that path: a 200 means
    the data is in the log, an ack means it is in the lake, and what leaves the
    lake is what nobody reads any more.

    ** The program's parts, and where they are modelled

      - Prelude: notations ([din_scope]), tactics, hint databases and the generic
        lemmas the files share.
      - GoStd: the Go language and standard library as the node uses them: machine
        integers, error trees with errors.Is/As/Join, (T, error) as a monad,
        strings, %d and %03d, UTF-8 ranges, FNV-1a, base64, time. Float: float64 with
        correct rounding, strconv.ParseFloat, %g. Sha256: crypto/sha256. Json: the
        documents encoding/json accepts, string unquoting and field folding. Url: net/url's
        Parse and URL.String, with IP literals as a parameter ([UrlHosts]). AesGcm:
        crypto/aes with a 256-bit key and cipher.NewGCM, checked against the published
        vectors.
      - CloudEvent: the event records (RawEvent, StoredEvent) and, as classes of
        operations, the libraries the node imports (cloudevent, go-ethereum).
      - Stream (internal/stream/subjects.go, stream.go): subject tokens, partitions,
        EnsureStreams over a broker parameter.
      - Publisher (internal/stream/publisher.go): Publish, PublishBatch, NewMsg,
        ParseMsg. The broker's state [wal] is threaded through submissions and waits
        in the order the code makes them.
      - Blob (internal/split, objstore, blobcrypt): MaybeSplit over an [ObjectStore]
        class; the encrypting store is a second instance built on a first, over AesGcm.
      - Convert (internal/convert, internal/fpvalidate): connection payloads to
        events, header validation, the future-timestamp warning table.
      - Attest (internal/attest/attest.go): Parse, signatures, tombstones. Web3
        (internal/web3): the ERC-1271 binding over go-ethereum's bind package, with the
        contract ABI as its laws ([GoEthBindLaws]); [bindingCrypto] puts it in Attest's
        place for it. Keccak-256 is there to check the selector.
      - Handler (internal/handler/handler.go): the two endpoints, against class
        [Deps] of the four interfaces the source declares; [node_deps] is the
        instance built of Convert, Attest, Blob and Publisher. Responses: which answer a
        failing request gets from that instance, as a function of the request ([answer]);
        [StoreErrors] and [CodecErrors] say that the libraries' errors are not the node's
        own sentinels.
      - Server (internal/server/middleware.go, server.go, postOnly of cmd/din/main.go):
        the middleware around the endpoints (a handler may panic), the sharded rate
        limiter, client-certificate and token authentication, the two ingest listeners and
        the ops routes.
      - LakeWriter (internal/lake/row.go, writer.go, retry helpers of lake.go): rows,
        one transaction per bundle, retries. DuckDB is class [DuckDB], what a
        transaction promises is [DuckLaws].
      - LakeSQL (internal/lake/lake.go, ddl.go): the text of every bootstrap and schema
        statement, quoting, credential redaction, layout repair, the encryption check
        and Open over a session parameter. Schema: the rows of LakeWriter against the
        columns read from the CREATE statement. Layout: the layout queries as relations
        over DuckLake's metadata tables, and the protocol between any number of running
        backfills and pods that re-assert the layout, as a step relation ([ystep],
        [yreach]).
      - Startup (internal/natsembed, lake/extensions.go, convert/modules.go,
        newAttestationAuth of server/middleware.go, attest.NewVerifier): starting the
        embedded broker, installing extensions, registering modules, building the token
        check.
      - Backfill (internal/lake/backfill.go, the pause heartbeat of lake.go):
        registering existing Parquet files in bounded transactions. Overlap: several such
        runs, merges and clean-ups interleaved on one catalog ([ostep], [oreach]).
      - FsStore (internal/fsstore): the atomic put over a file-system parameter, and the
        recursive listing of a directory tree. S3Client (internal/s3client): put and
        paginated listing over the AWS SDK as a class.
      - Sink (internal/sink/sink.go): state record [Sink] (buffer, queue, in-flight
        bytes), its operations, the bisecting isolation, and the concurrent whole as a
        step relation ([step], closed by [reachable]) of the loop and its workers, any
        interleaving. Proved against [BundleWriterLaws]; [lake_writer] discharges them
        with LakeWriter. SinkLive: waiting and draining make progress. SinkWatch: the
        failure streak and the fatal error, over runs watched by their flushes
        ([watched]). Pipeline: the whole path from a request through the middleware, the
        handlers, the WAL, the sink and the writer to the rows of the lake. Durability:
        any number of sinks on one lake and one WAL, starting and crashing, with acks
        that arrive late or never ([dstep], [dreach]).
      - Maintain (internal/lake/maintain.go, consumer.go): compaction and snapshot
        expiry cycles over a [catalog] of snapshots and consumer progress; the restart
        backstop. Progress (RecordConsumerProgress of consumer.go): the upsert of a
        consumer's cursor. MaintSQL: the same cycle on a SQL session, with the statement
        texts, transactions, the epochs in float64, parseByteSize, NewMaintainer and the
        gauges ([sql_maint] is the instance Maintain is run on). Feed: commits,
        consumers that report, join or fall silent, and the floor, cutoff and expiry of
        maintenance cycles, interleaved on one catalog ([fstep], [freach]).
      - Decode (internal/decodestream): the bridge that decodes raw messages and
        republishes signals: coordinates, pruning, submission and acknowledgement, over
        what the decoded streams promise ([DecodedStreamLaws]; they discard old messages).
        Coordinates: what the merging of coordinates means, by the triples of signals it
        cuts them into.
      - Fetch (fetchLoop and pollWALPending of sink.go; EnsureStreams, Run and runPartition of
        decodestream.go): the loops that read the WAL, as functions of the rounds they
        go through. Relay: the bridge's partitions interleaved message by message, with
        crashes, lost deliveries and acks, the delivery limit and the clock ([xstep], [xreach]);
        [handleBatch_run] shows handleBatch to be such a run.
      - Config (internal/config/config.go; cmd/din/main.go): Load and its checks, and
        how main derives each component's configuration, its timeouts, the subcommands
        and the order of start-up and release. Commands: the subcommands run on the
        components (lakeBackfill, runMaintenance), the choice of the object store and
        serveHTTP. Delivery: the redelivery schedule of the sinks' consumers. Supervise:
        the errgroup of run and of decodestream's Run as a step relation ([gstep]) over
        functions with the life each has had (rounds, cycles, how a listener ended), given
        event by event under the context as it is ([clives]) and ending as the components'
        own models say ([cresult]); the node of them ([nstep], [nreach]), and main's exit
        code. Metrics: the metric families,
        who registers them, and the label a publish outcome is counted under.

    ** How the parts are tied together

    Client theorems are proved against the law class of the interface
    ([PublisherLaws], [ObjectStoreLaws], [BundleWriterLaws], [JetStreamLaws] for
    the WAL and [DecodedStreamLaws] for the decoded streams, [DuckLaws]); the file of the implementation gives the instance. Each law class
    about third-party code ([BackfillLaws], [FileSystemLaws], [ProgressLaws],
    [RateLaws], [SortLaws] and so on) states documented behaviour and has a
    concrete instance (an in-memory broker, store, database, file system), which the
    witnesses evaluate.

    ** What the theorems show

      - End to end: [accepted_event_reaches_lake]: what a device was told is accepted is
        in the WAL, and the sink settles it only with its row in the lake or for cause;
        [no_accepted_event_lost]: over crashes, restarts and lost acks such an event is in
        the lake, owed, refused by the writer alone, or past its 48 hours in the WAL;
        [lakeBackfill_registers_bucket] and [blobs_protected_at_rest] for the commands
        and stores as main builds them.
      - Supervision: [run_exits_for_cause] (the node ends with nil only after a signal,
        otherwise with the error of a wiring step or of the component that failed first,
        for a cause its own life in that run shows) and [shutdown_completes] (a cancelled
        node ends: every component within two rounds of its loop and its drain);
        [sink_gives_up_late] for the fatal error of a sink.
      - Durability: [Connection_200_durable], [Attestation_200_durable],
        [Connection_siblings], [PublishBatch_positional],
        [PublishBatch_nil_iff_all_acked], [MaybeSplit_lossless],
        [split_through_encryption], [Open_accepts_exactly_sealed] (a blob opens exactly
        if sealing made it), [sealed_blob_bound_to_name] (moved to another name it opens
        only under a hash key that solves a fixed nonzero polynomial), [ParseMsg_roundtrip], [row_roundtrip],
        [PutFile_atomic] (a put shows the old or the complete new object in every state
        it goes through).
      - Draining: [sink_at_least_once], [sink_no_silent_drop], [sink_settles_once] and
        [sink_memory_bounded], invariants by induction on the step relation;
        [WriteBundle_atomic]; [handleBatch_acks] for a batch of the decode bridge and
        [bridge_at_least_once] for the bridge over any schedule (an acked message was
        decoded in a delivery, and all of it taken by the decoded streams);
        [fetchLoop_sound] for what is handed to the sink; [backpressure_no_deadlock] and
        [drain_completes] for progress; [row_has_table_type] for what a row is.
      - Poison rows: [isolate_localizes_poison] (the row is terminated, the others are acked
        and stored) and [isolate_outage], and the limit
        [leading_poison_wedges_large_bundle]: a poison row in the first n/256 of a
        bundle of a healthy writer uses up the eight probes before anything commits,
        so the bundle is redelivered unchanged; [poison_only_bundles_restart]: bundles of
        nothing but poison count as a writer that commits nothing.
      - Admission: [servers_authenticate] (every request is answered, also when its handler
        panics, and a handler runs only under a verified identity), [limiter_refines_private_buckets] and [limiter_bounded] for the rate
        limiter, [Convert_sound], [ValidateHeaders_sound], [Parse_authentic],
        [attestation_issuer_checked] (which tokens the attestation listener takes),
        [Parse_tombstone], [tombstone_accepted], [erc1271_on_chain] (what the contract
        branch asks the chain, and that it accepts on that answer only), and the error
        classes ([Connection_answers], the status of every failing request;
        [writeError_classes], [Publish_error_classified], [Convert_error], [Parse_error])
        with the exception [malformed_base64_answers_500].
      - Routing: [subject_routed_to_its_partition] (every event has exactly one of the
        partition streams), [EnsureStreams_layout],
        [EnsureStreams_refuses_stale].
      - Catalog text: [statements_injection_free] (read as SQL, the statements have
        exactly the configured values as their literals), [bootstrap_redacts_credentials]
        and its limit [redactErr_unbalanced_leaks], [Open_encryption_guard],
        [s3Endpoint_host] (what DuckDB is told about S3_ENDPOINT).
      - Backfills: [Backfill_exactly_once] for one run; [registered_twice_cause] names the
        only ways several runs can register a file twice, [overlapping_backfills_duplicate]
        and [rerun_after_merge_duplicates] show both to occur; [Backfill_runs_plan] ties
        the runs to the code.
      - Layout: [reassertLayout_repairs]; [window_protected] lists the only ways a
        backfill's window can be broken, by a pod or by another backfill, and
        [reassert_race] and [overlapping_backfill_breaks_window] show that the check before
        the first heartbeat and the end of another backfill are such ways.
      - Maintenance: [Cycle_expiry_safe], [Cycle_deletion_guarded], [merge_fits_memory]
        (over all passes of a process, with what applies when a size cannot be read),
        [cutoff_survives_float64], [parseByteSize_reads], [execCountTxn_atomic],
        [Cycle_returns], [Run_four_strikes], [RecordConsumerProgress_upserts],
        [S3ListObjectsV2_complete]; [live_consumer_keeps_feed]
        and [loss_is_reported] for the consumers of the lake.
      - Signals: [handleCoordinates_spec] (one location for exactly the usable triples),
        [prune_spec].
      - Metrics: [maintenance_series_owned], [outcome_label_matches_answer].
      - Settings: [Load_sound], [flush_deadline_past_ackwait],
        [maintainer_staleness_rule], [sink_timeouts_ordered], [pool_fits_writers],
        [MaxDeliver_never_sheds], [backoff_clears_hard_cap] and its limit of thirty minutes,
        [boot_ready_and_released], [runMaintenance_fails_for_cause],
        [embedRun_contained], [RegisterModules_dispatch], [InstallExtensions_stops];
        [hidden_root_lists_nothing] for a store whose root is a hidden directory.

    ** Bounds and fuel

    [retryLoop] runs on fuel 3, the code's attempt limit, and [retryLoop_fuel] shows
    that more changes nothing. [isolateRange] gets the length of its range, and
    [isolateRange_fuel] shows any larger fuel gives the same result. [runes],
    [chunks], [durationLoop], [unquote_fuel] and the blocks of Sha256, Keccak and AesGcm take the
    length of their input, of which every turn uses up some. [shortest] looks at 17
    digits, which tell any two float64 apart; [stripZeros] at 20. The fuel of the merge loop counts the rounds
    looked at, and no result means that it is still running: the safety theorems hold
    at every fuel, and [Cycle_returns] shows that a cycle whose sub-calls make progress
    ([MergeProgress]) ends within [work_left] + 2 rounds. [listPages] counts pages, and
    more fuel than pages is enough; [parseFuel_enough] shows that two turns per byte
    are for a JSON document. Fetch loops are functions of the list of their
    rounds. Every other recursion is structural. Z stands for Go's
    int (64 bit): sizes and counts stay far below 2^63; where the code relies on a
    width (hashes, ports, durations that wrap) the wrap-around is written out.

    ** What is not modelled

    The values of the metrics other than the maintainer's gauges and the backlog poller,
    logging and traces; the text of %v values inside error messages; net/url on hosts with
    brackets or several colons, which Go hands to net/netip; the sign of a float64 zero;
    the start of goroutines in main while later wiring steps still run (all components
    start at once in Supervise); the steps of a sink between its start and its end in
    Supervise, where its life ends with a run of Sink's own relation; that GHASH's key is unpredictable (AesGcm
    states what it would have to satisfy instead); real time (clock readings are
    arguments) and goroutine scheduling, except as the order of steps of the relations
    above.

    ** Left to do

    The round trip of %g through ParseFloat. *)

From stdpp Require Export base tactics list gmap strings fin_maps sorting.
From stdpp Require Import options.
From Stdlib Require Export ZArith Lia.

(** Go's (T, error) results and the error values live in GoStd; this file has
    what does not depend on Go: notations, tactics, hint databases and the
    generic lemmas on booleans, lists and options. *)

#[global] Open Scope Z_scope.

Declare Scope din_scope.
Delimit Scope din_scope with din.
#[global] Open Scope din_scope.

(** Boolean tests are written with the operators of the source. *)
Notation "a <? b" := (Z.ltb a b) (at level 70, no associativity) : din_scope.
Notation "a <=? b" := (Z.leb a b) (at level 70, no associativity) : din_scope.
Notation "a >=? b" := (Z.geb a b) (at level 70, no associativity) : din_scope.
Notation "a =? b" := (Z.eqb a b) (at level 70, no associativity) : din_scope.
Notation "a =?s b" := (String.eqb a b) (at level 70, no associativity) : din_scope.

(** [Zlen l] is Go's len on a slice, [strlen s] its len on a string. *)
Definition Zlen {A} (l : list A) : Z := Z.of_nat (length l).
Definition strlen (s : string) : Z := Z.of_nat (String.length s).

(** ** Tactics *)

(** Turn every boolean comparison of the context into its proposition. *)
Ltac bool_to_prop :=
  repeat match goal with
  | H : (_ && _)%bool = true |- _ => apply andb_true_iff in H; destruct H
  | H : (_ || _)%bool = false |- _ => apply orb_false_iff in H; destruct H
  | H : negb _ = true |- _ => apply negb_true_iff in H
  | H : negb _ = false |- _ => apply negb_false_iff in H
  | H : Z.ltb _ _ = true |- _ => apply Z.ltb_lt in H
  | H : Z.ltb _ _ = false |- _ => apply Z.ltb_ge in H
  | H : Z.leb _ _ = true |- _ => apply Z.leb_le in H
  | H : Z.leb _ _ = false |- _ => apply Z.leb_gt in H
  | H : Z.geb _ _ = true |- _ => rewrite Z.geb_leb in H; apply Z.leb_le in H
  | H : Z.geb _ _ = false |- _ => rewrite Z.geb_leb in H; apply Z.leb_gt in H
  | H : Z.eqb _ _ = true |- _ => apply Z.eqb_eq in H
  | H : Z.eqb _ _ = false |- _ => apply Z.eqb_neq in H
  | H : String.eqb _ _ = true |- _ => apply String.eqb_eq in H
  | H : String.eqb _ _ = false |- _ => apply String.eqb_neq in H
  end.

(** Case-split the innermost scrutinee of the goal, keep the equation. *)
Ltac split_match :=
  match goal with
  | |- context [match ?x with _ => _ end] =>
      lazymatch x with
      | context [match _ with _ => _ end] => fail
      | _ => let E := fresh "E" in destruct x eqn:E
      end
  end.

(** The same on a hypothesis. *)
Ltac split_match_in H :=
  match type of H with
  | context [match ?x with _ => _ end] =>
      lazymatch x with
      | context [match _ with _ => _ end] => fail
      | _ => let E := fresh "E" in destruct x eqn:E
      end
  end.

(** Split every test of the goal and close what arithmetic and equalities close. *)
Ltac crush_cases :=
  repeat (split_match; simplify_eq/=); bool_to_prop; simplify_eq/=; try done; try lia.

(** ** Hint databases *)

(** [din]: the resolution hints of the library; [dinr]: its rewriting rules. *)
Create HintDb din.
Create Rewrite HintDb dinr.

(** ** Generic lemmas *)

Lemma Zlen_nonneg {A} (l : list A) : 0 <= Zlen l.
Proof. unfold Zlen; lia. Qed.

Lemma Zlen_app {A} (l k : list A) : Zlen (l ++ k) = Zlen l + Zlen k.
Proof. unfold Zlen; rewrite length_app; lia. Qed.

Lemma Zlen_cons {A} (x : A) l : Zlen (x :: l) = 1 + Zlen l.
Proof. unfold Zlen; simpl; lia. Qed.

#[global] Instance Zlen_perm {A} : Proper (Permutation ==> eq) (@Zlen A).
Proof. intros l k Hp. unfold Zlen. by rewrite Hp. Qed.

Lemma strlen_nonneg s : 0 <= strlen s.
Proof. unfold strlen; lia. Qed.

(** stdpp keeps [String.append] folded under [simpl]; this is its equation. *)
Lemma string_app_cons c s t : String c s +:+ t = String c (s +:+ t).
Proof. done. Qed.

Lemma string_app_nil_l (s : string) : "" +:+ s = s.
Proof. done. Qed.

Lemma string_length_app s t : String.length (s +:+ t) = (String.length s + String.length t)%nat.
Proof. induction s as [|c s IH]; [done|]. rewrite string_app_cons. simpl. by rewrite IH. Qed.

Lemma strlen_app s t : strlen (s +:+ t) = strlen s + strlen t.
Proof. unfold strlen; rewrite string_length_app; lia. Qed.

Lemma string_app_assoc (s t u : string) : (s +:+ t) +:+ u = s +:+ (t +:+ u).
Proof. induction s as [|c s IH]; [done|]. by rewrite !string_app_cons, IH. Qed.

Lemma string_app_nil_r (s : string) : s +:+ "" = s.
Proof. induction s as [|c s IH]; [done|]. by rewrite string_app_cons, IH. Qed.

Lemma string_app_inj_l (s t u : string) : s +:+ t = s +:+ u -> t = u.
Proof.
  induction s as [|c s IH]; [done|]. rewrite !string_app_cons. intros [= ?]; auto.
Qed.

Lemma existsb_false_iff {A} (f : A -> bool) l :
  existsb f l = false <-> forall x, x ∈ l -> f x = false.
Proof.
  induction l as [|a l IH]; simpl.
  - split; [|done]; by intros _ x ?%elem_of_nil.
  - rewrite orb_false_iff, IH. split.
    + intros [Ha Hl] x [->|Hx]%elem_of_cons; auto.
    + intros Hall. split; [apply Hall; left | intros x Hx; apply Hall; by right].
Qed.

(** The sum of a list of integers. *)
Definition sumZ (l : list Z) : Z := foldr Z.add 0 l.

Lemma sumZ_app l k : sumZ (l ++ k) = sumZ l + sumZ k.
Proof. unfold sumZ. induction l as [|x l IH]; simpl; lia. Qed.

Lemma foldr_max_ge l x : x ∈ l -> x <= foldr Z.max 0 l.
Proof.
  induction l as [|y l IH]; [by intros ?%elem_of_nil|].
  intros [->|Hx]%elem_of_cons; simpl; [lia|specialize (IH Hx); lia].
Qed.

Lemma sumZ_nonneg l : Forall (fun x => 0 <= x) l -> 0 <= sumZ l.
Proof. induction 1; simpl; lia. Qed.

#[export] Hint Resolve Zlen_nonneg strlen_nonneg : din.
#[export] Hint Rewrite sumZ_app @Zlen_app @Zlen_cons strlen_app string_app_assoc string_app_nil_r : dinr.
