(* ===== verification/GoStd.v ===== *)
(** * The Go language and standard library, as far as the node uses them

    Machine integers with their wrap-around, error values with errors.Is /
    errors.As / errors.Join / fmt.Errorf, (T, error) results as a monad, byte
    strings (package strings), %d / %03d formatting, UTF-8 decoding of a range
    loop, hash/fnv, encoding/base64 and time.Time.  A Go string or []byte is a
    Rocq [string]: a sequence of bytes. *)

From S2P Require Import Prelude.
From Stdlib Require Import DecimalString DecimalN DecimalPos NArith.

(** ** Machine integers *)

(** uint8, uint32, uint64 and int64 (Go's int on the 64-bit targets) wrap. *)
Definition wrap8 (z : Z) : Z := z mod 2 ^ 8.
Definition wrap32 (z : Z) : Z := z mod 2 ^ 32.
Definition wrap64 (z : Z) : Z := z mod 2 ^ 64.
Definition int64 (z : Z) : Z := (z + 2 ^ 63) mod 2 ^ 64 - 2 ^ 63.

(** if v == 0 { v = d }: the zero value of a setting takes its default. *)
Definition or_default (v d : Z) : Z := if v =? 0 then d else v.

(** ** Errors *)

(** The sentinel error values the program compares with errors.Is. *)
Inductive sentinel :=
| ErrValidation | ErrUnavailable | ErrPayloadTooLarge | ErrPoisonRow | ErrInvalidVIN
| ErrInvalidEthAddr | errFutureTimestamp | errLatLongMismatch
| ctxCanceled | ctxDeadlineExceeded | natsErrMaxPayload | sqlErrNoRows | httpErrServerClosed.

#[export] Instance sentinel_eq_dec : EqDecision sentinel.
Proof. solve_decision. Defined.

Definition sentinel_text (s : sentinel) : string :=
  match s with
  | ErrValidation => "validation error"
  | ErrUnavailable => "jetstream publish not acknowledged"
  | ErrPayloadTooLarge => "event exceeds max NATS payload"
  | ErrPoisonRow => "poison row"
  | ErrInvalidVIN => "invalid VIN"
  | ErrInvalidEthAddr => "ethereum address not set in claim"
  | errFutureTimestamp => "future timestamp"
  | errLatLongMismatch => "latitude and longitude mismatch"
  | ctxCanceled => "context canceled"
  | ctxDeadlineExceeded => "context deadline exceeded"
  | natsErrMaxPayload => "nats: maximum payload exceeded"
  | sqlErrNoRows => "sql: no rows in result set"
  | httpErrServerClosed => "http: Server closed"
  end.

(** An error is a sentinel, an error known only by its text (errors.New, or one
    a library returned), http.MaxBytesError, or one of these wrapped: fmt.Errorf
    with one %w, with two, and errors.Join. *)
Inductive error :=
| ESentinel (s : sentinel)
| ENew (msg : string)
| EMaxBytes (limit : Z)
| EWrap (pre : string) (e : error) (post : string)
| EWrap2 (pre : string) (e1 : error) (mid : string) (e2 : error) (post : string)
| EJoin (e1 e2 : error).

(** The newline errors.Join puts between two messages. *)
Definition newline : string := String (Ascii.ascii_of_nat 10) "".

(** e.Error(). *)
Fixpoint error_text (e : error) : string :=
  match e with
  | ESentinel s => sentinel_text s
  | ENew m => m
  | EMaxBytes _ => "http: request body too large"
  | EWrap pre e post => pre +:+ error_text e +:+ post
  | EWrap2 pre e1 mid e2 post => pre +:+ error_text e1 +:+ mid +:+ error_text e2 +:+ post
  | EJoin e1 e2 => error_text e1 +:+ newline +:+ error_text e2
  end.

(** errors.Is(e, s). *)
Fixpoint errors_is (e : error) (s : sentinel) : bool :=
  match e with
  | ESentinel s' => bool_decide (s' = s)
  | ENew _ | EMaxBytes _ => false
  | EWrap _ e _ => errors_is e s
  | EWrap2 _ e1 _ e2 _ | EJoin e1 e2 => errors_is e1 s || errors_is e2 s
  end.

(** errors.As(e, &maxBytes) with maxBytes a *http.MaxBytesError. *)
Fixpoint errors_as_max_bytes (e : error) : bool :=
  match e with
  | EMaxBytes _ => true
  | ESentinel _ | ENew _ => false
  | EWrap _ e _ => errors_as_max_bytes e
  | EWrap2 _ e1 _ e2 _ | EJoin e1 e2 => errors_as_max_bytes e1 || errors_as_max_bytes e2
  end.

(** errors.Join(a, b): nil operands are dropped; nil when both are. *)
Definition errors_join (a b : option error) : option error :=
  match a, b with
  | Some e1, Some e2 => Some (EJoin e1 e2)
  | Some e, None | None, Some e => Some e
  | None, None => None
  end.

(** fmt.Errorf("%w: text", sentinel). *)
Definition sentinel_err (s : sentinel) (text : string) : error := EWrap "" (ESentinel s) text.

(** ** Results *)

(** A Go (T, error) pair whose error is nil is [Ok]; one whose error is not nil
    is [Err]: callers never read the value then. *)
Inductive result (A : Type) :=
| Ok (a : A)
| Err (e : error).
Arguments Ok {A} _.
Arguments Err {A} _.

#[export] Instance result_ret : MRet result := fun A => @Ok A.
#[export] Instance result_bind : MBind result := fun A B f r =>
  match r with Ok a => f a | Err e => Err e end.

(** Wrap the error of a failing call, pass a success through. *)
Definition wrap_err {A} (w : error -> error) (r : result A) : result A :=
  match r with Ok a => Ok a | Err e => Err (w e) end.

(** A check: fail with [e] when the condition of the guard holds. *)
Definition reject_if (b : bool) (e : error) : result unit := if b then Err e else Ok tt.

Definition is_ok {A} (r : result A) : bool := match r with Ok _ => true | Err _ => false end.

(** ** Bytes and package strings *)

Definition byte_val (c : Ascii.ascii) : Z := Z.of_N (Ascii.N_of_ascii c).
Definition byte_of (z : Z) : Ascii.ascii := Ascii.ascii_of_N (Z.to_N z).

(** A one-character literal as a byte. *)
Definition chr (s : string) : Ascii.ascii :=
  match s with String c _ => c | "" => Ascii.zero end.

(** strings.HasPrefix(s, p). *)
Definition HasPrefix (s p : string) : bool := String.prefix p s.

(** strings.TrimPrefix and strings.CutPrefix. *)
Definition CutPrefix (s p : string) : option string :=
  if HasPrefix s p then Some (String.substring (String.length p) (String.length s - String.length p) s)
  else None.
Definition TrimPrefix (s p : string) : string := default s (CutPrefix s p).

(** strings.HasSuffix(s, p). *)
Definition HasSuffix (s p : string) : bool :=
  (String.length p <=? String.length s)%nat &&
  (String.substring (String.length s - String.length p) (String.length p) s =?s p).

(** strings.TrimSpace on ASCII text. *)
Definition is_space (c : Ascii.ascii) : bool :=
  let v := byte_val c in ((9 <=? v) && (v <=? 13)) || (v =? 32).
Fixpoint trimLeft (s : string) : string :=
  match s with String c s' => if is_space c then trimLeft s' else s | "" => "" end.
Fixpoint trimRight (s : string) : string :=
  match s with
  | "" => ""
  | String c s' => match trimRight s' with "" => if is_space c then "" else String c "" | t => String c t end
  end.
Definition TrimSpace (s : string) : string := trimRight (trimLeft s).

(** strings.Contains(s, sub). *)
Definition Contains (s sub : string) : bool :=
  match String.index 0 sub s with Some _ => true | None => false end.

(** Replace every occurrence of a byte: strings.ReplaceAll with a one-byte
    pattern. *)
Fixpoint ReplaceAll (s : string) (c : Ascii.ascii) (r : string) : string :=
  match s with
  | "" => ""
  | String d s' => if Ascii.eqb d c then r +:+ ReplaceAll s' c r else String d (ReplaceAll s' c r)
  end.

(** strings.ToLower on ASCII bytes (the strings it is applied to are driver
    messages and settings; Go maps other letters by the Unicode tables). *)
Definition lower_byte (c : Ascii.ascii) : Ascii.ascii :=
  let v := byte_val c in
  if (65 <=? v) && (v <=? 90) then byte_of (v + 32) else c.
Fixpoint ToLower (s : string) : string :=
  match s with "" => "" | String c s' => String (lower_byte c) (ToLower s') end.

(** Everything up to and including the last occurrence of [c]: with
    i = strings.LastIndex(s, c), s[:i+1] if i >= 0, the empty string if not. *)
Fixpoint upto_last (s : string) (c : Ascii.ascii) : string :=
  match s with
  | "" => ""
  | String d s' =>
      match upto_last s' c with
      | "" => if Ascii.eqb d c then String d "" else ""
      | p => String d p
      end
  end.

(** The bytes of a string, and back. *)
Definition bytes_of (s : string) : list Z := byte_val <$> String.list_ascii_of_string s.
Definition string_of (l : list Z) : string := String.string_of_list_ascii (byte_of <$> l).

(** strings.Split(s, sep) on a one-byte separator; NATS subjects are tokens
    separated by dots. *)
Fixpoint SplitByte (s : string) (sep : Ascii.ascii) : list string :=
  match s with
  | "" => [""]
  | String d s' =>
      if Ascii.eqb d sep then "" :: SplitByte s' sep
      else match SplitByte s' sep with
           | t :: ts => String d t :: ts
           | [] => [String d ""]
           end
  end.

(** Does the byte occur in the string? *)
Fixpoint has_byte (s : string) (c : Ascii.ascii) : bool :=
  match s with "" => false | String d s' => Ascii.eqb d c || has_byte s' c end.

(** strings.Join(l, sep). *)
Fixpoint Join (l : list string) (sep : string) : string :=
  match l with
  | [] => ""
  | [s] => s
  | s :: l' => s +:+ sep +:+ Join l' sep
  end.

(** ** fmt *)

(** %d of a non-negative integer. *)
Definition dec (n : N) : string := NilEmpty.string_of_uint (N.to_uint n).

Fixpoint zeros (n : nat) : string := match n with O => "" | S n' => String (chr "0") (zeros n') end.

(** Left-pad with zeros to at least [w] bytes. *)
Definition pad (w : nat) (s : string) : string := zeros (w - String.length s) +:+ s.

(** %d and %0wd: the sign counts towards the width. *)
Definition fmt_d (z : Z) : string :=
  if z <? 0 then "-" +:+ dec (Z.to_N (- z)) else dec (Z.to_N z).
Definition fmt_0d (w : nat) (z : Z) : string :=
  if z <? 0 then "-" +:+ pad (w - 1) (dec (Z.to_N (- z))) else pad w (dec (Z.to_N z)).

(** Read a decimal back (leading zeros allowed). *)
Definition parse_dec (s : string) : option N := N.of_uint <$> NilEmpty.uint_of_string s.

(** %q of text without quotes, backslashes or control characters. *)
Definition dquote : string := String (Ascii.ascii_of_nat 34) "".
Definition fmt_q (s : string) : string := dquote +:+ s +:+ dquote.

(** %t *)
Definition fmt_t (b : bool) : string := if b then "true" else "false".

(** ** UTF-8: the runes a range loop or strings.Map visits *)

Definition RuneError : Z := 65533.

Definition cont (b : Z) : bool := (128 <=? b) && (b <=? 191).

(** utf8.DecodeRune on a non-empty input: the rune and the bytes consumed. *)
Definition DecodeRune (b0 : Z) (rest : list Z) : Z * nat :=
  let bad := (RuneError, 1%nat) in
  if b0 <? 128 then (b0, 1%nat)
  else if (b0 <? 194) || (244 <? b0) then bad
  else if b0 <? 224 then
    match rest with
    | b1 :: _ => if cont b1 then ((b0 - 192) * 64 + (b1 - 128), 2%nat) else bad
    | _ => bad
    end
  else if b0 <? 240 then
    match rest with
    | b1 :: b2 :: _ =>
        let lo := if b0 =? 224 then 160 else 128 in
        let hi := if b0 =? 237 then 159 else 191 in
        if (lo <=? b1) && (b1 <=? hi) && cont b2
        then ((b0 - 224) * 4096 + (b1 - 128) * 64 + (b2 - 128), 3%nat) else bad
    | _ => bad
    end
  else
    match rest with
    | b1 :: b2 :: b3 :: _ =>
        let lo := if b0 =? 240 then 144 else 128 in
        let hi := if b0 =? 244 then 143 else 191 in
        if (lo <=? b1) && (b1 <=? hi) && cont b2 && cont b3
        then ((b0 - 240) * 262144 + (b1 - 128) * 4096 + (b2 - 128) * 64 + (b3 - 128), 4%nat)
        else bad
    | _ => bad
    end.

(** The runes of a byte sequence; the length is enough fuel, every rune takes at
    least one byte. *)
Fixpoint runes_fuel (fuel : nat) (l : list Z) : list Z :=
  match fuel, l with
  | S fuel', b :: rest =>
      let '(r, w) := DecodeRune b rest in r :: runes_fuel fuel' (drop (w - 1) rest)
  | _, _ => []
  end.
Definition runes (s : string) : list Z := runes_fuel (String.length s) (bytes_of s).

(** utf8.EncodeRune: the bytes strings.Builder.WriteRune appends for a valid
    rune. *)
Definition EncodeRune (r : Z) : list Z :=
  if r <? 128 then [r]
  else if r <? 2048 then [192 + r / 64; 128 + r mod 64]
  else if r <? 65536 then [224 + r / 4096; 128 + r / 64 mod 64; 128 + r mod 64]
  else [240 + r / 262144; 128 + r / 4096 mod 64; 128 + r / 64 mod 64; 128 + r mod 64].

(** ** hash/fnv: New32a *)

Definition fnv_offset32 : Z := 2166136261.
Definition fnv_prime32 : Z := 16777619.

(** One byte: xor, then multiply, on a uint32. *)
Definition fnv1a_step (h : Z) (b : Z) : Z := wrap32 (Z.lxor h b * fnv_prime32).

(** h := fnv.New32a(); h.Write(s); h.Sum32(). *)
Definition fnv32a (s : string) : Z := fold_left fnv1a_step (bytes_of s) fnv_offset32.

(** ** encoding/base64: StdEncoding *)

(** The alphabet: the six-bit value of a byte. *)
Definition b64_val (b : Z) : option Z :=
  if (65 <=? b) && (b <=? 90) then Some (b - 65)
  else if (97 <=? b) && (b <=? 122) then Some (b - 71)
  else if (48 <=? b) && (b <=? 57) then Some (b + 4)
  else if b =? 43 then Some 62
  else if b =? 47 then Some 63
  else None.

Definition b64_char (v : Z) : Z :=
  if v <? 26 then v + 65 else if v <? 52 then v + 71 else if v <? 62 then v - 4
  else if v =? 62 then 43 else 47.

(** '=' *)
Definition b64_pad : Z := 61.

(** Groups of four; only the last may be padded, and nothing follows it. *)
Fixpoint b64_groups (l : list Z) : option (list Z) :=
  match l with
  | [] => Some []
  | a :: b :: c :: d :: rest =>
      va ← b64_val a; vb ← b64_val b;
      match b64_val c with
      | Some vc =>
          match b64_val d with
          | Some vd =>
              tail ← b64_groups rest;
              Some (va * 4 + vb / 16 :: vb mod 16 * 16 + vc / 4 :: vc mod 4 * 64 + vd :: tail)
          | None =>
              if (d =? b64_pad) && bool_decide (rest = [])
              then Some [va * 4 + vb / 16; vb mod 16 * 16 + vc / 4] else None
          end
      | None =>
          if (c =? b64_pad) && (d =? b64_pad) && bool_decide (rest = [])
          then Some [va * 4 + vb / 16] else None
      end
  | _ => None
  end.

(** base64.StdEncoding.DecodeString: carriage returns and newlines are skipped. *)
Definition b64_DecodeString (s : string) : option string :=
  string_of <$> b64_groups (List.filter (fun b => negb ((b =? 10) || (b =? 13))) (bytes_of s)).

(** base64.StdEncoding.DecodedLen(n). *)
Definition b64_DecodedLen (n : Z) : Z := n / 4 * 3.

(** base64.StdEncoding.EncodeToString, the inverse, for the round trip. *)
Fixpoint b64_encode (l : list Z) : list Z :=
  match l with
  | a :: b :: c :: rest =>
      b64_char (a / 4) :: b64_char (a mod 4 * 16 + b / 16) ::
      b64_char (b mod 16 * 4 + c / 64) :: b64_char (c mod 64) :: b64_encode rest
  | [a; b] => [b64_char (a / 4); b64_char (a mod 4 * 16 + b / 16); b64_char (b mod 16 * 4); b64_pad]
  | [a] => [b64_char (a / 4); b64_char (a mod 4 * 16); b64_pad; b64_pad]
  | [] => []
  end.
Definition b64_EncodeToString (s : string) : string := string_of (b64_encode (bytes_of s)).

(** ** time *)

(** A time.Time is the number of nanoseconds since Go's zero time (January 1,
    year 1, UTC), a time.Duration a number of nanoseconds. *)
Definition Nanosecond : Z := 1.
Definition Millisecond : Z := 1000000.
Definition Second : Z := 1000 * Millisecond.
Definition Minute : Z := 60 * Second.
Definition Hour : Z := 60 * Minute.

(** d.String(): fmtFrac is the fraction of [prec] digits without its trailing zeros,
    the digits taken from the last one on, and the value left. *)
Fixpoint fmtFrac (prec : nat) (v : Z) (print : bool) (acc : string) : string * Z :=
  match prec with
  | O => (if print then "." +:+ acc else acc, v)
  | S prec' =>
      let print := print || negb (v mod 10 =? 0) in
      fmtFrac prec' (v / 10) print (if print then fmt_d (v mod 10) +:+ acc else acc)
  end.
Definition DurationString (d : Z) : string :=
  let u := Z.abs d in
  let small prec unit := let '(frac, v) := fmtFrac prec u false "" in fmt_d v +:+ frac +:+ unit in
  (if d <? 0 then "-" else "") +:+
  (if u <? Second then
     if u =? 0 then "0s"
     else if u <? 1000 then small 0%nat "ns"
     else if u <? Millisecond then small 3%nat "µs"
     else small 6%nat "ms"
   else
     let '(frac, secs) := fmtFrac 9 u false "" in
     let mins := secs / 60 in
     (if 0 <? mins then (if 0 <? mins / 60 then fmt_d (mins / 60) +:+ "h" else "") +:+ fmt_d (mins mod 60) +:+ "m" else "") +:+
     fmt_d (secs mod 60) +:+ frac +:+ "s").

Example DurationString_examples :
  DurationString (10 * Minute) = "10m0s" /\ DurationString (36 * Hour) = "36h0m0s" /\
  DurationString (- (1500 * Millisecond)) = "-1.5s" /\ DurationString 1500 = "1.5µs" /\ DurationString 0 = "0s".
Proof. repeat split. Qed.

Definition zeroTime : Z := 0.
Definition IsZero (t : Z) : bool := t =? zeroTime.

(** t.Truncate(d): down to a multiple of d since the zero time. *)
Definition Truncate (t d : Z) : Z := if d <=? 0 then t else t - t mod d.

(** The UTC calendar date of a time: days since the zero time to year, month,
    day, by 400-year eras of a year that starts on March 1. *)
Definition day_number (t : Z) : Z := t / (24 * Hour).
Definition civil_from_days (d : Z) : Z * Z * Z :=
  let z := d + 306 in
  let era := z / 146097 in
  let doe := z mod 146097 in
  let yoe := (doe - doe / 1460 + doe / 36524 - doe / 146096) / 365 in
  let doy := doe - (365 * yoe + yoe / 4 - yoe / 100) in
  let mp := (5 * doy + 2) / 153 in
  let day := doy - (153 * mp + 2) / 5 + 1 in
  let month := if mp <? 10 then mp + 3 else mp - 9 in
  (yoe + era * 400 + (if month <=? 2 then 1 else 0), month, day).
Definition Date (t : Z) : Z * Z * Z := civil_from_days (day_number t).

(** ** Lemmas: errors *)

Lemma errors_is_join a b s e :
  errors_join a b = Some e ->
  errors_is e s = (match a with Some x => errors_is x s | None => false end) ||
                  (match b with Some x => errors_is x s | None => false end).
Proof. destruct a, b; intros [= <-]; simpl; by rewrite ?orb_false_r. Qed.

Lemma errors_join_None a b : errors_join a b = None <-> a = None /\ b = None.
Proof. split; [by destruct a, b | by intros [-> ->]]. Qed.

Lemma errors_is_sentinel_err s s' text :
  errors_is (sentinel_err s text) s' = bool_decide (s = s').
Proof. done. Qed.

Lemma result_bind_Ok {A B} (f : A -> result B) r b :
  r ≫= f = Ok b <-> exists a, r = Ok a /\ f a = Ok b.
Proof.
  split; [destruct r; simpl; [eauto | done] | by intros (a & -> & Hf)].
Qed.

Lemma reject_if_Ok b e : reject_if b e = Ok tt <-> b = false.
Proof. by destruct b. Qed.

Lemma reject_if_Ok' b e u : reject_if b e = Ok u -> b = false.
Proof. by destruct b. Qed.

Lemma wrap_err_Ok {A} w (r : result A) a : wrap_err w r = Ok a <-> r = Ok a.
Proof. by destruct r. Qed.

(** An error of a bind is the error of its first part, or of its second. *)
Lemma result_bind_Err {A B} (f : A -> result B) r e :
  r ≫= f = Err e <-> r = Err e \/ exists a, r = Ok a /\ f a = Err e.
Proof.
  destruct r as [a|e']; simpl.
  - split; [eauto | intros [?|(? & [= <-] & ?)]; done].
  - split; [intros [= <-]; auto | intros [[= <-]|(? & ? & _)]; done].
Qed.

Lemma reject_if_Err b e e' : reject_if b e = Err e' <-> b = true /\ e = e'.
Proof.
  destruct b; simpl; [|split; [done | by intros [? _]]].
  split; [intros [= ->]; done | intros [_ ->]; done].
Qed.

(** Take a chain of binds that returned apart: one hypothesis per step. *)
Ltac inv_ok H :=
  repeat (apply result_bind_Ok in H as (? & ? & H); simpl in H);
  repeat match goal with
  | H1 : reject_if _ _ = Ok _ |- _ => apply reject_if_Ok' in H1
  | H1 : wrap_err _ _ = Ok _ |- _ => apply wrap_err_Ok in H1
  end.

(** ** Lemmas: bytes *)

Lemma byte_val_range c : 0 <= byte_val c < 256.
Proof.
  unfold byte_val. pose proof (Ascii.N_ascii_bounded c). lia.
Qed.

Lemma byte_of_val c : byte_of (byte_val c) = c.
Proof. unfold byte_of, byte_val. rewrite N2Z.id. apply Ascii.ascii_N_embedding. Qed.

Lemma byte_val_of z : 0 <= z < 256 -> byte_val (byte_of z) = z.
Proof.
  intros Hz. unfold byte_of, byte_val. rewrite Ascii.N_ascii_embedding; lia.
Qed.

Lemma byte_val_inj c d : byte_val c = byte_val d -> c = d.
Proof. intros H. by rewrite <- (byte_of_val c), H, byte_of_val. Qed.

Lemma bytes_of_range s : Forall (fun b => 0 <= b < 256) (bytes_of s).
Proof. unfold bytes_of. apply Forall_fmap, Forall_true. intros; apply byte_val_range. Qed.

Lemma string_of_bytes_of s : string_of (bytes_of s) = s.
Proof.
  unfold string_of, bytes_of. rewrite <- list_fmap_compose.
  rewrite (list_fmap_ext _ id), list_fmap_id.
  - apply String.string_of_list_ascii_of_string.
  - intros; apply byte_of_val.
Qed.

Lemma bytes_of_string_of l : Forall (fun b => 0 <= b < 256) l -> bytes_of (string_of l) = l.
Proof.
  intros Hl. unfold string_of, bytes_of. rewrite String.list_ascii_of_string_of_list_ascii.
  rewrite <- list_fmap_compose. induction Hl as [|b l Hb _ IH]; [done|].
  rewrite fmap_cons, IH. f_equal. by apply byte_val_of.
Qed.

Lemma length_bytes_of s : length (bytes_of s) = String.length s.
Proof.
  unfold bytes_of. rewrite length_fmap.
  induction s; simpl; [done | by f_equal].
Qed.

Lemma length_string_of l : String.length (string_of l) = length l.
Proof. unfold string_of. induction l; simpl; [done | by f_equal]. Qed.

Lemma bytes_of_app s t : bytes_of (s +:+ t) = bytes_of s ++ bytes_of t.
Proof.
  unfold bytes_of. rewrite <- fmap_app. f_equal.
  induction s as [|c s IH]; [done|]. rewrite string_app_cons. simpl. by rewrite IH.
Qed.

(** ** Lemmas: prefixes, tokens *)

Lemma HasPrefix_spec s p : HasPrefix s p = true <-> exists t, s = p +:+ t.
Proof.
  unfold HasPrefix. revert s. induction p as [|c p IH]; intros s; simpl.
  - split; [intros _; by exists s | by destruct s].
  - destruct s as [|d s].
    + split; [done|]. intros [t Ht]. rewrite string_app_cons in Ht. done.
    + change (String.prefix (String c p) (String d s))
        with (if Ascii.ascii_dec c d then String.prefix p s else false).
      destruct (Ascii.ascii_dec c d) as [->|Hne].
      * etransitivity; [apply IH|]. split; intros [t Ht]; exists t.
        -- by rewrite Ht.
        -- rewrite string_app_cons in Ht. by injection Ht.
      * split; [done|]. intros [t Ht]. rewrite string_app_cons in Ht. congruence.
Qed.

Lemma HasPrefix_app p t : HasPrefix (p +:+ t) p = true.
Proof. apply HasPrefix_spec. by exists t. Qed.

Lemma has_byte_app s t c : has_byte (s +:+ t) c = has_byte s c || has_byte t c.
Proof.
  induction s as [|d s IH]; [done|]. rewrite string_app_cons. simpl. by rewrite IH, orb_assoc.
Qed.

Lemma SplitByte_no_sep s c : has_byte s c = false -> SplitByte s c = [s].
Proof.
  induction s as [|d s IH]; simpl; [done|]. intros [Hd Hs]%orb_false_iff.
  by rewrite Hd, IH.
Qed.

(** Splitting peels off a leading token that has no separator. *)
Lemma SplitByte_token s t c :
  has_byte s c = false -> SplitByte (s +:+ String c t) c = s :: SplitByte t c.
Proof.
  induction s as [|d s IH]; simpl.
  - intros _. by rewrite Ascii.eqb_refl.
  - intros [Hd Hs]%orb_false_iff. rewrite Hd. by rewrite (IH Hs).
Qed.

Lemma substring_all s : String.substring 0 (String.length s) s = s.
Proof. induction s as [|c s IH]; simpl; [done | by rewrite IH]. Qed.

(** Slicing a concatenation at its seam. *)
Lemma substring_app_l s t : String.substring 0 (String.length s) (s +:+ t) = s.
Proof.
  induction s as [|c s IH]; [by destruct t|]. rewrite string_app_cons. simpl. by rewrite IH.
Qed.

Lemma substring_app_r s t n : String.substring (String.length s) n (s +:+ t) = String.substring 0 n t.
Proof. induction s as [|c s IH]; [done|]. rewrite string_app_cons. simpl. apply IH. Qed.

Lemma length_substring_0 n s : (n <= String.length s)%nat -> String.length (String.substring 0 n s) = n.
Proof.
  revert s. induction n as [|n IH]; intros [|c s]; simpl; try done; try lia.
  intros Hn. by rewrite IH by lia.
Qed.

Lemma substring_shift base k n s :
  String.substring (String.length base + k) n (base +:+ s) = String.substring k n s.
Proof. induction base as [|c base IH]; [done|]. rewrite string_app_cons. simpl. exact IH. Qed.

Lemma substring_split a b s : String.substring 0 (a + b) s = String.substring 0 a s +:+ String.substring a b s.
Proof.
  revert a. induction s as [|c s IH]; intros a; [by destruct a; [destruct b|destruct b]|].
  destruct a as [|a]; [done|]. cbn [String.substring Nat.add]. by rewrite IH.
Qed.

Lemma bytes_of_substring_0 n s : bytes_of (String.substring 0 n s) = take n (bytes_of s).
Proof.
  revert s. induction n as [|n IH]; intros [|c s]; try done. cbn [String.substring]. unfold bytes_of in *. simpl. by rewrite IH.
Qed.

Lemma substring_app2 s t u n :
  String.substring (String.length s + String.length t) n (s +:+ t +:+ u) = String.substring 0 n u.
Proof. rewrite <- string_length_app, <- string_app_assoc. apply substring_app_r. Qed.

Lemma length_substring_tail n s : String.length (String.substring n (String.length s - n) s) = (String.length s - n)%nat.
Proof.
  revert n. induction s as [|c s IH]; intros [|n]; try done.
  - by rewrite Nat.sub_0_r, substring_all.
  - apply IH.
Qed.

Lemma CutPrefix_app p t : CutPrefix (p +:+ t) p = Some t.
Proof.
  unfold CutPrefix. rewrite HasPrefix_app, string_length_app, substring_app_r. f_equal.
  replace (String.length p + String.length t - String.length p)%nat with (String.length t) by lia.
  apply substring_all.
Qed.

(** ** Lemmas: decimal formatting *)

Lemma parse_dec_dec n : parse_dec (dec n) = Some n.
Proof.
  unfold parse_dec, dec. rewrite NilEmpty.usu. simpl. by rewrite DecimalN.Unsigned.of_to.
Qed.

Lemma parse_dec_zeros k s n : parse_dec s = Some n -> parse_dec (zeros k +:+ s) = Some n.
Proof.
  intros Hs. induction k as [|k IH]; [done|].
  simpl zeros. rewrite string_app_cons. revert IH. unfold parse_dec. simpl.
  destruct (NilEmpty.uint_of_string (zeros k +:+ s)); simpl; [|done]. done.
Qed.

Lemma dec_inj n m : dec n = dec m -> n = m.
Proof. intros H. pose proof (parse_dec_dec n) as Hn. rewrite H, parse_dec_dec in Hn. congruence. Qed.

Lemma fmt_0d_inj w a b : 0 <= a -> 0 <= b -> fmt_0d w a = fmt_0d w b -> a = b.
Proof.
  intros Ha Hb. unfold fmt_0d, pad.
  destruct (Z.ltb_spec a 0), (Z.ltb_spec b 0); try lia. intros H1.
  pose proof (parse_dec_zeros (w - String.length (dec (Z.to_N a))) _ _ (parse_dec_dec (Z.to_N a))) as Hp.
  rewrite H1, (parse_dec_zeros _ _ _ (parse_dec_dec (Z.to_N b))) in Hp.
  injection Hp. lia.
Qed.

(** Decimal text has digits only. *)
Definition is_digit (c : Ascii.ascii) : bool := (48 <=? byte_val c) && (byte_val c <=? 57).

Fixpoint str_forall (f : Ascii.ascii -> bool) (s : string) : bool :=
  match s with "" => true | String c s' => f c && str_forall f s' end.

Lemma str_forall_impl (f g : Ascii.ascii -> bool) s :
  (forall c, f c = true -> g c = true) -> str_forall f s = true -> str_forall g s = true.
Proof.
  intros Hfg. induction s as [|c s IH]; [done|]. cbn [str_forall]. intros [Hc Hs]%andb_true_iff.
  by rewrite (Hfg c Hc), (IH Hs).
Qed.

Lemma str_forall_app f s t : str_forall f (s +:+ t) = str_forall f s && str_forall f t.
Proof.
  induction s as [|c s IH]; [done|]. rewrite string_app_cons. simpl. by rewrite IH, andb_assoc.
Qed.

Lemma str_forall_no_byte f s c : str_forall f s = true -> f c = false -> has_byte s c = false.
Proof.
  intros Hs Hc. induction s as [|d s IH]; [done|]. simpl in *.
  apply andb_true_iff in Hs as [Hd Hs]. rewrite IH by done. rewrite orb_false_r.
  destruct (Ascii.eqb_spec d c); [congruence | done].
Qed.

Lemma dec_digits n : str_forall is_digit (dec n) = true.
Proof.
  unfold dec. induction (N.to_uint n); simpl; try done; by rewrite IHu.
Qed.

Lemma zeros_digits k : str_forall is_digit (zeros k) = true.
Proof. by induction k. Qed.

Lemma fmt_0d_digits w z : 0 <= z -> str_forall is_digit (fmt_0d w z) = true.
Proof.
  intros Hz. unfold fmt_0d, pad. destruct (Z.ltb_spec z 0); [lia|].
  by rewrite str_forall_app, zeros_digits, dec_digits.
Qed.

(** ** Lemmas: hashing *)

Lemma fnv1a_step_range h b : 0 <= fnv1a_step h b < 2 ^ 32.
Proof. unfold fnv1a_step, wrap32. apply Z.mod_pos_bound. lia. Qed.

Lemma fnv32a_range s : 0 <= fnv32a s < 2 ^ 32.
Proof.
  unfold fnv32a. generalize (bytes_of s). intros l.
  assert (0 <= fnv_offset32 < 2 ^ 32) as H by (unfold fnv_offset32; lia).
  revert H. generalize fnv_offset32.
  induction l as [|b l IH]; intros h Hh; simpl; [done|]. apply IH, fnv1a_step_range.
Qed.

(** ** Lemmas: base64 *)

Lemma b64_val_char v : 0 <= v < 64 -> b64_val (b64_char v) = Some v.
Proof.
  intros Hv.
  assert (Forall (fun v => b64_val (b64_char v) = Some v) (seqZ 0 64)) as H.
  { vm_compute. repeat constructor. }
  rewrite Forall_forall in H. apply H, elem_of_seqZ. lia.
Qed.

Lemma b64_val_pad : b64_val b64_pad = None.
Proof. done. Qed.

(** The three-byte recombination of a group is the identity. *)
Lemma b64_group_arith a b c :
  0 <= a < 256 -> 0 <= b < 256 -> 0 <= c < 256 ->
  a / 4 * 4 + (a mod 4 * 16 + b / 16) / 16 = a /\
  (a mod 4 * 16 + b / 16) mod 16 * 16 + (b mod 16 * 4 + c / 64) / 4 = b /\
  (b mod 16 * 4 + c / 64) mod 4 * 64 + c mod 64 = c.
Proof. intros. Z.div_mod_to_equations. lia. Qed.

Lemma b64_group_range a b c :
  0 <= a < 256 -> 0 <= b < 256 -> 0 <= c < 256 ->
  (0 <= a / 4 < 64) /\ (0 <= a mod 4 * 16 + b / 16 < 64) /\
  (0 <= b mod 16 * 4 + c / 64 < 64) /\ (0 <= c mod 64 < 64).
Proof. intros. Z.div_mod_to_equations. lia. Qed.

Lemma b64_groups_encode l :
  Forall (fun b => 0 <= b < 256) l -> b64_groups (b64_encode l) = Some l.
Proof.
  induction l as [l IH] using (induction_ltof1 _ (@length Z)); unfold ltof in IH.
  intros Hl. destruct l as [|a [|b [|c rest]]].
  - done.
  - inversion_clear Hl as [|? ? Ha _].
    destruct (b64_group_range a 0 0) as (R1 & R2 & _); [lia..|].
    destruct (b64_group_arith a 0 0) as (A1 & _); [lia..|].
    change (0 / 16) with 0 in *. rewrite Z.add_0_r in *.
    simpl. rewrite !b64_val_char by lia. simpl. by rewrite A1.
  - inversion_clear Hl as [|? ? Ha Hl']. inversion_clear Hl' as [|? ? Hb _].
    destruct (b64_group_range a b 0) as (R1 & R2 & R3 & _); [lia..|].
    destruct (b64_group_arith a b 0) as (A1 & A2 & _); [lia..|].
    change (0 / 64) with 0 in *. rewrite Z.add_0_r in *.
    simpl. rewrite !b64_val_char by lia. simpl. by rewrite A1, A2.
  - inversion_clear Hl as [|? ? Ha Hl1]. inversion_clear Hl1 as [|? ? Hb Hl2].
    inversion_clear Hl2 as [|? ? Hc Hrest].
    destruct (b64_group_range a b c) as (R1 & R2 & R3 & R4); [lia..|].
    destruct (b64_group_arith a b c) as (A1 & A2 & A3); [lia..|].
    simpl. rewrite !b64_val_char by lia. simpl.
    rewrite IH by first [done | simpl; lia]. simpl. by rewrite A1, A2, A3.
Qed.

(** Encoded text has neither carriage returns nor newlines. *)
Lemma b64_char_range v : 0 <= v < 64 -> 43 <= b64_char v <= 122.
Proof. intros Hv. unfold b64_char. crush_cases. Qed.

Lemma b64_encode_range l :
  Forall (fun b => 0 <= b < 256) l -> Forall (fun b => 43 <= b <= 122) (b64_encode l).
Proof.
  induction l as [l IH] using (induction_ltof1 _ (@length Z)); unfold ltof in IH.
  intros Hl. destruct l as [|a [|b [|c rest]]].
  - constructor.
  - inversion_clear Hl as [|? ? Ha _]. destruct (b64_group_range a 0 0) as (? & ? & _); [lia..|].
    change (0 / 16) with 0 in *. rewrite Z.add_0_r in *.
    repeat constructor; try (apply b64_char_range; lia); unfold b64_pad; lia.
  - inversion_clear Hl as [|? ? Ha Hl']. inversion_clear Hl' as [|? ? Hb _].
    destruct (b64_group_range a b 0) as (? & ? & ? & _); [lia..|].
    change (0 / 64) with 0 in *. rewrite Z.add_0_r in *.
    repeat constructor; try (apply b64_char_range; lia); unfold b64_pad; lia.
  - inversion_clear Hl as [|? ? Ha Hl1]. inversion_clear Hl1 as [|? ? Hb Hl2].
    inversion_clear Hl2 as [|? ? Hc Hrest].
    destruct (b64_group_range a b c) as (? & ? & ? & ?); [lia..|].
    repeat (constructor; [apply b64_char_range; lia|]). apply IH; [simpl; lia | done].
Qed.

Lemma filter_all {A} (f : A -> bool) l : Forall (fun x => f x = true) l -> List.filter f l = l.
Proof. induction 1 as [|x l Hx _ IH]; simpl; [done|]. by rewrite Hx, IH. Qed.

(** Decoding what was encoded gives the bytes back. *)
Lemma b64_roundtrip s : b64_DecodeString (b64_EncodeToString s) = Some s.
Proof.
  unfold b64_DecodeString, b64_EncodeToString.
  pose proof (b64_encode_range _ (bytes_of_range s)) as Hr.
  rewrite bytes_of_string_of by (eapply Forall_impl; [exact Hr | simpl; lia]).
  rewrite filter_all.
  - rewrite b64_groups_encode by apply bytes_of_range. simpl. by rewrite string_of_bytes_of.
  - eapply Forall_impl; [exact Hr|]. intros b Hb. simpl in Hb.
    destruct (Z.eqb_spec b 10), (Z.eqb_spec b 13); (done || lia).
Qed.

(** A decoded group list has at most three bytes per four. *)
Lemma b64_groups_length l r : b64_groups l = Some r -> (4 * length r <= 3 * length l)%nat.
Proof.
  revert r. induction l as [l IH] using (induction_ltof1 _ (@length Z)); unfold ltof in IH.
  destruct l as [|a [|b [|c [|d rest]]]]; simpl; intros r; try (intros [= <-]; simpl; lia).
  destruct (b64_val a); simpl; [|done]. destruct (b64_val b); simpl; [|done].
  destruct (b64_val c).
  - destruct (b64_val d).
    + destruct (b64_groups rest) as [tl|] eqn:Et; simpl; [|done].
      intros [= <-]. apply IH in Et; simpl; lia.
    + destruct (_ && _); [|done]. intros [= <-]. simpl. lia.
  - destruct (_ && _); [|done]. intros [= <-]. simpl. lia.
Qed.

(** Only whole groups decode. *)
Lemma b64_groups_mod4 l r : b64_groups l = Some r -> exists k, length l = (4 * k)%nat.
Proof.
  revert r. induction l as [l IH] using (induction_ltof1 _ (@length Z)); unfold ltof in IH.
  destruct l as [|a [|b [|c [|d rest]]]]; simpl; intros r Hl; try done; [by exists 0%nat|].
  destruct (b64_val a); simpl in Hl; [|done]. destruct (b64_val b); simpl in Hl; [|done].
  destruct (b64_val c); [destruct (b64_val d)|].
  - destruct (b64_groups rest) as [tl|] eqn:Et; simpl in Hl; [|done].
    destruct (IH rest) with (r := tl) as [k Hk]; [simpl; lia | done |]. exists (S k). lia.
  - destruct (_ =? _); simpl in Hl; [|done]. case_bool_decide as Hr; [|done].
    subst rest. by exists 1%nat.
  - destruct (c =? _), (d =? _); simpl in Hl; try done. case_bool_decide as Hr; [|done].
    subst rest. by exists 1%nat.
Qed.

Lemma length_filter_le {A} (f : A -> bool) l : (length (List.filter f l) <= length l)%nat.
Proof. induction l; simpl; [lia | destruct (f a); simpl; lia]. Qed.

(** DecodedLen bounds the decoded length. *)
Lemma b64_DecodedLen_bound s p :
  b64_DecodeString s = Some p -> strlen p <= b64_DecodedLen (strlen s).
Proof.
  unfold b64_DecodeString. intros H. apply fmap_Some in H as (l & Hl & ->).
  apply b64_groups_length in Hl as Hlen. revert Hlen.
  match goal with Hl : b64_groups ?f = _ |- _ => set (fl := f) in * end.
  assert (length fl <= String.length s)%nat.
  { unfold fl. rewrite <- (length_bytes_of s). apply length_filter_le. }
  unfold strlen, b64_DecodedLen. rewrite length_string_of. intros Hlen.
  destruct (b64_groups_mod4 _ _ Hl) as [k Hk].
  rewrite Hk in *. Z.div_mod_to_equations. lia.
Qed.
