(* ===== verification/Float.v ===== *)
(** * float64 and strconv: IEEE 754 double precision in text

    The float64 values the program reads (settings, memory limits, fractions of
    durations) and prints (%g, %f): correct rounding of a rational, strconv.ParseFloat,
    and the shortest text that reads back. A zero has no sign here. *)

From S2P Require Import Prelude GoStd.

(** The nearest integer to num/den, ties to even; den > 0. *)
Definition nearest (num den : Z) : Z :=
  let q := num / den in
  let r := num mod den in
  if 2 * r <? den then q
  else if den <? 2 * r then q + 1
  else if Z.even q then q else q + 1.

(** A finite float64: man * 2^exp. *)
Record f64 := mkF64 { f_man : Z; f_exp : Z }.
Inductive float := Fin (x : f64) | PosInf | NegInf | NaN.
#[export] Instance f64_eq_dec : EqDecision f64.
Proof. solve_decision. Defined.
#[export] Instance float_eq_dec : EqDecision float.
Proof. solve_decision. Defined.

Definition fzero : float := Fin (mkF64 0 0).
Definition fneg (v : float) : float :=
  match v with Fin x => Fin (mkF64 (- f_man x) (f_exp x)) | PosInf => NegInf | NegInf => PosInf | NaN => NaN end.

(** num/den, not negative, rounded to the nearest float64, ties to even: 53 bits of it,
    fewer near zero, and infinity from 2^1024 on. *)
Definition up (k : Z) : Z := 2 ^ Z.max 0 k.
Definition floorLog2 (num den : Z) : Z :=
  let e := Z.log2 num - Z.log2 den in
  if num * up (- e) <? den * up e then e - 1 else e.
Definition ulpExp (num den : Z) : Z := Z.max (floorLog2 num den - 52) (- 1074).
Definition round64 (num den : Z) : float :=
  if num =? 0 then fzero
  else
    let q := ulpExp num den in
    let m := nearest (num * up (- q)) (den * up q) in
    if 2 ^ 1024 <=? m * up q then PosInf else Fin (mkF64 m q).

(** The value of a finite float64 as a fraction. *)
Definition numOf (x : f64) : Z := f_man x * up (f_exp x).
Definition denOf (x : f64) : Z := up (- f_exp x).

(** v == 0, v < 0, v >= 0: NaN compares with nothing. *)
Definition isZero (v : float) : bool := match v with Fin x => f_man x =? 0 | _ => false end.
Definition negative (v : float) : bool := match v with Fin x => f_man x <? 0 | NegInf => true | _ => false end.
Definition nonNegative (v : float) : bool := match v with Fin x => 0 <=? f_man x | PosInf => true | _ => false end.

(** ** strconv.ParseFloat(s, 64) *)

(** inf and infinity with or without a sign, nan without, in any letter case. *)
Definition special (s : string) : option float :=
  let l := ToLower s in
  if bool_decide (l ∈ ["inf"; "+inf"; "infinity"; "+infinity"]) then Some PosInf
  else if bool_decide (l ∈ ["-inf"; "-infinity"]) then Some NegInf
  else if l =?s "nan" then Some NaN
  else None.

Definition hexDigit (c : Ascii.ascii) : option Z :=
  let v := byte_val (lower_byte c) in
  if is_digit c then Some (v - 48) else if (97 <=? v) && (v <=? 102) then Some (v - 87) else None.
Definition digitIn (hex : bool) (c : Ascii.ascii) : option Z :=
  if hex then hexDigit c else if is_digit c then Some (byte_val c - 48) else None.

(** The digits of the mantissa: their value, how many of them follow the point, whether
    there are any, and the rest of the text. *)
Fixpoint mantissa (hex sawdot sawdigits : bool) (m frac : Z) (s : string) : Z * Z * bool * string :=
  match s with
  | "" => (m, frac, sawdigits, "")
  | String c s' =>
      if Ascii.eqb c (chr "_") then mantissa hex sawdot sawdigits m frac s'
      else if Ascii.eqb c (chr ".") then
        if sawdot then (m, frac, sawdigits, s) else mantissa hex true sawdigits m frac s'
      else match digitIn hex c with
           | Some d => mantissa hex sawdot true (m * (if hex then 16 else 10) + d) (if sawdot then frac + 1 else frac) s'
           | None => (m, frac, sawdigits, s)
           end
  end.

(** The digits of the exponent; from 10000 on they no longer count. *)
Fixpoint exponentDigits (e : Z) (s : string) : Z * string :=
  match s with
  | "" => (e, "")
  | String c s' =>
      if Ascii.eqb c (chr "_") then exponentDigits e s'
      else if is_digit c then exponentDigits (if e <? 10000 then e * 10 + (byte_val c - 48) else e) s'
      else (e, s)
  end.
Definition exponent (s : string) : option (Z * string) :=
  let '(sign, s1) := match s with
                     | String c s' => if Ascii.eqb c (chr "+") then (1, s') else if Ascii.eqb c (chr "-") then (- 1, s') else (1, s)
                     | "" => (1, s)
                     end in
  match s1 with
  | String c _ => if is_digit c then let '(e, s2) := exponentDigits 0 s1 in Some (sign * e, s2) else None
  | "" => None
  end.

(** Underscores only between digits, and after a base prefix. The last class seen: a
    digit, an underscore, or something else. *)
Inductive seen := SDigit | SUnder | SOther.
Fixpoint underscoresIn (hex : bool) (last : seen) (s : string) : bool :=
  match s with
  | "" => match last with SUnder => false | _ => true end
  | String c s' =>
      match digitIn hex c with
      | Some _ => underscoresIn hex SDigit s'
      | None =>
          if Ascii.eqb c (chr "_") then match last with SDigit => underscoresIn hex SUnder s' | _ => false end
          else match last with SUnder => false | _ => underscoresIn hex SOther s' end
      end
  end.
Definition dropSign (s : string) : string :=
  match s with String c s' => if Ascii.eqb c (chr "+") || Ascii.eqb c (chr "-") then s' else s | "" => s end.
Definition underscoreOK (s : string) : bool :=
  match dropSign s with
  | String z (String x s') =>
      if Ascii.eqb z (chr "0") && bool_decide (lower_byte x ∈ [chr "b"; chr "o"; chr "x"])
      then underscoresIn (Ascii.eqb (lower_byte x) (chr "x")) SDigit s'
      else underscoresIn false SOther (dropSign s)
  | t => underscoresIn false SOther t
  end.

(** readFloat of the whole text: the sign and the value as a fraction. *)
Definition readFloat (s : string) : option (bool * Z * Z) :=
  let neg := match s with String c _ => Ascii.eqb c (chr "-") | "" => false end in
  let '(hex, s1) := match dropSign s with
                    | String z (String x (String d s')) =>
                        if Ascii.eqb z (chr "0") && Ascii.eqb (lower_byte x) (chr "x") then (true, String d s')
                        else (false, dropSign s)
                    | t => (false, t)
                    end in
  let '(m, frac, sawdigits, s2) := mantissa hex false false 0 0 s1 in
  if negb sawdigits then None
  else
    let e := match s2 with
             | String c s' =>
                 if Ascii.eqb (lower_byte c) (if hex then chr "p" else chr "e") then exponent s' else if hex then None else Some (0, s2)
             | "" => if hex then None else Some (0, "")
             end in
    match e with
    | Some (e, "") =>
        if has_byte s (chr "_") && negb (underscoreOK s) then None
        else
          let p := if hex then e - 4 * frac else e - frac in
          let b := if hex then 2 else 10 in
          Some (neg, m * b ^ Z.max 0 p, b ^ Z.max 0 (- p))
    | _ => None
    end.

Definition float_error (s why : string) : error := ENew ("strconv.ParseFloat: parsing " +:+ fmt_q s +:+ ": " +:+ why).
Definition ParseFloat (s : string) : result float :=
  match special s with
  | Some v => Ok v
  | None =>
      match readFloat s with
      | None => Err (float_error s "invalid syntax")
      | Some (neg, num, den) =>
          match round64 num den with
          | PosInf => Err (float_error s "value out of range")
          | v => Ok (if neg then fneg v else v)
          end
      end
  end.

Example ParseFloat_examples :
  ParseFloat "0.5" = Ok (round64 1 2) /\ ParseFloat "1e3" = Ok (round64 1000 1) /\
  ParseFloat "0.1" = Ok (Fin (mkF64 0x1999999999999a (- 56))) /\ ParseFloat "5e-324" = Ok (Fin (mkF64 1 (- 1074))) /\
  ParseFloat "1_23.50_0_0e+1_2" = Ok (round64 123500000000000 1) /\ ParseFloat "0x1p-2" = Ok (round64 1 4) /\
  ParseFloat "-Inf" = Ok NegInf /\ is_ok (ParseFloat "1e309") = false /\ is_ok (ParseFloat "1__2") = false /\
  is_ok (ParseFloat "") = false /\ is_ok (ParseFloat "0x1") = false /\ is_ok (ParseFloat ".") = false.
Proof. vm_compute. repeat split. Qed.

(** ** %g: the shortest text that reads back *)

(** The place of the decimal point of num/den > 0: 10^(dp-1) <= num/den < 10^dp. *)
Definition pointOf (num den : Z) : Z :=
  if den <=? num then strlen (fmt_d (num / den)) else 1 - strlen (fmt_d ((den - 1) / num)).

(** d digits of scale p: d * 10^p as a fraction. *)
Definition dec_num (d p : Z) : Z := d * 10 ^ Z.max 0 p.
Definition dec_den (p : Z) : Z := 10 ^ Z.max 0 (- p).

(** The first n from which on n digits, rounded down or up, read back as [v]; of two the
    nearer. The result is the digits as a number and their scale. *)
Fixpoint shortest (fuel : nat) (v : float) (num den dp : Z) (n : Z) : option (Z * Z) :=
  match fuel with
  | O => None
  | S fuel' =>
      let p := dp - n in
      let down := num * 10 ^ Z.max 0 (- p) / (den * 10 ^ Z.max 0 p) in
      let back d := bool_decide (round64 (dec_num d p) (dec_den p) = v) in
      let near := nearest (num * 10 ^ Z.max 0 (- p)) (den * 10 ^ Z.max 0 p) in
      if back near then Some (near, p)
      else if back down then Some (down, p)
      else if back (down + 1) then Some (down + 1, p)
      else shortest fuel' v num den dp (n + 1)
  end.

(** Digits without their trailing zeros; the scale grows with each. *)
Fixpoint stripZeros (fuel : nat) (d p : Z) : Z * Z :=
  match fuel with
  | O => (d, p)
  | S fuel' => if (d =? 0) || negb (d mod 10 =? 0) then (d, p) else stripZeros fuel' (d / 10) (p + 1)
  end.

(** %e from an exponent of 6 on and below -4, otherwise %f. *)
Definition layout (d p : Z) : string :=
  let digs := fmt_d d in
  let dp := strlen digs + p in
  let exp := dp - 1 in
  if (exp <? -4) || (6 <=? exp) then
    String.substring 0 1 digs +:+
    (if String.length digs =? 1 then "" else "." +:+ String.substring 1 (String.length digs - 1) digs)%nat +:+
    "e" +:+ (if exp <? 0 then "-" else "+") +:+ fmt_0d 2 (Z.abs exp)
  else if p >=? 0 then digs +:+ zeros (Z.to_nat p)
  else if 0 <? dp then
    String.substring 0 (Z.to_nat dp) digs +:+ "." +:+ String.substring (Z.to_nat dp) (Z.to_nat (- p)) digs
  else "0." +:+ zeros (Z.to_nat (- dp)) +:+ digs.

Definition fmt_g (v : float) : string :=
  match v with
  | NaN => "NaN"
  | PosInf => "+Inf"
  | NegInf => "-Inf"
  | Fin x =>
      if f_man x =? 0 then "0"
      else
        let a := mkF64 (Z.abs (f_man x)) (f_exp x) in
        let num := numOf a in
        let den := denOf a in
        match shortest 17 (Fin a) num den (pointOf num den) 1 with
        | Some (d, p) => (if f_man x <? 0 then "-" else "") +:+ (let '(d', p') := stripZeros 20 d p in layout d' p')
        | None => ""
        end
  end.

Example fmt_g_examples :
  fmt_g (round64 1 2) = "0.5" /\ fmt_g (round64 1 10) = "0.1" /\ fmt_g (round64 1000000 1) = "1e+06" /\
  fmt_g (round64 123456 1) = "123456" /\ fmt_g (round64 1 3) = "0.3333333333333333" /\ fmt_g (round64 25 1000000) = "2.5e-05" /\
  fmt_g (round64 1 1) = "1" /\ fmt_g (Fin (mkF64 1 (- 1074))) = "5e-324" /\ fmt_g fzero = "0" /\
  fmt_g (round64 (2 ^ 1023) 1) = "8.98846567431158e+307" /\ fmt_g (fneg (round64 301 100)) = "-3.01".
Proof. vm_compute. repeat split. Qed.

(** ** Lemmas: rounding *)

Lemma nearest_error num den : 0 < den -> - den <= 2 * (nearest num den * den - num) <= den.
Proof.
  intros Hd. unfold nearest. pose proof (Z.div_mod num den ltac:(lia)). pose proof (Z.mod_pos_bound num den Hd).
  destruct (2 * (num mod den) <? den) eqn:E1; bool_to_prop; [nia|].
  destruct (den <? 2 * (num mod den)) eqn:E2; bool_to_prop; [nia|]. destruct (Z.even _); nia.
Qed.

Lemma nearest_unique num den x : - den < 2 * (num - x * den) < den -> nearest num den = x.
Proof. intros Hx. pose proof (nearest_error num den ltac:(lia)). nia. Qed.

Lemma up_pos k : 0 < up k.
Proof. apply Z.pow_pos_nonneg; lia. Qed.
Lemma up_nonpos k : k <= 0 -> up k = 1.
Proof. intros Hk. unfold up. by rewrite Z.max_l by lia. Qed.
Lemma up_nonneg k : 0 <= k -> up k = 2 ^ k.
Proof. intros Hk. unfold up. by rewrite Z.max_r by lia. Qed.

(** An integer below 2^53 is a float64 as it is. *)
Lemma round64_int n :
  0 <= n < 2 ^ 53 -> exists x, round64 n 1 = Fin x /\ 0 <= f_man x /\ -52 <= f_exp x <= 0 /\ f_man x = n * 2 ^ (- f_exp x).
Proof.
  intros Hn. unfold round64. destruct (Z.eqb_spec n 0) as [->|Hz]; [by eexists|].
  assert (Hl : floorLog2 n 1 = Z.log2 n).
  { unfold floorLog2. rewrite Z.log2_1, Z.sub_0_r. pose proof (Z.log2_nonneg n).
    rewrite (up_nonpos (- _)), up_nonneg by lia. pose proof (Z.log2_spec n ltac:(lia)).
    destruct (Z.ltb_spec (n * 1) (1 * 2 ^ Z.log2 n)); lia. }
  assert (Z.log2 n < 53) by (apply Z.log2_lt_pow2; lia). pose proof (Z.log2_nonneg n).
  set (q := ulpExp n 1). assert (Hq : q = Z.log2 n - 52) by (unfold q, ulpExp; rewrite Hl; lia).
  rewrite (up_nonpos q), (up_nonneg (- q)) by lia. rewrite !Z.mul_1_r.
  assert (Hnear : nearest (n * 2 ^ (- q)) 1 = n * 2 ^ (- q)) by (apply nearest_unique; lia). rewrite Hnear.
  assert (2 ^ (- q) <= 2 ^ 52) by (apply Z.pow_le_mono_r; lia). assert (0 < 2 ^ (- q)) by (apply Z.pow_pos_nonneg; lia).
  destruct (Z.leb_spec (2 ^ 1024) (n * 2 ^ (- q))) as [Hbig|_].
  - assert (2 ^ 1024 = 2 ^ 919 * 2 ^ 53 * 2 ^ 52) by reflexivity. assert (1 < 2 ^ 919) by reflexivity. nia.
  - eexists. split; [done|]. cbn [f_man f_exp]. split_and!; [nia|lia|lia|done].
Qed.

(** ** Lemmas: reading a decimal *)

Definition nonnil (u : Decimal.uint) : bool := match u with Decimal.Nil => false | _ => true end.

Lemma mantissa_uint_acc u : forall p,
  mantissa false false true (Zpos p) 0 (DecimalString.NilEmpty.string_of_uint u) = (Zpos (Pos.of_uint_acc u p), 0, true, "").
Proof.
  induction u; intros p; [done|..];
    (etransitivity; [|exact (IHu _)]); cbn -[Z.mul Z.add Pos.add Pos.mul mantissa]; cbn -[Z.mul Z.add Pos.add Pos.mul]; f_equal;
    match goal with |- _ + (?d - 48) = _ => let v := eval vm_compute in d in change d with v end; lia.
Qed.

Lemma mantissa_uint u : forall sd,
  mantissa false false sd 0 0 (DecimalString.NilEmpty.string_of_uint u) = (Z.of_N (Pos.of_uint u), 0, sd || nonnil u, "").
Proof.
  induction u; intros sd; [by destruct sd|by rewrite orb_true_r; apply IHu|..];
    rewrite orb_true_r; apply mantissa_uint_acc.
Qed.

Lemma dec_nonnil n : nonnil (N.to_uint n) = true.
Proof. destruct n as [|p]; [done|]. simpl. destruct (Pos.to_uint p) eqn:E; try done. by apply DecimalPos.Unsigned.to_uint_nonnil in E. Qed.

Lemma digit_not c (d : Ascii.ascii) : is_digit c = true -> is_digit d = false -> Ascii.eqb c d = false.
Proof. intros Hc Hd. destruct (Ascii.eqb_spec c d) as [->|]; [congruence|done]. Qed.
Lemma digit_lower c : is_digit c = true -> lower_byte c = c.
Proof.
  unfold is_digit, lower_byte. rewrite andb_true_iff, !Z.leb_le. intros [H1 H2].
  by replace (65 <=? byte_val c) with false by (symmetry; apply Z.leb_gt; lia).
Qed.

(** A text of digits is read as a decimal without sign, point or exponent. *)
Lemma readFloat_digits s m :
  str_forall is_digit s = true -> mantissa false false false 0 0 s = (m, 0, true, "") ->
  readFloat s = Some (false, m, 1).
Proof.
  intros Hd Hm. unfold readFloat.
  rewrite (str_forall_no_byte is_digit s (chr "_") Hd eq_refl). destruct s as [|c s]; [done|].
  cbn [str_forall] in Hd. apply andb_true_iff in Hd as [Hc Hs].
  assert (dropSign (String c s) = String c s) as ->.
  { cbn [dropSign]. by rewrite (digit_not c (chr "+") Hc eq_refl), (digit_not c (chr "-") Hc eq_refl). }
  rewrite (digit_not c (chr "-") Hc eq_refl). destruct s as [|x [|d s]].
  - rewrite Hm. simpl. by rewrite Z.mul_1_r.
  - rewrite Hm. simpl. by rewrite Z.mul_1_r.
  - cbn [str_forall] in Hs. apply andb_true_iff in Hs as [Hx _]. rewrite (digit_lower x Hx), (digit_not x (chr "x") Hx eq_refl), andb_false_r.
    rewrite Hm. simpl. by rewrite Z.mul_1_r.
Qed.

Lemma readFloat_dec n : readFloat (dec n) = Some (false, Z.of_N n, 1).
Proof.
  pose proof (mantissa_uint (N.to_uint n) false) as Hm. fold (dec n) in Hm. rewrite dec_nonnil in Hm.
  change (Pos.of_uint (N.to_uint n)) with (N.of_uint (N.to_uint n)) in Hm. rewrite DecimalN.Unsigned.of_to in Hm.
  by apply readFloat_digits; [apply dec_digits|].
Qed.

Lemma special_digit s c : str_forall is_digit (String c s) = true -> special (String c s) = None.
Proof.
  intros Hd. cbn [str_forall] in Hd. apply andb_true_iff in Hd as [Hc _]. unfold special. cbn [ToLower]. rewrite (digit_lower c Hc).
  destruct c as [[] [] [] [] [] [] [] []]; try discriminate Hc; done.
Qed.

(** ParseFloat of a decimal below 2^53 is that integer. *)
Lemma ParseFloat_int n :
  0 <= n < 2 ^ 53 ->
  exists x, ParseFloat (fmt_d n) = Ok (Fin x) /\ 0 <= f_man x /\ -52 <= f_exp x <= 0 /\ f_man x = n * 2 ^ (- f_exp x).
Proof.
  intros Hn. unfold fmt_d. destruct (Z.ltb_spec n 0); [lia|]. unfold ParseFloat.
  destruct (round64_int n Hn) as (x & Hx & Hrest). exists x. split; [|done].
  rewrite readFloat_dec, Z2N.id, Hx by lia. pose proof (dec_digits (Z.to_N n)) as Hd.
  destruct (dec (Z.to_N n)) as [|c s]; [done|]. by rewrite (special_digit _ _ Hd).
Qed.
