(* ===== verification/Json.v ===== *)
(** * encoding/json: reading a document

    What json.Unmarshal accepts and how it reads strings and field names, as far as
    the node uses it (the payload of a tombstone, internal/attest/attest.go): the
    grammar of the scanner with its nesting limit, the unquoting of string literals with
    surrogates and invalid UTF-8, and the case folding of field names. Bytes are lists
    of Z. Numbers are checked and skipped, their value is never used. *)

From S2P Require Import Prelude GoStd.

(** ** Documents *)

Inductive json :=
| JNull | JBool (b : bool) | JNumber
| JString (s : list Z)
| JArray (elements : list json)
| JObject (members : list (list Z * json)).

Definition maxNestingDepth : Z := 10000.

(** ** The scanner *)

Definition is_json_space (b : Z) : bool := (b =? 32) || (b =? 9) || (b =? 13) || (b =? 10).
Fixpoint skipSpace (l : list Z) : list Z :=
  match l with b :: l' => if is_json_space b then skipSpace l' else l | [] => [] end.

Definition is_digit_byte (b : Z) : bool := (48 <=? b) && (b <=? 57).
Fixpoint dropDigits (l : list Z) : list Z :=
  match l with b :: l' => if is_digit_byte b then dropDigits l' else l | [] => [] end.
(** One digit at least. *)
Definition digits1 (l : list Z) : option (list Z) :=
  match l with b :: l' => if is_digit_byte b then Some (dropDigits l') else None | [] => None end.

(** A sign is passed over. *)
Definition skipByte (test : Z -> bool) (l : list Z) : list Z :=
  match l with b :: l' => if test b then l' else l | [] => [] end.

(** -?(0|[1-9][0-9]* )(.[0-9]+)?([eE][+-]?[0-9]+)? : what follows the number. *)
Definition scanFraction (l : list Z) : option (list Z) :=
  match l with b :: l' => if b =? 46 then digits1 l' else Some l | [] => Some [] end.
Definition scanExponent (l : list Z) : option (list Z) :=
  match l with
  | b :: l' => if (b =? 101) || (b =? 69) then digits1 (skipByte (fun c => (c =? 43) || (c =? 45)) l') else Some l
  | [] => Some []
  end.
Definition scanNumber (l : list Z) : option (list Z) :=
  match skipByte (fun c => c =? 45) l with
  | [] => None
  | b :: l' =>
      l1 ← (if b =? 48 then Some l' else if is_digit_byte b then Some (dropDigits l') else None);
      l2 ← scanFraction l1;
      scanExponent l2
  end.

Definition hexval (b : Z) : option Z :=
  if is_digit_byte b then Some (b - 48)
  else if (97 <=? b) && (b <=? 102) then Some (b - 87)
  else if (65 <=? b) && (b <=? 70) then Some (b - 55)
  else None.

(** The character of a one-letter escape. *)
Definition escaped (c : Z) : option Z :=
  if (c =? 34) || (c =? 92) || (c =? 47) then Some c
  else if c =? 98 then Some 8 else if c =? 102 then Some 12 else if c =? 110 then Some 10
  else if c =? 114 then Some 13 else if c =? 116 then Some 9 else None.

(** After the opening quote: the literal up to the closing one, and what follows. *)
Fixpoint scanString (l : list Z) : option (list Z * list Z) :=
  match l with
  | [] => None
  | b :: l1 =>
      if b =? 34 then Some ([], l1)
      else if b <? 32 then None
      else if b =? 92 then
        match l1 with
        | c :: l2 =>
            if c =? 117 then
              match l2 with
              | h1 :: h2 :: h3 :: h4 :: l3 =>
                  match hexval h1, hexval h2, hexval h3, hexval h4, scanString l3 with
                  | Some _, Some _, Some _, Some _, Some (lit, rest) => Some (b :: c :: h1 :: h2 :: h3 :: h4 :: lit, rest)
                  | _, _, _, _, _ => None
                  end
              | _ => None
              end
            else match escaped c, scanString l2 with
                 | Some _, Some (lit, rest) => Some (b :: c :: lit, rest)
                 | _, _ => None
                 end
        | [] => None
        end
      else match scanString l1 with Some (lit, rest) => Some (b :: lit, rest) | None => None end
  end.

(** ** unquoteBytes *)

(** getu4: the code unit of a \uXXXX at the front. *)
Definition getu4 (l : list Z) : option (Z * list Z) :=
  match l with
  | b :: u :: h1 :: h2 :: h3 :: h4 :: l' =>
      if (b =? 92) && (u =? 117) then
        match hexval h1, hexval h2, hexval h3, hexval h4 with
        | Some a, Some b, Some c, Some d => Some (((a * 16 + b) * 16 + c) * 16 + d, l')
        | _, _, _, _ => None
        end
      else None
  | _ => None
  end.

Definition is_surrogate (r : Z) : bool := (55296 <=? r) && (r <? 57344).
(** utf16.DecodeRune, None for unicode.ReplacementChar. *)
Definition utf16_DecodeRune (r1 r2 : Z) : option Z :=
  if (55296 <=? r1) && (r1 <? 56320) && (56320 <=? r2) && (r2 <? 57344)
  then Some ((r1 - 55296) * 1024 + (r2 - 56320) + 65536) else None.

(** Every turn takes a byte at least, so the length is enough fuel. *)
Fixpoint unquote_fuel (fuel : nat) (l : list Z) : list Z :=
  match fuel, l with
  | S f, b :: l1 =>
      if b =? 92 then
        match getu4 l with
        | Some (rr, l2) =>
            if is_surrogate rr then
              match getu4 l2 with
              | Some (rr1, l3) =>
                  match utf16_DecodeRune rr rr1 with
                  | Some dec => EncodeRune dec ++ unquote_fuel f l3
                  | None => EncodeRune RuneError ++ unquote_fuel f l2
                  end
              | None => EncodeRune RuneError ++ unquote_fuel f l2
              end
            else EncodeRune rr ++ unquote_fuel f l2
        | None => match l1 with
                  | c :: l2 => match escaped c with Some x => x :: unquote_fuel f l2 | None => [] end
                  | [] => []
                  end
        end
      else if b <? 128 then b :: unquote_fuel f l1
      else let '(r, w) := DecodeRune b l1 in EncodeRune r ++ unquote_fuel f (drop (w - 1) l1)
  | _, _ => []
  end.
Definition unquoteBytes (lit : list Z) : list Z := unquote_fuel (length lit) lit.

(** ** Values *)

Definition scanLiteral (text : list Z) (v : json) (l : list Z) : option (json * list Z) :=
  if decide (take (length text) l = text) then Some (v, drop (length text) l) else None.

(** A value with leading space; [depth] counts the open objects and arrays. *)
Fixpoint jsonValue (fuel : nat) (depth : Z) (l : list Z) : option (json * list Z) :=
  match fuel with
  | O => None
  | S f =>
      match skipSpace l with
      | [] => None
      | b :: l1 =>
          if b =? 123 then
            if maxNestingDepth <=? depth then None
            else match skipSpace l1 with
                 | [] => None
                 | c :: l2 => if c =? 125 then Some (JObject [], l2)
                              else '(ms, rest) ← jsonMembers f (depth + 1) l1; Some (JObject ms, rest)
                 end
          else if b =? 91 then
            if maxNestingDepth <=? depth then None
            else match skipSpace l1 with
                 | [] => None
                 | c :: l2 => if c =? 93 then Some (JArray [], l2)
                              else '(vs, rest) ← jsonElements f (depth + 1) l1; Some (JArray vs, rest)
                 end
          else if b =? 34 then '(lit, rest) ← scanString l1; Some (JString (unquoteBytes lit), rest)
          else if b =? 116 then scanLiteral (bytes_of "rue") (JBool true) l1
          else if b =? 102 then scanLiteral (bytes_of "alse") (JBool false) l1
          else if b =? 110 then scanLiteral (bytes_of "ull") JNull l1
          else rest ← scanNumber (b :: l1); Some (JNumber, rest)
      end
  end
with jsonMembers (fuel : nat) (depth : Z) (l : list Z) : option (list (list Z * json) * list Z) :=
  match fuel with
  | O => None
  | S f =>
      match skipSpace l with
      | [] => None
      | q :: l1 =>
          if negb (q =? 34) then None else
          '(lit, l2) ← scanString l1;
          match skipSpace l2 with
          | [] => None
          | colon :: l3 =>
              if negb (colon =? 58) then None else
              '(v, l4) ← jsonValue f depth l3;
              match skipSpace l4 with
              | [] => None
              | c :: l5 =>
                  if c =? 125 then Some ([(unquoteBytes lit, v)], l5)
                  else if c =? 44 then '(ms, rest) ← jsonMembers f depth l5; Some ((unquoteBytes lit, v) :: ms, rest)
                  else None
              end
          end
      end
  end
with jsonElements (fuel : nat) (depth : Z) (l : list Z) : option (list json * list Z) :=
  match fuel with
  | O => None
  | S f =>
      '(v, l1) ← jsonValue f depth l;
      match skipSpace l1 with
      | [] => None
      | c :: l2 =>
          if c =? 93 then Some ([v], l2)
          else if c =? 44 then '(vs, rest) ← jsonElements f depth l2; Some (v :: vs, rest)
          else None
      end
  end.

(** The whole input is one value. An element is parsed without taking a byte of its
    array first, so two turns per byte are enough. *)
Definition parseFuel (l : list Z) : nat := (2 * length l + 1)%nat.
Definition parseJSON (data : string) : option json :=
  match jsonValue (parseFuel (bytes_of data)) 0 (bytes_of data) with
  | Some (v, rest) => match skipSpace rest with [] => Some v | _ => None end
  | None => None
  end.

(** ** Field names *)

(** foldName on the letters a field of ASCII name can match: the smallest rune of the
    folding orbit; U+017F folds to S and U+212A to K. *)
Definition foldRune (r : Z) : Z :=
  if (97 <=? r) && (r <=? 122) then r - 32 else if r =? 383 then 83 else if r =? 8490 then 75 else r.
Definition foldName (name : list Z) : list Z := foldRune <$> runes_fuel (length name) name.

(** ** Lemmas: enough fuel *)

Lemma skipSpace_length l : (length (skipSpace l) <= length l)%nat.
Proof. induction l as [|b l IH]; simpl; [done|]. destruct (is_json_space b); simpl; lia. Qed.

Lemma dropDigits_length l : (length (dropDigits l) <= length l)%nat.
Proof. induction l as [|b l IH]; simpl; [done|]. destruct (is_digit_byte b); simpl; lia. Qed.

Lemma digits1_length l r : digits1 l = Some r -> (length r < length l)%nat.
Proof.
  destruct l as [|b l]; [done|]. simpl. destruct (is_digit_byte b); [|done]. intros [= <-].
  pose proof (dropDigits_length l). lia.
Qed.

Lemma skipByte_length t l : (length (skipByte t l) <= length l)%nat.
Proof. destruct l as [|b l]; simpl; [done|]. destruct (t b); simpl; lia. Qed.

Lemma scanFraction_length l r : scanFraction l = Some r -> (length r <= length l)%nat.
Proof.
  destruct l as [|b l]; simpl; [by intros [= <-]|]. destruct (b =? 46); [|by intros [= <-]].
  intros H%digits1_length. lia.
Qed.

Lemma scanExponent_length l r : scanExponent l = Some r -> (length r <= length l)%nat.
Proof.
  destruct l as [|b l]; simpl; [by intros [= <-]|]. destruct (_ || _); [|by intros [= <-]].
  intros H%digits1_length. pose proof (skipByte_length (fun c => (c =? 43) || (c =? 45)) l). lia.
Qed.

Lemma scanNumber_length l r : scanNumber l = Some r -> (length r < length l)%nat.
Proof.
  unfold scanNumber. pose proof (skipByte_length (fun c => c =? 45) l) as Hs.
  destruct (skipByte _ l) as [|b l']; [done|]. simpl in Hs.
  intros (l1 & H1 & (l2 & H2 & H3)%bind_Some)%bind_Some. apply scanFraction_length in H2. apply scanExponent_length in H3.
  pose proof (dropDigits_length l'). destruct (b =? 48); [simplify_eq; lia|]. destruct (is_digit_byte b); simplify_eq; lia.
Qed.

Lemma scanString_length l lit r : scanString l = Some (lit, r) -> (length lit + length r < length l)%nat.
Proof.
  revert lit r. induction l as [l IH] using (induction_ltof1 _ length). unfold ltof in IH. intros lit r.
  destruct l as [|b l1]; simpl; [done|]. destruct (b =? 34); [intros [= <- <-]; simpl; lia|].
  destruct (b <? 32); [done|]. destruct (b =? 92).
  - destruct l1 as [|c l2]; [done|]. destruct (c =? 117).
    + destruct l2 as [|h1 [|h2 [|h3 [|h4 l3]]]]; try done.
      destruct (hexval h1), (hexval h2), (hexval h3), (hexval h4); try done.
      destruct (scanString l3) as [[lit' r']|] eqn:E; [|done]. intros [= <- <-].
      apply IH in E; simpl in *; lia.
    + destruct (escaped c); [|done]. destruct (scanString l2) as [[lit' r']|] eqn:E; [|done]. intros [= <- <-].
      apply IH in E; simpl in *; lia.
  - destruct (scanString l1) as [[lit' r']|] eqn:E; [|done]. intros [= <- <-]. apply IH in E; simpl in *; lia.
Qed.

Lemma scanLiteral_length text v l v' r : scanLiteral text v l = Some (v', r) -> (length r <= length l)%nat.
Proof. unfold scanLiteral. case_decide; [|done]. intros [= _ <-]. rewrite length_drop. lia. Qed.

(** Whatever is parsed takes a byte at least. *)
Lemma parse_shrinks f :
  (forall d l v r, jsonValue f d l = Some (v, r) -> (length r < length l)%nat) /\
  (forall d l v r, jsonMembers f d l = Some (v, r) -> (length r < length l)%nat) /\
  (forall d l v r, jsonElements f d l = Some (v, r) -> (length r < length l)%nat).
Proof.
  induction f as [|f (IHv & IHm & IHe)]; [done|]. split_and!; intros d l v r; cbn [jsonValue jsonMembers jsonElements].
  - pose proof (skipSpace_length l) as Hl. destruct (skipSpace l) as [|b l1]; [done|]. simpl in Hl.
    pose proof (skipSpace_length l1) as Hl1.
    destruct (b =? 123); [|destruct (b =? 91)].
    + destruct (_ <=? d); [done|]. destruct (skipSpace l1) as [|c l2]; [done|]. simpl in Hl1.
      destruct (c =? 125); [intros [= _ <-]; lia|].
      intros ([ms r'] & H & [= _ <-])%bind_Some. apply IHm in H. lia.
    + destruct (_ <=? d); [done|]. destruct (skipSpace l1) as [|c l2]; [done|]. simpl in Hl1.
      destruct (c =? 93); [intros [= _ <-]; lia|].
      intros ([ms r'] & H & [= _ <-])%bind_Some. apply IHe in H. lia.
    + destruct (b =? 34). { intros ([lit r'] & H & [= _ <-])%bind_Some. apply scanString_length in H. lia. }
      destruct (b =? 116); [intros H%scanLiteral_length; lia|].
      destruct (b =? 102); [intros H%scanLiteral_length; lia|].
      destruct (b =? 110); [intros H%scanLiteral_length; lia|].
      intros (r' & H & [= _ <-])%bind_Some. apply scanNumber_length in H. simpl in H. lia.
  - pose proof (skipSpace_length l) as Hl. destruct (skipSpace l) as [|q l1]; [done|]. simpl in Hl.
    destruct (negb _); [done|]. intros ([lit l2] & H & Hr)%bind_Some. apply scanString_length in H.
    pose proof (skipSpace_length l2) as Hl2. destruct (skipSpace l2) as [|c l3]; [done|]. simpl in Hl2.
    destruct (negb _); [done|]. apply bind_Some in Hr as ([v' l4] & H4 & Hr). apply IHv in H4.
    pose proof (skipSpace_length l4) as Hl4. destruct (skipSpace l4) as [|c' l5]; [done|]. simpl in Hl4.
    destruct (c' =? 125); [injection Hr as _ <-; lia|]. destruct (c' =? 44); [|done].
    apply bind_Some in Hr as ([ms r'] & H5 & [= _ <-]). apply IHm in H5. lia.
  - intros ([v' l1] & H & Hr)%bind_Some. apply IHv in H.
    pose proof (skipSpace_length l1) as Hl. destruct (skipSpace l1) as [|c l2]; [done|]. simpl in Hl.
    destruct (c =? 93); [injection Hr as _ <-; lia|]. destruct (c =? 44); [|done].
    apply bind_Some in Hr as ([ms r'] & H5 & [= _ <-]). apply IHe in H5. lia.
Qed.

Lemma bind_ext {A B} (o o' : option A) (k k' : A -> option B) :
  o = o' -> (forall x, o' = Some x -> k x = k' x) -> (o ≫= k) = (o' ≫= k').
Proof. intros -> Hk. destruct o' as [x|]; simpl; [by apply Hk|done]. Qed.

Lemma parse_fuel_step f :
  (forall d l, (2 * length l + 1 <= f)%nat -> jsonValue (S f) d l = jsonValue f d l) /\
  (forall d l, (2 * length l + 1 <= f)%nat -> jsonMembers (S f) d l = jsonMembers f d l) /\
  (forall d l, (2 * length l + 2 <= f)%nat -> jsonElements (S f) d l = jsonElements f d l).
Proof.
  induction f as [|f (IHv & IHm & IHe)]; [split_and!; intros; lia|].
  destruct (parse_shrinks f) as (Sv & Sm & Se).
  split_and!; intros d l Hf.
  - pose proof (skipSpace_length l) as Hl. cbn [jsonValue]. destruct (skipSpace l) as [|b l1]; [done|]. simpl in Hl.
    destruct (b =? 123); [|destruct (b =? 91); [|done]]; (destruct (_ <=? d); [done|]);
      (destruct (skipSpace l1) as [|c l2]; [done|]).
    + destruct (c =? 125); [done|]. apply bind_ext; [|done]. apply IHm. lia.
    + destruct (c =? 93); [done|]. apply bind_ext; [|done]. apply IHe. lia.
  - pose proof (skipSpace_length l) as Hl. cbn [jsonMembers]. destruct (skipSpace l) as [|q l1]; [done|]. simpl in Hl.
    destruct (negb _); [done|]. apply bind_ext; [done|]. intros [lit l2] H%scanString_length.
    pose proof (skipSpace_length l2) as Hl2. destruct (skipSpace l2) as [|c l3]; [done|]. simpl in Hl2.
    destruct (negb _); [done|]. apply bind_ext; [apply IHv; lia|]. intros [v l4] H4%Sv.
    pose proof (skipSpace_length l4) as Hl4. destruct (skipSpace l4) as [|c' l5]; [done|]. simpl in Hl4.
    destruct (c' =? 125); [done|]. destruct (c' =? 44); [|done]. apply bind_ext; [|done]. apply IHm. lia.
  - cbn [jsonElements]. apply bind_ext; [apply IHv; lia|]. intros [v l1] H1%Sv.
    pose proof (skipSpace_length l1) as Hl. destruct (skipSpace l1) as [|c l2]; [done|]. simpl in Hl.
    destruct (c =? 93); [done|]. destruct (c =? 44); [|done]. apply bind_ext; [|done]. apply IHe. lia.
Qed.

(** More fuel than [parseFuel] changes nothing: None is a syntax error. *)
Lemma parseFuel_enough l d k : jsonValue (parseFuel l + k) d l = jsonValue (parseFuel l) d l.
Proof.
  induction k as [|k IH]; [by rewrite Nat.add_0_r|]. rewrite Nat.add_succ_r, <- IH.
  apply parse_fuel_step. unfold parseFuel. lia.
Qed.

(** ** Lemmas: literals *)

(** A string literal as a sender writes it: quotes, backslashes and control bytes
    escaped. *)
Definition hexdigit (v : Z) : Z := if v <? 10 then 48 + v else 87 + v.
Definition quoteByte (b : Z) : list Z :=
  if (b =? 34) || (b =? 92) then [92; b]
  else if b <? 32 then [92; 117; 48; 48; hexdigit (b / 16); hexdigit (b mod 16)]
  else [b].
Definition quoteBytes (s : list Z) : list Z := concat (quoteByte <$> s).

Definition ascii_byte (b : Z) : Prop := 0 <= b < 128.

Lemma hexval_digit v : 0 <= v < 16 -> hexval (hexdigit v) = Some v.
Proof.
  intros Hv. assert (v = 0 \/ v = 1 \/ v = 2 \/ v = 3 \/ v = 4 \/ v = 5 \/ v = 6 \/ v = 7 \/ v = 8 \/ v = 9 \/ v = 10 \/
    v = 11 \/ v = 12 \/ v = 13 \/ v = 14 \/ v = 15) as H by lia.
  repeat destruct H as [->|H]; try reflexivity. by rewrite H.
Qed.

Lemma scanString_quote s rest :
  Forall ascii_byte s -> scanString (quoteBytes s ++ 34 :: rest) = Some (quoteBytes s, rest).
Proof.
  unfold quoteBytes. induction 1 as [|b s Hb _ IH]; [done|]. rewrite fmap_cons. cbn [concat]. rewrite <- app_assoc.
  set (k := concat (quoteByte <$> s) ++ 34 :: rest) in *. set (q := concat (quoteByte <$> s)) in *.
  unfold quoteByte. destruct (b =? 34) eqn:E1; [bool_to_prop; subst b; simpl; by rewrite IH|].
  destruct (b =? 92) eqn:E2; [bool_to_prop; subst b; simpl; by rewrite IH|]. cbn [orb].
  destruct (b <? 32) eqn:E3.
  - bool_to_prop. unfold ascii_byte in Hb. simpl. pose proof (Z.div_mod b 16 ltac:(lia)). pose proof (Z.mod_pos_bound b 16 ltac:(lia)).
    rewrite !hexval_digit by lia. by rewrite IH.
  - simpl. by rewrite E1, E2, E3, IH.
Qed.

Lemma unquote_quote s f :
  Forall ascii_byte s -> (length (quoteBytes s) <= f)%nat -> unquote_fuel f (quoteBytes s) = s.
Proof.
  unfold quoteBytes. intros Hs. revert f. induction Hs as [|b s Hb _ IH]; intros f Hf; [by destruct f|].
  rewrite fmap_cons in *. cbn [concat] in *. rewrite length_app in Hf.
  set (q := concat (quoteByte <$> s)) in *. unfold quoteByte in *. unfold ascii_byte in Hb.
  destruct (b =? 34) eqn:E1; [|destruct (b =? 92) eqn:E2]; cbn [orb] in *.
  - bool_to_prop. subst b. simpl in Hf. destruct f as [|f]; [lia|]. simpl. rewrite IH by lia.
    by destruct q as [|? [|? [|? [|? ?]]]].
  - bool_to_prop. subst b. simpl in Hf. destruct f as [|f]; [lia|]. simpl. rewrite IH by lia.
    by destruct q as [|? [|? [|? [|? ?]]]].
  - destruct (b <? 32) eqn:E3; simpl in Hf; (destruct f as [|f]; [lia|]).
    + bool_to_prop. pose proof (Z.div_mod b 16 ltac:(lia)). pose proof (Z.mod_pos_bound b 16 ltac:(lia)).
      cbn [app unquote_fuel getu4]. rewrite !hexval_digit by lia. cbn [hexval is_digit_byte].
      change (92 =? 92) with true. change (117 =? 117) with true. cbn [andb].
      change (hexval 48) with (Some 0). cbn iota beta.
      replace (((0 * 16 + 0) * 16 + b / 16) * 16 + b mod 16) with b by lia.
      replace (is_surrogate b) with false by (unfold is_surrogate; destruct (Z.leb_spec 55296 b); [lia|done]).
      unfold EncodeRune. replace (b <? 128) with true by (symmetry; apply Z.ltb_lt; lia). simpl. by rewrite IH by lia.
    + cbn [app unquote_fuel]. rewrite E2. replace (b <? 128) with true by (symmetry; apply Z.ltb_lt; lia). by rewrite IH by lia.
Qed.

Lemma unquoteBytes_quote s : Forall ascii_byte s -> unquoteBytes (quoteBytes s) = s.
Proof. intros Hs. by apply unquote_quote. Qed.

(** ** Objects of texts *)

(** {"k1":"v1","k2":"v2"} as a sender writes it. *)
Definition printMember (m : list Z * list Z) : list Z := 34 :: quoteBytes m.1 ++ 34 :: 58 :: 34 :: quoteBytes m.2 ++ [34].
Definition printTail (ms : list (list Z * list Z)) : list Z := concat ((fun m => 44 :: printMember m) <$> ms).
Definition printObject (m : list Z * list Z) (ms : list (list Z * list Z)) : list Z :=
  123 :: printMember m ++ printTail ms ++ [125].

Definition ascii_member (m : list Z * list Z) : Prop := Forall ascii_byte m.1 /\ Forall ascii_byte m.2.
Definition text_member (m : list Z * list Z) : list Z * json := (m.1, JString m.2).

Lemma jsonMembers_member f d m rest :
  ascii_member m ->
  jsonMembers (S (S f)) d (printMember m ++ rest) =
    match skipSpace rest with
    | [] => None
    | c :: l5 =>
        if c =? 125 then Some ([text_member m], l5)
        else if c =? 44 then '(ms, r) ← jsonMembers (S f) d l5; Some (text_member m :: ms, r)
        else None
    end.
Proof.
  intros [Hk Hv]. unfold printMember. rewrite <- app_comm_cons, <- app_assoc, <- !app_comm_cons, <- app_assoc.
  change ([34] ++ rest) with (34 :: rest).
  cbn [jsonMembers]. cbn [skipSpace]. change (is_json_space 34) with false. cbn iota. change (34 =? 34) with true. cbn [negb].
  rewrite (scanString_quote _ _ Hk). cbn [mbind option_bind skipSpace]. change (is_json_space 58) with false. cbn iota.
  change (58 =? 58) with true. cbn [negb]. cbn [jsonValue skipSpace]. change (is_json_space 34) with false. cbn iota.
  change (34 =? 123) with false. change (34 =? 91) with false. change (34 =? 34) with true. cbn iota.
  rewrite (scanString_quote _ _ Hv). cbn [mbind option_bind]. unfold text_member.
  by rewrite !unquoteBytes_quote.
Qed.

Lemma jsonMembers_print ms : forall f d m rest,
  ascii_member m -> Forall ascii_member ms -> (length ms + 2 <= f)%nat ->
  jsonMembers f d (printMember m ++ printTail ms ++ 125 :: rest) = Some (text_member <$> m :: ms, rest).
Proof.
  induction ms as [|m' ms IH]; intros f d m rest Hm Hms Hf; (destruct f as [|[|f]]; [simpl in Hf; lia..|]).
  - by rewrite jsonMembers_member.
  - apply Forall_cons in Hms as [Hm' Hms]. rewrite jsonMembers_member by done. unfold printTail. rewrite fmap_cons. cbn [concat].
    rewrite <- !app_comm_cons. cbn [skipSpace]. change (is_json_space 44) with false. cbn iota. change (44 =? 125) with false.
    change (44 =? 44) with true. cbn iota. rewrite <- app_assoc. fold (printTail ms).
    rewrite (IH (S f) d m' rest); [done|done|done|simpl in Hf; lia].
Qed.

Lemma printTail_length ms : (length ms <= length (printTail ms))%nat.
Proof.
  unfold printTail. induction ms as [|m ms IH]; [done|]. rewrite fmap_cons. cbn [concat]. rewrite length_app. simpl in *. lia.
Qed.

Lemma printObject_range m ms : ascii_member m -> Forall ascii_member ms -> Forall (fun b => 0 <= b < 256) (printObject m ms).
Proof.
  assert (forall s, Forall ascii_byte s -> Forall (fun b => 0 <= b < 256) (quoteBytes s)) as Hq.
  { unfold quoteBytes. intros s Hs. apply Forall_concat, Forall_fmap. eapply Forall_impl; [exact Hs|].
    intros b Hb. unfold ascii_byte in Hb. simpl. unfold quoteByte. destruct (_ || _); [by repeat constructor; lia|].
    destruct (Z.ltb_spec b 32); [|by repeat constructor; lia]. pose proof (Z.div_mod b 16 ltac:(lia)).
    pose proof (Z.mod_pos_bound b 16 ltac:(lia)). unfold hexdigit.
    destruct (Z.ltb_spec (b / 16) 10), (Z.ltb_spec (b mod 16) 10); repeat constructor; lia. }
  assert (forall m, ascii_member m -> Forall (fun b => 0 <= b < 256) (printMember m)) as Hp.
  { intros m' [H1 H2]. unfold printMember. constructor; [lia|]. apply Forall_app; split; [by apply Hq|].
    repeat (constructor; [lia|]). apply Forall_app; split; [by apply Hq|]. by repeat constructor; lia. }
  intros Hm Hms. unfold printObject. constructor; [lia|]. apply Forall_app; split; [by apply Hp|].
  apply Forall_app; split; [|by repeat constructor; lia]. unfold printTail. apply Forall_concat, Forall_fmap.
  eapply Forall_impl; [exact Hms|]. intros m' Hm'. simpl. constructor; [lia|]. by apply Hp.
Qed.

(** What a sender writes is what is read. *)
Lemma parseJSON_print m ms :
  ascii_member m -> Forall ascii_member ms ->
  parseJSON (string_of (printObject m ms)) = Some (JObject (text_member <$> m :: ms)).
Proof.
  intros Hm Hms. unfold parseJSON. rewrite bytes_of_string_of by by apply printObject_range.
  assert (exists f, parseFuel (printObject m ms) = S f /\ (length ms + 2 <= f)%nat) as (f & -> & Hf).
  { eexists. split; [unfold parseFuel; by rewrite Nat.add_1_r|]. unfold printObject. simpl. rewrite !length_app.
    pose proof (printTail_length ms). lia. }
  unfold printObject. cbn [jsonValue skipSpace]. change (is_json_space 123) with false. cbn iota.
  change (123 =? 123) with true. change (maxNestingDepth <=? 0) with false. cbn iota.
  rewrite (jsonMembers_print ms f (0 + 1) m [] Hm Hms Hf).
  unfold printMember at 1. rewrite <- app_comm_cons. cbn [skipSpace]. change (is_json_space 34) with false. cbn iota.
  change (34 =? 125) with false. done.
Qed.
