(* ===== verification/Sha256.v ===== *)
(** * crypto/sha256 and encoding/hex

    sha256.Sum256 and hex.EncodeToString, executable, so that the
    deduplication ids the publishers compute can be evaluated. *)

From S2P Require Import Prelude GoStd.

Module Sha256.

(** Rotation and the functions of FIPS 180-4 on 32-bit words. *)
Definition rotr (n x : Z) : Z := Z.lor (Z.shiftr x n) (wrap32 (Z.shiftl x (32 - n))).
Definition Ch (x y z : Z) : Z := Z.lxor (Z.land x y) (Z.land (2 ^ 32 - 1 - x) z).
Definition Maj (x y z : Z) : Z := Z.lxor (Z.lxor (Z.land x y) (Z.land x z)) (Z.land y z).
Definition Sigma0 (x : Z) : Z := Z.lxor (Z.lxor (rotr 2 x) (rotr 13 x)) (rotr 22 x).
Definition Sigma1 (x : Z) : Z := Z.lxor (Z.lxor (rotr 6 x) (rotr 11 x)) (rotr 25 x).
Definition sigma0 (x : Z) : Z := Z.lxor (Z.lxor (rotr 7 x) (rotr 18 x)) (Z.shiftr x 3).
Definition sigma1 (x : Z) : Z := Z.lxor (Z.lxor (rotr 17 x) (rotr 19 x)) (Z.shiftr x 10).

(** The constants of the standard, by their definition: the first 32 bits of the
    fractional parts of the cube roots of the first 64 primes, and of the square
    roots of the first eight. *)
Definition is_prime (p : Z) : bool := forallb (fun d => negb (p mod d =? 0)) (seqZ 2 (p - 2)).
Definition primes : list Z := Eval vm_compute in List.filter is_prime (seqZ 2 310).

(** The largest r below 2^bits with r^e <= x, bit by bit. *)
Fixpoint root (e : Z) (bits : nat) (r x : Z) : Z :=
  match bits with
  | O => r
  | S b => let r' := r + 2 ^ Z.of_nat b in root e b (if r' ^ e <=? x then r' else r) x
  end.
Definition frac32 (e p : Z) : Z := wrap32 (root e 40 0 (p * 2 ^ (32 * e))).

Definition K : list Z := Eval vm_compute in frac32 3 <$> take 64 primes.
Definition initial : list Z := Eval vm_compute in frac32 2 <$> take 8 primes.

(** The working variables and the initial hash value. *)
Record regs := mkRegs { ra : Z; rb : Z; rc : Z; rd : Z; re : Z; rf : Z; rg : Z; rh : Z }.
Definition H0 : regs :=
  match initial with
  | [a; b; c; d; e; f; g; h] => mkRegs a b c d e f g h
  | _ => mkRegs 0 0 0 0 0 0 0 0
  end.

(** The 64-word message schedule, newest word first. *)
Fixpoint schedule (n : nat) (w : list Z) : list Z :=
  match n with
  | O => w
  | S n' =>
      let v := wrap32 (sigma1 (nth 1 w 0) + nth 6 w 0 + sigma0 (nth 14 w 0) + nth 15 w 0) in
      schedule n' (v :: w)
  end.

Definition round (s : regs) (kw : Z * Z) : regs :=
  let '(k, w) := kw in
  let t1 := rh s + Sigma1 (re s) + Ch (re s) (rf s) (rg s) + k + w in
  let t2 := Sigma0 (ra s) + Maj (ra s) (rb s) (rc s) in
  mkRegs (wrap32 (t1 + t2)) (ra s) (rb s) (rc s) (wrap32 (rd s + t1)) (re s) (rf s) (rg s).

Definition compress (h : regs) (block : list Z) : regs :=
  let w := rev (schedule 48 (rev block)) in
  let s := fold_left round (combine K w) h in
  mkRegs (wrap32 (ra h + ra s)) (wrap32 (rb h + rb s)) (wrap32 (rc h + rc s))
    (wrap32 (rd h + rd s)) (wrap32 (re h + re s)) (wrap32 (rf h + rf s))
    (wrap32 (rg h + rg s)) (wrap32 (rh h + rh s)).

(** Big-endian bytes to words, [n] bytes of a number. *)
Fixpoint words (l : list Z) : list Z :=
  match l with
  | a :: b :: c :: d :: l' => (a * 2 ^ 24 + b * 2 ^ 16 + c * 2 ^ 8 + d) :: words l'
  | _ => []
  end.
Fixpoint be_bytes (n : nat) (z : Z) : list Z :=
  match n with O => [] | S n' => be_bytes n' (z / 256) ++ [z mod 256] end.

(** Padding: 0x80, zeros, the bit length on 64 bits. *)
Definition padding (len : Z) : list Z :=
  128 :: replicate (Z.to_nat ((55 - len) mod 64)) 0 ++ be_bytes 8 (wrap64 (len * 8)).

Fixpoint blocks (fuel : nat) (h : regs) (w : list Z) : regs :=
  match fuel, w with
  | S fuel', _ :: _ => blocks fuel' (compress h (take 16 w)) (drop 16 w)
  | _, _ => h
  end.

(** sha256.Sum256: the 32 bytes of the digest. *)
Definition Sum256 (s : string) : list Z :=
  let w := words (bytes_of s ++ padding (strlen s)) in
  let h := blocks (length w) H0 w in
  concat ((be_bytes 4) <$> [ra h; rb h; rc h; rd h; re h; rf h; rg h; rh h]).

End Sha256.

(** hex.EncodeToString. *)
Definition hex_digit (v : Z) : Z := if v <? 10 then v + 48 else v + 87.
Definition hex_EncodeToString (l : list Z) : string :=
  string_of (concat ((fun b => [hex_digit (b / 16); hex_digit (b mod 16)]) <$> l)).

(** The FIPS 180-4 test vector. *)
Example Sum256_abc :
  hex_EncodeToString (Sha256.Sum256 "abc") =
  "ba7816bf8f01cfea414140de5dae2223b00361a396177a9cb410ff61f20015ad".
Proof. vm_compute. reflexivity. Qed.

Lemma length_be_bytes n z : length (Sha256.be_bytes n z) = n.
Proof. revert z. induction n; intros z; simpl; [done|]. rewrite length_app, IHn. simpl. lia. Qed.

Lemma length_Sum256 s : length (Sha256.Sum256 s) = 32%nat.
Proof.
  unfold Sha256.Sum256. rewrite !fmap_cons, fmap_nil. cbn [concat].
  by rewrite !length_app, !length_be_bytes.
Qed.

Lemma length_hex l : String.length (hex_EncodeToString l) = (2 * length l)%nat.
Proof.
  unfold hex_EncodeToString. rewrite length_string_of.
  induction l as [|b l IH]; [done|]. rewrite fmap_cons. cbn [concat].
  rewrite length_app, IH. simpl. lia.
Qed.
