(* ===== verification/AesGcm.v ===== *)
(** * crypto/aes and crypto/cipher: AES-256 in Galois/Counter Mode

    What aes.NewCipher with a 32-byte key and cipher.NewGCM give package blobcrypt:
    sealing and opening with additional data, executable, checked against the vectors of
    FIPS 197 and of the GCM specification. Opening accepts exactly the texts sealing
    makes ([Open_iff_Seal]); what an altered name of a sealed text must satisfy to be
    accepted is [Tag_eq_iff_root]. *)

From S2P Require Import Prelude GoStd Sha256.

Module Aes.

(** ** GF(2^8) and the S-box (FIPS 197, 4.2 and 5.1.1) *)

Definition xtime (b : Z) : Z := Z.lxor (wrap8 (Z.shiftl b 1)) (if Z.testbit b 7 then 0x1b else 0).

Fixpoint mul8 (n : nat) (a b : Z) : Z :=
  match n with
  | O => 0
  | S n' => Z.lxor (if Z.odd b then a else 0) (mul8 n' (xtime a) (Z.shiftr b 1))
  end.
Definition mul (a b : Z) : Z := mul8 8 a b.

(** The multiplicative inverse is the 254th power; the affine map is five rotations. *)
Definition inverse (b : Z) : Z := Nat.iter 254 (mul b) 1.
Definition rotl8 (n b : Z) : Z := Z.lor (wrap8 (Z.shiftl b n)) (Z.shiftr b (8 - n)).
Definition affine (b : Z) : Z :=
  fold_left Z.lxor ((fun n => rotl8 n b) <$> [0; 1; 2; 3; 4]) 0x63.
Definition sbox : list Z := Eval vm_compute in (fun b => affine (inverse b)) <$> seqZ 0 256.

Definition sub (b : Z) : Z := nth (Z.to_nat b) sbox 0.

(** ** The cipher: a state is its 16 bytes, column by column *)

Definition at_ (s : list Z) (i : nat) : Z := nth i s 0.
Definition shiftRows (s : list Z) : list Z :=
  at_ s <$> [0; 5; 10; 15; 4; 9; 14; 3; 8; 13; 2; 7; 12; 1; 6; 11]%nat.
Definition mixColumn (a b c d : Z) : Z := Z.lxor (Z.lxor (mul 2 a) (mul 3 b)) (Z.lxor c d).
Definition mixColumns (s : list Z) : list Z :=
  (fun i => let k := (4 * (i / 4))%nat in
     mixColumn (at_ s i) (at_ s (k + (i + 1) mod 4)) (at_ s (k + (i + 2) mod 4)) (at_ s (k + (i + 3) mod 4)))
  <$> seq 0 16.

(** The key schedule for eight words of key, newest word first. *)
Definition rotWord (w : list Z) : list Z := drop 1 w ++ take 1 w.
Definition rcon : list Z := [0x01; 0x02; 0x04; 0x08; 0x10; 0x20; 0x40].
Definition nextWord (i : nat) (acc : list (list Z)) : list Z :=
  let t := nth 0 acc [] in
  let t' :=
    if (i mod 8 =? 0)%nat then zip_with Z.lxor (sub <$> rotWord t) [nth (i / 8 - 1) rcon 0; 0; 0; 0]
    else if (i mod 8 =? 4)%nat then sub <$> t else t in
  zip_with Z.lxor (nth 7 acc []) t'.
Fixpoint expand (n i : nat) (acc : list (list Z)) : list (list Z) :=
  match n with O => acc | S n' => expand n' (S i) (nextWord i acc :: acc) end.

Definition keyWords (key : list Z) : list (list Z) := (fun i => take 4 (drop (4 * i) key)) <$> seq 0 8.
Definition keySchedule (key : list Z) : list Z := concat (rev (expand 52 8 (rev (keyWords key)))).
Definition roundKey (w : list Z) (r : nat) : list Z := at_ (drop (16 * r) w) <$> seq 0 16.

Definition addRoundKey (w : list Z) (r : nat) (s : list Z) : list Z := zip_with Z.lxor s (roundKey w r).
Definition aesRound (w : list Z) (s : list Z) (r : nat) : list Z :=
  addRoundKey w r (mixColumns (shiftRows (sub <$> s))).

(** The block cipher under an expanded key: 14 rounds. *)
Definition encrypt (w : list Z) (block : list Z) : list Z :=
  addRoundKey w 14 (shiftRows (sub <$> fold_left (aesRound w) (seq 1 13) (addRoundKey w 0 block))).

End Aes.

Module Gcm.

(** ** GHASH: blocks as 128-bit numbers whose highest bit is the constant term *)

Definition be (l : list Z) : Z := fold_left (fun a b => a * 256 + b) l 0.

(** V times the indeterminate. *)
Definition mulX (v : Z) : Z := Z.lxor (Z.shiftr v 1) (if Z.odd v then 0xe1 * 2 ^ 120 else 0).
Fixpoint mulFrom (n : nat) (x v : Z) : Z :=
  match n with
  | O => 0
  | S n' => Z.lxor (if Z.testbit x (Z.of_nat n') then v else 0) (mulFrom n' x (mulX v))
  end.
Definition mul (x y : Z) : Z := mulFrom 128 x y.

Fixpoint toBlocks (fuel : nat) (l : list Z) : list Z :=
  match fuel, l with
  | S fuel', _ :: _ => be (take 16 (l ++ replicate 15 0)) :: toBlocks fuel' (drop 16 l)
  | _, _ => []
  end.
Definition blocks (l : list Z) : list Z := toBlocks (length l) l.

Definition ghash (h : Z) (xs : list Z) : Z := fold_left (fun y x => mul (Z.lxor y x) h) xs 0.

(** ** Counter mode *)

Definition counterBlock (nonce : list Z) (ctr : Z) : list Z := nonce ++ Sha256.be_bytes 4 ctr.

Fixpoint counterCrypt (fuel : nat) (w nonce : list Z) (ctr : Z) (l : list Z) : list Z :=
  match fuel, l with
  | S fuel', _ :: _ =>
      zip_with Z.lxor (take 16 l) (Aes.encrypt w (counterBlock nonce ctr))
        ++ counterCrypt fuel' w nonce (wrap32 (ctr + 1)) (drop 16 l)
  | _, _ => []
  end.
Definition crypt (w nonce l : list Z) : list Z := counterCrypt (length l) w nonce 2 l.

(** The tag: GHASH of the additional data, the ciphertext and their bit lengths, masked
    with the block of the first counter. *)
Definition lengths (aad ct : list Z) : Z := Zlen aad * 8 * 2 ^ 64 + Zlen ct * 8.
Definition hashKey (w : list Z) : Z := be (Aes.encrypt w (replicate 16 0)).
Definition authHash (w ct aad : list Z) : Z := ghash (hashKey w) (blocks aad ++ blocks ct ++ [lengths aad ct]).
Definition mask (w nonce : list Z) : Z := be (Aes.encrypt w (counterBlock nonce 1)).
Definition tag (w nonce ct aad : list Z) : list Z :=
  Sha256.be_bytes 16 (Z.lxor (authHash w ct aad) (mask w nonce)).

(** ** The AEAD of cipher.NewGCM *)

Definition nonceSize : nat := 12.
Definition tagSize : nat := 16.
Definition maxPlaintext : Z := (2 ^ 32 - 2) * 16.

(** aead.Seal; None where it panics: a nonce of another length, a plaintext that is too
    long. *)
Definition gcmSeal (key nonce plaintext aad : string) : option string :=
  if negb (String.length nonce =? nonceSize)%nat || (maxPlaintext <? strlen plaintext) then None
  else
    let w := Aes.keySchedule (bytes_of key) in
    let ct := crypt w (bytes_of nonce) (bytes_of plaintext) in
    Some (string_of (ct ++ tag w (bytes_of nonce) ct (bytes_of aad))).

(** aead.Open; None for a text that is too short or too long or whose tag differs. *)
Definition gcmOpen (key nonce ciphertext aad : string) : option string :=
  if negb (String.length nonce =? nonceSize)%nat || (strlen ciphertext <? Z.of_nat tagSize) ||
     (maxPlaintext + Z.of_nat tagSize <? strlen ciphertext) then None
  else
    let w := Aes.keySchedule (bytes_of key) in
    let c := bytes_of ciphertext in
    let ct := take (length c - tagSize) c in
    if bool_decide (drop (length c - tagSize) c = tag w (bytes_of nonce) ct (bytes_of aad))
    then Some (string_of (crypt w (bytes_of nonce) ct)) else None.

End Gcm.

(** FIPS 197, C.3. *)
Example Aes256_vector :
  hex_EncodeToString (Aes.encrypt (Aes.keySchedule (seqZ 0 32)) ((fun i => 17 * i) <$> seqZ 0 16)) =
  "8ea2b7ca516745bfeafc49904b496089".
Proof. vm_compute. reflexivity. Qed.

(** hex.DecodeString, for the vectors. *)
Fixpoint unhex (l : list Z) : list Z :=
  let v d := if d <? 58 then d - 48 else d - 87 in
  match l with a :: b :: l' => 16 * v a + v b :: unhex l' | _ => [] end.
Definition ofHex (s : string) : string := string_of (unhex (bytes_of s)).

(** Test case 16 of the GCM specification. *)
Definition tc_key : string := ofHex "feffe9928665731c6d6a8f9467308308feffe9928665731c6d6a8f9467308308".
Definition tc_nonce : string := ofHex "cafebabefacedbaddecaf888".
Definition tc_plain : string := ofHex
  "d9313225f88406e5a55909c5aff5269a86a7a9531534f7da2e4c303d8a318a721c3c0c95956809532fcf0e2449a6b525b16aedf5aa0de657ba637b39".
Definition tc_aad : string := ofHex "feedfacedeadbeeffeedfacedeadbeefabaddad2".
Example Gcm_vector :
  Gcm.gcmSeal tc_key tc_nonce tc_plain tc_aad = Some (ofHex
    "522dc1f099567d07f47f37a32a84427d643a8cdcbfe5c0c97598a2bd2555d1aa8cb08e48590dbb3da7b08b1056828838c5f61e6393ba7a0abcc9f66276fc6ece0f4e1768cddf8853bb2d551b").
Proof. vm_compute. reflexivity. Qed.

(** ** Lemmas: bytes *)

#[local] Abbreviation bytes := (Forall (fun b : Z => 0 <= b < 256)).

Lemma lxor_lt a b n : 0 <= n -> 0 <= a < 2 ^ n -> 0 <= b < 2 ^ n -> 0 <= Z.lxor a b < 2 ^ n.
Proof.
  intros Hn Ha Hb. assert (0 <= Z.lxor a b) as H0 by (apply Z.lxor_nonneg; lia). split; [done|].
  destruct (Z.eq_dec (Z.lxor a b) 0) as [->|Hne]; [lia|]. apply Z.log2_lt_cancel. rewrite Z.log2_pow2 by done.
  destruct (Z.eq_dec n 0) as [->|]; [exfalso; apply Hne; replace a with 0 by lia; replace b with 0 by lia; done|].
  assert (forall c, 0 <= c < 2 ^ n -> Z.log2 c < n) as Hl.
  { intros c Hc. destruct (Z.eq_dec c 0) as [->|]; [simpl; lia|]. apply Z.log2_lt_pow2; lia. }
  pose proof (Z.log2_lxor a b ltac:(lia) ltac:(lia)). pose proof (Hl a Ha). pose proof (Hl b Hb). lia.
Qed.

Lemma bytes_xor l k : bytes l -> bytes k -> bytes (zip_with Z.lxor l k).
Proof.
  intros Hl. revert k. induction Hl as [|a l Ha Hl IH]; intros [|b k] Hk; simpl; [constructor..|].
  inversion_clear Hk. constructor; [by apply (lxor_lt a b 8)|by apply IH].
Qed.

Lemma bytes_at l i : bytes l -> 0 <= Aes.at_ l i < 256.
Proof.
  intros Hl. unfold Aes.at_. destruct (decide (i < length l)%nat) as [Hi|Hi]; [|rewrite nth_overflow by lia; lia].
  rewrite List.Forall_forall in Hl. by apply Hl, nth_In.
Qed.

Lemma bytes_gather {A} (l : list Z) (f : A -> nat) ix : bytes l -> bytes ((fun i => Aes.at_ l (f i)) <$> ix).
Proof. intros Hl. apply Forall_fmap, Forall_true. intros i. by apply (bytes_at l (f i)). Qed.

Lemma sub_byte b : 0 <= Aes.sub b < 256.
Proof. apply (bytes_at Aes.sbox). by apply (bool_decide_unpack _). Qed.

Lemma bytes_sub l : bytes (Aes.sub <$> l).
Proof. apply Forall_fmap, Forall_true. apply sub_byte. Qed.

(** xor with the same bytes twice *)
Lemma xor_twice l k : (length l <= length k)%nat -> zip_with Z.lxor (zip_with Z.lxor l k) k = l.
Proof.
  revert k. induction l as [|a l IH]; intros [|b k] Hlen; simpl in *; [done|done|lia|].
  by rewrite IH, Z.lxor_assoc, Z.lxor_nilpotent, Z.lxor_0_r by lia.
Qed.

Lemma length_xor l k : (length l <= length k)%nat -> length (zip_with Z.lxor l k) = length l.
Proof. intros. rewrite length_zip_with. lia. Qed.

(** ** Lemmas: the cipher *)

Lemma length_encrypt w b : length (Aes.encrypt w b) = 16%nat.
Proof. reflexivity. Qed.

Lemma nextWord_bytes i acc : Forall bytes acc -> bytes (Aes.nextWord i acc).
Proof.
  intros Ha. assert (forall n, bytes (nth n acc [])) as Hn.
  { intros n. destruct (decide (n < length acc)%nat); [|rewrite nth_overflow by lia; constructor].
    rewrite List.Forall_forall in Ha. by apply Ha, nth_In. }
  unfold Aes.nextWord. apply bytes_xor; [apply Hn|].
  destruct (i mod 8 =? 0)%nat; [|destruct (i mod 8 =? 4)%nat; [apply bytes_sub|apply Hn]].
  apply bytes_xor; [apply bytes_sub|]. repeat constructor; try done; by apply (bytes_at Aes.rcon), (bool_decide_unpack _).
Qed.

Lemma expand_bytes n i acc : Forall bytes acc -> Forall bytes (Aes.expand n i acc).
Proof.
  revert i acc. induction n as [|n IH]; intros i acc Ha; simpl; [done|].
  apply IH. constructor; [by apply nextWord_bytes|done].
Qed.

Lemma keySchedule_bytes key : bytes key -> bytes (Aes.keySchedule key).
Proof.
  intros Hk. unfold Aes.keySchedule. apply Forall_concat, Forall_rev, expand_bytes, Forall_rev.
  apply Forall_fmap, Forall_true. intros i. simpl. by apply Forall_take, Forall_drop.
Qed.

Lemma encrypt_bytes w b : bytes w -> bytes (Aes.encrypt w b).
Proof.
  intros Hw. unfold Aes.encrypt, Aes.addRoundKey at 1. apply bytes_xor.
  - apply (bytes_gather _ (fun i => i)), bytes_sub.
  - apply (bytes_gather _ (fun i => i)), Forall_drop, Hw.
Qed.

(** ** Lemmas: counter mode *)

Lemma counterCrypt_length n w nonce c l : (length l <= n)%nat -> length (Gcm.counterCrypt n w nonce c l) = length l.
Proof.
  revert c l. induction n as [|n IH]; intros c l Hl; [by destruct l; simpl in *; [|lia]|].
  destruct l as [|b l]; [done|]. cbn [Gcm.counterCrypt]. rewrite length_app, IH by (rewrite length_drop; cbn [length] in *; lia).
  rewrite length_xor by (rewrite length_encrypt, length_take; lia). rewrite length_take, length_drop. cbn [length]. lia.
Qed.

Lemma counterCrypt_twice n w nonce c l :
  (length l <= n)%nat -> Gcm.counterCrypt n w nonce c (Gcm.counterCrypt n w nonce c l) = l.
Proof.
  revert c l. induction n as [|n IH]; intros c l Hl; [by destruct l; simpl in *; [|lia]|].
  destruct l as [|b l]; [done|]. set (k := Aes.encrypt w (Gcm.counterBlock nonce c)).
  assert (length (take 16 (b :: l)) <= length k)%nat as Hk by (unfold k; rewrite length_encrypt, length_take; lia).
  assert (Gcm.counterCrypt (S n) w nonce c (b :: l) = zip_with Z.lxor (take 16 (b :: l)) k
    ++ Gcm.counterCrypt n w nonce (wrap32 (c + 1)) (drop 16 (b :: l))) as -> by done.
  set (x := zip_with Z.lxor (take 16 (b :: l)) k). set (y := Gcm.counterCrypt n w nonce _ _).
  assert (length x = length (take 16 (b :: l))) as Hx by (by apply length_xor).
  assert (length y = length (drop 16 (b :: l))) as Hy by (apply counterCrypt_length; rewrite length_drop; cbn [length] in *; lia).
  assert (Gcm.counterCrypt (S n) w nonce c (x ++ y) = zip_with Z.lxor (take 16 (x ++ y)) k
    ++ Gcm.counterCrypt n w nonce (wrap32 (c + 1)) (drop 16 (x ++ y))) as ->.
  { destruct (x ++ y) eqn:E; [|done]. apply (f_equal length) in E. rewrite length_app, Hx, Hy, length_take, length_drop in E.
    cbn [length] in *. lia. }
  rewrite length_take in Hx. rewrite length_drop in Hy. cbn [length] in *.
  assert (take 16 (x ++ y) = x /\ drop 16 (x ++ y) = y) as [-> ->].
  { destruct (decide (16 <= length l)%nat).
    - rewrite take_app_length', drop_app_length' by lia. done.
    - assert (y = []) as -> by (apply length_zero_iff_nil; lia). rewrite app_nil_r. rewrite take_ge, drop_ge by lia. done. }
  unfold x, y. rewrite xor_twice, IH by (done || (rewrite length_drop; cbn [length] in *; lia)). apply take_drop.
Qed.

Lemma counterCrypt_bytes n w nonce c l : bytes w -> bytes l -> bytes (Gcm.counterCrypt n w nonce c l).
Proof.
  intros Hw. revert c l. induction n as [|n IH]; intros c l Hl; [constructor|]. destruct l as [|b l]; [constructor|].
  cbn [Gcm.counterCrypt]. apply Forall_app. split; [|by apply IH, Forall_drop].
  apply bytes_xor; [by apply Forall_take|by apply encrypt_bytes].
Qed.

Lemma crypt_length w nonce l : length (Gcm.crypt w nonce l) = length l.
Proof. by apply counterCrypt_length. Qed.
Lemma crypt_twice w nonce l : Gcm.crypt w nonce (Gcm.crypt w nonce l) = l.
Proof. unfold Gcm.crypt at 1. rewrite crypt_length. by apply counterCrypt_twice. Qed.
Lemma crypt_bytes w nonce l : bytes w -> bytes l -> bytes (Gcm.crypt w nonce l).
Proof. apply counterCrypt_bytes. Qed.
Lemma be_bytes_bytes n z : bytes (Sha256.be_bytes n z).
Proof.
  revert z. induction n as [|n IH]; intros z; simpl; [constructor|]. apply Forall_app. split; [apply IH|].
  repeat constructor; apply Z.mod_pos_bound; lia.
Qed.

(** ** Opening is the inverse of sealing *)

Lemma take_length_sub (l k : list Z) : take (length (l ++ k) - length k) (l ++ k) = l.
Proof. rewrite length_app, Nat.add_sub. by apply take_app_length. Qed.
Lemma drop_length_sub (l k : list Z) : drop (length (l ++ k) - length k) (l ++ k) = k.
Proof. rewrite length_app, Nat.add_sub. by apply drop_app_length. Qed.
Lemma length_tag w nonce ct aad : length (Gcm.tag w nonce ct aad) = Gcm.tagSize.
Proof. apply length_be_bytes. Qed.

Section Inverse.
Variables key nonce aad : string.
Let w : list Z := Aes.keySchedule (bytes_of key).

Lemma schedule_bytes : bytes w.
Proof. apply keySchedule_bytes, bytes_of_range. Qed.

Lemma Seal_Open pt ct : Gcm.gcmSeal key nonce pt aad = Some ct -> Gcm.gcmOpen key nonce ct aad = Some pt.
Proof.
  unfold Gcm.gcmSeal, Gcm.gcmOpen. destruct (negb _); simpl; [done|]. destruct (Gcm.maxPlaintext <? strlen pt) eqn:Hmax; [done|].
  apply Z.ltb_ge in Hmax. fold w. set (c := Gcm.crypt w _ (bytes_of pt)). intros [= <-].
  assert (bytes_of (string_of (c ++ Gcm.tag w (bytes_of nonce) c (bytes_of aad))) = c ++ Gcm.tag w (bytes_of nonce) c (bytes_of aad)) as Hb.
  { apply bytes_of_string_of, Forall_app. split; [apply crypt_bytes; [apply schedule_bytes|apply bytes_of_range]|apply be_bytes_bytes]. }
  unfold strlen in *. rewrite length_string_of, Hb.
  assert (length (c ++ Gcm.tag w (bytes_of nonce) c (bytes_of aad)) = (String.length pt + 16)%nat) as Hlen.
  { rewrite length_app, length_tag. unfold c. by rewrite crypt_length, length_bytes_of. }
  rewrite Hlen at 1 2. change Gcm.tagSize with 16%nat.
  replace (Z.of_nat (String.length pt + 16) <? Z.of_nat 16) with false by (symmetry; apply Z.ltb_ge; lia).
  replace (Gcm.maxPlaintext + Z.of_nat 16 <? Z.of_nat (String.length pt + 16)) with false by (symmetry; apply Z.ltb_ge; lia).
  simpl orb. cbv iota. change 16%nat with Gcm.tagSize. rewrite <- (length_tag w (bytes_of nonce) c (bytes_of aad)).
  rewrite take_length_sub, drop_length_sub, bool_decide_eq_true_2 by done.
  unfold c. by rewrite crypt_twice, string_of_bytes_of.
Qed.

Lemma Open_Seal_inv pt ct : Gcm.gcmOpen key nonce ct aad = Some pt -> Gcm.gcmSeal key nonce pt aad = Some ct.
Proof.
  unfold Gcm.gcmSeal, Gcm.gcmOpen. destruct (negb _); simpl; [done|].
  destruct (strlen ct <? _) eqn:Hmin; [done|]. destruct (Gcm.maxPlaintext + _ <? strlen ct) eqn:Hmax; [done|]. simpl.
  apply Z.ltb_ge in Hmin, Hmax. fold w. set (c := take _ (bytes_of ct)).
  case_bool_decide as Ht; [|done]. intros [= <-].
  assert (bytes c) as Hc by apply Forall_take, bytes_of_range.
  assert (bytes_of (string_of (Gcm.crypt w (bytes_of nonce) c)) = Gcm.crypt w (bytes_of nonce) c) as Hb
    by by apply bytes_of_string_of, crypt_bytes, Hc; apply schedule_bytes.
  unfold strlen in *. rewrite length_string_of, crypt_length, Hb, crypt_twice. unfold c at 1.
  rewrite length_take, length_bytes_of. change (Z.of_nat Gcm.tagSize) with 16 in *. change Gcm.tagSize with 16%nat in *.
  replace (Gcm.maxPlaintext <? _) with false by (symmetry; apply Z.ltb_ge; lia).
  rewrite <- Ht. unfold c. rewrite take_drop. by rewrite string_of_bytes_of.
Qed.
End Inverse.

Lemma Open_iff_Seal key nonce aad pt ct :
  Gcm.gcmOpen key nonce ct aad = Some pt <-> Gcm.gcmSeal key nonce pt aad = Some ct.
Proof. split; [apply Open_Seal_inv|apply Seal_Open]. Qed.

(** ** GHASH is linear *)

Lemma mulFrom_lxor n x y v : Gcm.mulFrom n (Z.lxor x y) v = Z.lxor (Gcm.mulFrom n x v) (Gcm.mulFrom n y v).
Proof.
  revert v. induction n as [|n IH]; intros v; [done|]. cbn [Gcm.mulFrom]. rewrite IH, Z.lxor_spec.
  set (p := Gcm.mulFrom n x _). set (q := Gcm.mulFrom n y _).
  apply Z.bits_inj. intros i. rewrite !Z.lxor_spec.
  destruct (Z.testbit x _), (Z.testbit y _); simpl; rewrite ?Z.testbit_0_l;
    destruct (Z.testbit v i), (Z.testbit p i), (Z.testbit q i); done.
Qed.

Lemma mul_0_l h : Gcm.mul 0 h = 0.
Proof. pose proof (mulFrom_lxor 128 0 0 h) as Hz. rewrite Z.lxor_nilpotent in Hz. exact Hz. Qed.

Definition ghashFrom (h y : Z) (xs : list Z) : Z := fold_left (fun y x => Gcm.mul (Z.lxor y x) h) xs y.

Lemma ghashFrom_lxor h xs xs' y y' :
  length xs = length xs' ->
  ghashFrom h (Z.lxor y y') (zip_with Z.lxor xs xs') = Z.lxor (ghashFrom h y xs) (ghashFrom h y' xs').
Proof.
  revert xs' y y'. induction xs as [|x xs IH]; intros [|x' xs'] y y' Hl; try done.
  change (ghashFrom h (Gcm.mul (Z.lxor (Z.lxor y y') (Z.lxor x x')) h) (zip_with Z.lxor xs xs') =
    Z.lxor (ghashFrom h (Gcm.mul (Z.lxor y x) h) xs) (ghashFrom h (Gcm.mul (Z.lxor y' x') h) xs')).
  rewrite <- IH by (simpl in Hl; lia). f_equal. unfold Gcm.mul. rewrite <- mulFrom_lxor. f_equal.
  rewrite !Z.lxor_assoc. f_equal. rewrite <- !Z.lxor_assoc. f_equal. apply Z.lxor_comm.
Qed.

Lemma ghash_lxor h xs xs' :
  length xs = length xs' -> Gcm.ghash h (zip_with Z.lxor xs xs') = Z.lxor (Gcm.ghash h xs) (Gcm.ghash h xs').
Proof. apply (ghashFrom_lxor h xs xs' 0 0). Qed.

(** Zeros in front do not change a hash, so hashes of lists of any lengths compare. *)
Definition alignTo (n : nat) (xs : list Z) : list Z := replicate (n - length xs) 0 ++ xs.
Lemma ghash_align h n xs : Gcm.ghash h (alignTo n xs) = Gcm.ghash h xs.
Proof.
  unfold alignTo, Gcm.ghash. rewrite fold_left_app. f_equal.
  induction (n - length xs)%nat as [|k IH]; [done|].
  cbn [replicate fold_left]. rewrite Z.lxor_0_r, mul_0_l. exact IH.
Qed.
Lemma length_alignTo n xs : length (alignTo n xs) = (n - length xs + length xs)%nat.
Proof. unfold alignTo. by rewrite length_app, length_replicate. Qed.

(** Where the polynomials of two block lists differ: the xor of their coefficients. *)
Definition differences (xs xs' : list Z) : list Z :=
  let n := Nat.max (length xs) (length xs') in zip_with Z.lxor (alignTo n xs) (alignTo n xs').

Lemma ghash_eq_iff h xs xs' : Gcm.ghash h xs = Gcm.ghash h xs' <-> Gcm.ghash h (differences xs xs') = 0.
Proof.
  unfold differences. rewrite ghash_lxor by (rewrite !length_alignTo; lia). rewrite !ghash_align. symmetry. apply Z.lxor_eq_0_iff.
Qed.

(** ** Numbers of 128 bits *)

Lemma be_snoc l b : Gcm.be (l ++ [b]) = Gcm.be l * 256 + b.
Proof. unfold Gcm.be. by rewrite fold_left_app. Qed.

Lemma be_range l : bytes l -> 0 <= Gcm.be l < 2 ^ (8 * Z.of_nat (length l)).
Proof.
  induction l as [|b l IH] using rev_ind; intros Hl; [done|]. rewrite be_snoc, length_app.
  apply Forall_app in Hl as [Hl Hb]. inversion_clear Hb. destruct (IH Hl). simpl length.
  replace (8 * Z.of_nat (length l + 1)) with (8 * Z.of_nat (length l) + 8) by lia. rewrite Z.pow_add_r by lia.
  change (2 ^ 8) with 256. nia.
Qed.

Lemma be_of_be_bytes n z : Gcm.be (Sha256.be_bytes n z) = z mod 2 ^ (8 * Z.of_nat n).
Proof.
  revert z. induction n as [|n IH]; intros z; [by rewrite Z.mod_1_r|]. cbn [Sha256.be_bytes]. rewrite be_snoc, IH.
  replace (8 * Z.of_nat (S n)) with (8 + 8 * Z.of_nat n) by lia. rewrite Z.pow_add_r by lia. change (2 ^ 8) with 256.
  rewrite Z.rem_mul_r by lia. lia.
Qed.

Lemma be_inj l k : bytes l -> bytes k -> length l = length k -> Gcm.be l = Gcm.be k -> l = k.
Proof.
  revert k. induction l as [|b l IH] using rev_ind; intros k Hl Hk Hlen He.
  { destruct k; [done|simpl in Hlen; lia]. }
  destruct k as [|c k _] using rev_ind; [rewrite length_app in Hlen; simpl in Hlen; lia|].
  rewrite !be_snoc in He. rewrite !length_app in Hlen. simpl in Hlen.
  apply Forall_app in Hl as [Hl Hb], Hk as [Hk Hc]. inversion_clear Hb. inversion_clear Hc.
  assert (Gcm.be l = Gcm.be k /\ b = c) as [Hbe ->] by lia. rewrite (IH k); [done..|lia|done].
Qed.

Lemma mulX_range v : 0 <= v < 2 ^ 128 -> 0 <= Gcm.mulX v < 2 ^ 128.
Proof.
  intros Hv. apply lxor_lt; [lia| |destruct (Z.odd v); lia].
  rewrite Z.shiftr_div_pow2 by lia. change (2 ^ 1) with 2. Z.div_mod_to_equations. lia.
Qed.

Lemma mulFrom_range n x v : 0 <= v < 2 ^ 128 -> 0 <= Gcm.mulFrom n x v < 2 ^ 128.
Proof.
  revert v. induction n as [|n IH]; intros v Hv; [done|]. cbn [Gcm.mulFrom].
  apply lxor_lt; [lia|destruct (Z.testbit _ _); lia|by apply IH, mulX_range].
Qed.

Lemma ghash_range h xs : 0 <= h < 2 ^ 128 -> 0 <= Gcm.ghash h xs < 2 ^ 128.
Proof.
  intros Hh. induction xs as [|x xs IH] using rev_ind; [done|]. unfold Gcm.ghash. rewrite fold_left_app.
  cbn [fold_left]. by apply mulFrom_range.
Qed.

Lemma encrypt_be_range w b : bytes w -> 0 <= Gcm.be (Aes.encrypt w b) < 2 ^ 128.
Proof. intros Hw. exact (be_range (Aes.encrypt w b) (encrypt_bytes w b Hw)). Qed.

(** ** Another name for a sealed text *)

Definition authBlocks (aad ct : list Z) : list Z := Gcm.blocks aad ++ Gcm.blocks ct ++ [Gcm.lengths aad ct].

(** The tags of two names agree exactly if the hash key is a root of the polynomial of
    their differences. *)
Lemma Tag_eq_iff_root w nonce ct aad aad' :
  bytes w ->
  Gcm.tag w nonce ct aad = Gcm.tag w nonce ct aad' <->
  Gcm.ghash (Gcm.hashKey w) (differences (authBlocks aad ct) (authBlocks aad' ct)) = 0.
Proof.
  intros Hw. rewrite <- ghash_eq_iff. unfold Gcm.tag. change (Gcm.ghash (Gcm.hashKey w) (authBlocks ?a ct)) with (Gcm.authHash w ct a).
  split; [|by intros ->]. intros Ht. apply (f_equal Gcm.be) in Ht. rewrite !be_of_be_bytes in Ht.
  assert (forall a, 0 <= Z.lxor (Gcm.authHash w ct a) (Gcm.mask w nonce) < 2 ^ 128) as Hr.
  { intros a. apply lxor_lt; [lia|apply ghash_range|]; by apply encrypt_be_range. }
  change (8 * Z.of_nat 16) with 128 in Ht. rewrite !Z.mod_small in Ht by apply Hr.
  apply (f_equal (fun z => Z.lxor z (Gcm.mask w nonce))) in Ht.
  by rewrite !Z.lxor_assoc, Z.lxor_nilpotent, !Z.lxor_0_r in Ht.
Qed.

Lemma toBlocks_inj n l k :
  (length l <= n)%nat -> bytes l -> bytes k -> length l = length k -> Gcm.toBlocks n l = Gcm.toBlocks n k -> l = k.
Proof.
  revert l k. induction n as [|n IH]; intros l k Hn Hl Hk Hlen He.
  { destruct l, k; simpl in *; (done || lia). }
  destruct l as [|a l], k as [|b k]; [done|discriminate..|]. cbn [Gcm.toBlocks] in He. injection He as Hb He.
  assert (forall m : list Z, bytes m -> bytes (take 16 (m ++ replicate 15 0))) as Hpad.
  { intros m Hm. apply Forall_take, Forall_app. split; [done|]. by apply Forall_replicate. }
  apply (be_inj (take 16 ((a :: l) ++ replicate 15 0)) (take 16 ((b :: k) ++ replicate 15 0))) in Hb;
    [|by apply Hpad..|by rewrite !length_take, !length_app, Hlen].
  rewrite <- (take_drop 16 (a :: l)), <- (take_drop 16 (b :: k)). f_equal.
  - apply (f_equal (take (length (a :: l)))) in Hb. rewrite !take_take in Hb.
    rewrite !(Nat.min_comm _ 16), <- !take_take in Hb. rewrite take_app_length, Hlen, take_app_length in Hb. done.
  - apply IH; [rewrite length_drop; cbn [length] in *; lia|by apply Forall_drop..|by rewrite !length_drop, Hlen|done].
Qed.

Lemma toBlocks_length_eq n l k : length l = length k -> length (Gcm.toBlocks n l) = length (Gcm.toBlocks n k).
Proof.
  revert l k. induction n as [|n IH]; intros l k Hlen; [done|]. destruct l, k; try done. cbn [Gcm.toBlocks length].
  f_equal. apply IH. by rewrite !length_drop, Hlen.
Qed.
Lemma blocks_length_eq l k : length l = length k -> length (Gcm.blocks l) = length (Gcm.blocks k).
Proof. unfold Gcm.blocks. intros Hlen. rewrite Hlen. by apply toBlocks_length_eq. Qed.

(** Two names never have the same polynomial. *)
Lemma differences_nonzero aad aad' ct :
  bytes aad -> bytes aad' -> aad <> aad' ->
  Exists (fun c => c <> 0) (differences (authBlocks aad ct) (authBlocks aad' ct)).
Proof.
  intros Ha Ha' Hne. apply not_Forall_Exists; [solve_decision|]. intros Hz. apply Hne. clear Hne.
  set (n := Nat.max (length (authBlocks aad ct)) (length (authBlocks aad' ct))).
  assert (alignTo n (authBlocks aad ct) = alignTo n (authBlocks aad' ct)) as He.
  { unfold differences in Hz. fold n in Hz. revert Hz.
    assert (length (alignTo n (authBlocks aad ct)) = length (alignTo n (authBlocks aad' ct))) as Hl by (rewrite !length_alignTo; lia).
    revert Hl. generalize (alignTo n (authBlocks aad ct)) (alignTo n (authBlocks aad' ct)).
    induction l as [|x l IH]; intros [|x' l'] Hl Hz; try done. simpl in Hz. apply Forall_cons in Hz as [Hx Hz].
    apply Z.lxor_eq in Hx as ->. f_equal. apply IH; [simpl in Hl; lia|done]. }
  unfold alignTo, authBlocks in He. rewrite !app_assoc in He. apply app_inj_2 in He as [He Hlast]; [|done].
  injection Hlast as Hlast. unfold Gcm.lengths, Zlen in Hlast.
  assert (length aad = length aad') as Hlen by lia.
  assert (length (Gcm.blocks aad) = length (Gcm.blocks aad')) as Hlb by by apply blocks_length_eq.
  rewrite <- !app_assoc, !length_app, Hlb in He. apply app_inv_head, app_inv_tail in He.
  unfold Gcm.blocks in He. rewrite Hlen in He. apply (toBlocks_inj (length aad')); [lia|done..].
Qed.

(** Opening a sealed text under another name. *)
Lemma Open_renamed key nonce aad aad' pt ct :
  Gcm.gcmSeal key nonce pt aad = Some ct ->
  Gcm.gcmOpen key nonce ct aad' =
  if Gcm.ghash (Gcm.hashKey (Aes.keySchedule (bytes_of key)))
       (differences (authBlocks (bytes_of aad) (bytes_of (String.substring 0 (String.length ct - 16) ct)))
                    (authBlocks (bytes_of aad') (bytes_of (String.substring 0 (String.length ct - 16) ct)))) =? 0
  then Some pt else None.
Proof.
  intros Hs. pose proof (Seal_Open _ _ _ _ _ Hs) as Ho. unfold Gcm.gcmOpen in *. destruct (negb _ || _ || _); [done|].
  set (w := Aes.keySchedule (bytes_of key)) in *. change Gcm.tagSize with 16%nat in *. rewrite length_bytes_of in *.
  rewrite bytes_of_substring_0. set (c := take _ (bytes_of ct)) in *.
  case_bool_decide as Ht; [|done]. rewrite Ht, Ho. clear Hs Ho Ht.
  assert (bytes w) as Hw by apply keySchedule_bytes, bytes_of_range.
  pose proof (Tag_eq_iff_root w (bytes_of nonce) c (bytes_of aad) (bytes_of aad') Hw) as Hr.
  case_bool_decide as Ht; [by rewrite (proj1 Hr Ht)|]. destruct (Z.eqb_spec (Gcm.ghash (Gcm.hashKey w)
    (differences (authBlocks (bytes_of aad) c) (authBlocks (bytes_of aad') c))) 0) as [E|]; [|done]. by destruct Ht; apply Hr.
Qed.
