(* ===== verification/CloudEvent.v ===== *)
(** * CloudEvents and the libraries around them

    The event types every component passes on, and the operations of the
    libraries the node calls but does not contain: DIMO's cloudevent package
    (JSON codec, DID parsing, uniqueness key), go-ethereum's address helpers.
    A library is a class of operations; what a theorem relies on is a
    hypothesis of that theorem or a law class. *)

From S2P Require Import Prelude GoStd.

(** The header fields the node reads or writes; [Carried] stands for the other
    ones (tags, extras), which it passes on as they are. *)
Record CloudEventHeader := mkHeader {
  ID : string;
  Source : string;
  Producer : string;
  Subject : string;
  SpecVersion : string;
  Time : Z;
  CEType : string;
  DataContentType : string;
  DataSchema : string;
  DataVersion : string;
  Signature : string;
  Carried : list (string * string)
}.

(** cloudevent.RawEvent: a header with its payload, as JSON text or base64. *)
Record RawEvent := mkRaw {
  Hdr :> CloudEventHeader;
  Data : string;
  DataBase64 : string
}.

(** cloudevent.StoredEvent: a raw event with its storage metadata. *)
Record StoredEvent := mkStored {
  Raw :> RawEvent;
  DataIndexKey : string;
  VoidsID : string
}.

#[export] Instance header_eq_dec : EqDecision CloudEventHeader.
Proof. solve_decision. Defined.
#[export] Instance raw_eq_dec : EqDecision RawEvent.
Proof. solve_decision. Defined.
#[export] Instance stored_eq_dec : EqDecision StoredEvent.
Proof. solve_decision. Defined.

(** Assignments to one header field. *)
Definition set_ID v h := mkHeader v (Source h) (Producer h) (Subject h) (SpecVersion h) (Time h)
  (CEType h) (DataContentType h) (DataSchema h) (DataVersion h) (Signature h) (Carried h).
Definition set_Source v h := mkHeader (ID h) v (Producer h) (Subject h) (SpecVersion h) (Time h)
  (CEType h) (DataContentType h) (DataSchema h) (DataVersion h) (Signature h) (Carried h).
Definition set_Producer v h := mkHeader (ID h) (Source h) v (Subject h) (SpecVersion h) (Time h)
  (CEType h) (DataContentType h) (DataSchema h) (DataVersion h) (Signature h) (Carried h).
Definition set_Subject v h := mkHeader (ID h) (Source h) (Producer h) v (SpecVersion h) (Time h)
  (CEType h) (DataContentType h) (DataSchema h) (DataVersion h) (Signature h) (Carried h).
Definition set_SpecVersion v h := mkHeader (ID h) (Source h) (Producer h) (Subject h) v (Time h)
  (CEType h) (DataContentType h) (DataSchema h) (DataVersion h) (Signature h) (Carried h).
Definition set_Time v h := mkHeader (ID h) (Source h) (Producer h) (Subject h) (SpecVersion h) v
  (CEType h) (DataContentType h) (DataSchema h) (DataVersion h) (Signature h) (Carried h).
Definition set_CEType v h := mkHeader (ID h) (Source h) (Producer h) (Subject h) (SpecVersion h)
  (Time h) v (DataContentType h) (DataSchema h) (DataVersion h) (Signature h) (Carried h).
Definition set_DataContentType v h := mkHeader (ID h) (Source h) (Producer h) (Subject h)
  (SpecVersion h) (Time h) (CEType h) v (DataSchema h) (DataVersion h) (Signature h) (Carried h).

(** The zero value of a header, and of an event. *)
Definition zeroHeader : CloudEventHeader := mkHeader "" "" "" "" "" 0 "" "" "" "" "" [].
Definition zeroRaw : RawEvent := mkRaw zeroHeader "" "".

(** A decoded ERC-721 DID: did.ChainID, did.ContractAddress and the rest. An
    address is its 20 bytes. *)
Record ERC721DID := mkDID { ChainID : Z; ContractAddress : string; TokenID : Z }.

(** Package cloudevent. The decoders return the DID, whose String method gives
    the canonical text. *)
Class CloudEventLib := {
  TypeStatus : string;
  TypeFingerprint : string;
  TypeEvents : string;
  TypeSignals : string;
  TypeRawStatus : string;
  TypeAttestation : string;
  TypeAttestationTombstone : string;
  HeaderKey : CloudEventHeader -> string;
  MarshalJSON : RawEvent -> result string;
  UnmarshalJSON : string -> result RawEvent;
  MarshalHeader : CloudEventHeader -> result string;
  DecodeERC721DID : string -> result ERC721DID;
  DecodeLegacyNFTDID : string -> result ERC721DID;
  DIDString : ERC721DID -> string;
  DecodeEthrDID : string -> result string;
  BytesForSignature : RawEvent -> string;
  ExtrasJSON : CloudEventHeader -> option (result string)
}.

(** Package common of go-ethereum: address syntax, parsing, EIP-55 text. *)
Class EthLib := {
  IsHexAddress : string -> bool;
  HexToAddress : string -> string;
  AddressHex : string -> string
}.

(** What the node relies on: printing an address gives text that is an address
    again and parses back, so canonicalising twice changes nothing. *)
Class EthLaws (E : EthLib) : Prop := {
  hex_is_address a : IsHexAddress (AddressHex (HexToAddress a)) = true;
  hex_parse_print a : HexToAddress (AddressHex (HexToAddress a)) = HexToAddress a
}.
