(* ===== verification/Stream.v ===== *)
(** * Package stream: subjects, partitions and stream provisioning

    internal/stream/subjects.go and internal/stream/stream.go: how an event is
    routed to a NATS subject and a WAL partition, and how the partition streams
    are provisioned.  The broker is a parameter ([JetStreamAdmin]); its
    wildcard matching is a parameter with its documented semantics
    ([NatsMatcher]). *)

From S2P Require Import Prelude GoStd Sha256 CloudEvent.

(** ** Subjects *)

Definition StreamName : string := "INGEST_RAW".
Definition SubjectRoot : string := "in.raw".
Definition SubjectWildcard : string := SubjectRoot +:+ ".>".

(** A NATS token may hold letters, digits and the four bytes : _ = - *)
Definition token_safe (r : Z) : bool :=
  ((97 <=? r) && (r <=? 122)) || ((65 <=? r) && (r <=? 90)) || ((48 <=? r) && (r <=? 57)) ||
  (r =? 58) || (r =? 95) || (r =? 61) || (r =? 45).

(** sanitizeToken: every rune outside the safe set becomes '-'. *)
Definition sanitizeToken (s : string) : string :=
  if s =?s "" then "-"
  else string_of ((fun r => if token_safe r then r else 45) <$> runes s).

Definition typeToken (ceType : string) : string :=
  sanitizeToken (ReplaceAll ceType (chr ".") "_").

(** Partition: the uint32 FNV-1a hash of the subject modulo the count. *)
Definition Partition (ceSubject : string) (partitions : Z) : Z :=
  if partitions <=? 1 then 0 else fnv32a ceSubject mod wrap32 partitions.

(** Subject: in.raw.<type>.<subject>, with a trailing .pNNN when the WAL has
    several partitions. *)
Definition SubjectOf (hdr : CloudEventHeader) (partitions : Z) : string :=
  let base := SubjectRoot +:+ "." +:+ typeToken (CEType hdr) +:+ "." +:+ sanitizeToken (Subject hdr) in
  if partitions <=? 1 then base
  else base +:+ ".p" +:+ fmt_0d 3 (Partition (Subject hdr) partitions).

Definition StreamNameFor (i n : Z) : string :=
  if n <=? 1 then StreamName else StreamName +:+ "_P" +:+ fmt_0d 3 i.

Definition partitionSubjects (i n : Z) : list string :=
  if n <=? 1 then [SubjectWildcard] else [SubjectRoot +:+ ".*.*.p" +:+ fmt_0d 3 i].

Definition SubjectFilterForType (ceType : string) : string :=
  SubjectRoot +:+ "." +:+ typeToken ceType +:+ ".>".

(** MsgID: the hex SHA-256 of the uniqueness key of the header. *)
Definition MsgID `{CloudEventLib} (hdr : CloudEventHeader) : string :=
  hex_EncodeToString (Sha256.Sum256 (HeaderKey hdr)).

(** ** Provisioning *)

(** stream.Config *)
Record WALConfig := mkWALConfig {
  Replicas : Z;
  MaxAge : Z;
  MaxBytes : Z;
  DuplicateWindow : Z;
  Partitions : Z
}.

Definition DefaultConfig : WALConfig := mkWALConfig 1 (48 * Hour) 0 (2 * Minute) 1.

(** The fields of jetstream.StreamConfig the program sets. *)
Inductive StorageType := FileStorage.
Inductive RetentionPolicy := LimitsPolicy.
Inductive DiscardPolicy := DiscardOld | DiscardNew.
Record StreamConfig := mkStreamConfig {
  sc_Name : string;
  sc_Description : string;
  sc_Subjects : list string;
  sc_Storage : StorageType;
  sc_Retention : RetentionPolicy;
  sc_Replicas : Z;
  sc_MaxAge : Z;
  sc_MaxBytes : Z;
  sc_Duplicates : Z;
  sc_Discard : DiscardPolicy
}.

(** The broker operations provisioning calls: list the stream names (with the
    error the listing ends on), create or update one stream. *)
Class JetStreamAdmin := {
  broker : Type;
  StreamNames : broker -> list string * option error;
  CreateOrUpdateStream : broker -> StreamConfig -> broker * option error
}.

(** range partitions: 0, 1, ..., n-1. *)
Definition range (n : Z) : list Z := seqZ 0 n.

(** checkStaleStreams over the names the broker lists: the first INGEST_RAW
    stream that this layout does not expect is an error, then the listing's
    own error. *)
Definition stale_name (partitions : Z) (name : string) : bool :=
  HasPrefix name StreamName &&
  negb (bool_decide (name ∈ (fun i => StreamNameFor i partitions) <$> range partitions)).

Definition checkStaleStreams (names : list string * option error) (partitions : Z) : option error :=
  match List.filter (stale_name partitions) names.1 with
  | name :: _ =>
      Some (ENew ("WAL stream " +:+ fmt_q name +:+
                  " is from a different partition layout than NATS_STREAM_PARTITIONS=" +:+ fmt_d partitions +:+
                  ": its subjects overlap or its backlog would be stranded; drain and delete it first " +:+
                  "(docs/wal-partition-rescale.md)"))
  | [] => names.2
  end.

(** The configuration of partition stream [i]. *)
Definition walStreamConfig (cfg : WALConfig) (i : Z) : StreamConfig := {|
  sc_Name := StreamNameFor i (Partitions cfg);
  sc_Description := "Raw validated cloudevents awaiting persistence and fan-out";
  sc_Subjects := partitionSubjects i (Partitions cfg);
  sc_Storage := FileStorage;
  sc_Retention := LimitsPolicy;
  sc_Replicas := Replicas cfg;
  sc_MaxAge := MaxAge cfg;
  sc_MaxBytes := MaxBytes cfg;
  sc_Duplicates := DuplicateWindow cfg;
  sc_Discard := DiscardNew
|}.

Section Provisioning.
Context `{JetStreamAdmin}.

(** The creation loop of EnsureStreams: stop at the first failure. *)
Fixpoint ensureLoop (js : broker) (cfg : WALConfig) (ps : list Z) : broker * result (list StreamConfig) :=
  match ps with
  | [] => (js, Ok [])
  | i :: ps' =>
      let sc := walStreamConfig cfg i in
      match CreateOrUpdateStream js sc with
      | (js', Some e) => (js', Err (EWrap ("creating " +:+ sc_Name sc +:+ " stream: ") e ""))
      | (js', None) =>
          let '(js'', r) := ensureLoop js' cfg ps' in
          (js'', streams ← r; Ok (sc :: streams))
      end
  end.

Definition EnsureStreams (js : broker) (cfg : WALConfig) : broker * result (list StreamConfig) :=
  let cfg := if Partitions cfg <=? 0
             then mkWALConfig (Replicas cfg) (MaxAge cfg) (MaxBytes cfg) (DuplicateWindow cfg) 1
             else cfg in
  match checkStaleStreams (StreamNames js) (Partitions cfg) with
  | Some e => (js, Err e)
  | None => ensureLoop js cfg (range (Partitions cfg))
  end.
End Provisioning.

(** ** NATS subject matching, as documented *)

(** A filter and a subject, as token lists: [*] stands for one token, a final
    [>] for one or more, any other token for itself. *)
Inductive filter_matches : list string -> list string -> Prop :=
| fm_nil : filter_matches [] []
| fm_full t s : filter_matches [">"] (t :: s)
| fm_star t f s : filter_matches f s -> filter_matches ("*" :: f) (t :: s)
| fm_token t f s : t <> "*" -> t <> ">" -> filter_matches f s -> filter_matches (t :: f) (t :: s).

(** The broker's matcher, with the documented semantics as its law. *)
Class NatsMatcher := {
  nats_matches : string -> string -> bool;
  nats_matches_spec f s :
    nats_matches f s = true <-> filter_matches (SplitByte f (chr ".")) (SplitByte s (chr "."))
}.

(** An executable matcher, which shows the law can hold. *)
Fixpoint matchb (f s : list string) : bool :=
  match f, s with
  | [], [] => true
  | t :: f', u :: s' =>
      if t =?s ">" then bool_decide (f' = [])
      else if t =?s "*" then matchb f' s'
      else (t =?s u) && matchb f' s'
  | _, _ => false
  end.

(** ** Tokens *)

Definition safe_str (s : string) : bool := str_forall (fun c => token_safe (byte_val c)) s.

Lemma str_forall_string_of f l :
  Forall (fun b => f (byte_of b) = true) l -> str_forall f (string_of l) = true.
Proof.
  unfold string_of. induction 1 as [|b l Hb _ IH]; [done|].
  rewrite fmap_cons. cbn [String.string_of_list_ascii str_forall]. by rewrite Hb, IH.
Qed.

(** A sanitised token holds safe bytes only. *)
Lemma sanitizeToken_safe s : safe_str (sanitizeToken s) = true.
Proof.
  unfold sanitizeToken. destruct (s =?s "") eqn:E; [done|].
  apply str_forall_string_of, Forall_fmap, Forall_true. intros r. simpl.
  destruct (token_safe r) eqn:Hr; [|done].
  rewrite byte_val_of; [done|].
  unfold token_safe in Hr. rewrite !orb_true_iff, !andb_true_iff in Hr.
  rewrite !Z.leb_le, !Z.eqb_eq in Hr. lia.
Qed.

(** ... and is never empty: it is one token. *)
Lemma sanitizeToken_nonempty s : sanitizeToken s <> "".
Proof.
  unfold sanitizeToken. destruct s as [|c s]; [done|].
  change (String c s =?s "") with false. cbv iota. unfold runes. simpl.
  destruct (DecodeRune _ _) as [r w]. done.
Qed.

Lemma safe_str_no_dot s : safe_str s = true -> has_byte s (chr ".") = false.
Proof. intros Hs. by eapply str_forall_no_byte. Qed.

Lemma safe_str_not_wild s : safe_str s = true -> s <> "*" /\ s <> ">".
Proof. intros Hs. by split; intros ->. Qed.

Lemma typeToken_safe s : safe_str (typeToken s) = true.
Proof. apply sanitizeToken_safe. Qed.

Lemma fmt_03_no_dot z : 0 <= z -> has_byte ("p" +:+ fmt_0d 3 z) (chr ".") = false.
Proof.
  intros Hz. rewrite has_byte_app. simpl.
  eapply str_forall_no_byte; [by apply fmt_0d_digits | done].
Qed.

Lemma Partition_range s n : 1 < n < 2 ^ 32 -> 0 <= Partition s n < n.
Proof.
  intros Hn. unfold Partition. destruct (Z.leb_spec n 1); [lia|].
  unfold wrap32. rewrite (Z.mod_small n) by lia. apply Z.mod_pos_bound. lia.
Qed.

Lemma Partition_nonneg s n : 0 <= Partition s n.
Proof.
  unfold Partition. destruct (n <=? 1); [lia|]. pose proof (fnv32a_range s).
  destruct (Z.eq_dec (wrap32 n) 0) as [->|Hne]; [rewrite Z.mod_0_r; lia|].
  apply Z.mod_pos_bound. pose proof (Z.mod_pos_bound n (2 ^ 32)). unfold wrap32 in *. lia.
Qed.

(** The tokens of a subject: five with a partition suffix, four without. *)
Lemma SubjectOf_tokens hdr n :
  SplitByte (SubjectOf hdr n) (chr ".") =
  ["in"; "raw"; typeToken (CEType hdr); sanitizeToken (Subject hdr)] ++
  (if n <=? 1 then [] else ["p" +:+ fmt_0d 3 (Partition (Subject hdr) n)]).
Proof.
  pose proof (safe_str_no_dot _ (typeToken_safe (CEType hdr))) as Ht.
  pose proof (safe_str_no_dot _ (sanitizeToken_safe (Subject hdr))) as Hs.
  unfold SubjectOf. destruct (n <=? 1) eqn:En.
  - match goal with |- SplitByte ?x _ = _ => change x with ("in" +:+ String (chr ".") ("raw" +:+ String (chr ".")
      (typeToken (CEType hdr) +:+ String (chr ".") (sanitizeToken (Subject hdr))))) end.
    rewrite !SplitByte_token by done. by rewrite SplitByte_no_sep.
  - pose proof (fmt_03_no_dot _ (Partition_nonneg (Subject hdr) n)) as Hp.
    rewrite !string_app_assoc.
    match goal with |- SplitByte ?x _ = _ => change x with ("in" +:+ String (chr ".") ("raw" +:+ String (chr ".")
      (typeToken (CEType hdr) +:+ String (chr ".") (sanitizeToken (Subject hdr) +:+ String (chr ".")
        ("p" +:+ fmt_0d 3 (Partition (Subject hdr) n)))))) end.
    rewrite !SplitByte_token by done. by rewrite SplitByte_no_sep.
Qed.

Lemma partitionSubjects_tokens i n :
  1 < n -> 0 <= i ->
  partitionSubjects i n = [SubjectRoot +:+ ".*.*.p" +:+ fmt_0d 3 i] /\
  SplitByte (SubjectRoot +:+ ".*.*.p" +:+ fmt_0d 3 i) (chr ".") =
  ["in"; "raw"; "*"; "*"; "p" +:+ fmt_0d 3 i].
Proof.
  intros Hn Hi. unfold partitionSubjects. destruct (Z.leb_spec n 1); [lia|]. split; [done|].
  match goal with |- SplitByte ?x _ = _ => change x with ("in" +:+ String (chr ".") ("raw" +:+ String (chr ".") ("*" +:+ String (chr ".")
    ("*" +:+ String (chr ".") ("p" +:+ fmt_0d 3 i))))) end.
  rewrite !SplitByte_token by done. by rewrite SplitByte_no_sep by by apply fmt_03_no_dot.
Qed.

(** The last-token filter of a partition against a five-token subject. *)
Lemma filter_matches_partition a b p q :
  p <> "*" -> p <> ">" ->
  filter_matches ["in"; "raw"; "*"; "*"; p] ["in"; "raw"; a; b; q] <-> p = q.
Proof.
  intros Hp1 Hp2. split.
  - intros H. repeat match goal with H : filter_matches (_ :: _) _ |- _ => inversion H; clear H; subst end;
      done.
  - intros ->. repeat constructor; done.
Qed.

Lemma StreamNameFor_inj i j n : 1 < n -> 0 <= i -> 0 <= j ->
  StreamNameFor i n = StreamNameFor j n -> i = j.
Proof.
  intros Hn Hi Hj. unfold StreamNameFor. destruct (Z.leb_spec n 1); [lia|].
  intros Heq%string_app_inj_l%string_app_inj_l. by eapply fmt_0d_inj.
Qed.

#[export] Hint Resolve sanitizeToken_safe sanitizeToken_nonempty typeToken_safe Partition_nonneg : din.

Lemma matchb_spec f s : matchb f s = true <-> filter_matches f s.
Proof.
  split.
  - revert s. induction f as [|t f IH]; intros [|u s]; simpl; try done; [constructor|].
    destruct (String.eqb_spec t ">") as [->|Hf].
    + intros Hb%bool_decide_eq_true. subst f. constructor.
    + destruct (String.eqb_spec t "*") as [->|Hs]; [intros; constructor; auto|].
      intros [->%String.eqb_eq Hm]%andb_true_iff. constructor; auto.
  - induction 1 as [| | |t f s H1 H2 _ IH]; simpl; try done.
    apply String.eqb_neq in H1, H2. rewrite H1, H2, String.eqb_refl. done.
Qed.

(** The partition of an event is one of the streams EnsureStreams makes. *)
Lemma Partition_in_range s n : 1 <= n < 2 ^ 32 -> 0 <= Partition s n < n.
Proof.
  intros Hn. destruct (decide (n = 1)) as [->|Hne]; [|apply Partition_range; lia]. unfold Partition. simpl. lia.
Qed.

Lemma subject_matches_iff `{NatsMatcher} hdr n i :
  1 <= n < 2 ^ 32 -> 0 <= i < n ->
  existsb (fun f => nats_matches f (SubjectOf hdr n)) (partitionSubjects i n) = true <-> i = Partition (Subject hdr) n.
Proof.
  intros Hn Hi. destruct (decide (n = 1)) as [->|Hne].
  { replace (Partition (Subject hdr) 1) with 0 by reflexivity. replace i with 0 by lia. split; [done|intros _].
    change (partitionSubjects 0 1) with [SubjectWildcard]. simpl existsb. rewrite orb_false_r, nats_matches_spec, SubjectOf_tokens. simpl app.
    do 2 (apply fm_token; [done..|]). apply fm_full. }
  destruct (partitionSubjects_tokens i n) as [-> Htok]; [lia..|].
  simpl existsb. rewrite orb_false_r, nats_matches_spec, Htok, SubjectOf_tokens.
  destruct (Z.leb_spec n 1); [lia|]. simpl app. rewrite filter_matches_partition by done. split.
  - intros Heq%string_app_inj_l. apply fmt_0d_inj in Heq; auto using Partition_nonneg. lia.
  - by intros ->.
Qed.

(** The executable matcher is an instance of the broker's contract. *)
Definition doc_matcher : NatsMatcher := {|
  nats_matches f s := matchb (SplitByte f (chr ".")) (SplitByte s (chr "."));
  nats_matches_spec f s := matchb_spec _ _
|}.

(** ** Properties *)

(** C28: Every event has one partition stream, whatever the partition count: the hash
    partition of its vehicle is one of 0 .. n-1, the filters of stream i match its subject
    exactly when i is that partition, and two events of one vehicle have the same one. With
    a single partition that is the stream of all subjects. *)
Theorem subject_routed_to_its_partition `{NatsMatcher} hdr n :
  1 <= n < 2 ^ 32 ->
  Partition (Subject hdr) n ∈ range n /\
  (forall i, i ∈ range n ->
    existsb (fun f => nats_matches f (SubjectOf hdr n)) (partitionSubjects i n) = true <-> i = Partition (Subject hdr) n) /\
  (forall hdr', Subject hdr' = Subject hdr ->
    existsb (fun f => nats_matches f (SubjectOf hdr' n)) (partitionSubjects (Partition (Subject hdr) n) n) = true).
Proof.
  intros Hn. assert (Hr : 0 <= Partition (Subject hdr) n < n) by (by apply Partition_in_range).
  split; [by apply elem_of_seqZ|]. split.
  - intros i Hi%elem_of_seqZ. apply subject_matches_iff; lia.
  - intros hdr' Hs. apply subject_matches_iff; [lia|done|by rewrite Hs].
Qed.

Definition sample_header : CloudEventHeader :=
  mkHeader "local-1" "0xConn" "did:erc721:137:0xbA57:42" "did:erc721:137:0xbA57:42" "1.0" 1
    "dimo.status" "application/json" "" "default/v1.0" "" [].

Lemma subject_routed_to_its_partition_witness :
  Partition (Subject sample_header) 8 ∈ range 8 /\ Partition (Subject sample_header) 1 ∈ range 1.
Proof.
  split; [apply (@subject_routed_to_its_partition doc_matcher sample_header 8)
         |apply (@subject_routed_to_its_partition doc_matcher sample_header 1)]; lia.
Defined.

(** The per-type consumer filter of the decode bridge matches an event,
    whatever the partition count, exactly when the event's type has the same
    sanitised token. *)
Theorem type_filter_matches `{NatsMatcher} hdr n ceType :
  nats_matches (SubjectFilterForType ceType) (SubjectOf hdr n) = true <->
  typeToken ceType = typeToken (CEType hdr).
Proof.
  rewrite nats_matches_spec, SubjectOf_tokens.
  assert (SplitByte (SubjectFilterForType ceType) (chr ".") = ["in"; "raw"; typeToken ceType; ">"]) as ->.
  { unfold SubjectFilterForType.
    match goal with |- SplitByte ?x _ = _ => change x with
      ("in" +:+ String (chr ".") ("raw" +:+ String (chr ".") (typeToken ceType +:+ String (chr ".") ">"))) end.
    rewrite !SplitByte_token; auto using safe_str_no_dot with din. }
  destruct (safe_str_not_wild (typeToken ceType)) as [Hs Hf]; [auto with din|]. split.
  - intros Hm. inversion Hm as [| | |? ? ? _ _ Hm1]; subst.
    inversion Hm1 as [| | |? ? ? _ _ Hm2]; subst.
    inversion Hm2; congruence.
  - intros Heq. rewrite <- Heq. do 3 (apply fm_token; [done..|]). apply fm_full.
Qed.

Section EnsureProperties.
Context `{JetStreamAdmin}.

Lemma ensureLoop_Ok cfg js ps js' streams :
  ensureLoop js cfg ps = (js', Ok streams) -> streams = walStreamConfig cfg <$> ps.
Proof.
  revert js js' streams. induction ps as [|i ps IH]; intros js js' streams; simpl.
  - by intros [= <- <-].
  - destruct (CreateOrUpdateStream js _) as [js1 [e|]]; [done|].
    destruct (ensureLoop js1 cfg ps) as [js2 [r|e]] eqn:E; simpl; [|done].
    intros [= <- <-]. by rewrite (IH _ _ _ E).
Qed.

Lemma names_distinct n : 1 <= n -> NoDup ((fun i => StreamNameFor i n) <$> range n).
Proof.
  intros Hn. destruct (Z.eq_dec n 1) as [->|Hne].
  - repeat constructor. by intros ?%elem_of_nil.
  - apply NoDup_fmap_2_strong; [|apply NoDup_seqZ].
    intros i j Hi%elem_of_seqZ Hj%elem_of_seqZ. apply StreamNameFor_inj; lia.
Qed.

(** EnsureStreams refuses a layout change: if the broker lists a WAL stream
    that the configured partition count does not name, it fails and creates
    nothing. *)
Theorem EnsureStreams_refuses_stale js cfg name :
  1 <= Partitions cfg ->
  name ∈ (StreamNames js).1 -> HasPrefix name StreamName = true ->
  (forall i, 0 <= i < Partitions cfg -> name <> StreamNameFor i (Partitions cfg)) ->
  exists e, EnsureStreams js cfg = (js, Err e).
Proof.
  intros Hp Hin Hpre Hstale. unfold EnsureStreams.
  destruct (Z.leb_spec (Partitions cfg) 0); [lia|].
  unfold checkStaleStreams.
  assert (name ∈ List.filter (stale_name (Partitions cfg)) (StreamNames js).1) as Hf.
  { apply list_elem_of_In, filter_In. split; [by apply list_elem_of_In|].
    unfold stale_name. rewrite Hpre. simpl. apply negb_true_iff, bool_decide_eq_false.
    intros (i & Hi & Hr%elem_of_seqZ)%list_elem_of_fmap. by apply (Hstale i); [lia|]. }
  destruct (List.filter _ _); [by apply elem_of_nil in Hf|]. by eexists.
Qed.

(** When EnsureStreams succeeds, one stream per partition was provisioned,
    in order, under pairwise distinct names, each rejecting new messages when
    full (DiscardNew) so that the WAL never drops unpersisted events. *)
Theorem EnsureStreams_layout js cfg js' streams :
  1 <= Partitions cfg ->
  EnsureStreams js cfg = (js', Ok streams) ->
  sc_Name <$> streams = (fun i => StreamNameFor i (Partitions cfg)) <$> range (Partitions cfg) /\
  NoDup (sc_Name <$> streams) /\
  (forall i sc, streams !! i = Some sc ->
     sc_Discard sc = DiscardNew /\ sc_Subjects sc = partitionSubjects (Z.of_nat i) (Partitions cfg)).
Proof.
  intros Hp. unfold EnsureStreams. destruct (Z.leb_spec (Partitions cfg) 0); [lia|].
  destruct (checkStaleStreams _ _); [done|]. intros ->%ensureLoop_Ok.
  rewrite <- list_fmap_compose. unfold compose. simpl. split; [done|].
  split; [by apply names_distinct|].
  intros i sc Hi. apply list_lookup_fmap_Some in Hi as (z & -> & Hz).
  apply lookup_seqZ in Hz as [-> _]. done.
Qed.
End EnsureProperties.

(** A broker that keeps the created names, for the witnesses. *)
Definition list_broker : JetStreamAdmin := {|
  broker := list string;
  StreamNames js := (js, None);
  CreateOrUpdateStream js sc := (js ++ [sc_Name sc], None)
|}.

Lemma EnsureStreams_refuses_stale_witness :
  exists e, @EnsureStreams list_broker ["INGEST_RAW"] (mkWALConfig 1 0 0 0 2) = (["INGEST_RAW"], Err e).
Proof.
  apply (@EnsureStreams_refuses_stale list_broker ["INGEST_RAW"] (mkWALConfig 1 0 0 0 2) "INGEST_RAW").
  - simpl. lia.
  - simpl. constructor.
  - reflexivity.
  - simpl. intros i Hi Heq. unfold StreamNameFor, StreamName in Heq. simpl in Heq. discriminate.
Defined.

Lemma EnsureStreams_layout_witness :
  NoDup (sc_Name <$> (walStreamConfig (mkWALConfig 3 0 0 0 4) <$> range 4)).
Proof.
  refine (proj1 (proj2 (@EnsureStreams_layout list_broker [] (mkWALConfig 3 0 0 0 4) _ _ _ _))).
  - simpl. lia.
  - vm_compute. reflexivity.
Defined.
