(* ===== verification/Publisher.v ===== *)
(** * Package stream: publishing to the WAL and reading it back

    internal/stream/publisher.go. Publishing is asynchronous: a submission
    returns a future, awaiting the future observes its ack, its error or the end
    of the request context.  The broker client is a parameter
    ([JetStreamPublish]): its state is threaded through submissions and waits in
    the order the code makes them. *)

From S2P Require Import Prelude GoStd Sha256 CloudEvent Stream.

Definition HeaderCEType : string := "ce-type".
Definition HeaderCESubject : string := "ce-subject".
Definition HeaderCESource : string := "ce-source".
Definition HeaderCEID : string := "ce-id".
Definition HeaderVoidsID : string := "din-voids-id".
Definition HeaderDataIndexKey : string := "din-data-index-key".
(** nats.MsgIdHdr *)
Definition MsgIdHdr : string := "Nats-Msg-Id".

(** nats.Header is a map; Get and Set are methods of the client library. *)
Class NatsHeaderLib := {
  HeaderGet : gmap string (list string) -> string -> string;
  HeaderSet : gmap string (list string) -> string -> string -> gmap string (list string)
}.

(** Documented: Get returns the first value of the (case-sensitive) key or the
    empty string, Set replaces the values of the key by one. *)
Class NatsHeaderLaws (L : NatsHeaderLib) : Prop := {
  HeaderGet_spec h k :
    HeaderGet h k = match h !! k with Some (v :: _) => v | _ => "" end;
  HeaderSet_spec h k v : HeaderSet h k v = <[k := [v]]> h
}.

(** nats.Msg *)
Record Msg := mkMsg {
  msg_Subject : string;
  msg_Data : string;
  msg_Header : gmap string (list string)
}.

(** What a select over future.Ok(), future.Err() and ctx.Done() observes. *)
Inductive ack_outcome := AckOk | AckErr (e : error) | AckCtxDone (e : error).

Class JetStreamPublish := {
  wal : Type;
  future : Type;
  PublishMsgAsync : wal -> Msg -> wal * result future;
  AwaitFuture : wal -> future -> wal * ack_outcome
}.

(** The broker's documented contract: a future stands for the message it was
    returned for, an ack means the stream holds that message, and neither
    submitting nor waiting removes a stored message. This is the contract of the WAL, whose
    streams are DiscardNew (walStreamConfig); the decoded streams have their own
    (DecodedStreamLaws). *)
Class JetStreamLaws (J : JetStreamPublish) := {
  future_msg : future -> Msg;
  stream_has : wal -> Msg -> Prop;
  PublishMsgAsync_msg js m js' f : PublishMsgAsync js m = (js', Ok f) -> future_msg f = m;
  AwaitFuture_ack js f js' : AwaitFuture js f = (js', AckOk) -> stream_has js' (future_msg f);
  submit_keeps js m m' : stream_has js m' -> stream_has (PublishMsgAsync js m).1 m';
  await_keeps js f m' : stream_has js m' -> stream_has (AwaitFuture js f).1 m'
}.

(** The label observePublish counts an outcome under. *)
Inductive publish_outcome := PubOk | PubTooLarge | PubUnavailable.
Definition observePublish (err : option error) : publish_outcome :=
  match err with
  | None => PubOk
  | Some e => if errors_is e ErrPayloadTooLarge then PubTooLarge else PubUnavailable
  end.

(** NewPublisher: the partition count, at least 1. *)
Definition NewPublisher (partitions : Z) : Z := if partitions <=? 0 then 1 else partitions.

Definition classifyPublishErr (err : error) : error :=
  if errors_is err natsErrMaxPayload
  then EWrap2 "" (ESentinel ErrPayloadTooLarge) ": " err ""
  else EWrap2 "" (ESentinel ErrUnavailable) ": " err "".

Section Publish.
Context `{CloudEventLib} `{NatsHeaderLib} `{JetStreamPublish}.
Variable partitions : Z.

(** The message of an event: the RawEvent wire format, with the storage
    metadata in headers. *)
Definition buildMsg (event : StoredEvent) (body : string) : Msg :=
  let h0 : gmap string (list string) :=
    {[ MsgIdHdr := [MsgID event]; HeaderCEType := [CEType event]; HeaderCESubject := [Subject event];
       HeaderCESource := [Source event]; HeaderCEID := [ID event] ]} in
  let h1 := if VoidsID event =?s "" then h0 else HeaderSet h0 HeaderVoidsID (VoidsID event) in
  let h2 := if DataIndexKey event =?s "" then h1
            else HeaderSet h1 HeaderDataIndexKey (DataIndexKey event) in
  mkMsg (SubjectOf event partitions) body h2.

Definition submitAsync (js : wal) (event : StoredEvent) : wal * result future :=
  match MarshalJSON event with
  | Err e => (js, Err (EWrap ("marshaling event " +:+ ID event +:+ ": ") e ""))
  | Ok body =>
      match PublishMsgAsync js (buildMsg event body) with
      | (js', Err e) => (js', Err (classifyPublishErr e))
      | (js', Ok fut) => (js', Ok fut)
      end
  end.

Definition ack_error (o : ack_outcome) : option error :=
  match o with
  | AckOk => None
  | AckErr e => Some (classifyPublishErr e)
  | AckCtxDone e => Some (EWrap2 "" (ESentinel ErrUnavailable) ": " e "")
  end.

Definition awaitAck (js : wal) (fut : future) : wal * option error :=
  let '(js', o) := AwaitFuture js fut in (js', ack_error o).

(** The broker, the counted outcomes (newest last) and the returned error. *)
Definition Publish (js : wal) (event : StoredEvent) : wal * list publish_outcome * option error :=
  match submitAsync js event with
  | (js', Err e) => (js', [observePublish (Some e)], Some e)
  | (js', Ok fut) => let '(js'', err) := awaitAck js' fut in (js'', [observePublish err], err)
  end.

(** The submission loop of PublishBatch: errByIndex and the in-flight futures
    paired with their index. *)
Fixpoint submitLoop (js : wal) (i : nat) (events : list StoredEvent)
    (errByIndex : list (option error)) (inflight : list (nat * future)) (obs : list publish_outcome)
    : wal * list (option error) * list (nat * future) * list publish_outcome :=
  match events with
  | [] => (js, errByIndex, inflight, obs)
  | event :: events' =>
      match submitAsync js event with
      | (js', Err e) =>
          submitLoop js' (S i) events' (<[i := Some e]> errByIndex) inflight
            (obs ++ [observePublish (Some e)])
      | (js', Ok fut) => submitLoop js' (S i) events' errByIndex (inflight ++ [(i, fut)]) obs
      end
  end.

(** The waiting loop. *)
Fixpoint awaitLoop (js : wal) (inflight : list (nat * future)) (errByIndex : list (option error))
    (obs : list publish_outcome) : wal * list (option error) * list publish_outcome :=
  match inflight with
  | [] => (js, errByIndex, obs)
  | (i, fut) :: rest =>
      let '(js', err) := awaitAck js fut in
      awaitLoop js' rest
        (match err with Some _ => <[i := err]> errByIndex | None => errByIndex end)
        (obs ++ [observePublish err])
  end.

(** for _, e := range errByIndex { if e != nil { return e } }; return nil *)
Fixpoint firstErr (errs : list (option error)) : option error :=
  match errs with
  | [] => None
  | Some e :: _ => Some e
  | None :: errs' => firstErr errs'
  end.

Definition PublishBatch (js : wal) (events : list StoredEvent)
    : wal * list publish_outcome * option error :=
  match events with
  | [] => (js, [], None)
  | [event] => Publish js event
  | _ =>
      let '(js1, errs, inflight, obs) := submitLoop js 0 events (replicate (length events) None) [] [] in
      let '(js2, errs', obs') := awaitLoop js1 inflight errs obs in
      (js2, obs', firstErr errs')
  end.

(** ParseMsg: rebuild the stored event from a consumed message. *)
Definition ParseMsg (headers : gmap string (list string)) (body : string) : result StoredEvent :=
  match UnmarshalJSON body with
  | Err e => Err (EWrap "unmarshaling raw event: " e "")
  | Ok raw => Ok (mkStored raw (HeaderGet headers HeaderDataIndexKey) (HeaderGet headers HeaderVoidsID))
  end.

(** ** Reference: submit every event in order, then await the accepted ones in
    order, and report one outcome per event. *)

Fixpoint submitAll (js : wal) (events : list StoredEvent) : wal * list (result future) :=
  match events with
  | [] => (js, [])
  | event :: events' =>
      let '(js', r) := submitAsync js event in
      let '(js'', rs) := submitAll js' events' in (js'', r :: rs)
  end.

Fixpoint awaitAll (js : wal) (rs : list (result future)) : wal * list (option error) :=
  match rs with
  | [] => (js, [])
  | Err e :: rs' => let '(js', os) := awaitAll js rs' in (js', Some e :: os)
  | Ok fut :: rs' =>
      let '(js', o) := awaitAck js fut in
      let '(js'', os) := awaitAll js' rs' in (js'', o :: os)
  end.

Definition batch_outcomes (js : wal) (events : list StoredEvent) : wal * list (option error) :=
  let '(js', rs) := submitAll js events in awaitAll js' rs.
End Publish.

(** ** Lemmas *)

Lemma insert_middle {A} (pre : list A) x y l :
  <[length pre := y]> (pre ++ x :: l) = pre ++ y :: l.
Proof. induction pre as [|a pre IH]; simpl; [done | by f_equal]. Qed.

Lemma firstErr_None errs : firstErr errs = None <-> Forall (fun o => o = None) errs.
Proof.
  induction errs as [|[e|] errs IH]; simpl.
  - split; [constructor | done].
  - split; [done|]. intros Hf. inversion Hf. done.
  - rewrite IH, Forall_cons. intuition.
Qed.

Lemma firstErr_app errs errs' :
  Forall (fun o => o = None) errs -> firstErr (errs ++ errs') = firstErr errs'.
Proof. by induction 1 as [|? ? -> _ IH]. Qed.

Section PublishLemmas.
Context `{CloudEventLib} `{NatsHeaderLib} `{JetStreamPublish}.
Variable partitions : Z.

(** The error a submission leaves in errByIndex, the futures it leaves in
    flight. *)
Definition sync_err (r : result future) : option error :=
  match r with Ok _ => None | Err e => Some e end.
Fixpoint in_flight (i : nat) (rs : list (result future)) : list (nat * future) :=
  match rs with
  | [] => []
  | Ok f :: rs' => (i, f) :: in_flight (S i) rs'
  | Err _ :: rs' => in_flight (S i) rs'
  end.

Lemma length_submitAll js events js' rs :
  submitAll partitions js events = (js', rs) -> length rs = length events.
Proof.
  revert js js' rs. induction events as [|e events IH]; intros js js' rs; simpl; [by intros [= <- <-]|].
  destruct (submitAsync partitions js e) as [js1 r].
  destruct (submitAll partitions js1 events) as [js2 rs'] eqn:E.
  intros [= <- <-]. simpl. by rewrite (IH _ _ _ E).
Qed.

Lemma submitLoop_eq events : forall js pre inflight obs js' rs,
  submitAll partitions js events = (js', rs) ->
  exists obs',
    submitLoop partitions js (length pre) events (pre ++ replicate (length events) None) inflight obs =
      (js', pre ++ (sync_err <$> rs), inflight ++ in_flight (length pre) rs, obs ++ obs') /\
    (length obs' + length (in_flight (length pre) rs) = length events)%nat.
Proof.
  induction events as [|e events IH]; intros js pre inflight obs js' rs; simpl.
  - intros [= <- <-]. exists []. by rewrite !app_nil_r.
  - destruct (submitAsync partitions js e) as [js1 r].
    destruct (submitAll partitions js1 events) as [js2 rs'] eqn:E. intros [= <- <-].
    destruct r as [fut|err].
    + destruct (IH js1 (pre ++ [None]) (inflight ++ [(length pre, fut)]) obs _ _ E) as (obs' & Hs & Hl).
      rewrite length_app in Hs, Hl. simpl in Hs, Hl. rewrite Nat.add_1_r in Hs, Hl.
      exists obs'. rewrite <- !app_assoc in Hs. simpl in Hs. rewrite Hs. simpl. split; [done | lia].
    + rewrite insert_middle.
      destruct (IH js1 (pre ++ [Some err]) inflight (obs ++ [observePublish (Some err)]) _ _ E)
        as (obs' & Hs & Hl).
      rewrite length_app in Hs, Hl. simpl in Hs, Hl. rewrite Nat.add_1_r in Hs, Hl.
      exists (observePublish (Some err) :: obs'). rewrite <- !app_assoc in Hs. simpl in Hs.
      rewrite Hs. simpl. split; [done | lia].
Qed.

Lemma awaitLoop_eq rs : forall js pre obs js' os,
  awaitAll js rs = (js', os) ->
  exists obs',
    awaitLoop js (in_flight (length pre) rs) (pre ++ (sync_err <$> rs)) obs =
      (js', pre ++ os, obs ++ obs') /\ length obs' = length (in_flight (length pre) rs).
Proof.
  induction rs as [|r rs IH]; intros js pre obs js' os; simpl.
  - intros [= <- <-]. exists []. by rewrite !app_nil_r.
  - destruct r as [fut|err].
    + destruct (awaitAck js fut) as [js1 o] eqn:Ea.
      destruct (awaitAll js1 rs) as [js2 os'] eqn:E. intros [= <- <-]. simpl. rewrite Ea.
      destruct (IH js1 (pre ++ [o]) (obs ++ [observePublish o]) _ _ E) as (obs' & Hs & Hl).
      rewrite length_app in Hs, Hl. simpl in Hs, Hl. rewrite Nat.add_1_r in Hs, Hl.
      exists (observePublish o :: obs'). rewrite <- !app_assoc in Hs. simpl in Hs.
      destruct o as [err|]; rewrite ?insert_middle; (split; [exact Hs | simpl; lia]).
    + destruct (awaitAll js rs) as [js2 os'] eqn:E. intros [= <- <-]. simpl.
      destruct (IH js (pre ++ [Some err]) obs _ _ E) as (obs' & Hs & Hl).
      rewrite length_app in Hs, Hl. simpl in Hs, Hl. rewrite Nat.add_1_r in Hs, Hl.
      exists obs'. rewrite <- !app_assoc in Hs. split; [exact Hs | done].
Qed.

(** The index bookkeeping computes the positional reference. *)
Lemma PublishBatch_reference js events js' os :
  batch_outcomes partitions js events = (js', os) ->
  exists obs, PublishBatch partitions js events = (js', obs, firstErr os) /\
              length obs = length events.
Proof.
  unfold batch_outcomes. destruct (submitAll partitions js events) as [js1 rs] eqn:Es. intros Ha.
  destruct events as [|e1 [|e2 events]].
  - simpl in Es. simplify_eq. simpl in Ha. simplify_eq. by exists [].
  - simpl in *. unfold Publish. destruct (submitAsync partitions js e1) as [js2 [fut|err]].
    + simplify_eq. simpl in Ha. destruct (awaitAck js1 fut) as [js3 o]. simplify_eq.
      exists [observePublish o]. by destruct o.
    + simplify_eq. simpl in Ha. simplify_eq. by exists [observePublish (Some err)].
  - destruct (submitLoop_eq (e1 :: e2 :: events) js [] [] [] _ _ Es) as (obs1 & Hs & Hl1).
    destruct (awaitLoop_eq rs js1 [] obs1 _ _ Ha) as (obs2 & Hw & Hl2).
    change (@length (option error) []) with 0%nat in *. rewrite !app_nil_l in *.
    exists (obs1 ++ obs2). unfold PublishBatch. rewrite Hs, Hw. split; [done|].
    rewrite length_app. lia.
Qed.

(** Every outcome is a marshal fault or carries one of the two retry classes. *)
Definition classified (e : error) : Prop :=
  errors_is e ErrPayloadTooLarge = true \/ errors_is e ErrUnavailable = true.

Lemma classifyPublishErr_classified e : classified (classifyPublishErr e).
Proof. unfold classified, classifyPublishErr. destruct (errors_is e natsErrMaxPayload); [left | right]; done. Qed.

Lemma ack_error_classified o e : ack_error o = Some e -> classified e.
Proof.
  destruct o; intros [= <-]; [apply classifyPublishErr_classified | by right].
Qed.
End PublishLemmas.

(** ** Properties *)

(** C13: PublishBatch, with its index bookkeeping, is the reference: every event
    is submitted before any ack is awaited, one outcome is observed per event,
    and the error returned is that of the lowest-index failing event (nil when
    every event was acknowledged). *)
Theorem PublishBatch_positional `{CloudEventLib} `{NatsHeaderLib} `{JetStreamPublish}
    partitions js events :
  exists obs,
    PublishBatch partitions js events =
      ((batch_outcomes partitions js events).1, obs, firstErr (batch_outcomes partitions js events).2) /\
    length obs = length events.
Proof.
  destruct (batch_outcomes partitions js events) as [js' os] eqn:E.
  by apply PublishBatch_reference.
Qed.

(** A batch returns nil exactly when every event of it was acknowledged:
    the handler's 200 is never sent for an event the WAL did not accept. *)
Theorem PublishBatch_nil_iff_all_acked `{CloudEventLib} `{NatsHeaderLib} `{JetStreamPublish}
    partitions js events :
  (PublishBatch partitions js events).2 = None <->
  Forall (fun o => o = None) (batch_outcomes partitions js events).2.
Proof.
  destruct (batch_outcomes partitions js events) as [js' os] eqn:E.
  destruct (PublishBatch_reference _ _ _ _ _ E) as (obs & -> & _). apply firstErr_None.
Qed.

(** Whatever the broker does, an event whose JSON can be marshalled fails
    only with one of the two classes the HTTP layer maps to 413 and 503. *)
Theorem Publish_error_classified `{CloudEventLib} `{NatsHeaderLib} `{JetStreamPublish}
    partitions js (event : StoredEvent) body e :
  MarshalJSON event = Ok body ->
  (Publish partitions js event).2 = Some e -> classified e.
Proof.
  intros Hb. unfold Publish, submitAsync. rewrite Hb.
  destruct (PublishMsgAsync js _) as [js' [fut|err]]; simpl.
  - unfold awaitAck. destruct (AwaitFuture js' fut) as [js'' o]. apply ack_error_classified.
  - intros [= <-]. apply classifyPublishErr_classified.
Qed.

Section RoundTrip.
Context `{CloudEventLib} `{L : NatsHeaderLib} `{!NatsHeaderLaws L}.

Lemma HeaderGet_buildMsg partitions event body :
  HeaderGet (msg_Header (buildMsg partitions event body)) HeaderDataIndexKey = DataIndexKey event /\
  HeaderGet (msg_Header (buildMsg partitions event body)) HeaderVoidsID = VoidsID event.
Proof.
  unfold buildMsg. simpl. rewrite !HeaderGet_spec.
  destruct (String.eqb_spec (VoidsID event) "") as [Hv|Hv];
    destruct (String.eqb_spec (DataIndexKey event) "") as [Hk|Hk];
    rewrite ?HeaderSet_spec; simplify_map_eq; by rewrite ?Hv, ?Hk.
Qed.

Lemma ParseMsg_buildMsg partitions (event : StoredEvent) body :
  UnmarshalJSON body = Ok (Raw event) ->
  ParseMsg (msg_Header (buildMsg partitions event body)) (msg_Data (buildMsg partitions event body)) = Ok event.
Proof.
  intros Hu. unfold ParseMsg. simpl msg_Data. rewrite Hu.
  destruct (HeaderGet_buildMsg partitions event body) as [-> ->]. by destruct event.
Qed.

(** A consumer reads back exactly the stored event that was published: the
    body carries the raw event and the headers carry the storage metadata that
    the body cannot (DataIndexKey and VoidsID), empty values included. *)
Theorem ParseMsg_roundtrip partitions (event : StoredEvent) body :
  MarshalJSON event = Ok body -> UnmarshalJSON body = Ok (Raw event) ->
  ParseMsg (msg_Header (buildMsg partitions event body)) (msg_Data (buildMsg partitions event body))
  = Ok event.
Proof. intros _. apply ParseMsg_buildMsg. Qed.
End RoundTrip.

(** ** Instances for the witnesses *)

(** A codec that writes the header id and the data of an event, fields separated
    by a bar: enough to carry the sample events. *)
Definition sample_raw : RawEvent := mkRaw sample_header "42" "".
Definition sample_stored : StoredEvent := mkStored sample_raw "blobs/k" "void-1".

Definition sample_lib : CloudEventLib := {|
  TypeStatus := "dimo.status"; TypeFingerprint := "dimo.fingerprint"; TypeEvents := "dimo.events";
  TypeSignals := "dimo.signals"; TypeRawStatus := "dimo.raw.status";
  TypeAttestation := "dimo.attestation"; TypeAttestationTombstone := "dimo.tombstone";
  HeaderKey h := Subject h +:+ "|" +:+ fmt_d (Time h) +:+ "|" +:+ CEType h +:+ "|" +:+ Source h +:+ "|" +:+ ID h;
  MarshalJSON r := Ok (ID r +:+ "|" +:+ Data r);
  UnmarshalJSON b := if b =?s "local-1|42" then Ok sample_raw else Err (ENew "invalid JSON");
  MarshalHeader h := Ok (ID h +:+ Source h +:+ Producer h +:+ Subject h +:+ CEType h);
  DecodeERC721DID s :=
    if HasPrefix s "did:erc721:" then Ok (mkDID 137 (TrimPrefix s "did:erc721:") 1) else Err (ENew "not a DID");
  DecodeLegacyNFTDID s :=
    if HasPrefix s "did:nft:" then Ok (mkDID 137 (TrimPrefix s "did:nft:") 1) else Err (ENew "not a DID");
  DIDString d := "did:erc721:" +:+ ContractAddress d;
  DecodeEthrDID s := if HasPrefix s "did:ethr:" then Ok s else Err (ENew "not an ethr DID");
  BytesForSignature r := if DataBase64 r =?s "" then Data r else DataBase64 r;
  ExtrasJSON h := None
|}.

Definition map_headers : NatsHeaderLib := {|
  HeaderGet h k := match h !! k with Some (v :: _) => v | _ => "" end;
  HeaderSet h k v := <[k := [v]]> h
|}.
#[export] Instance map_headers_laws : NatsHeaderLaws map_headers.
Proof. by split. Qed.

(** A broker that accepts everything and whose n-th ack fails when n is in its
    list. *)
Definition sample_js (fails : list (nat * error)) : JetStreamPublish := {|
  wal := nat;
  future := nat;
  PublishMsgAsync n m := (S n, Ok n);
  AwaitFuture n f :=
    (n, match List.find (fun p => Nat.eqb p.1 f) fails with Some (_, e) => AckErr e | None => AckOk end)
|}.

#[export] Instance msg_eq_dec : EqDecision Msg.
Proof. solve_decision. Defined.

(** A broker that stores on submission and acks what it stores. *)
Definition list_js : JetStreamPublish := {|
  wal := list Msg;
  future := Msg;
  PublishMsgAsync js m := (js ++ [m], Ok m);
  AwaitFuture js m := (js, if decide (m ∈ js) then AckOk else AckErr (ENew "no stream"))
|}.

#[export] Instance list_js_laws : JetStreamLaws list_js.
Proof.
  refine {| future_msg := fun f : @future list_js => (f : Msg);
            stream_has := fun (js : @wal list_js) m => m ∈ (js : list Msg) |}.
  - by intros js m js' f [= _ <-].
  - intros js f js'. simpl. destruct (decide _); [|done]. by intros [= <-].
  - intros js m m' Hm. simpl. apply elem_of_app. by left.
  - done.
Defined.

Lemma ParseMsg_roundtrip_witness :
  @ParseMsg sample_lib map_headers
    (msg_Header (@buildMsg sample_lib map_headers 4 sample_stored "local-1|42")) "local-1|42" = Ok sample_stored.
Proof.
  apply (@ParseMsg_roundtrip sample_lib map_headers _ 4 sample_stored "local-1|42"); reflexivity.
Defined.

Lemma Publish_error_classified_witness :
  classified (classifyPublishErr (ESentinel natsErrMaxPayload)).
Proof.
  apply (@Publish_error_classified sample_lib map_headers (sample_js [(0%nat, ESentinel natsErrMaxPayload)])
           4 0%nat sample_stored "local-1|42"); vm_compute; reflexivity.
Defined.

(** The documentation of PublishBatch says the returned error lets
    ErrPayloadTooLarge win over ErrUnavailable; the code returns the first
    failure by position, so a batch whose first event timed out and whose second
    is oversized answers with the retryable class. *)
Example PublishBatch_first_failure_wins :
  let js := sample_js [(0%nat, ENew "timeout"); (1%nat, ESentinel natsErrMaxPayload)] in
  exists e, (@PublishBatch sample_lib map_headers js 1 0%nat [sample_stored; sample_stored]).2 = Some e /\
    errors_is e ErrUnavailable = true /\ errors_is e ErrPayloadTooLarge = false.
Proof. eexists. split; [vm_compute; reflexivity|]. by split. Qed.
