(* ===== verification/Blob.v ===== *)
(** * Packages objstore, split and blobcrypt: externalised payloads

    internal/objstore/objstore.go, internal/split/split.go and
    internal/blobcrypt. An object store is an interface ([ObjectStore]) with the
    contract a put that returned nil wrote exactly that object
    ([ObjectStoreLaws]); the splitter is proved against the contract, the
    encrypting wrapper discharges it. The cipher is AES-256-GCM ([AesGcm.Gcm]). *)

From S2P Require Import Prelude GoStd Sha256 AesGcm CloudEvent Stream Publisher.

(** ** Package objstore *)

(** The store surface the splitter writes to. *)
Class ObjectStore := {
  store : Type;
  PutObject : store -> string -> string -> store * option error
}.

(** What a store promises: an abstract content map, updated at the key (and
    nowhere else) by a put that returns nil. *)
Class ObjectStoreLaws (S : ObjectStore) := {
  contents : store -> gmap string string;
  PutObject_ok st k b st' : PutObject st k b = (st', None) -> contents st' = <[k := b]> (contents st)
}.

Definition IsLocalPath (bucket : string) : bool :=
  HasPrefix bucket "file://" || HasPrefix bucket "/".
Definition LocalRoot (bucket : string) : string := TrimPrefix bucket "file://".

(** ** Package split *)

Definition DefaultThreshold : Z := 1048576.
Definition DefaultPrefix : string := "cloudevent/blobs/".

(** split.Splitter, without the store (threaded) and the clock (an argument). *)
Record Splitter := mkSplitter { threshold : Z; prefix : string }.

Definition NewSplitter (prefix : string) (threshold : Z) : Splitter :=
  mkSplitter (if threshold <=? 0 then DefaultThreshold else threshold)
             (if prefix =?s "" then DefaultPrefix else prefix).

Definition dataPayloadLen (ev : RawEvent) : Z :=
  if negb (DataBase64 ev =?s "") then b64_DecodedLen (strlen (DataBase64 ev)) else strlen (Data ev).

Definition decodePayload (ev : RawEvent) : result string :=
  if negb (DataBase64 ev =?s "")
  then match b64_DecodeString (DataBase64 ev) with
       | Some b => Ok b
       | None => Err (ENew "illegal base64 data")
       end
  else Ok (Data ev).

(** <prefix><subject>/<year>/<month>/<day>/<uuid> *)
Definition buildBlobKey (prefix subject : string) (t : Z) (uuid : string) : string :=
  let '(y, m, d) := Date t in
  prefix +:+ subject +:+ "/" +:+ fmt_d y +:+ "/" +:+ fmt_0d 2 m +:+ "/" +:+ fmt_0d 2 d +:+ "/" +:+ uuid.

Section Split.
Context `{ObjectStore}.

Definition MaybeSplit (s : Splitter) (now : Z) (uuid : string) (st : store) (event : RawEvent)
    : store * result StoredEvent :=
  if dataPayloadLen event <=? threshold s then (st, Ok (mkStored event "" ""))
  else
    match decodePayload event with
    | Err e => (st, Err (EWrap ("decode data_base64 for event " +:+ ID event +:+ ": ") e ""))
    | Ok raw =>
        let key := buildBlobKey (prefix s) (Subject event) now uuid in
        match PutObject st key raw with
        | (st', Some e) =>
            (st', Err (EWrap ("put blob " +:+ key +:+ " for event " +:+ ID event +:+ ": ") e ""))
        | (st', None) => (st', Ok (mkStored (mkRaw (Hdr event) "" "") key ""))
        end
    end.
End Split.

(** ** Package blobcrypt *)

Definition magic : string := "DBE1".

(** NewCipher: no key means no cipher; a malformed one is an error. A cipher is
    its key. *)
Definition NewCipher (b64Key : string) : result (option string) :=
  if b64Key =?s "" then Ok None
  else match b64_DecodeString b64Key with
       | None => Err (ENew "blobcrypt: BLOB_ENCRYPTION_KEY is not valid base64")
       | Some key =>
           if negb (strlen key =? 32)
           then Err (ENew ("blobcrypt: BLOB_ENCRYPTION_KEY must decode to 32 bytes (AES-256), got "
                           +:+ fmt_d (strlen key)))
           else Ok (Some key)
       end.

Definition IsSealed (b : string) : bool := HasPrefix b magic.

(** c.aead.NonceSize(). *)
Definition NonceSize : nat := Gcm.nonceSize.

(** io.ReadFull(rand.Reader, nonce): the random source delivers some bytes or an
    error; fewer than the nonce needs is an error too. *)
Definition readNonce (rand : result string) : result string :=
  r ← rand;
  if (String.length r <? NonceSize)%nat then Err (ENew "unexpected EOF")
  else Ok (String.substring 0 NonceSize r).

(** Cipher.Seal; the panic of a plaintext of more than 64 GiB is an error here. *)
Definition Seal (key : string) (rand : result string) (aad plaintext : string) : result string :=
  nonce ← wrap_err (fun e => EWrap "blobcrypt: nonce: " e "") (readNonce rand);
  match Gcm.gcmSeal key nonce plaintext aad with
  | Some ct => Ok (magic +:+ nonce +:+ ct)
  | None => Err (ENew "panic: crypto/cipher: message too large for GCM")
  end.

Definition Open (key aad blob : string) : result string :=
  if negb (IsSealed blob) then Ok blob
  else
    let rest := String.substring 4 (String.length blob - 4) blob in
    if (String.length rest <? NonceSize)%nat then Err (ENew "blobcrypt: sealed blob too short")
    else
      let nonce := String.substring 0 NonceSize rest in
      let ct := String.substring NonceSize (String.length rest - NonceSize) rest in
      match Gcm.gcmOpen key nonce ct aad with
      | Some pt => Ok pt
      | None => Err (ENew ("blobcrypt: open " +:+ fmt_q aad))
      end.

(** encStore.PutObject and WrapStore over an underlying store; the state pairs
    the underlying store with the random source (what its next reads return). *)
Definition encPutObject `{ObjectStore} (key : string) (st : store * list (result string)) (k body : string)
    : store * list (result string) * option error :=
  let rand := match st.2 with r :: _ => r | [] => Err (ENew "EOF") end in
  match Seal key rand k body with
  | Err e => (st.1, tail st.2, Some e)
  | Ok sealed => let '(st', err) := PutObject st.1 k sealed in (st', tail st.2, err)
  end.

Definition WrapStore (S : ObjectStore) (c : option string) : ObjectStore :=
  match c with
  | None => {| store := @store S * list (result string);
               PutObject st k b := let '(s', e) := PutObject st.1 k b in ((s', st.2), e) |}
  | Some key => {| store := @store S * list (result string); PutObject := encPutObject key |}
  end.

(** ** Lemmas *)

Lemma readNonce_length rand nonce : readNonce rand = Ok nonce -> String.length nonce = NonceSize.
Proof.
  unfold readNonce. destruct rand as [r|e]; simpl; [|done].
  destruct (Nat.ltb_spec (String.length r) NonceSize); [done|]. intros [= <-].
  by apply length_substring_0.
Qed.

(** Opening magic ++ nonce ++ ciphertext hands nonce and ciphertext on. *)
Lemma Open_sealed key aad nonce ct :
  String.length nonce = NonceSize ->
  Open key aad (magic +:+ nonce +:+ ct) =
  match Gcm.gcmOpen key nonce ct aad with
  | Some pt => Ok pt
  | None => Err (ENew ("blobcrypt: open " +:+ fmt_q aad))
  end.
Proof.
  intros Hn. unfold Open, IsSealed. rewrite HasPrefix_app. simpl negb. cbv iota.
  change 4%nat with (String.length magic). rewrite string_length_app, substring_app_r.
  rewrite Nat.add_comm, Nat.add_sub, substring_all.
  rewrite string_length_app, <- Hn.
  destruct (Nat.ltb_spec (String.length nonce + String.length ct) (String.length nonce)); [lia|].
  rewrite substring_app_l, substring_app_r, Nat.add_comm, Nat.add_sub, substring_all. done.
Qed.

Lemma Seal_Ok key rand aad pt sealed :
  Seal key rand aad pt = Ok sealed ->
  exists nonce ct, readNonce rand = Ok nonce /\ Gcm.gcmSeal key nonce pt aad = Some ct /\ sealed = magic +:+ nonce +:+ ct.
Proof.
  unfold Seal. destruct (readNonce rand) as [nonce|e] eqn:E; simpl; [|done].
  destruct (Gcm.gcmSeal key nonce pt aad) as [ct|] eqn:Es; [|done]. intros [= <-]. by exists nonce, ct.
Qed.

Lemma Open_Seal key rand aad pt sealed :
  Seal key rand aad pt = Ok sealed -> Open key aad sealed = Ok pt.
Proof.
  intros (nonce & ct & Hn & Hs & ->)%Seal_Ok. rewrite Open_sealed by by eapply readNonce_length. by rewrite (Seal_Open _ _ _ _ _ Hs).
Qed.

(** The decrypted view of a store. *)
Definition opened (key : string) (m : gmap string string) : gmap string string :=
  map_imap (fun k b => match Open key k b with Ok p => Some p | Err _ => None end) m.

Lemma opened_insert key k sealed pt m :
  Open key k sealed = Ok pt -> opened key (<[k := sealed]> m) = <[k := pt]> (opened key m).
Proof. intros Ho. unfold opened. rewrite map_imap_insert. by rewrite Ho. Qed.

(** The encrypting wrapper keeps the store contract, seen through decryption. *)
#[export] Instance wrapped_laws (S : ObjectStore) (c : option string) (L : ObjectStoreLaws S) :
  ObjectStoreLaws (WrapStore S c).
Proof.
  destruct c as [key|].
  - refine {| contents := fun st : @store (WrapStore S (Some key)) => opened key (contents (st.1 : @store S)) |}.
    intros [st rs] k b [st' rs']. simpl. unfold encPutObject. simpl.
    destruct (Seal key _ k b) as [sealed|e] eqn:E; [|done].
    destruct (PutObject st k sealed) as [st1 err] eqn:Ep. intros [= <- _ ->]. simpl.
    rewrite (PutObject_ok _ _ _ _ Ep). apply opened_insert. by eapply Open_Seal.
  - refine {| contents := fun st : @store (WrapStore S None) => contents (st.1 : @store S) |}.
    intros [st rs] k b [st' rs']. simpl.
    destruct (PutObject st k b) as [st1 err] eqn:Ep. intros [= <- _ ->]. by apply PutObject_ok.
Defined.

(** ** Properties *)

Section SplitProperties.
Context `{S : ObjectStore} `{L : !ObjectStoreLaws S}.

(** Where the payload of an event is after a split: inline as it came, with the
    store untouched, or in the store, decoded, under DataIndexKey. *)
Definition payload_kept (s : Splitter) (now : Z) (uuid : string) (st : store) (event : RawEvent)
    (st' : store) (stored : StoredEvent) : Prop :=
  (Raw stored = event /\ DataIndexKey stored = "" /\ st' = st) \/
  (exists payload, decodePayload event = Ok payload /\
     Data stored = "" /\ DataBase64 stored = "" /\
     DataIndexKey stored = buildBlobKey (prefix s) (Subject event) now uuid /\
     contents st' = <[DataIndexKey stored := payload]> (contents st)).

Lemma MaybeSplit_Ok s now uuid st event st' stored :
  MaybeSplit s now uuid st event = (st', Ok stored) ->
  Hdr stored = Hdr event /\ VoidsID stored = "" /\ payload_kept s now uuid st event st' stored.
Proof.
  unfold MaybeSplit. destruct (dataPayloadLen event <=? threshold s).
  { intros [= <- <-]. do 2 (split; [done|]). by left. }
  destruct (decodePayload event) as [raw|e] eqn:Ed; [|done].
  destruct (PutObject st _ raw) as [st1 [e|]] eqn:Ep; [done|]. intros [= <- <-]. simpl.
  apply PutObject_ok in Ep. do 2 (split; [done|]). right. by exists raw.
Qed.

(** Splitting loses nothing: on success the header is unchanged and either
    the event is stored inline as it came and the store is untouched, or its
    payload is cleared and the decoded payload is what the store now holds under
    DataIndexKey. *)
Theorem MaybeSplit_lossless s now uuid st event st' stored :
  MaybeSplit s now uuid st event = (st', Ok stored) ->
  Hdr stored = Hdr event /\ VoidsID stored = "" /\ payload_kept s now uuid st event st' stored.
Proof. apply MaybeSplit_Ok. Qed.

(** The node never publishes an oversized inline payload: what MaybeSplit
    returns has a payload of at most the threshold, measured as the code
    measures it. *)
Theorem MaybeSplit_bounded s now uuid st event st' stored :
  0 <= threshold s ->
  MaybeSplit s now uuid st event = (st', Ok stored) -> dataPayloadLen stored <= threshold s.
Proof.
  intros Ht. unfold MaybeSplit. destruct (dataPayloadLen event <=? threshold s) eqn:E.
  - intros [= <- <-]. simpl. by apply Z.leb_le.
  - destruct (decodePayload event) as [raw|e]; [|done].
    destruct (PutObject st _ raw) as [st1 [e|]]; [done|]. intros [= <- <-]. done.
Qed.

(** A failed split leaves no trace in the event flow and says why: either
    the base64 text was malformed and the store was not touched, or the put
    itself failed. *)
Theorem MaybeSplit_error s now uuid st event st' e :
  MaybeSplit s now uuid st event = (st', Err e) ->
  threshold s < dataPayloadLen event /\
  ((st' = st /\ is_ok (decodePayload event) = false) \/
   exists raw pe, decodePayload event = Ok raw /\
     PutObject st (buildBlobKey (prefix s) (Subject event) now uuid) raw = (st', Some pe)).
Proof.
  unfold MaybeSplit. destruct (dataPayloadLen event <=? threshold s) eqn:E; [done|].
  apply Z.leb_gt in E. destruct (decodePayload event) as [raw|de] eqn:Ed.
  - destruct (PutObject st _ raw) as [st1 [pe|]] eqn:Ep; [|done]. intros [= <- _].
    split; [done|]. right. by exists raw, pe.
  - intros [= <- _]. by split; [|left].
Qed.
End SplitProperties.

(** An externalised payload survives encryption: splitting through the
    encrypting store and opening the stored blob under its own key gives the
    decoded payload back, for every cipher setting. *)
Theorem split_through_encryption `{S : ObjectStore} `{L : !ObjectStoreLaws S}
    key s now uuid st event st' stored payload :
  MaybeSplit (H := WrapStore S (Some key)) s now uuid st event = (st', Ok stored) ->
  decodePayload event = Ok payload -> DataIndexKey stored <> "" ->
  exists blob, contents (ObjectStoreLaws := L) st'.1 !! DataIndexKey stored = Some blob /\
    Open key (DataIndexKey stored) blob = Ok payload.
Proof.
  intros Hs Hp Hk.
  apply (MaybeSplit_Ok (L := wrapped_laws S (Some key) L)) in Hs
    as (_ & _ & [(_ & Hnk & _) | (p & Hp' & _ & _ & _ & Hc)]); [done|].
  rewrite Hp in Hp'. injection Hp' as <-. assert (opened key (contents st'.1) !! DataIndexKey stored = Some payload) as Hl.
  { change (opened key (contents st'.1)) with (contents (ObjectStoreLaws := wrapped_laws S (Some key) L) st').
    rewrite Hc. apply lookup_insert_eq. }
  unfold opened in Hl. rewrite map_lookup_imap in Hl.
  destruct (contents st'.1 !! DataIndexKey stored) as [blob|]; simpl in Hl; [|done].
  exists blob. split; [done|]. by destruct (Open key _ blob); simplify_eq.
Qed.

(** A blob without the magic prefix (written before a key existed) opens to
    itself under any key, and one sealed with a key opens to its plaintext. *)
Theorem Open_legacy_or_sealed key aad blob :
  (IsSealed blob = false -> Open key aad blob = Ok blob) /\
  (forall rand pt, Seal key rand aad pt = Ok blob -> IsSealed blob = true /\ Open key aad blob = Ok pt).
Proof.
  split.
  - intros Hs. unfold Open. by rewrite Hs.
  - intros rand pt Hs. split; [|by eapply Open_Seal].
    apply Seal_Ok in Hs as (nonce & ct & _ & _ & ->). apply HasPrefix_app.
Qed.

(** The parts of a sealed blob that is long enough. *)
Lemma sealed_parts blob :
  IsSealed blob = true -> (4 + NonceSize <= String.length blob)%nat ->
  exists nonce ct, blob = magic +:+ nonce +:+ ct /\ String.length nonce = NonceSize.
Proof.
  intros [rest ->]%HasPrefix_spec Hlen. rewrite string_length_app in Hlen. change (String.length magic) with 4%nat in Hlen.
  exists (String.substring 0 NonceSize rest), (String.substring NonceSize (String.length rest - NonceSize) rest).
  split; [|apply length_substring_0; lia]. f_equal. rewrite <- (substring_all rest) at 1.
  replace (String.length rest) with (NonceSize + (String.length rest - NonceSize))%nat at 1 by lia. apply substring_split.
Qed.

(** C29: What opens was sealed. Opening a blob that carries the magic prefix gives a payload
    exactly if sealing that payload under the same key and name, with some nonce, makes
    that very blob: one with any other byte in its ciphertext or tag is refused, and so is
    one that was cut short. *)
Theorem Open_accepts_exactly_sealed key aad blob pt :
  IsSealed blob = true ->
  Open key aad blob = Ok pt <-> exists nonce, Seal key (Ok nonce) aad pt = Ok blob.
Proof.
  intros Hs. split; [|intros [nonce Hn]; by eapply Open_Seal].
  destruct (decide (4 + NonceSize <= String.length blob)%nat) as [Hlen|Hlen].
  - destruct (sealed_parts _ Hs Hlen) as (nonce & ct & -> & Hn). rewrite Open_sealed by done.
    destruct (Gcm.gcmOpen key nonce ct aad) as [p|] eqn:Ho; [|done]. intros [= <-]. exists nonce.
    unfold Seal, readNonce. simpl. rewrite Hn, Nat.ltb_irrefl. simpl. rewrite <- Hn, substring_all.
    by rewrite (Open_Seal_inv _ _ _ _ _ Ho).
  - unfold Open. rewrite Hs. simpl negb. cbv iota. rewrite length_substring_tail.
    by replace (String.length blob - 4 <? NonceSize)%nat with true by (symmetry; apply Nat.ltb_lt; change NonceSize with 12%nat in *; lia).
Qed.

(** The polynomial whose roots are the hash keys under which two object names have the
    same tag for a ciphertext. *)
Definition nameDifference (k k' ct : string) : list Z :=
  differences (authBlocks (bytes_of k) (bytes_of ct)) (authBlocks (bytes_of k') (bytes_of ct)).
Definition hashKeyOf (key : string) : Z := Gcm.hashKey (Aes.keySchedule (bytes_of key)).
(** The ciphertext of a sealed blob, without magic, nonce and tag. *)
Definition ciphertext (blob : string) : string :=
  String.substring (4 + NonceSize) (String.length blob - (4 + NonceSize + Gcm.tagSize)) blob.

(** C30: A sealed blob is bound to its name. Moved to another object name, a blob opens
    exactly if the key's hash key is a root of the polynomial of the differences between
    the two names, which never is the zero polynomial; otherwise opening it is an error. *)
Theorem sealed_blob_bound_to_name key rand k k' pt blob :
  Seal key rand k pt = Ok blob -> k <> k' ->
  let d := nameDifference k k' (ciphertext blob) in
  Exists (fun c => c <> 0) d /\
  Open key k' blob = if Gcm.ghash (hashKeyOf key) d =? 0 then Ok pt else Err (ENew ("blobcrypt: open " +:+ fmt_q k')).
Proof.
  intros (nonce & ct & Hn & Hs & ->)%Seal_Ok Hne d. apply readNonce_length in Hn. split.
  { apply differences_nonzero; [apply bytes_of_range..|]. intros He. apply Hne.
    by rewrite <- (string_of_bytes_of k), <- (string_of_bytes_of k'), He. }
  rewrite Open_sealed by done. rewrite (Open_renamed _ _ _ k' _ _ Hs). subst d. unfold nameDifference, hashKeyOf, ciphertext.
  assert (forall n, String.substring (4 + NonceSize) n (magic +:+ nonce +:+ ct) = String.substring 0 n ct) as Hc
    by (intros n; rewrite <- Hn; apply (substring_app2 magic)).
  rewrite Hc, !string_length_app, Hn. change (String.length magic) with 4%nat. change Gcm.tagSize with 16%nat.
  replace (4 + (NonceSize + String.length ct) - (4 + NonceSize + 16))%nat with (String.length ct - 16)%nat by lia.
  by destruct (_ =? 0).
Qed.

(** NewCipher yields a cipher exactly for the base64 text of a 32-byte key,
    no cipher for the empty setting, and an error otherwise. *)
Theorem NewCipher_spec b64Key :
  (NewCipher b64Key = Ok None <-> b64Key = "") /\
  (forall key, NewCipher b64Key = Ok (Some key) <->
     b64Key <> "" /\ b64_DecodeString b64Key = Some key /\ strlen key = 32).
Proof.
  unfold NewCipher. destruct (String.eqb_spec b64Key "") as [->|Hne].
  - split; [done|]. intros key. split; [done|]. by intros (? & _).
  - destruct (b64_DecodeString b64Key) as [k|] eqn:Ek.
    + destruct (Z.eqb_spec (strlen k) 32) as [H32|H32]; simpl.
      * split; [done|]. intros key. split; [by intros [= ->] | by intros (_ & [= ->] & _)].
      * split; [done|]. intros key. split; [done | by intros (_ & [= ->] & ?)].
    + split; [done|]. intros key. split; [done | by intros (_ & ? & _)].
Qed.

(** The threshold is documented as applying to the decoded payload; base64
    payloads are measured by DecodedLen, which counts the padding, so a payload
    at the threshold can be externalised: here one byte against a threshold of
    two. *)
Example padding_counts_towards_threshold :
  let ev := mkRaw zeroHeader "" "AA==" in
  decodePayload ev = Ok (String Ascii.zero "") /\ 2 < dataPayloadLen ev.
Proof. vm_compute. done. Qed.

(** ** Instances for the witnesses *)

(** A store that is its content map. *)
Definition map_store : ObjectStore := {|
  store := gmap string string;
  PutObject st k b := (<[k := b]> st, None)
|}.
#[export] Instance map_store_laws : ObjectStoreLaws map_store.
Proof.
  refine {| contents := fun st : @store map_store => st |}. by intros st k b st' [= <-].
Defined.

Definition sample_key : string := "0123456789abcdef0123456789abcdef".
Definition sample_splitter : Splitter := mkSplitter 3 "blobs/".
Definition big_event : RawEvent := mkRaw sample_header "" "aGVsbG8=".
Definition big_stored : StoredEvent := mkStored (mkRaw sample_header "" "") "blobs/did:erc721:137:0xbA57:42/1/01/01/u-1" "".

(** The store before and after the blob was put, in clear and sealed. *)
Definition no_blobs : gmap string string := ∅.
Definition one_blob : gmap string string := {[ DataIndexKey big_stored := "hello" ]}.
Definition sealed_blob : string := Eval vm_compute in
  match Seal sample_key (Ok "nonce-123456") (DataIndexKey big_stored) "hello" with Ok b => b | Err _ => "" end.
Definition one_sealed : gmap string string := {[ DataIndexKey big_stored := sealed_blob ]}.

Lemma MaybeSplit_lossless_witness : Hdr big_stored = Hdr big_event.
Proof.
  refine (proj1 (@MaybeSplit_lossless map_store _ sample_splitter 0 "u-1" no_blobs big_event
      one_blob big_stored _)).
  vm_compute. reflexivity.
Defined.

Lemma MaybeSplit_bounded_witness : dataPayloadLen big_stored <= threshold sample_splitter.
Proof.
  apply (@MaybeSplit_bounded map_store sample_splitter 0 "u-1" no_blobs big_event one_blob big_stored).
  - simpl. lia.
  - vm_compute. reflexivity.
Defined.

Lemma MaybeSplit_error_witness : threshold sample_splitter < dataPayloadLen (mkRaw zeroHeader "" "not-base64").
Proof.
  refine (proj1 (@MaybeSplit_error map_store sample_splitter 0 "u-1" no_blobs
    (mkRaw zeroHeader "" "not-base64") no_blobs _ _)).
  vm_compute. reflexivity.
Defined.

Lemma split_through_encryption_witness :
  exists blob, one_sealed !! DataIndexKey big_stored = Some blob /\
    Open sample_key (DataIndexKey big_stored) blob = Ok "hello".
Proof.
  refine (@split_through_encryption map_store map_store_laws sample_key sample_splitter 0 "u-1"
    (no_blobs, [Ok "nonce-123456"]) big_event (one_sealed, []) big_stored "hello" _ _ _).
  - vm_compute. reflexivity.
  - vm_compute. reflexivity.
  - discriminate.
Defined.

Lemma Open_legacy_or_sealed_witness :
  Open sample_key "path" "plain old blob" = Ok "plain old blob".
Proof.
  apply (proj1 (Open_legacy_or_sealed sample_key "path" "plain old blob")). reflexivity.
Defined.

Lemma Open_accepts_exactly_sealed_witness :
  IsSealed sealed_blob = true /\ exists nonce, Seal sample_key (Ok nonce) (DataIndexKey big_stored) "hello" = Ok sealed_blob.
Proof.
  split; [reflexivity|]. apply (proj1 (Open_accepts_exactly_sealed sample_key (DataIndexKey big_stored) sealed_blob "hello" eq_refl)).
  vm_compute. reflexivity.
Defined.

(** The same blob under another name is refused. *)
Lemma sealed_blob_bound_to_name_witness :
  Open sample_key "blobs/other" sealed_blob = Err (ENew ("blobcrypt: open " +:+ fmt_q "blobs/other")).
Proof.
  destruct (sealed_blob_bound_to_name sample_key (Ok "nonce-123456") (DataIndexKey big_stored) "blobs/other" "hello" sealed_blob)
    as [_ Ho]; [vm_compute; reflexivity|discriminate|]. rewrite Ho. vm_compute. reflexivity.
Defined.
