(* ===== verification/Convert.v ===== *)
(** * Packages convert and fpvalidate: from connection payloads to events

    internal/convert/convert.go, internal/convert/connection.go and
    internal/fpvalidate/fpvalidate.go. The model-garage module registry, which
    decodes vendor payloads, is a parameter ([ModuleLib]). The clock, the default
    id and the allowed skew are arguments. *)

From S2P Require Import Prelude GoStd CloudEvent Stream Publisher.

Definition MaxHeaderBytes : Z := 8 * 1024.
Definition defaultSkew : Z := 5 * Minute.

Definition allowedContentTypes : list string :=
  ["application/json"; "image/png"; "image/jpeg"; "application/pdf"].

(** SetAllowableTimeSkew on the package variable. *)
Definition SetAllowableTimeSkew (allowableTimeSkew d : Z) : Z :=
  if 0 <? d then d else allowableTimeSkew.

(** The bytes an identifier may hold: [a-zA-Z0-9-_/,. :]. *)
Definition identifier_byte (c : Ascii.ascii) : bool :=
  let v := byte_val c in
  ((97 <=? v) && (v <=? 122)) || ((65 <=? v) && (v <=? 90)) || ((48 <=? v) && (v <=? 57)) ||
  (v =? 45) || (v =? 95) || (v =? 47) || (v =? 44) || (v =? 46) || (v =? 32) || (v =? 58).

Definition ValidIdentifier (str : string) : bool :=
  if str =?s "" then false else str_forall identifier_byte str.

Definition IsFutureTimestamp (skew now ts : Z) : bool := now + skew <? ts.

Definition validateAndSetContentType (event : CloudEventHeader) (isBase64 : bool)
    : result CloudEventHeader :=
  event ←
    (if isBase64 then
       _ ← reject_if (DataContentType event =?s "")
             (sentinel_err ErrValidation ": datacontenttype is required for data_base64 events");
       Ok event
     else
       let event := if DataContentType event =?s "" then set_DataContentType "application/json" event
                    else event in
       _ ← reject_if (negb (DataContentType event =?s "application/json"))
             (sentinel_err ErrValidation (": datacontenttype " +:+ fmt_q (DataContentType event) +:+
                " is not allowed for data events: must be application/json"));
       Ok event);
  _ ← reject_if (negb (bool_decide (DataContentType event ∈ allowedContentTypes)))
        (sentinel_err ErrValidation (": datacontenttype " +:+ fmt_q (DataContentType event) +:+
           " is not in the allowed list"));
  Ok event.

(** A required, resp. optional, identifier field. *)
Definition require_id (what v : string) : result unit :=
  reject_if (negb (ValidIdentifier v)) (sentinel_err ErrValidation (": invalid " +:+ what +:+ ": " +:+ v)).
Definition optional_id (what v : string) : result unit :=
  reject_if (negb (v =?s "") && negb (ValidIdentifier v))
    (sentinel_err ErrValidation (": invalid " +:+ what +:+ ": " +:+ v)).

(** The defaults of ValidateHeadersAndSetDefaults, in order. *)
Definition setDefaults (event : CloudEventHeader) (source defaultID : string) (now : Z)
    : CloudEventHeader :=
  let event := set_Source source event in
  let event := if Subject event =?s "" then set_Subject (Producer event) event else event in
  let event := if IsZero (Time event) then set_Time now event else event in
  let event := if ID event =?s "" then set_ID defaultID event else event in
  if SpecVersion event =?s "" then set_SpecVersion "1.0" event else event.

Definition ValidateHeadersAndSetDefaults `{CloudEventLib} (event : CloudEventHeader)
    (source defaultID : string) (isBase64 : bool) (now : Z) : result CloudEventHeader :=
  event ← validateAndSetContentType (setDefaults event source defaultID now) isBase64;
  _ ← require_id "id" (ID event);
  _ ← require_id "specversion" (SpecVersion event);
  _ ← require_id "data content type" (DataContentType event);
  _ ← optional_id "data schema" (DataSchema event);
  _ ← optional_id "data version" (DataVersion event);
  _ ← optional_id "data type" (CEType event);
  _ ← optional_id "subject" (Subject event);
  _ ← optional_id "producer" (Producer event);
  b ← wrap_err (fun e => EWrap "failed to marshal header for size check: " e "") (MarshalHeader event);
  _ ← reject_if (MaxHeaderBytes <? strlen b)
        (sentinel_err ErrValidation (": header size " +:+ fmt_d (strlen b) +:+ " exceeds max " +:+
           fmt_d MaxHeaderBytes));
  Ok event.

(** ** connection.go *)

Definition futureWarnInterval : Z := Hour.
Definition maxFutureWarnProducers : Z := 100000.

(** model-garage: decode a connection payload into headers and data (empty: use
    the payload), or an event into the VIN of its fingerprint; package vin. *)
Class ModuleLib := {
  ConvertToCloudEvents : string -> string -> result (list CloudEventHeader * string);
  ConvertToFingerprint : string -> RawEvent -> result string;
  IsValidVIN : string -> bool;
  IsValidJapanChassis : string -> bool
}.

(** warnFutureTimestamp on the converter's map; the flag says whether a line was
    logged. *)
Definition warnFutureTimestamp (lastFutureWarn : gmap string Z) (hdr : CloudEventHeader) (now : Z)
    : gmap string Z * bool :=
  let recent := match lastFutureWarn !! Producer hdr with
                | Some last => now - last <? futureWarnInterval
                | None => false
                end in
  if recent then (lastFutureWarn, false)
  else
    let m := if Z.of_nat (size lastFutureWarn) >=? maxFutureWarnProducers then ∅ else lastFutureWarn in
    (<[Producer hdr := now]> m, true).

(** canonicalizeDID: the canonical text, or nothing when the value is neither an
    ERC-721 DID nor a legacy one. *)
Definition canonicalizeDID `{CloudEventLib} (field : string) : option string :=
  match DecodeERC721DID field with
  | Ok did => Some (DIDString did)
  | Err _ =>
      match DecodeLegacyNFTDID field with
      | Ok did => Some (DIDString did)
      | Err _ => None
      end
  end.

Definition canonicalizeConnectionHeader `{CloudEventLib} `{EthLib} (hdr : CloudEventHeader)
    : option CloudEventHeader :=
  subject ← canonicalizeDID (Subject hdr);
  let hdr := set_Subject subject hdr in
  producer ← canonicalizeDID (Producer hdr);
  let hdr := set_Producer producer hdr in
  if negb (IsHexAddress (Source hdr)) then None
  else Some (set_Source (AddressHex (HexToAddress (Source hdr))) hdr).

Definition isValidConnectionType `{CloudEventLib} (hdr : CloudEventHeader) : bool :=
  (CEType hdr =?s TypeStatus) || (CEType hdr =?s TypeFingerprint) || (CEType hdr =?s TypeEvents) ||
  (CEType hdr =?s TypeSignals) || (CEType hdr =?s TypeRawStatus).

Section Converter.
Context `{CloudEventLib} `{EthLib} `{ModuleLib}.
Variables (skew now : Z) (defaultID : string).

(** One header of the conversion loop, after the future-timestamp warning. *)
Definition convertHeader (sourceAddr : string) (hdr : CloudEventHeader) : result CloudEventHeader :=
  hdr ← wrap_err (fun e => EWrap "invalid cloud event header string: " e "")
          (ValidateHeadersAndSetDefaults hdr sourceAddr defaultID false now);
  _ ← reject_if (negb (isValidConnectionType hdr))
        (sentinel_err ErrValidation (": unsupported cloud event type: " +:+ CEType hdr));
  match canonicalizeConnectionHeader hdr with
  | None => Err (sentinel_err ErrValidation
      ": invalid cloud event header (subject/producer must be a DID, source a hex address)")
  | Some hdr => Ok hdr
  end.

(** The loop: the first bad header fails the request. *)
Fixpoint convertLoop (warns : gmap string Z) (sourceAddr data : string) (hdrs : list CloudEventHeader)
    : gmap string Z * result (list RawEvent) :=
  match hdrs with
  | [] => (warns, Ok [])
  | hdr :: hdrs' =>
      let warns := if IsFutureTimestamp skew now (Time hdr)
                   then (warnFutureTimestamp warns hdr now).1 else warns in
      match convertHeader sourceAddr hdr with
      | Err e => (warns, Err e)
      | Ok hdr' =>
          let '(warns', r) := convertLoop warns sourceAddr data hdrs' in
          (warns', events ← r; Ok (mkRaw hdr' data "" :: events))
      end
  end.

Definition Convert (warns : gmap string Z) (sourceAddr body : string)
    : gmap string Z * result (list RawEvent) :=
  match ConvertToCloudEvents sourceAddr body with
  | Err e => (warns, Err (EWrap2 "" (ESentinel ErrValidation) ": failed to convert to cloud event: " e ""))
  | Ok ([], _) => (warns, Err (sentinel_err ErrValidation ": no cloud events headers returned"))
  | Ok (hdrs, eventData) =>
      let data := if strlen eventData =? 0 then body else eventData in
      convertLoop warns sourceAddr data hdrs
  end.

(** fpvalidate.Validate *)
Definition Validate (event : RawEvent) : option error :=
  if negb (CEType event =?s TypeFingerprint) then None
  else
    match ConvertToFingerprint (Source event) event with
    | Err e => Some (EWrap "failed to convert to fingerprint: " e "")
    | Ok vin =>
        if negb (IsValidVIN vin) && negb (IsValidJapanChassis vin)
        then Some (sentinel_err ErrInvalidVIN
               (": invalid VIN format in fingerprint: subject=" +:+ Subject event +:+ " source=" +:+
                Source event +:+ " vin=" +:+ vin))
        else None
    end.
End Converter.

(** ** Lemmas *)

(** What a header must be once accepted. *)
Definition id_or_empty (v : string) : Prop := v = "" \/ ValidIdentifier v = true.

Record header_valid `{CloudEventLib} (isBase64 : bool) (h : CloudEventHeader) : Prop := {
  hv_id : ValidIdentifier (ID h) = true;
  hv_specversion : ValidIdentifier (SpecVersion h) = true;
  hv_content_type : DataContentType h ∈ allowedContentTypes;
  hv_json : isBase64 = false -> DataContentType h = "application/json";
  hv_schema : id_or_empty (DataSchema h);
  hv_version : id_or_empty (DataVersion h);
  hv_type : id_or_empty (CEType h);
  hv_subject : id_or_empty (Subject h);
  hv_producer : id_or_empty (Producer h);
  hv_size : exists b, MarshalHeader h = Ok b /\ strlen b <= MaxHeaderBytes
}.

Lemma optional_id_Ok what v u : optional_id what v = Ok u -> id_or_empty v.
Proof.
  unfold optional_id, id_or_empty. intros Hr%reject_if_Ok'.
  destruct (String.eqb_spec v ""); [by left | right]. by destruct (ValidIdentifier v).
Qed.

Lemma require_id_Ok what v u : require_id what v = Ok u -> ValidIdentifier v = true.
Proof. unfold require_id. intros Hr%reject_if_Ok'. by apply negb_false_iff. Qed.

(** An accepted content type is on the list; the header changes only when a JSON
    event left it empty. *)
Lemma validateAndSetContentType_Ok ev b ev' :
  validateAndSetContentType ev b = Ok ev' ->
  DataContentType ev' ∈ allowedContentTypes /\
  (b = false -> DataContentType ev' = "application/json") /\
  (ev' = ev \/ (DataContentType ev = "" /\ ev' = set_DataContentType "application/json" ev)).
Proof.
  unfold validateAndSetContentType. intros H. inv_ok H. simplify_eq.
  match goal with H1 : negb (bool_decide _) = false |- _ =>
    apply negb_false_iff, bool_decide_eq_true in H1 end.
  split; [done|]. destruct b; simpl in *.
  - match goal with H1 : _ = Ok ev' |- _ => inv_ok H1 end. simplify_eq. split; [done | by left].
  - match goal with H1 : mbind _ _ = Ok ev' |- _ => inv_ok H1 end. simplify_eq.
    match goal with H1 : negb (_ =?s "application/json") = false |- _ =>
      apply negb_false_iff, String.eqb_eq in H1 end.
    split; [by intros _|]. destruct (String.eqb_spec (DataContentType ev) ""); [right | left]; done.
Qed.

Section Validation.
Context `{CloudEventLib}.

Lemma ValidateHeaders_Ok ev source defaultID b now ev' :
  ValidateHeadersAndSetDefaults ev source defaultID b now = Ok ev' ->
  validateAndSetContentType (setDefaults ev source defaultID now) b = Ok ev' /\ header_valid b ev'.
Proof.
  unfold ValidateHeadersAndSetDefaults. intros H1. inv_ok H1. simplify_eq.
  repeat match goal with
  | H2 : optional_id _ _ = Ok _ |- _ => apply optional_id_Ok in H2
  | H2 : require_id _ _ = Ok _ |- _ => apply require_id_Ok in H2
  end. bool_to_prop.
  match goal with H2 : validateAndSetContentType _ _ = Ok _ |- _ =>
    destruct (validateAndSetContentType_Ok _ _ _ H2) as (Hin & Hjson & _) end.
  split; [done|]. split; eauto.
Qed.

(** Every rejection of validation is an ErrValidation, unless the header could
    not be marshalled for the size check. *)
Definition validation_or (Q : error -> Prop) (e : error) : Prop := errors_is e ErrValidation = true \/ Q e.
Definition validation_or_marshal : error -> Prop := validation_or (fun _ => exists h e', MarshalHeader h = Err e').

Lemma reject_if_validation {Q} b text e :
  reject_if b (sentinel_err ErrValidation text) = Err e -> validation_or Q e.
Proof. intros [_ <-]%reject_if_Err. by left. Qed.

Lemma bind_validation_eq {A B} {Q} (f : A -> result B) r e :
  (forall e, r = Err e -> validation_or Q e) ->
  (forall a e, r = Ok a -> f a = Err e -> validation_or Q e) ->
  r ≫= f = Err e -> validation_or Q e.
Proof. intros Hr Hf [?|(a & ? & ?)]%result_bind_Err; eauto. Qed.
Lemma bind_validation {A B} {Q} (f : A -> result B) r e :
  (forall e, r = Err e -> validation_or Q e) ->
  (forall a e, f a = Err e -> validation_or Q e) ->
  r ≫= f = Err e -> validation_or Q e.
Proof. intros Hr Hf. apply bind_validation_eq; eauto. Qed.
End Validation.

Section ValidationErrors.
Context `{CloudEventLib}.

Lemma validateAndSetContentType_Err {Q} ev b e :
  validateAndSetContentType ev b = Err e -> validation_or Q e.
Proof.
  unfold validateAndSetContentType. apply bind_validation; [|].
  - intros e'. destruct b; apply bind_validation; try done; intros ? Hr; by eapply reject_if_validation.
  - intros a e'. apply bind_validation; [|done]. intros ? Hr; by eapply reject_if_validation.
Qed.

(** The header that could not be marshalled, and an error of the same marks. *)
Definition same_marks (e e' : error) : Prop :=
  (forall s, errors_is e s = errors_is e' s) /\ errors_as_max_bytes e = errors_as_max_bytes e'.
Definition unmarshalled (ev : CloudEventHeader) (source defaultID : string) (b : bool) (now : Z) (e : error) : Prop :=
  exists h e', validateAndSetContentType (setDefaults ev source defaultID now) b = Ok h /\ MarshalHeader h = Err e' /\ same_marks e e'.

Lemma unmarshalled_marshal ev source defaultID b now e :
  validation_or (unmarshalled ev source defaultID b now) e -> validation_or_marshal e.
Proof. intros [?|(h & e' & _ & Hm & _)]; [by left|right; eauto]. Qed.

Lemma ValidateHeaders_Err ev source defaultID b now e :
  ValidateHeadersAndSetDefaults ev source defaultID b now = Err e -> validation_or (unmarshalled ev source defaultID b now) e.
Proof.
  unfold ValidateHeadersAndSetDefaults. apply bind_validation_eq.
  { intros e'. apply validateAndSetContentType_Err. }
  intros ev' e' Hev'. unfold require_id, optional_id.
  do 8 (apply bind_validation; [intros ? Hr; by eapply reject_if_validation | intros _ ?]).
  apply bind_validation.
  - destruct (MarshalHeader ev') as [|me] eqn:Em; [done|]. intros ? [= <-]. right. by exists ev', me.
  - intros ? ?. apply bind_validation; [|done]. intros ? Hr; by eapply reject_if_validation.
Qed.
End ValidationErrors.

Section ConvertLemmas.
Context `{CloudEventLib} `{EthLib} `{ModuleLib}.
Variables (skew now : Z) (defaultID : string).

(** The text of some ERC-721 DID: what canonicalizeDID leaves in a field. *)
Definition canonical_did (s : string) : Prop := exists d, s = DIDString d.

Lemma canonicalizeDID_canonical f s : canonicalizeDID f = Some s -> canonical_did s.
Proof.
  unfold canonicalizeDID, canonical_did.
  destruct (DecodeERC721DID f); [intros [= <-]; eauto|].
  destruct (DecodeLegacyNFTDID f); [intros [= <-]; eauto | done].
Qed.

(** What one event of a conversion is. *)
Record connection_event (sourceAddr data : string) (ev : RawEvent) : Prop := {
  ce_type : isValidConnectionType ev = true;
  ce_subject : canonical_did (Subject ev);
  ce_producer : canonical_did (Producer ev);
  ce_source : IsHexAddress sourceAddr = true /\ Source ev = AddressHex (HexToAddress sourceAddr);
  ce_id : ValidIdentifier (ID ev) = true;
  ce_content : DataContentType ev = "application/json";
  ce_data : Data ev = data /\ DataBase64 ev = ""
}.

Lemma setDefaults_Source ev source id t : Source (setDefaults ev source id t) = source.
Proof.
  unfold setDefaults. simpl.
  repeat match goal with |- context [if ?b then _ else _] => destruct b; simpl end; done.
Qed.

Lemma ValidateHeaders_Source ev source id b t ev' :
  ValidateHeadersAndSetDefaults ev source id b t = Ok ev' -> Source ev' = source.
Proof.
  intros (Hc & _)%ValidateHeaders_Ok.
  apply validateAndSetContentType_Ok in Hc as (_ & _ & [->|[_ ->]]); simpl; apply setDefaults_Source.
Qed.

Lemma convertHeader_Ok sourceAddr hdr hdr' data :
  convertHeader now defaultID sourceAddr hdr = Ok hdr' ->
  connection_event sourceAddr data (mkRaw hdr' data "").
Proof.
  unfold convertHeader. intros Hc. inv_ok Hc.
  destruct (canonicalizeConnectionHeader _) as [h|] eqn:Ec in Hc; [|done]. simplify_eq.
  match goal with H1 : ValidateHeadersAndSetDefaults _ _ _ _ _ = Ok _ |- _ =>
    pose proof (ValidateHeaders_Source _ _ _ _ _ _ H1) as Hsrc;
    apply ValidateHeaders_Ok in H1 as [_ Hv] end.
  bool_to_prop. unfold canonicalizeConnectionHeader in Ec.
  apply bind_Some in Ec as (s & Hs & Ec). apply bind_Some in Ec as (p & Hp & Ec). simpl in *.
  destruct (IsHexAddress _) eqn:Eh; simpl in Ec; [|done]. simplify_eq.
  split; simpl; eauto using canonicalizeDID_canonical, hv_id, hv_json.
Qed.

Lemma convertLoop_Ok warns sourceAddr data hdrs evs :
  (convertLoop skew now defaultID warns sourceAddr data hdrs).2 = Ok evs ->
  length evs = length hdrs /\ Forall (connection_event sourceAddr data) evs.
Proof.
  revert warns evs. induction hdrs as [|h hdrs IH]; intros warns evs; simpl.
  { intros [= <-]. done. }
  destruct (convertHeader _ _ _ h) as [h'|] eqn:Eh; [|done].
  set (w1 := if IsFutureTimestamp _ _ _ then _ else _). specialize (IH w1).
  destruct (convertLoop _ _ _ w1 _ _ hdrs) as [w2 r]. simpl in *. intros Hr. inv_ok Hr. simplify_eq.
  destruct (IH _ eq_refl) as [<- Hf]. split; [done|]. constructor; [|done]. by eapply convertHeader_Ok.
Qed.

Lemma convertHeader_Err sourceAddr hdr e :
  convertHeader now defaultID sourceAddr hdr = Err e -> validation_or (unmarshalled hdr sourceAddr defaultID false now) e.
Proof.
  unfold convertHeader. apply bind_validation.
  - destruct (ValidateHeadersAndSetDefaults _ _ _ _ _) eqn:Ev; [done|]. intros ? [= <-].
    apply ValidateHeaders_Err in Ev as [Ev|Ev]; [left | right]; done.
  - intros h e'. apply bind_validation; [intros ? Hr; by eapply reject_if_validation|].
    intros _ e''. destruct (canonicalizeConnectionHeader h); [done|]. intros [= <-]. by left.
Qed.

Lemma convertLoop_Err warns sourceAddr data hdrs e :
  (convertLoop skew now defaultID warns sourceAddr data hdrs).2 = Err e ->
  validation_or (fun e => exists hdr, hdr ∈ hdrs /\ unmarshalled hdr sourceAddr defaultID false now e) e.
Proof.
  revert warns e. induction hdrs as [|h hdrs IH]; intros warns e; simpl; [done|].
  destruct (convertHeader _ _ _ h) as [h'|] eqn:Eh.
  - set (w1 := if IsFutureTimestamp _ _ _ then _ else _). specialize (IH w1).
    destruct (convertLoop _ _ _ w1 _ _ hdrs) as [w2 r]. simpl in *. apply bind_validation; [|done].
    intros e' He'. destruct (IH e' He') as [?|(hdr & Hin & Hu)]; [by left|right]. exists hdr. split; [by right|done].
  - intros [= <-]. destruct (convertHeader_Err _ _ _ Eh) as [?|Hu]; [by left|right]. exists h. split; [by left|done].
Qed.

(** Why a conversion fails: the payload or a header is the caller's fault, or a header the
    module returned cannot be marshalled once its defaults are set. *)
Lemma Convert_Err warns sourceAddr body e :
  (Convert skew now defaultID warns sourceAddr body).2 = Err e ->
  validation_or (fun e => exists hdrs data hdr, ConvertToCloudEvents sourceAddr body = Ok (hdrs, data) /\ hdr ∈ hdrs /\
    unmarshalled hdr sourceAddr defaultID false now e) e.
Proof.
  unfold Convert. destruct (ConvertToCloudEvents sourceAddr body) as [[[|h hdrs] d]|e'].
  - intros [= <-]. by left.
  - intros [?|(hdr & Hin & Hu)]%convertLoop_Err; [by left|right]. by exists (h :: hdrs), d, hdr.
  - intros [= <-]. by left.
Qed.

(** The dedup map stays within its bound. *)
Definition warns_bounded (w : gmap string Z) : Prop := Z.of_nat (size w) <= maxFutureWarnProducers.

Lemma warnFutureTimestamp_bounded w hdr : warns_bounded w -> warns_bounded (warnFutureTimestamp w hdr now).1.
Proof.
  unfold warnFutureTimestamp, warns_bounded. intros Hw.
  match goal with |- context [if ?b then (w, false) else _] => destruct b end; simpl; [done|].
  destruct (_ >=? _) eqn:Es; bool_to_prop.
  - rewrite map_size_insert. simpl. rewrite map_size_empty, lookup_empty. by vm_compute.
  - rewrite map_size_insert. destruct (w !! _); simpl; lia.
Qed.

Lemma convertLoop_bounded warns sourceAddr data hdrs :
  warns_bounded warns -> warns_bounded (convertLoop skew now defaultID warns sourceAddr data hdrs).1.
Proof.
  revert warns. induction hdrs as [|h hdrs IH]; intros warns Hw; simpl; [done|].
  set (w1 := if IsFutureTimestamp _ _ _ then _ else _).
  assert (warns_bounded w1) by (unfold w1; destruct (IsFutureTimestamp _ _ _);
    [by apply warnFutureTimestamp_bounded | done]).
  destruct (convertHeader _ _ _ h); [|done].
  specialize (IH w1). destruct (convertLoop _ _ _ w1 _ _ hdrs). simpl in *. auto.
Qed.
End ConvertLemmas.

(** ** Properties *)

(** An accepted header is valid: its source is the caller's authenticated
    identity whatever the payload said, every identifier field is well-formed,
    the content type is whitelisted (application/json unless the payload came as
    data_base64) and the marshalled header fits MaxHeaderBytes. *)
Theorem ValidateHeaders_sound `{CloudEventLib} ev source defaultID b now ev' :
  ValidateHeadersAndSetDefaults ev source defaultID b now = Ok ev' ->
  Source ev' = source /\ header_valid b ev'.
Proof.
  intros Hv. split; [by eapply ValidateHeaders_Source|]. by apply ValidateHeaders_Ok in Hv as [_ ?].
Qed.

(** C31: What Convert returns is publishable: at least one event, one per header
    the module returned, each of a whitelisted type, with canonical DIDs as
    subject and producer, the caller's address in checksum form as source, and
    the module's data (the request body when the module returned none). *)
Theorem Convert_sound `{CloudEventLib} `{EthLib} `{ModuleLib} skew now defaultID warns sourceAddr body evs :
  (Convert skew now defaultID warns sourceAddr body).2 = Ok evs ->
  exists hdrs eventData,
    ConvertToCloudEvents sourceAddr body = Ok (hdrs, eventData) /\
    length evs = length hdrs /\ evs <> [] /\
    Forall (connection_event sourceAddr (if strlen eventData =? 0 then body else eventData)) evs.
Proof.
  unfold Convert. destruct (ConvertToCloudEvents sourceAddr body) as [[[|h hdrs] d]|e] eqn:Em; try done.
  intros [Hl Hf]%convertLoop_Ok. exists (h :: hdrs), d. repeat split; try done.
  by destruct evs.
Qed.

(** A conversion fails as the caller's fault: its error is an ErrValidation
    (the handler's 400), the only other one being a header that cannot be
    marshalled. *)
Theorem Convert_error `{CloudEventLib} `{EthLib} `{ModuleLib} skew now defaultID warns sourceAddr body e :
  (forall h, is_ok (MarshalHeader h) = true) ->
  (Convert skew now defaultID warns sourceAddr body).2 = Err e -> errors_is e ErrValidation = true.
Proof.
  intros Hm [?|(hdrs & d & hdr & _ & _ & h & e' & _ & He & _)]%Convert_Err; [done|]. specialize (Hm h). by rewrite He in Hm.
Qed.

(** The future-warning dedup map, whose keys a device chooses, never holds
    more than maxFutureWarnProducers entries, whatever sequence of requests is
    converted. *)
Theorem Convert_warns_bounded `{CloudEventLib} `{EthLib} `{ModuleLib} skew
    (requests : list (Z * string * string * string)) :
  warns_bounded
    (fold_left (fun w '(now, defaultID, sourceAddr, body) =>
                  (Convert skew now defaultID w sourceAddr body).1) requests ∅).
Proof.
  assert (warns_bounded ∅) as Hw by by vm_compute.
  revert Hw. generalize (∅ : gmap string Z).
  induction requests as [|[[[now id] src] body] rs IH]; intros w Hw; [done|]. apply IH.
  unfold Convert. destruct (ConvertToCloudEvents src body) as [[[|h hdrs] d]|e']; try done.
  by apply convertLoop_bounded.
Qed.

(** ** Instances for the witnesses *)

Definition sample_eth : EthLib := {|
  IsHexAddress s := HasPrefix s "0x";
  HexToAddress s := ToLower s;
  AddressHex a := a
|}.

(** A module that returns one status header per request, and no data. *)
Definition sample_modules : ModuleLib := {|
  ConvertToCloudEvents src body :=
    if body =?s "" then Ok ([], "")
    else Ok ([mkHeader "" "" "did:nft:0xAB" "did:erc721:0xCD" "" 7 "dimo.status" "" "" "" "" []], "");
  ConvertToFingerprint src ev := Ok (Data ev);
  IsValidVIN v := strlen v =? 17;
  IsValidJapanChassis v := false
|}.

Definition sample_converted : RawEvent :=
  mkRaw (mkHeader "id-1" "0xaa" "did:erc721:0xAB" "did:erc721:0xCD" "1.0" 7 "dimo.status"
           "application/json" "" "" "" []) "payload" "".

Lemma ValidateHeaders_sound_witness :
  Source (set_ID "id-1" (set_SpecVersion "1.0" (set_DataContentType "application/json"
    (set_Source "0xAA" (set_CEType "dimo.status" (set_Time 7 zeroHeader)))))) = "0xAA".
Proof.
  refine (proj1 (@ValidateHeaders_sound sample_lib (set_CEType "dimo.status" (set_Time 7 zeroHeader))
    "0xAA" "id-1" false 9 _ _)).
  vm_compute. reflexivity.
Defined.

Lemma Convert_sound_witness :
  exists hdrs eventData,
    @ConvertToCloudEvents sample_modules "0xAA" "payload" = Ok (hdrs, eventData) /\
    length [sample_converted] = length hdrs /\ [sample_converted] <> [] /\
    Forall (@connection_event sample_lib sample_eth "0xAA"
              (if strlen eventData =? 0 then "payload" else eventData)) [sample_converted].
Proof.
  apply (@Convert_sound sample_lib sample_eth sample_modules 300 9 "id-1" ∅ "0xAA" "payload").
  vm_compute. reflexivity.
Defined.

Lemma Convert_error_witness :
  errors_is (sentinel_err ErrValidation ": no cloud events headers returned") ErrValidation = true.
Proof.
  apply (@Convert_error sample_lib sample_eth sample_modules 300 9 "id-1" ∅ "0xAA" "").
  - intros h. reflexivity.
  - vm_compute. reflexivity.
Defined.
