(* ===== verification/Attest.v ===== *)
(** * Package attest: parsing and verifying attestations

    internal/attest/attest.go. go-ethereum's hex decoding, text hash and public
    key recovery and the ERC-1271 binding with its on-chain call are parameters
    ([EthCrypto]); a tombstone's payload is decoded as encoding/json does (Json). The
    clock, the allowed skew and the generated id are arguments. Error texts leave out
    the values printed with %v and the positions of syntax errors. *)

From S2P Require Import Prelude GoStd Json CloudEvent Stream Publisher Convert.

Definition MaxTombstoneReasonBytes : Z := 512.

(** [4]byte{0x16, 0x26, 0xba, 0x7e} *)
Definition erc1271magicValue : string := string_of [22; 38; 186; 126].

(** attest.Attestation *)
Record Attestation := mkAttestation { att_event : RawEvent; att_VoidsID : string }.

(** tombstoneData *)
Record tombstoneData := mkTombstone { td_VoidsID : string; td_Reason : string }.

Class EthCrypto := {
  FromHex : string -> string;
  TextHash : string -> string;
  BytesToHash : string -> string;
  SigToPub : string -> string -> result string;
  PubkeyToAddress : string -> string;
  erc1271 : Type;
  NewErc1271 : string -> result erc1271;
  IsValidSignature : erc1271 -> string -> string -> result string
}.

(** ** json.Unmarshal into a tombstoneData *)

(** The field a key names: exactly, or else up to folding. *)
Inductive tombstoneField := FieldVoidsID | FieldReason.
Definition fieldName (f : tombstoneField) : string := match f with FieldVoidsID => "voidsId" | FieldReason => "reason" end.
Definition fieldOf (key : list Z) : option tombstoneField :=
  if decide (key = bytes_of "voidsId") then Some FieldVoidsID
  else if decide (key = bytes_of "reason") then Some FieldReason
  else if decide (foldName key = foldName (bytes_of "voidsId")) then Some FieldVoidsID
  else if decide (foldName key = foldName (bytes_of "reason")) then Some FieldReason
  else None.
Definition setField (f : tombstoneField) (s : string) (td : tombstoneData) : tombstoneData :=
  match f with FieldVoidsID => mkTombstone s (td_Reason td) | FieldReason => mkTombstone (td_VoidsID td) s end.

Definition kindOf (j : json) : string :=
  match j with
  | JNull => "null" | JBool _ => "bool" | JNumber => "number" | JString _ => "string"
  | JArray _ => "array" | JObject _ => "object"
  end.

(** One member: null leaves a string as it is, another kind is an error that is kept
    while decoding goes on, and the first one kept is returned; a later member
    overwrites an earlier one, an unknown key is skipped. *)
Definition storeMember (acc : tombstoneData * option error) (m : list Z * json) : tombstoneData * option error :=
  match fieldOf m.1 with
  | None => acc
  | Some f =>
      match m.2 with
      | JNull => acc
      | JString s => (setField f (string_of s) acc.1, acc.2)
      | j => (acc.1, match acc.2 with
                     | Some e => Some e
                     | None => Some (ENew ("json: cannot unmarshal " +:+ kindOf j +:+
                                 " into Go struct field tombstoneData." +:+ fieldName f +:+ " of type string"))
                     end)
      end
  end.

Definition UnmarshalTombstone (data : string) : result tombstoneData :=
  match parseJSON data with
  | None => Err (ENew "invalid JSON syntax")
  | Some JNull => Ok (mkTombstone "" "")
  | Some (JObject ms) =>
      match fold_left storeMember ms (mkTombstone "" "", None) with
      | (_, Some e) => Err e
      | (td, None) => Ok td
      end
  | Some j => Err (ENew ("json: cannot unmarshal " +:+ kindOf j +:+ " into Go value of type attest.tombstoneData"))
  end.

Definition isValidAttestationType `{CloudEventLib} (t : string) : bool :=
  if t =?s TypeAttestation then true
  else if t =?s TypeAttestationTombstone then true
  else if HasPrefix t "dimo.raw." && (strlen "dimo.raw." <? strlen t) then true
  else if HasPrefix t "dimo.document." && (strlen "dimo.document." <? strlen t) then true
  else false.

Section Attest.
Context `{CloudEventLib} `{EthLib} `{EthCrypto}.

Definition parseTombstoneData (data : string) : result string :=
  _ ← reject_if (strlen data =? 0) (ENew "data payload is required for tombstones");
  td ← wrap_err (fun e => EWrap "data payload is not a tombstone object: " e "")
         (UnmarshalTombstone data);
  _ ← reject_if (td_VoidsID td =?s "") (ENew "voidsId is required and must be non-empty");
  _ ← reject_if (negb (ValidIdentifier (td_VoidsID td))) (ENew ("invalid voidsId: " +:+ td_VoidsID td));
  _ ← reject_if (MaxTombstoneReasonBytes <? strlen (td_Reason td))
        (ENew ("reason length " +:+ fmt_d (strlen (td_Reason td)) +:+ " exceeds max " +:+
               fmt_d MaxTombstoneReasonBytes));
  Ok (td_VoidsID td).

(** The subject in canonical form: an ERC-721 DID, else an ethr DID. *)
Definition attestationSubject (subject : string) : result string :=
  match DecodeERC721DID subject with
  | Ok did => Ok (DIDString did)
  | Err _ =>
      match DecodeEthrDID subject with
      | Ok s => Ok s
      | Err e => Err (EWrap2 "" (ESentinel ErrValidation) ": invalid attestation subject format: " e "")
      end
  end.

Definition parseAndValidateAttestation (skew now : Z) (newID msgBytes source : string) : result RawEvent :=
  event ← wrap_err (fun e => EWrap2 "" (ESentinel ErrValidation)
                               ": failed to unmarshal attestation cloud event: " e "")
            (UnmarshalJSON msgBytes);
  _ ← reject_if (IsFutureTimestamp skew now (Time (Hdr event)))
        (sentinel_err ErrValidation ": event timestamp exceeds valid range");
  subject ← attestationSubject (Subject (Hdr event));
  let hdr := set_Subject subject (Hdr event) in
  let resolvedSource := if Source hdr =?s "" then source else Source hdr in
  _ ← reject_if (negb (IsHexAddress resolvedSource))
        (sentinel_err ErrValidation (": invalid source address: " +:+ resolvedSource));
  let resolvedSource := AddressHex (HexToAddress resolvedSource) in
  hdr ← wrap_err (fun e => EWrap "failed to validate headers: " e "")
          (ValidateHeadersAndSetDefaults hdr resolvedSource newID (negb (DataBase64 event =?s "")) now);
  let hdr := if CEType hdr =?s "" then set_CEType TypeAttestation hdr else hdr in
  _ ← reject_if (negb (isValidAttestationType (CEType hdr)))
        (sentinel_err ErrValidation (": invalid attestation type " +:+ fmt_q (CEType hdr) +:+
           ": must be dimo.attestation, dimo.tombstone, dimo.raw.*, or dimo.document.*"));
  Ok (mkRaw hdr (Data event) (DataBase64 event)).

(** sigCopy[64] -= 27 on a byte. *)
Definition recoveryByte (v : Z) : Z := wrap8 (v - 27).

Definition verifyEOASignature (signature msgHash source : string) : result bool :=
  if negb (strlen signature =? 65)
  then Err (ENew ("signature has length " +:+ fmt_d (strlen signature) +:+ " != 65"))
  else
    let v := byte_val (default Ascii.zero (String.get 64 signature)) in
    let v' := recoveryByte v in
    if negb (v' =? 0) && negb (v' =? 1)
    then Err (ENew ("invalid v byte: " +:+ fmt_d v +:+ "; accepted values 27 or 28"))
    else
      let sigCopy := String.substring 0 64 signature +:+ String (byte_of v') "" in
      pubKey ← wrap_err (fun e => EWrap "failed to unmarshal public key: " e "") (SigToPub msgHash sigCopy);
      Ok (source =?s PubkeyToAddress pubKey).

Definition verifyERC1271Signature (signature msgHash source : string) : result bool :=
  contract ← wrap_err (fun e => EWrap ("failed to connect to address: " +:+ AddressHex source +:+ ": ") e "")
               (NewErc1271 source);
  res ← wrap_err (fun e => EWrap "failed to validate signature with contract: " e "")
          (IsValidSignature contract msgHash signature);
  Ok (res =?s erc1271magicValue).

Definition verifySignature (event : RawEvent) (source : string) : result bool :=
  let signature := FromHex (CloudEvent.Signature event) in
  let msgHashWithPrfx := TextHash (BytesForSignature event) in
  match verifyEOASignature signature msgHashWithPrfx source with
  | Ok true => Ok true
  | eoa =>
      let errEoa := match eoa with Err e => Some e | Ok _ => None end in
      match verifyERC1271Signature signature (BytesToHash msgHashWithPrfx) source with
      | Err errErc => Err (match errEoa with Some e => EJoin e errErc | None => errErc end)
      | Ok erc1271Signer => Ok erc1271Signer
      end
  end.

Definition Parse (skew now : Z) (newID jwtAddress body : string) : result Attestation :=
  event ← wrap_err (fun e => EWrap "failed to process attestation: " e "")
            (parseAndValidateAttestation skew now newID body (AddressHex jwtAddress));
  validSignature ← wrap_err (fun e => EWrap "failed to check message signature: " e "")
                     (verifySignature event (HexToAddress (Source (Hdr event))));
  _ ← reject_if (negb validSignature) (sentinel_err ErrValidation ": message signature invalid");
  if CEType (Hdr event) =?s TypeAttestationTombstone then
    voidsID ← wrap_err (fun e => EWrap2 "" (ESentinel ErrValidation) ": invalid tombstone payload: " e "")
                (parseTombstoneData (Data event));
    Ok (mkAttestation event voidsID)
  else Ok (mkAttestation event "").
End Attest.

(** ** Lemmas *)

(** The v byte arithmetic wraps at 8 bits, and still accepts 27 and 28 only. *)
Lemma recoveryByte_spec v :
  0 <= v < 256 -> (recoveryByte v = 0 \/ recoveryByte v = 1) <-> (v = 27 \/ v = 28).
Proof. intros Hv. unfold recoveryByte, wrap8. Z.div_mod_to_equations. lia. Qed.

Section AttestLemmas.
Context `{CloudEventLib} `{EthLib} `{EthCrypto}.

(** [source] signed the event with its key: the 65-byte signature has v in
    {27, 28} and recovers, over the text hash of the signed bytes, the address. *)
Definition signed_by_key (event : RawEvent) (source : string) : Prop :=
  let sig := FromHex (CloudEvent.Signature event) in
  strlen sig = 65 /\
  exists v pub,
    String.get 64 sig = Some v /\ (byte_val v = 27 \/ byte_val v = 28) /\
    SigToPub (TextHash (BytesForSignature event))
      (String.substring 0 64 sig +:+ String (byte_of (byte_val v - 27)) "") = Ok pub /\
    PubkeyToAddress pub = source.

(** The contract at [source] accepts the signature. *)
Definition signed_by_contract (event : RawEvent) (source : string) : Prop :=
  exists c, NewErc1271 source = Ok c /\
    IsValidSignature c (BytesToHash (TextHash (BytesForSignature event)))
      (FromHex (CloudEvent.Signature event)) = Ok erc1271magicValue.

Lemma string_get_lt n s : (n < String.length s)%nat -> exists c, String.get n s = Some c.
Proof.
  revert n. induction s as [|c s IH]; intros n; simpl; [lia|].
  destruct n as [|n]; [eauto|]. intros Hn. apply IH. lia.
Qed.

Lemma verifyEOASignature_true (event : RawEvent) source :
  verifyEOASignature (FromHex (CloudEvent.Signature event)) (TextHash (BytesForSignature event)) source
    = Ok true ->
  signed_by_key event source.
Proof.
  unfold verifyEOASignature, signed_by_key. set (sig := FromHex _).
  destruct (strlen sig =? 65) eqn:El; simpl; [|done]. apply Z.eqb_eq in El.
  destruct (string_get_lt 64 sig) as [v Hv]; [unfold strlen in El; lia|]. rewrite Hv. simpl.
  pose proof (byte_val_range v) as Hr.
  destruct (negb _ && negb _) eqn:Eb; [done|]. intros Hp. inv_ok Hp.
  assert (byte_val v = 27 \/ byte_val v = 28) as Hv27.
  { apply recoveryByte_spec; [done|]. apply andb_false_iff in Eb as [Eb|Eb]; bool_to_prop; auto. }
  assert (recoveryByte (byte_val v) = byte_val v - 27) as Erb by (destruct Hv27 as [->| ->]; done).
  rewrite Erb in *. injection Hp as Hp. apply String.eqb_eq in Hp. split; [done|]. eauto 6.
Qed.

Lemma verifyERC1271Signature_true (event : RawEvent) source :
  verifyERC1271Signature (FromHex (CloudEvent.Signature event))
    (BytesToHash (TextHash (BytesForSignature event))) source = Ok true ->
  signed_by_contract event source.
Proof.
  unfold verifyERC1271Signature, signed_by_contract. intros Hp. inv_ok Hp.
  injection Hp as Hp. apply String.eqb_eq in Hp. subst. eauto.
Qed.

Lemma verifySignature_true event source :
  verifySignature event source = Ok true -> signed_by_key event source \/ signed_by_contract event source.
Proof.
  unfold verifySignature.
  destruct (verifyEOASignature _ _ _) as [[|]|e] eqn:Ee; [by left; apply verifyEOASignature_true| |];
    destruct (verifyERC1271Signature _ _ _) as [b|e'] eqn:Ec; try done;
    intros [= ->]; right; by apply verifyERC1271Signature_true.
Qed.

Lemma parseTombstoneData_Ok data v :
  parseTombstoneData data = Ok v ->
  v <> "" /\ ValidIdentifier v = true /\
  exists td, UnmarshalTombstone data = Ok td /\ td_VoidsID td = v /\
             strlen (td_Reason td) <= MaxTombstoneReasonBytes.
Proof.
  unfold parseTombstoneData. intros Hp. inv_ok Hp. bool_to_prop. simplify_eq. eauto 6.
Qed.

Lemma attestationSubject_Err s e : attestationSubject s = Err e -> validation_or_marshal e.
Proof.
  unfold attestationSubject. destruct (DecodeERC721DID s); [done|].
  destruct (DecodeEthrDID s); [done|]. intros [= <-]. by left.
Qed.

Lemma parseAndValidate_Err skew now newID body source e :
  parseAndValidateAttestation skew now newID body source = Err e -> validation_or_marshal e.
Proof.
  unfold parseAndValidateAttestation. apply bind_validation.
  { destruct (UnmarshalJSON body); [done|]. intros ? [= <-]. by left. }
  intros ev e'. apply bind_validation; [intros ? Hr; by eapply reject_if_validation|].
  intros _ ?. apply bind_validation; [apply attestationSubject_Err|].
  intros s ?. apply bind_validation; [intros ? Hr; by eapply reject_if_validation|].
  intros _ ?. apply bind_validation.
  { destruct (ValidateHeadersAndSetDefaults _ _ _ _ _) eqn:Ev; [done|]. intros ? [= <-].
    apply ValidateHeaders_Err, unmarshalled_marshal in Ev as [Ev|Ev]; [left | right]; done. }
  intros h ?. apply bind_validation; [intros ? Hr; by eapply reject_if_validation | done].
Qed.

(** The address an attestation is held to: the payload's own source, or the
    token holder's. *)
Definition resolved_source (jwtAddress : string) (raw : RawEvent) : string :=
  if Source raw =?s "" then AddressHex jwtAddress else Source raw.

Lemma parseAndValidate_Ok skew now newID body source event :
  parseAndValidateAttestation skew now newID body source = Ok event ->
  exists raw, UnmarshalJSON body = Ok raw /\
    Time raw <= now + skew /\ Data event = Data raw /\ DataBase64 event = DataBase64 raw /\
    Source event = AddressHex (HexToAddress (if Source raw =?s "" then source else Source raw)) /\
    isValidAttestationType (CEType event) = true /\ ValidIdentifier (ID event) = true /\
    DataContentType event ∈ allowedContentTypes.
Proof.
  unfold parseAndValidateAttestation. intros Hp. inv_ok Hp. simplify_eq.
  match goal with H1 : ValidateHeadersAndSetDefaults _ _ _ _ _ = Ok ?h |- _ =>
    pose proof (ValidateHeaders_Source _ _ _ _ _ _ H1) as Hsrc;
    apply ValidateHeaders_Ok in H1 as [_ Hv]; rename h into hdr end.
  eexists. split; [eassumption|]. unfold IsFutureTimestamp in *. bool_to_prop. simpl in *.
  destruct (CEType hdr =?s ""); simpl; eauto 9 using hv_id, hv_content_type.
Qed.
End AttestLemmas.

(** ** Properties *)

(** C11: An accepted attestation is authentic: the address stored as its source,
    which is the payload's own source when it has one (delegation) and the token
    holder's otherwise, signed exactly the event's data, either with its key or,
    as a contract, by answering the ERC-1271 magic value. The accepted event also
    has a whitelisted type and a timestamp within the allowed skew. *)
Theorem Parse_authentic `{CloudEventLib} `{EthLib} `{EthCrypto} skew now newID jwtAddress body att :
  Parse skew now newID jwtAddress body = Ok att ->
  exists raw, UnmarshalJSON body = Ok raw /\ Time raw <= now + skew /\
    Data (att_event att) = Data raw /\ DataBase64 (att_event att) = DataBase64 raw /\
    Source (att_event att) = AddressHex (HexToAddress (resolved_source jwtAddress raw)) /\
    isValidAttestationType (CEType (att_event att)) = true /\
    (signed_by_key (att_event att) (HexToAddress (Source (att_event att))) \/
     signed_by_contract (att_event att) (HexToAddress (Source (att_event att)))).
Proof.
  unfold Parse. intros Hp. inv_ok Hp. bool_to_prop. subst.
  match goal with H1 : verifySignature ?ev _ = _ |- _ =>
    apply verifySignature_true in H1; rename ev into event end.
  assert (att_event att = event) as <-.
  { destruct (CEType event =?s TypeAttestationTombstone); [inv_ok Hp|]; by simplify_eq. }
  match goal with H1 : parseAndValidateAttestation _ _ _ _ _ = Ok _ |- _ =>
    apply parseAndValidate_Ok in H1 as (raw & ? & ? & ? & ? & ? & ? & _) end.
  exists raw. unfold resolved_source. auto 9.
Qed.

(** Exactly the tombstones void an attestation: an accepted event carries a
    VoidsID when, and only when, it is a tombstone; the id is then a valid
    identifier read from its payload, whose reason is within the size bound. *)
Theorem Parse_tombstone `{CloudEventLib} `{EthLib} `{EthCrypto} skew now newID jwtAddress body att :
  Parse skew now newID jwtAddress body = Ok att ->
  (CEType (att_event att) = TypeAttestationTombstone <-> att_VoidsID att <> "") /\
  (att_VoidsID att <> "" ->
   ValidIdentifier (att_VoidsID att) = true /\
   exists td, UnmarshalTombstone (Data (att_event att)) = Ok td /\ td_VoidsID td = att_VoidsID att /\
              strlen (td_Reason td) <= MaxTombstoneReasonBytes).
Proof.
  unfold Parse. intros Hp. inv_ok Hp.
  destruct (String.eqb_spec (CEType (Hdr x)) TypeAttestationTombstone) as [Ht|Ht].
  - inv_ok Hp. simplify_eq. simpl.
    match goal with H1 : parseTombstoneData _ = Ok _ |- _ =>
      destruct (parseTombstoneData_Ok _ _ H1) as (? & ? & ?) end. done.
  - simplify_eq. simpl. split; [|done]. split; [by intros ?%Ht | done].
Qed.

(** The payload of a tombstone as a sender writes it, the reason left out when empty. *)
Definition encodeTombstone (td : tombstoneData) : string :=
  string_of (printObject (bytes_of "voidsId", bytes_of (td_VoidsID td))
    (if td_Reason td =?s "" then [] else [(bytes_of "reason", bytes_of (td_Reason td))])).

Lemma ValidIdentifier_ascii s : ValidIdentifier s = true -> Forall ascii_byte (bytes_of s).
Proof.
  unfold ValidIdentifier. destruct (s =?s ""); [done|]. unfold bytes_of. induction s as [|a s IH]; [constructor|].
  simpl. intros [Ha Hs]%andb_true_iff. constructor; [|by apply IH]. unfold identifier_byte in Ha. unfold ascii_byte.
  repeat (apply orb_true_iff in Ha as [Ha|Ha]); bool_to_prop; lia.
Qed.

Lemma Unmarshal_encode td :
  Forall ascii_byte (bytes_of (td_VoidsID td)) -> Forall ascii_byte (bytes_of (td_Reason td)) ->
  UnmarshalTombstone (encodeTombstone td) = Ok td.
Proof.
  intros Hv Hr. unfold UnmarshalTombstone, encodeTombstone.
  assert (forall k, k = "voidsId" \/ k = "reason" -> Forall ascii_byte (bytes_of k)) as Hk.
  { intros k [-> | ->]; by apply ValidIdentifier_ascii. }
  rewrite parseJSON_print.
  - destruct td as [v r]. simpl td_VoidsID in *. simpl td_Reason in *. destruct (String.eqb_spec r "") as [->|Hne].
    + cbn [fmap list_fmap fold_left]. unfold storeMember, text_member. simpl fst. simpl snd.
      change (fieldOf (bytes_of "voidsId")) with (Some FieldVoidsID). cbn iota. unfold setField. by rewrite string_of_bytes_of.
    + cbn [fmap list_fmap fold_left]. unfold storeMember, text_member. simpl fst. simpl snd.
      change (fieldOf (bytes_of "voidsId")) with (Some FieldVoidsID). change (fieldOf (bytes_of "reason")) with (Some FieldReason).
      cbn iota. unfold setField. simpl. by rewrite !string_of_bytes_of.
  - split; [by apply Hk; left|done].
  - destruct (_ =?s ""); [constructor|]. apply Forall_singleton. split; [by apply Hk; right|done].
Qed.

(** What a sender means is what is voided: the payload written for a valid identifier
    and an ASCII reason within the bound is accepted, and the id read from it is that
    identifier. *)
Theorem tombstone_accepted td :
  ValidIdentifier (td_VoidsID td) = true -> Forall ascii_byte (bytes_of (td_Reason td)) ->
  strlen (td_Reason td) <= MaxTombstoneReasonBytes ->
  parseTombstoneData (encodeTombstone td) = Ok (td_VoidsID td).
Proof.
  intros Hv Hr Hl. unfold parseTombstoneData.
  rewrite Unmarshal_encode by first [done | by apply ValidIdentifier_ascii].
  assert (strlen (encodeTombstone td) <> 0) as Hn.
  { unfold encodeTombstone, strlen, printObject. simpl. lia. }
  destruct (Z.eqb_spec (strlen (encodeTombstone td)) 0); [done|]. simpl.
  destruct (td_VoidsID td =?s "") eqn:E; [apply String.eqb_eq in E; rewrite E in Hv; done|]. simpl. rewrite Hv. simpl.
  destruct (Z.ltb_spec MaxTombstoneReasonBytes (strlen (td_Reason td))); [lia|done].
Qed.

(** A rejected attestation is the caller's fault (ErrValidation, hence 400)
    unless the header could not be marshalled or the signature could not be
    checked at all: the key recovery did not confirm the signer and the on-chain
    check failed. *)
Theorem Parse_error `{CloudEventLib} `{EthLib} `{EthCrypto} skew now newID jwtAddress body e :
  (forall h, is_ok (MarshalHeader h) = true) ->
  (forall ev source, is_ok (verifySignature ev source) = true) ->
  Parse skew now newID jwtAddress body = Err e -> errors_is e ErrValidation = true.
Proof.
  intros Hm Hs Hp.
  enough (validation_or_marshal e) as [?|(h & e' & He)]; [done| |].
  { specialize (Hm h). by rewrite He in Hm. }
  revert Hp. unfold Parse. apply bind_validation.
  { destruct (parseAndValidateAttestation _ _ _ _ _) eqn:Ev; [done|]. intros ? [= <-].
    apply parseAndValidate_Err in Ev as [Ev|Ev]; [left | right]; done. }
  intros ev ?. apply bind_validation.
  { intros ?. specialize (Hs ev (HexToAddress (Source (Hdr ev)))).
    by destruct (verifySignature ev _). }
  intros b ?. apply bind_validation; [intros ? Hr; by eapply reject_if_validation|].
  intros _ ?. destruct (_ =?s _); [|done]. apply bind_validation; [|done].
  destruct (parseTombstoneData _); [done|]. intros ? [= <-]. by left.
Qed.

(** ** Instances for the witnesses *)

(** An attestation and a tombstone without a source of their own, signed with
    v = 28. *)
Definition sample_signature : string := string_of (replicate 64 97 ++ [28]).
Definition sample_attestation (type data : string) : RawEvent :=
  mkRaw (mkHeader "att-1" "" "" "did:erc721:0xCD" "1.0" 7 type "" "" "" sample_signature []) data "".

(** {"voidsId": "att-0"} *)
Definition sample_payload : string := "{" +:+ fmt_q "voidsId" +:+ ": " +:+ fmt_q "att-0" +:+ "}".

Definition attest_lib : CloudEventLib := {|
  TypeStatus := @TypeStatus sample_lib; TypeFingerprint := @TypeFingerprint sample_lib;
  TypeEvents := @TypeEvents sample_lib; TypeSignals := @TypeSignals sample_lib;
  TypeRawStatus := @TypeRawStatus sample_lib; TypeAttestation := @TypeAttestation sample_lib;
  TypeAttestationTombstone := @TypeAttestationTombstone sample_lib;
  HeaderKey := @HeaderKey sample_lib; MarshalJSON := @MarshalJSON sample_lib;
  UnmarshalJSON b :=
    if b =?s "attestation" then Ok (sample_attestation "" "hello")
    else if b =?s "tombstone" then Ok (sample_attestation "dimo.tombstone" sample_payload)
    else Err (ENew "invalid JSON");
  MarshalHeader := @MarshalHeader sample_lib; DecodeERC721DID := @DecodeERC721DID sample_lib;
  DecodeLegacyNFTDID := @DecodeLegacyNFTDID sample_lib; DIDString := @DIDString sample_lib;
  DecodeEthrDID := @DecodeEthrDID sample_lib; BytesForSignature := @BytesForSignature sample_lib;
  ExtrasJSON := @ExtrasJSON sample_lib
|}.

(** Key recovery answers the holder 0xaa, whose text is its address. *)
Definition sample_crypto : EthCrypto := {|
  FromHex s := s; TextHash s := s; BytesToHash s := s;
  SigToPub h s := Ok "0xaa"; PubkeyToAddress p := p;
  erc1271 := unit; NewErc1271 a := Ok tt; IsValidSignature _ _ _ := Ok ""
|}.

Definition parsed_header (type : string) : CloudEventHeader :=
  mkHeader "att-1" "0xaa" "" "did:erc721:0xCD" "1.0" 7 type "application/json" "" "" sample_signature [].

Definition parsed_attestation : Attestation :=
  mkAttestation (mkRaw (parsed_header "dimo.attestation") "hello" "") "".
Definition parsed_tombstone : Attestation :=
  mkAttestation (mkRaw (parsed_header "dimo.tombstone") sample_payload "") "att-0".

Lemma Parse_authentic_witness :
  exists raw, @UnmarshalJSON attest_lib "attestation" = Ok raw /\ Time raw <= 9 + 300 /\
    Data (att_event parsed_attestation) = Data raw /\
    DataBase64 (att_event parsed_attestation) = DataBase64 raw /\
    Source (att_event parsed_attestation) = @resolved_source sample_eth "0xaa" raw /\
    @isValidAttestationType attest_lib "dimo.attestation" = true /\
    (@signed_by_key attest_lib sample_crypto (att_event parsed_attestation) "0xaa" \/
     @signed_by_contract attest_lib sample_crypto (att_event parsed_attestation) "0xaa").
Proof.
  destruct (@Parse_authentic attest_lib sample_eth sample_crypto 300 9 "new-1" "0xaa" "attestation"
              parsed_attestation) as (raw & Hu & Ht & Hd & Hb & Hs & Hty & Hsig).
  - vm_compute. reflexivity.
  - exists raw. injection Hu as <-. repeat (split; [first [done | vm_compute; reflexivity]|]). exact Hsig.
Defined.

Lemma Parse_tombstone_witness : att_VoidsID parsed_tombstone <> "".
Proof.
  apply (proj1 (proj1 (@Parse_tombstone attest_lib sample_eth sample_crypto 300 9 "new-1" "0xaa" "tombstone"
           parsed_tombstone ltac:(vm_compute; reflexivity)))).
  reflexivity.
Defined.

Lemma Parse_error_witness :
  errors_is (EWrap "failed to process attestation: " (EWrap2 "" (ESentinel ErrValidation)
     ": failed to unmarshal attestation cloud event: " (ENew "invalid JSON") "") "") ErrValidation = true.
Proof.
  apply (@Parse_error attest_lib sample_eth sample_crypto 300 9 "new-1" "0xaa" "garbage").
  - intros h. reflexivity.
  - intros ev source. unfold verifySignature.
    destruct (verifyEOASignature _ _ _) as [[|]|]; reflexivity.
  - vm_compute. reflexivity.
Defined.

Lemma tombstone_accepted_witness :
  parseTombstoneData (encodeTombstone (mkTombstone "att-0" "sold")) = Ok "att-0".
Proof.
  apply (tombstone_accepted (mkTombstone "att-0" "sold")); [reflexivity| |vm_compute; discriminate].
  apply ValidIdentifier_ascii. reflexivity.
Defined.
