(* ===== verification/Web3.v ===== *)
(** * Package web3: the ERC-1271 binding, and what an on-chain check asks

    internal/web3/contract_login.go, over go-ethereum's bind package as a parameter
    ([GoEthBind]); its laws are the contract ABI: what a call of isValidSignature sends
    and how its answer is read. With them, the contract branch of attest's
    verifySignature is one eth_call to the source address. Keccak-256 is here to check
    the method selector. *)

From S2P Require Import Prelude GoStd Json Sha256 CloudEvent Stream Publisher Convert Attest.

(** ** Keccak-256 *)

Module Keccak.
Definition rotl (n x : Z) : Z := Z.lor (wrap64 (Z.shiftl x n)) (Z.shiftr x (64 - n)).
Definition lane (A : list Z) (x y : nat) : Z := nth (x mod 5 + 5 * (y mod 5)) A 0.
Definition grid (f : nat -> nat -> Z) : list Z := (fun i => f (i mod 5) (i / 5))%nat <$> seq 0 25.

Definition theta (A : list Z) : list Z :=
  let C := (fun x => fold_left Z.lxor ((lane A x) <$> seq 0 5) 0) <$> seq 0 5 in
  let c x := nth (x mod 5) C 0 in
  grid (fun x y => Z.lxor (lane A x y) (Z.lxor (c (x + 4)%nat) (rotl 1 (c (x + 1)%nat)))).
Definition offsets : list Z :=
  [0; 1; 62; 28; 27; 36; 44; 6; 55; 20; 3; 10; 43; 25; 39; 41; 45; 15; 21; 8; 18; 2; 61; 56; 14].
Definition rho_pi (A : list Z) : list Z :=
  grid (fun x y => rotl (lane offsets (x + 3 * y) x) (lane A (x + 3 * y) x)).
Definition chi (A : list Z) : list Z :=
  grid (fun x y => Z.lxor (lane A x y) (Z.land (2 ^ 64 - 1 - lane A (x + 1) y) (lane A (x + 2) y))).
Definition iota (rc : Z) (A : list Z) : list Z :=
  match A with a :: A' => Z.lxor a rc :: A' | [] => [] end.
Definition RC : list Z :=
  [0x0000000000000001; 0x0000000000008082; 0x800000000000808A; 0x8000000080008000; 0x000000000000808B; 0x0000000080000001;
   0x8000000080008081; 0x8000000000008009; 0x000000000000008A; 0x0000000000000088; 0x0000000080008009; 0x000000008000000A;
   0x000000008000808B; 0x800000000000008B; 0x8000000000008089; 0x8000000000008003; 0x8000000000008002; 0x8000000000000080;
   0x000000000000800A; 0x800000008000000A; 0x8000000080008081; 0x8000000000008080; 0x0000000080000001; 0x8000000080008008].
Definition f1600 (A : list Z) : list Z := fold_left (fun A rc => iota rc (chi (rho_pi (theta A)))) RC A.

(** Little-endian lanes, and the sponge with a rate of 136 bytes. *)
Fixpoint le (l : list Z) : Z := match l with [] => 0 | b :: l' => b + 256 * le l' end.
Fixpoint lanes (fuel : nat) (l : list Z) : list Z :=
  match fuel, l with
  | S fuel', _ :: _ => le (take 8 l) :: lanes fuel' (drop 8 l)
  | _, _ => []
  end.
Definition padded (l : list Z) : list Z :=
  let n := (135 - length l mod 136)%nat in
  l ++ match n with O => [129] | S n' => 1 :: replicate n' 0 ++ [128] end.
Fixpoint absorb (fuel : nat) (A : list Z) (ws : list Z) : list Z :=
  match fuel, ws with
  | S fuel', _ :: _ => absorb fuel' (f1600 (zip_with Z.lxor A (take 17 ws ++ replicate 8 0))) (drop 17 ws)
  | _, _ => A
  end.
Definition Sum256 (l : list Z) : list Z :=
  let p := padded l in
  let ws := lanes (length p) p in
  concat ((fun w => rev (Sha256.be_bytes 8 w)) <$> take 4 (absorb (length ws) (replicate 25 0) ws)).
End Keccak.

Example Keccak_empty :
  hex_EncodeToString (Keccak.Sum256 []) = "c5d2460186f7233c927e7db2dcc703c0e500b653ca82273b7bfad8045d85a470".
Proof. vm_compute. reflexivity. Qed.

(** ** The ABI *)

(** Text with its apostrophes as quotes. *)
Fixpoint quoted (s : string) : string :=
  match s with
  | "" => ""
  | String c s' => String (if Ascii.eqb c (chr "'") then Ascii.ascii_of_nat 34 else c) (quoted s')
  end.

(** Erc1271MetaData.ABI *)
Definition Erc1271ABI : string := quoted
  "[{'inputs':[{'internalType':'bytes32','name':'hash','type':'bytes32'},{'internalType':'bytes','name':'signature','type':'bytes'}],'name':'isValidSignature','outputs':[{'internalType':'bytes4','name':'magicValue','type':'bytes4'}],'stateMutability':'view','type':'function'}]".

(** The method an ABI document describes: its name and the types of its inputs and
    outputs. *)
Record abiMethod := mkMethod { m_name : string; m_inputs : list string; m_outputs : list string }.

Definition member (j : json) (key : string) : option json :=
  match j with JObject ms => snd <$> List.find (fun m => bool_decide (m.1 = bytes_of key)) ms | _ => None end.
Definition textMember (j : json) (key : string) : option string :=
  match member j key with Some (JString s) => Some (string_of s) | _ => None end.
Definition typesOf (j : json) (key : string) : option (list string) :=
  match member j key with Some (JArray ps) => mapM (fun p => textMember p "type") ps | _ => None end.
Definition methodOf (j : json) : option abiMethod :=
  name ← textMember j "name"; ins ← typesOf j "inputs"; outs ← typesOf j "outputs"; Some (mkMethod name ins outs).
Definition abiMethods (doc : string) : option (list abiMethod) :=
  match parseJSON doc with Some (JArray ds) => mapM methodOf ds | _ => None end.

(** name(type,...), and its selector. *)
Definition sigOf (m : abiMethod) : string := m_name m +:+ "(" +:+ Join (m_inputs m) "," +:+ ")".
Definition selector (m : abiMethod) : list Z := take 4 (Keccak.Sum256 (bytes_of (sigOf m))).
Definition isValidSignatureMethod : abiMethod := mkMethod "isValidSignature" ["bytes32"; "bytes"] ["bytes4"].

(** The contract ABI's encoding of a call of isValidSignature: the selector, the hash,
    where the signature starts (after two words), its length, and its bytes filled up to
    a multiple of 32. *)
Definition word (z : Z) : list Z := Sha256.be_bytes 32 z.
Definition callData (hash sig : list Z) : list Z :=
  selector isValidSignatureMethod ++ hash ++ word 64 ++ word (Zlen sig) ++ sig ++ replicate (Z.to_nat (- Zlen sig mod 32)) 0.

(** ** The binding *)

(** The values of a call: interface{} holding a [32]byte, a []byte or a [4]byte. *)
Inductive abiValue := Bytes32 (l : list Z) | Bytes (l : list Z) | Bytes4 (l : list Z).

(** accounts/abi and accounts/abi/bind. A caller, transactor or filterer may be nil. *)
Class GoEthBind := {
  ABI : Type; boundContract : Type; backend : Type; CallOpts : Type; TransactOpts : Type; Transaction : Type;
  GetAbi : string -> result ABI;
  NewBoundContract : string -> ABI -> option backend -> option backend -> option backend -> boundContract;
  contract_Call : boundContract -> CallOpts -> string -> list abiValue -> result (list abiValue);
  contract_Transfer : boundContract -> TransactOpts -> result Transaction;
  contract_Transact : boundContract -> TransactOpts -> string -> list abiValue -> result Transaction
}.

(** What a Go function that may panic does. *)
Inductive outcome (A : Type) := Returned (r : result A) | Panics.
Arguments Returned {_} r.
Arguments Panics {_}.

Module web3.
Section Binding.
Context `{GoEthBind}.

Record Erc1271Caller := mkCaller { caller_contract : boundContract }.
Record Erc1271Transactor := mkTransactor { transactor_contract : boundContract }.
Record Erc1271Filterer := mkFilterer { filterer_contract : boundContract }.
Record Erc1271 := mkErc1271 { e_Caller : Erc1271Caller; e_Transactor : Erc1271Transactor; e_Filterer : Erc1271Filterer }.
Record Erc1271Session := mkSession { ss_Contract : Erc1271; ss_CallOpts : CallOpts; ss_TransactOpts : TransactOpts }.
Record Erc1271CallerSession := mkCallerSession { cs_Contract : Erc1271Caller; cs_CallOpts : CallOpts }.
Record Erc1271TransactorSession := mkTransactorSession { ts_Contract : Erc1271Transactor; ts_TransactOpts : TransactOpts }.

Definition bindErc1271 (address : string) (caller transactor filterer : option backend) : result boundContract :=
  parsed ← GetAbi Erc1271ABI;
  Ok (NewBoundContract address parsed caller transactor filterer).

Definition NewErc1271 (address : string) (b : backend) : result Erc1271 :=
  contract ← bindErc1271 address (Some b) (Some b) (Some b);
  Ok (mkErc1271 (mkCaller contract) (mkTransactor contract) (mkFilterer contract)).
Definition NewErc1271Caller (address : string) (caller : backend) : result Erc1271Caller :=
  contract ← bindErc1271 address (Some caller) None None;
  Ok (mkCaller contract).
Definition NewErc1271Transactor (address : string) (transactor : backend) : result Erc1271Transactor :=
  contract ← bindErc1271 address None (Some transactor) None;
  Ok (mkTransactor contract).
Definition NewErc1271Filterer (address : string) (filterer : backend) : result Erc1271Filterer :=
  contract ← bindErc1271 address None None (Some filterer);
  Ok (mkFilterer contract).

(** The raw access; Erc1271Raw wraps an Erc1271, the other two their half of it. *)
Definition RawCall (r : Erc1271) := contract_Call (caller_contract (e_Caller r)).
Definition RawTransfer (r : Erc1271) := contract_Transfer (transactor_contract (e_Transactor r)).
Definition RawTransact (r : Erc1271) := contract_Transact (transactor_contract (e_Transactor r)).
Definition CallerRawCall (r : Erc1271Caller) := contract_Call (caller_contract r).
Definition TransactorRawTransfer (r : Erc1271Transactor) := contract_Transfer (transactor_contract r).
Definition TransactorRawTransact (r : Erc1271Transactor) := contract_Transact (transactor_contract r).

(** out[0] of an empty slice, and the conversion of another type, panic. *)
Definition IsValidSignature (c : Erc1271Caller) (opts : CallOpts) (hash signature : list Z) : outcome (list Z) :=
  match contract_Call (caller_contract c) opts "isValidSignature" [Bytes32 hash; Bytes signature] with
  | Err e => Returned (Err e)
  | Ok (Bytes4 out0 :: _) => Returned (Ok out0)
  | Ok _ => Panics
  end.
Definition SessionIsValidSignature (s : Erc1271Session) (hash signature : list Z) : outcome (list Z) :=
  IsValidSignature (e_Caller (ss_Contract s)) (ss_CallOpts s) hash signature.
Definition CallerSessionIsValidSignature (s : Erc1271CallerSession) (hash signature : list Z) : outcome (list Z) :=
  IsValidSignature (cs_Contract s) (cs_CallOpts s) hash signature.
End Binding.
End web3.

(** What go-ethereum promises: it accepts a document whose methods can be read; a call
    of isValidSignature on a contract with that one method is one eth_call to its address
    with the ABI encoding of the arguments, and its answer, a bytes4, is the first four
    bytes of the first word returned; bytes that are not one or more whole words are an
    error (abi.Unpack). *)
Definition wholeWords (ret : string) : bool := (32 <=? strlen ret) && (strlen ret mod 32 =? 0).

Class GoEthBindLaws (B : GoEthBind) := {
  eth_call : backend -> CallOpts -> string -> list Z -> result string;
  GetAbi_reads doc ms : abiMethods doc = Some ms -> exists a, GetAbi doc = Ok a;
  Call_sends doc a addr b t f opts hash sig :
    GetAbi doc = Ok a -> abiMethods doc = Some [isValidSignatureMethod] -> length hash = 32%nat ->
    match contract_Call (NewBoundContract addr a (Some b) t f) opts "isValidSignature" [Bytes32 hash; Bytes sig],
          eth_call b opts addr (callData hash sig) with
    | Ok out, Ok ret => wholeWords ret = true /\ out = [Bytes4 (bytes_of (String.substring 0 4 ret))]
    | Ok _, Err _ => False
    | Err e, Err e' => e = e'
    | Err _, Ok ret => wholeWords ret = false
    end
}.

(** The binding in attest's place for it: the call's options carry its timeout, msgHash
    and the answer are arrays of bytes. *)
Definition bindingCrypto `{E : EthCrypto} `{B : GoEthBind} (b : backend) (opts : CallOpts) : EthCrypto := {|
  FromHex := @FromHex E; TextHash := @TextHash E; BytesToHash := @BytesToHash E; SigToPub := @SigToPub E;
  PubkeyToAddress := @PubkeyToAddress E;
  erc1271 := @web3.Erc1271 B;
  Attest.NewErc1271 addr := web3.NewErc1271 addr b;
  Attest.IsValidSignature c hash sig :=
    match web3.IsValidSignature (web3.e_Caller c) opts (bytes_of hash) (bytes_of sig) with
    | Returned (Ok out) => Ok (string_of out)
    | Returned (Err e) => Err e
    | Panics => Err (ENew "panic")
    end |}.

(** ** Lemmas *)

Lemma Erc1271ABI_method : abiMethods Erc1271ABI = Some [isValidSignatureMethod].
Proof. vm_compute. reflexivity. Qed.

Lemma selector_is_magic : selector isValidSignatureMethod = bytes_of erc1271magicValue.
Proof. vm_compute. reflexivity. Qed.

Lemma callData_selector hash sig : take 4 (callData hash sig) = bytes_of erc1271magicValue.
Proof. unfold callData. rewrite selector_is_magic. reflexivity. Qed.

Lemma be_bytes_inj n z z' :
  0 <= z < 256 ^ Z.of_nat n -> 0 <= z' < 256 ^ Z.of_nat n -> Sha256.be_bytes n z = Sha256.be_bytes n z' -> z = z'.
Proof.
  revert z z'. induction n as [|n IH]; intros z z' Hz Hz' He; [simpl in Hz, Hz'; lia|].
  simpl in He. apply app_inj_tail in He as [He Hm]. rewrite Nat2Z.inj_succ, Z.pow_succ_r in Hz, Hz' by lia.
  apply IH in He; [|split; [apply Z.div_pos; lia|apply Z.div_lt_upper_bound; lia]..].
  rewrite (Z.div_mod z 256), (Z.div_mod z' 256), He, Hm by lia. done.
Qed.

(** The encoding leaves no doubt about what was asked. *)
Lemma callData_inj hash sig hash' sig' :
  length hash = 32%nat -> length hash' = 32%nat -> Zlen sig < 2 ^ 256 -> Zlen sig' < 2 ^ 256 ->
  callData hash sig = callData hash' sig' -> hash = hash' /\ sig = sig'.
Proof.
  intros Hh Hh' Hs Hs' He. unfold callData in He. apply app_inv_head in He.
  apply app_inj_1 in He as [-> He]; [|congruence]. split; [done|]. apply app_inv_head in He.
  apply app_inj_1 in He as [Hw He]; [|unfold word; by rewrite !length_be_bytes].
  assert (Hl : Zlen sig = Zlen sig').
  { apply (be_bytes_inj 32) in Hw; [done|split; [unfold Zlen; lia|done]..]. }
  apply app_inj_1 in He as [-> _]; [done|]. unfold Zlen in Hl. lia.
Qed.

(** ** Properties *)

Section Web3Properties.
Context `{CloudEventLib} `{EthLib} `{E : EthCrypto} `{B : GoEthBind} `{L : !GoEthBindLaws B}.
Variables (b : backend) (opts : CallOpts).

(** The node at the RPC URL says that the contract at [source] accepts the signature. *)
Definition accepted_on_chain (msgHash signature source : string) : Prop :=
  exists ret, eth_call b opts source (callData (bytes_of msgHash) (bytes_of signature)) = Ok ret /\
    wholeWords ret = true /\ String.substring 0 4 ret = erc1271magicValue.

Lemma length_bytes_strlen s : length (bytes_of s) = Z.to_nat (strlen s).
Proof. unfold bytes_of, strlen. rewrite length_fmap, Nat2Z.id. induction s; simpl; congruence. Qed.

Lemma binding_asks source msgHash signature :
  strlen msgHash = 32 ->
  exists c, web3.NewErc1271 source b = Ok c /\
    match web3.IsValidSignature (web3.e_Caller c) opts (bytes_of msgHash) (bytes_of signature),
          eth_call b opts source (callData (bytes_of msgHash) (bytes_of signature)) with
    | Returned (Ok out), Ok ret => wholeWords ret = true /\ string_of out = String.substring 0 4 ret
    | Returned (Err e), Err e' => e = e'
    | Returned (Err _), Ok ret => wholeWords ret = false
    | _, _ => False
    end.
Proof.
  intros Hl. destruct (GetAbi_reads _ _ Erc1271ABI_method) as [a Ha].
  eexists. split; [unfold web3.NewErc1271, web3.bindErc1271; by rewrite Ha|]. unfold web3.IsValidSignature. simpl.
  pose proof (Call_sends _ a source b (Some b) (Some b) opts (bytes_of msgHash) (bytes_of signature) Ha Erc1271ABI_method
    ltac:(rewrite length_bytes_strlen, Hl; done)) as Hc.
  destruct (contract_Call _ _ _ _) as [out|e], (eth_call _ _ _ _) as [ret|e']; try done.
  destruct Hc as [Hr ->]. by rewrite string_of_bytes_of.
Qed.

(** C12: The contract branch of the attestation check is one question to the chain. With
    the binding in place, verifyERC1271Signature accepts exactly when eth_call to the
    source address, with the ABI encoding of isValidSignature(hash, signature) under the
    selector 0x1626ba7e, returns one or more whole words that start with the same four bytes; that
    calldata is of no other hash or signature; the binding does not panic; and a call that
    fails is an error, not an answer. *)
Theorem erc1271_on_chain signature msgHash source :
  strlen msgHash = 32 ->
  let check := @verifyERC1271Signature _ (bindingCrypto (E := E) b opts) signature msgHash source in
  (check = Ok true <-> accepted_on_chain msgHash signature source) /\
  take 4 (callData (bytes_of msgHash) (bytes_of signature)) = bytes_of erc1271magicValue /\
  (forall hash' sig', length hash' = 32%nat -> Zlen sig' < 2 ^ 256 -> strlen signature < 2 ^ 256 ->
     callData hash' sig' = callData (bytes_of msgHash) (bytes_of signature) ->
     hash' = bytes_of msgHash /\ sig' = bytes_of signature) /\
  (forall e, eth_call b opts source (callData (bytes_of msgHash) (bytes_of signature)) = Err e ->
     check = Err (EWrap "failed to validate signature with contract: " e "")) /\
  (forall c, web3.NewErc1271 source b = Ok c ->
     web3.IsValidSignature (web3.e_Caller c) opts (bytes_of msgHash) (bytes_of signature) <> Panics).
Proof.
  intros Hl check. destruct (binding_asks source msgHash signature Hl) as (c & Hc & Ha).
  assert (check = match web3.IsValidSignature (web3.e_Caller c) opts (bytes_of msgHash) (bytes_of signature) with
    | Returned (Ok out) => Ok (string_of out =?s erc1271magicValue)
    | Returned (Err e) => Err (EWrap "failed to validate signature with contract: " e "")
    | Panics => Err (EWrap "failed to validate signature with contract: " (ENew "panic") "") end) as ->.
  { unfold check, verifyERC1271Signature. cbn [Attest.NewErc1271 Attest.IsValidSignature bindingCrypto]. rewrite Hc. simpl.
    by destruct (web3.IsValidSignature _ _ _ _) as [[out|e]|]. }
  rewrite callData_selector. set (data := callData _ _) in *.
  assert (Hinj : forall hash' sig', length hash' = 32%nat -> Zlen sig' < 2 ^ 256 -> strlen signature < 2 ^ 256 ->
    callData hash' sig' = data -> hash' = bytes_of msgHash /\ sig' = bytes_of signature).
  { intros hash' sig' Hh' Hs' Hs Hd. apply callData_inj in Hd; [exact Hd|exact Hh'|by rewrite length_bytes_strlen, Hl|exact Hs'|].
    unfold Zlen. rewrite length_bytes_strlen. unfold strlen in *. lia. }
  unfold accepted_on_chain. fold data. clearbody data. rewrite Hc.
  destruct (web3.IsValidSignature _ _ _ _) as [[out|e]|] eqn:Ei, (eth_call b opts source data) as [ret|e']; [| | | |done..].
  - destruct Ha as [Hr Ho]. rewrite Ho. split_and!; [|done|done|done|intros ? [= <-]; by rewrite Ei]. split.
    + intros [= Hm%String.eqb_eq]. by exists ret.
    + intros (r & [= <-] & _ & ->). done.
  - done.
  - split_and!; [|done|done|done|intros ? [= <-]; by rewrite Ei]. split; [done|]. intros (r & [= <-] & Hr & _). congruence.
  - subst e'. split_and!; [|done|done|by intros ? [= <-]|intros ? [= <-]; by rewrite Ei]. split; [done|]. by intros (r & ? & _).
Qed.
End Web3Properties.

(** ** Instance and witness *)

(** A chain as a function from address and calldata to the answer. *)
Definition toyCall (b : option (string -> list Z -> result string)) (addr : string) (args : list abiValue) : result (list abiValue) :=
  match b, args with
  | Some chain, [Bytes32 hash; Bytes sig] =>
      match chain addr (callData hash sig) with
      | Ok ret => if wholeWords ret then Ok [Bytes4 (bytes_of (String.substring 0 4 ret))]
                  else Err (ENew "abi: improperly formatted output")
      | Err e => Err e
      end
  | _, _ => Err (ENew "abi: cannot use arguments")
  end.
Definition toyBind : GoEthBind := {|
  ABI := list abiMethod; boundContract := string * option (string -> list Z -> result string);
  backend := string -> list Z -> result string; CallOpts := unit; TransactOpts := unit; Transaction := unit;
  GetAbi doc := match abiMethods doc with Some ms => Ok ms | None => Err (ENew "invalid ABI") end;
  NewBoundContract addr _ caller _ _ := (addr, caller);
  contract_Call c _ _ args := toyCall c.2 c.1 args;
  contract_Transfer _ _ := Ok tt; contract_Transact _ _ _ _ := Ok tt |}.

#[export] Instance toyBind_laws : GoEthBindLaws toyBind.
Proof.
  refine {| eth_call := fun (b : @backend toyBind) _ addr data => b addr data |}.
  - intros doc ms Hm. exists ms. simpl. by rewrite Hm.
  - intros doc a addr b t f opts hash sig _ _ _. cbn [contract_Call toyBind NewBoundContract toyCall fst snd].
    destruct (b addr (callData hash sig)) as [ret|e]; [|done]. by destruct (wholeWords ret).
Defined.

(** A contract wallet at one address that accepts every signature. *)
Definition wallet : string := "0xwallet".
Definition magicWord : string := erc1271magicValue +:+ string_of (replicate 28 0).
Definition walletChain (addr : string) (data : list Z) : result string :=
  if addr =?s wallet then Ok magicWord else Err (ENew "no contract code at given address").
Definition walletHash : string := string_of (replicate 32 7).

Lemma erc1271_on_chain_witness :
  @verifyERC1271Signature sample_eth (@bindingCrypto sample_crypto toyBind walletChain tt) "signed" walletHash wallet = Ok true.
Proof.
  apply (proj1 (@erc1271_on_chain sample_eth sample_crypto toyBind toyBind_laws walletChain tt "signed" walletHash wallet
    ltac:(vm_compute; reflexivity))).
  exists magicWord. split; [reflexivity|]. split; vm_compute; reflexivity.
Defined.
