(* ===== verification/Handler.v ===== *)
(** * Package handler: the ingest endpoints

    internal/handler/handler.go. The handlers are written against the four
    interfaces the source declares (Converter, AttestationParser, Splitter,
    Publisher), here the operations of class [Deps] over a shared world; what a
    publisher promises is [PublisherLaws]. Instance [node_deps] plugs in the
    node's own components (Convert, Attest, Blob, Publisher) and [node_publisher]
    discharges the promise from the broker's documented ack contract. *)

From S2P Require Import Prelude GoStd CloudEvent Stream Publisher Blob Convert Attest.

(** ** HTTP *)

(** What the handlers write: status, Retry-After header and the message (before
    http.Error appends its newline). *)
Record response := mkResponse { status : Z; retry_after : option string; message : string }.

Definition StatusOK : Z := 200.
Definition StatusBadRequest : Z := 400.
Definition StatusUnauthorized : Z := 401.
Definition StatusRequestEntityTooLarge : Z := 413.
Definition StatusInternalServerError : Z := 500.
Definition StatusServiceUnavailable : Z := 503.

Definition http_Error (msg : string) (code : Z) : response := mkResponse code None msg.

(** A request as a handler sees it: SourceFromContext and io.ReadAll(r.Body). *)
Record request := mkRequest { req_source : option string; req_body : result string }.

Definition writeError (err : error) : response :=
  if errors_as_max_bytes err then http_Error "payload too large" StatusRequestEntityTooLarge
  else if errors_is err ErrPayloadTooLarge
  then http_Error "event exceeds maximum payload size" StatusRequestEntityTooLarge
  else if errors_is err ErrValidation then http_Error (error_text err) StatusBadRequest
  else if errors_is err ErrUnavailable
  then mkResponse StatusServiceUnavailable (Some "5") "ingest temporarily unavailable"
  else http_Error "internal error" StatusInternalServerError.

(** ** The interfaces *)

Class Deps := {
  world : Type;
  deps_Convert : world -> string -> string -> world * result (list RawEvent);
  deps_Parse : world -> string -> string -> world * result Attestation;
  deps_MaybeSplit : world -> RawEvent -> world * result StoredEvent;
  deps_Publish : world -> StoredEvent -> world * option error;
  deps_PublishBatch : world -> list StoredEvent -> world * option error
}.

(** "The durability point": nil means the event, resp. every event, is durable. *)
Class PublisherLaws (D : Deps) := {
  durable : world -> StoredEvent -> Prop;
  Publish_durable w e w' : deps_Publish w e = (w', None) -> durable w' e;
  PublishBatch_durable w es w' : deps_PublishBatch w es = (w', None) -> Forall (durable w') es
}.

Definition set_VoidsID (v : string) (s : StoredEvent) : StoredEvent := mkStored (Raw s) (DataIndexKey s) v.

Section Handlers.
Context `{CloudEventLib} `{EthLib} `{ModuleLib} `{Deps}.
(** Handlers.ValidateFingerprint *)
Variable ValidateFingerprint : bool.

Definition split (w : world) (event : RawEvent) (voidsID : string) : world * result StoredEvent :=
  match deps_MaybeSplit w event with
  | (w', Err e) => (w', Err (EWrap ("splitting event " +:+ ID event +:+ ": ") e ""))
  | (w', Ok stored) => (w', Ok (set_VoidsID voidsID stored))
  end.

Definition publishOne (w : world) (event : RawEvent) (voidsID : string) : world * option error :=
  match split w event voidsID with
  | (w', Err e) => (w', Some e)
  | (w', Ok stored) => deps_Publish w' stored
  end.

(** What the fingerprint check does with an event: keep it, drop it (invalid
    VIN), or fail it. *)
Inductive fp_verdict := Keep | Drop | Fault (e : error).

Definition fingerprintVerdict (event : RawEvent) : fp_verdict :=
  if ValidateFingerprint then
    match Validate event with
    | None => Keep
    | Some e =>
        if errors_is e ErrInvalidVIN then Drop
        else Fault (EWrap2 "" (ESentinel ErrValidation)
                      (": validating fingerprint " +:+ ID event +:+ ": ") e "")
    end
  else Keep.

(** The loop over the converted events: toPublish, splitErr, validationErr. *)
Fixpoint collect (w : world) (events : list RawEvent) (toPublish : list StoredEvent)
    (splitErr validationErr : option error)
    : world * list StoredEvent * option error * option error :=
  match events with
  | [] => (w, toPublish, splitErr, validationErr)
  | event :: events' =>
      match fingerprintVerdict event with
      | Drop => collect w events' toPublish splitErr validationErr
      | Fault e => collect w events' toPublish splitErr (errors_join validationErr (Some e))
      | Keep =>
          match split w event "" with
          | (w', Err e) => collect w' events' toPublish (errors_join splitErr (Some e)) validationErr
          | (w', Ok stored) => collect w' events' (toPublish ++ [stored]) splitErr validationErr
          end
      end
  end.

Definition Connection (w : world) (r : request) : world * response :=
  match req_source r with
  | None => (w, http_Error "missing client identity" StatusUnauthorized)
  | Some source =>
      match req_body r with
      | Err e => (w, writeError e)
      | Ok body =>
          match deps_Convert w source body with
          | (w1, Err e) => (w1, writeError e)
          | (w1, Ok events) =>
              let '(w2, toPublish, splitErr, validationErr) := collect w1 events [] None None in
              match deps_PublishBatch w2 toPublish with
              | (w3, Some e) => (w3, writeError e)
              | (w3, None) =>
                  match splitErr, validationErr with
                  | Some e, _ => (w3, writeError e)
                  | None, Some e => (w3, writeError e)
                  | None, None => (w3, mkResponse StatusOK None "")
                  end
              end
          end
      end
  end.

Definition AttestationHandler (w : world) (r : request) : world * response :=
  match req_source r with
  | None => (w, http_Error "missing client identity" StatusUnauthorized)
  | Some source =>
      match req_body r with
      | Err e => (w, writeError e)
      | Ok body =>
          match deps_Parse w (HexToAddress source) body with
          | (w1, Err e) => (w1, writeError e)
          | (w1, Ok attestation) =>
              match publishOne w1 (att_event attestation) (att_VoidsID attestation) with
              | (w2, Some e) => (w2, writeError e)
              | (w2, None) => (w2, mkResponse StatusOK None "")
              end
          end
      end
  end.
End Handlers.

(** ** The node's own components behind the interfaces *)

Section Node.
Context `{CloudEventLib} `{EthLib} `{ModuleLib} `{EthCrypto} `{NatsHeaderLib} `{JetStreamPublish} `{ObjectStore}.
(** Boot-time configuration: the partition count, the splitter, the skew. *)
Variables (partitions : Z) (splitter : Splitter) (skew : Z).

(** What a request finds: the WAL, the object store, the converter's warning
    map, the clock and the ids the generators will hand out. *)
Record node := mkNode {
  n_wal : wal; n_store : store; n_warns : gmap string Z; n_now : Z; n_ids : list string
}.

Definition next_id (n : node) : string := default "" (head (n_ids n)).

Definition node_deps : Deps := {|
  world := node;
  deps_Convert n source body :=
    let '(warns, r) := Convert skew (n_now n) (next_id n) (n_warns n) source body in
    (mkNode (n_wal n) (n_store n) warns (n_now n) (tail (n_ids n)), r);
  deps_Parse n jwt body :=
    (mkNode (n_wal n) (n_store n) (n_warns n) (n_now n) (tail (n_ids n)),
     Parse skew (n_now n) (next_id n) jwt body);
  deps_MaybeSplit n event :=
    let '(st, r) := MaybeSplit splitter (n_now n) (next_id n) (n_store n) event in
    (mkNode (n_wal n) st (n_warns n) (n_now n) (tail (n_ids n)), r);
  deps_Publish n event :=
    let '(js, _, err) := Publish partitions (n_wal n) event in
    (mkNode js (n_store n) (n_warns n) (n_now n) (n_ids n), err);
  deps_PublishBatch n events :=
    let '(js, _, err) := PublishBatch partitions (n_wal n) events in
    (mkNode js (n_store n) (n_warns n) (n_now n) (n_ids n), err)
|}.
End Node.

(** ** Lemmas: the publisher's promise *)

Section Durable.
Context `{CloudEventLib} `{NatsHeaderLib} `{J : JetStreamPublish} `{L : !JetStreamLaws J}.
Variable partitions : Z.

(** The stream holds the message of the event. *)
Definition wal_durable (js : wal) (event : StoredEvent) : Prop :=
  exists body, MarshalJSON event = Ok body /\ stream_has js (buildMsg partitions event body).

(** A future that will make [event] durable once it is acknowledged. *)
Definition carries (event : StoredEvent) (r : result future) : Prop :=
  forall f, r = Ok f -> exists body, MarshalJSON event = Ok body /\ future_msg f = buildMsg partitions event body.

Lemma submitAsync_carries js event : carries event (submitAsync partitions js event).2.
Proof.
  unfold carries, submitAsync. intros f. destruct (MarshalJSON event) as [body|]; [|done].
  destruct (PublishMsgAsync js _) as [js' [f'|]] eqn:Ep; [|done]. intros [= <-].
  exists body. split; [done|]. by eapply PublishMsgAsync_msg.
Qed.

Lemma submitAll_carries js events : Forall2 carries events (submitAll partitions js events).2.
Proof.
  revert js. induction events as [|e events IH]; intros js; simpl; [constructor|].
  pose proof (submitAsync_carries js e) as Hc.
  destruct (submitAsync partitions js e) as [js1 r]. specialize (IH js1).
  destruct (submitAll partitions js1 events) as [js2 rs]. by constructor.
Qed.

Lemma awaitAck_keeps js f m : stream_has js m -> stream_has (awaitAck js f).1 m.
Proof. unfold awaitAck. intros Hm. pose proof (await_keeps js f m Hm). by destruct (AwaitFuture js f). Qed.

Lemma awaitAll_keeps js rs m : stream_has js m -> stream_has (awaitAll js rs).1 m.
Proof.
  revert js. induction rs as [|[f|e] rs IH]; intros js Hm; simpl; [done| |].
  - pose proof (awaitAck_keeps js f m Hm) as Hk. destruct (awaitAck js f) as [js1 o].
    specialize (IH js1 Hk). by destruct (awaitAll js1 rs).
  - specialize (IH js Hm). by destruct (awaitAll js rs).
Qed.

Lemma awaitAck_stored js f js' : awaitAck js f = (js', None) -> stream_has js' (future_msg f).
Proof.
  unfold awaitAck. destruct (AwaitFuture js f) as [js1 o] eqn:Ea. destruct o; try done.
  intros [= <-]. by eapply AwaitFuture_ack.
Qed.

Lemma awaitAll_stored js rs events :
  Forall2 carries events rs -> Forall (fun o => o = None) (awaitAll js rs).2 ->
  Forall (wal_durable (awaitAll js rs).1) events.
Proof.
  intros Hc. revert js. induction Hc as [|e r events rs Hr _ IH]; intros js; simpl; [constructor|].
  destruct r as [f|err].
  - destruct (awaitAck js f) as [js1 o] eqn:Ea. specialize (IH js1).
    pose proof (awaitAll_keeps js1 rs) as Hk. destruct (awaitAll js1 rs) as [js2 os]. simpl in *.
    intros [-> Hos]%Forall_cons. constructor; [|by apply IH].
    destruct (Hr f eq_refl) as (body & Hb & Hf). exists body. split; [done|]. apply Hk. rewrite <- Hf.
    by eapply awaitAck_stored.
  - destruct (awaitAll js rs) as [js2 os]. simpl. by intros [? _]%Forall_cons.
Qed.

Lemma PublishBatch_stored js events js' obs :
  PublishBatch partitions js events = (js', obs, None) -> Forall (wal_durable js') events.
Proof.
  destruct (batch_outcomes partitions js events) as [js1 os] eqn:Eb.
  destruct (PublishBatch_reference _ _ _ _ _ Eb) as (obs' & -> & _). intros [= <- _ Hn].
  apply firstErr_None in Hn. revert Eb Hn. unfold batch_outcomes.
  pose proof (submitAll_carries js events) as Hc.
  destruct (submitAll partitions js events) as [js2 rs].
  pose proof (awaitAll_stored js2 rs events Hc) as Hs. intros Eb. rewrite Eb in Hs. exact Hs.
Qed.

Lemma Publish_stored js event js' obs :
  Publish partitions js event = (js', obs, None) -> wal_durable js' event.
Proof.
  intros Hp. pose proof (PublishBatch_stored js [event] js' obs Hp) as Hf.
  by inversion_clear Hf.
Qed.
End Durable.

(** The node's publisher keeps the promise the handlers rely on. *)
#[export] Instance node_publisher `{CloudEventLib} `{EthLib} `{ModuleLib} `{EthCrypto} `{NatsHeaderLib}
    `{J : JetStreamPublish} `{!JetStreamLaws J} `{ObjectStore} partitions splitter skew :
  PublisherLaws (node_deps partitions splitter skew).
Proof.
  refine {| durable := fun (w : @world (node_deps partitions splitter skew)) e =>
              wal_durable partitions (n_wal w) e |}.
  - intros w e w'. simpl. destruct (Publish partitions (n_wal w) e) as [[js obs] err] eqn:Ep.
    intros [= <- ->]. by eapply Publish_stored.
  - intros w es w'. simpl. destruct (PublishBatch partitions (n_wal w) es) as [[js obs] err] eqn:Ep.
    intros [= <- ->]. by eapply PublishBatch_stored.
Defined.

(** ** Lemmas: the collecting loop *)

(** What became of one converted event. *)
Inductive fate := Dropped | Faulted (e : error) | SplitFailed (e : error) | Stored (s : StoredEvent).

Section Fates.
Context `{CloudEventLib} `{EthLib} `{ModuleLib} `{D : Deps}.
Variable ValidateFingerprint : bool.

Inductive fate_of (event : RawEvent) : fate -> Prop :=
| fate_dropped e :
    ValidateFingerprint = true -> Validate event = Some e -> errors_is e ErrInvalidVIN = true ->
    fate_of event Dropped
| fate_faulted e :
    fingerprintVerdict ValidateFingerprint event = Fault e -> fate_of event (Faulted e)
| fate_split_failed w w' e :
    fingerprintVerdict ValidateFingerprint event = Keep ->
    split w event "" = (w', Err e) -> fate_of event (SplitFailed e)
| fate_stored w w' s :
    fingerprintVerdict ValidateFingerprint event = Keep ->
    deps_MaybeSplit w event = (w', Ok s) -> fate_of event (Stored (set_VoidsID "" s)).

Definition stored_of (f : fate) : option StoredEvent := match f with Stored s => Some s | _ => None end.
Definition split_error_of (f : fate) : option error := match f with SplitFailed e => Some e | _ => None end.
Definition fault_of (f : fate) : option error := match f with Faulted e => Some e | _ => None end.

(** Errors joined left to right onto [e]. *)
Definition join_all (e : option error) (fs : list (option error)) : option error := fold_left errors_join fs e.

(** The loop publishes the stored events in order, and joins the faults. *)
Lemma collect_fates events : forall w toPublish splitErr validationErr,
  exists w' fates,
    collect ValidateFingerprint w events toPublish splitErr validationErr =
      (w', toPublish ++ omap stored_of fates, join_all splitErr (split_error_of <$> fates),
       join_all validationErr (fault_of <$> fates)) /\
    Forall2 fate_of events fates.
Proof.
  assert (forall o, errors_join o None = o) as Hjn by by intros [].
  induction events as [|event events IH]; intros w pub se ve; simpl.
  { exists w, []. rewrite app_nil_r. by split; [|constructor]. }
  destruct (fingerprintVerdict ValidateFingerprint event) as [| |e] eqn:Ev.
  - unfold split. destruct (deps_MaybeSplit w event) as [w1 [s|e]] eqn:Es.
    + destruct (IH w1 (pub ++ [set_VoidsID "" s]) se ve) as (w' & fates & -> & Hf).
      exists w', (Stored (set_VoidsID "" s) :: fates). split; [|by econstructor; [econstructor|]].
      unfold join_all. simpl. by rewrite <- app_assoc, !Hjn.
    + set (e' := EWrap _ e "").
      destruct (IH w1 pub (errors_join se (Some e')) ve) as (w' & fates & -> & Hf).
      exists w', (SplitFailed e' :: fates). split; [unfold join_all; simpl; by rewrite Hjn|].
      constructor; [|done]. apply (fate_split_failed _ w w1); [done|]. unfold split. by rewrite Es.
  - destruct (IH w pub se ve) as (w' & fates & -> & Hf). exists w', (Dropped :: fates).
    split; [unfold join_all; simpl; by rewrite !Hjn|]. constructor; [|done].
    unfold fingerprintVerdict in Ev. destruct ValidateFingerprint eqn:Ef; [|done].
    destruct (Validate event) as [e|] eqn:Evl; [|done].
    destruct (errors_is e ErrInvalidVIN) eqn:Ei; [|done]. by eapply fate_dropped.
  - destruct (IH w pub se (errors_join ve (Some e))) as (w' & fates & -> & Hf).
    exists w', (Faulted e :: fates). split; [unfold join_all; simpl; by rewrite Hjn|].
    constructor; [|done]. by constructor.
Qed.

Lemma join_all_None e fs : join_all e fs = None <-> e = None /\ Forall (fun o => o = None) fs.
Proof.
  unfold join_all. revert e. induction fs as [|o fs IH]; intros e; simpl.
  - split; [by intros -> | by intros [-> _]].
  - rewrite IH, errors_join_None, Forall_cons. tauto.
Qed.
End Fates.

Lemma writeError_not_ok e : status (writeError e) <> StatusOK.
Proof. unfold writeError. repeat (split_match; try done). Qed.

#[export] Hint Resolve writeError_not_ok : din.

(** ** Properties *)

Section HandlerProperties.
Context `{CloudEventLib} `{EthLib} `{ModuleLib} `{D : Deps} `{P : !PublisherLaws D}.

(** The 200 answer, opened up. *)
Lemma Connection_accepted vf w r w' resp :
  Connection vf w r = (w', resp) -> status resp = StatusOK ->
  exists source body w1 events fates,
    req_source r = Some source /\ req_body r = Ok body /\
    deps_Convert w source body = (w1, Ok events) /\ Forall2 (fate_of vf) events fates /\
    Forall (fun f => f = Dropped \/ exists s, f = Stored s /\ durable w' s) fates.
Proof.
  unfold Connection. intros Hc Hs.
  destruct (req_source r) as [source|]; [|by simplify_eq].
  destruct (req_body r) as [body|e]; [|by simplify_eq; destruct (writeError_not_ok e)].
  destruct (deps_Convert w source body) as [w1 [events|e]] eqn:Ec; [|by simplify_eq; destruct (writeError_not_ok e)].
  destruct (collect_fates vf events w1 [] None None) as (w2 & fates & Hcol & Hf). rewrite Hcol in Hc.
  destruct (deps_PublishBatch w2 _) as [w3 [e|]] eqn:Ep; [by simplify_eq; destruct (writeError_not_ok e)|].
  destruct (join_all None (split_error_of <$> fates)) as [e|] eqn:Es;
    [by simplify_eq; destruct (writeError_not_ok e)|].
  destruct (join_all None (fault_of <$> fates)) as [e|] eqn:Ef;
    [by simplify_eq; destruct (writeError_not_ok e)|]. simplify_eq.
  exists source, body, w1, events, fates. repeat (split; [done|]).
  apply join_all_None in Es as [_ Es]. apply join_all_None in Ef as [_ Ef].
  apply PublishBatch_durable in Ep. rewrite Forall_fmap in Es, Ef.
  rewrite Forall_forall in Es, Ef. rewrite Forall_forall in Ep. apply Forall_forall. intros f Hin.
  specialize (Es f Hin). specialize (Ef f Hin). destruct f as [|e|e|s]; try done; [by left|].
  right. exists s. split; [done|]. apply Ep. simpl. apply list_elem_of_omap. by exists (Stored s).
Qed.

(** C4: A 200 from the connection endpoint means durable: the request was
    authenticated and converted, and every converted event is in the WAL as the
    splitter left it, except fingerprints dropped for an invalid VIN. *)
Theorem Connection_200_durable vf w r w' resp :
  Connection vf w r = (w', resp) -> status resp = StatusOK ->
  exists source body w1 events fates,
    req_source r = Some source /\ req_body r = Ok body /\
    deps_Convert w source body = (w1, Ok events) /\ Forall2 (fate_of vf) events fates /\
    Forall (fun f => f = Dropped \/ exists s, f = Stored s /\ durable w' s) fates.
Proof. apply Connection_accepted. Qed.

(** One bad event does not cost its siblings: whatever the fingerprint check
    and the splitter rejected, every other event of the payload is durable before
    the request is answered with a split or validation error; only a failing
    publish, which takes precedence in the response, leaves that open. *)
Theorem Connection_siblings vf w r w' resp source body w1 events :
  Connection vf w r = (w', resp) ->
  req_source r = Some source -> req_body r = Ok body -> deps_Convert w source body = (w1, Ok events) ->
  exists fates, Forall2 (fate_of vf) events fates /\
    ((exists w2 e, deps_PublishBatch w2 (omap stored_of fates) = (w', Some e) /\ resp = writeError e) \/
     (Forall (durable w') (omap stored_of fates) /\
      (status resp = StatusOK <->
       Forall (fun f => split_error_of f = None /\ fault_of f = None) fates))).
Proof.
  unfold Connection. intros Hc Hsrc Hbody Hcv. rewrite Hsrc, Hbody, Hcv in Hc.
  destruct (collect_fates vf events w1 [] None None) as (w2 & fates & Hcol & Hf). rewrite Hcol in Hc.
  exists fates. split; [done|]. simpl in Hc.
  destruct (deps_PublishBatch w2 _) as [w3 [e|]] eqn:Ep; [left; simplify_eq; eauto|]. right.
  assert (w3 = w') as -> by (destruct (join_all _ (split_error_of <$> _)), (join_all _ (fault_of <$> _)); congruence).
  split; [by eapply PublishBatch_durable|]. rewrite Forall_and.
  assert (forall (g : fate -> option error), join_all None (g <$> fates) = None <-> Forall (fun f => g f = None) fates)
    as Hj by (intros g; rewrite join_all_None, Forall_fmap; tauto).
  rewrite <- !Hj.
  destruct (join_all None (split_error_of <$> fates)) as [e|];
    [|destruct (join_all None (fault_of <$> fates)) as [e|]]; simplify_eq.
  - split; [by intros ?%writeError_not_ok | by intros [? _]].
  - split; [by intros ?%writeError_not_ok | by intros [_ ?]].
  - done.
Qed.

(** A 200 from the attestation endpoint means that the attestation was
    parsed and verified, and that it is in the WAL with the id it voids. *)
Theorem Attestation_200_durable w r w' resp :
  AttestationHandler w r = (w', resp) -> status resp = StatusOK ->
  exists source body w1 att w2 stored,
    req_source r = Some source /\ req_body r = Ok body /\
    deps_Parse w (HexToAddress source) body = (w1, Ok att) /\
    deps_MaybeSplit w1 (att_event att) = (w2, Ok stored) /\
    durable w' (set_VoidsID (att_VoidsID att) stored).
Proof.
  unfold AttestationHandler, publishOne, split. intros Hc Hs.
  destruct (req_source r) as [source|]; [|by simplify_eq].
  destruct (req_body r) as [body|e]; [|by simplify_eq; destruct (writeError_not_ok e)].
  destruct (deps_Parse w _ body) as [w1 [att|e]] eqn:Epa; [|by simplify_eq; destruct (writeError_not_ok e)].
  destruct (deps_MaybeSplit w1 _) as [w2 [st|e]] eqn:Es;
    [|by injection Hc as <- <-; apply writeError_not_ok in Hs].
  destruct (deps_Publish w2 _) as [w3 [e|]] eqn:Ep; [by simplify_eq; destruct (writeError_not_ok e)|].
  simplify_eq. apply Publish_durable in Ep. by exists source, body, w1, att, w2, st.
Qed.
End HandlerProperties.

(** Errors reach the client as the classes of the API: 413 for a body or an
    event that is too large (never retryable), 400 for a validation fault, 503
    with Retry-After for an unacknowledged publish and 500 for the rest; size
    wins over validation, validation over unavailability. *)
Theorem writeError_classes e :
  (status (writeError e) = StatusRequestEntityTooLarge <->
   errors_as_max_bytes e = true \/ errors_is e ErrPayloadTooLarge = true) /\
  (status (writeError e) = StatusServiceUnavailable <->
   errors_is e ErrUnavailable = true /\ errors_is e ErrValidation = false /\
   errors_is e ErrPayloadTooLarge = false /\ errors_as_max_bytes e = false) /\
  (retry_after (writeError e) <> None <-> status (writeError e) = StatusServiceUnavailable).
Proof.
  unfold writeError.
  destruct (errors_as_max_bytes e), (errors_is e ErrPayloadTooLarge), (errors_is e ErrValidation),
    (errors_is e ErrUnavailable); vm_compute; intuition congruence.
Qed.

(** ** Instances for the witnesses *)

Definition sample_node (lib : CloudEventLib) : Deps :=
  @node_deps lib sample_eth sample_modules sample_crypto map_headers list_js map_store 4 sample_splitter 300.
Definition boot_node : @node list_js map_store := @mkNode list_js map_store [] no_blobs ∅ 9 ["id-1"; "id-2"].

Definition sample_laws (lib : CloudEventLib) : PublisherLaws (sample_node lib) :=
  @node_publisher lib sample_eth sample_modules sample_crypto map_headers list_js list_js_laws map_store
    4 sample_splitter 300.

Definition device_request : request := mkRequest (Some "0xAA") (Ok "payload").

Definition device_run : node * response :=
  @Connection sample_lib sample_modules (sample_node sample_lib) true boot_node device_request.

Lemma device_answered :
  @Connection sample_lib sample_modules (sample_node sample_lib) true boot_node device_request = (device_run.1, device_run.2).
Proof. unfold device_run. by destruct (Connection _ _ _). Qed.

Lemma Connection_200_durable_witness :
  exists source body w1 events fates,
    req_source device_request = Some source /\ req_body device_request = Ok body /\
    @deps_Convert (sample_node sample_lib) boot_node source body = (w1, Ok events) /\
    Forall2 (@fate_of sample_lib sample_modules (sample_node sample_lib) true) events fates /\
    Forall (fun f => f = Dropped \/ exists s, f = Stored s /\
              @durable _ (sample_laws sample_lib) device_run.1 s) fates.
Proof.
  refine (@Connection_200_durable sample_lib sample_modules (sample_node sample_lib)
            (sample_laws sample_lib) true boot_node device_request device_run.1 device_run.2 _ _).
  - exact device_answered.
  - vm_compute. reflexivity.
Defined.

Lemma Connection_siblings_witness :
  exists fates, Forall2 (@fate_of sample_lib sample_modules (sample_node sample_lib) true)
                  [sample_converted] fates.
Proof.
  destruct (@Connection_siblings sample_lib sample_modules (sample_node sample_lib)
              (sample_laws sample_lib) true boot_node device_request device_run.1 device_run.2
              "0xAA" "payload" (@mkNode list_js map_store [] no_blobs ∅ 9 ["id-2"]) [sample_converted])
    as (fates & Hf & _); [exact device_answered|reflexivity|reflexivity|vm_compute; reflexivity|]. by exists fates.
Defined.

Definition holder_request : request := mkRequest (Some "0xAA") (Ok "tombstone").
Definition holder_run : node * response :=
  @AttestationHandler sample_eth (sample_node attest_lib) boot_node holder_request.

Lemma holder_answered :
  @AttestationHandler sample_eth (sample_node attest_lib) boot_node holder_request = (holder_run.1, holder_run.2).
Proof. unfold holder_run. by destruct (AttestationHandler _ _). Qed.

Lemma Attestation_200_durable_witness :
  exists source body w1 att w2 stored,
    req_source holder_request = Some source /\ req_body holder_request = Ok body /\
    @deps_Parse (sample_node attest_lib) boot_node (@HexToAddress sample_eth source) body = (w1, Ok att) /\
    @deps_MaybeSplit (sample_node attest_lib) w1 (att_event att) = (w2, Ok stored) /\
    @durable _ (sample_laws attest_lib) holder_run.1 (set_VoidsID (att_VoidsID att) stored).
Proof.
  refine (@Attestation_200_durable sample_eth (sample_node attest_lib)
            (sample_laws attest_lib) boot_node holder_request holder_run.1 holder_run.2 _ _).
  - exact holder_answered.
  - vm_compute. reflexivity.
Defined.
