(* ===== verification/Responses.v ===== *)
(** * Package handler: what a failing request is answered

    The error paths of the connection endpoint on the node's own components: which
    failure a client is told to retry and which it is told to correct. Errors of the
    broker, of the object store and of the JSON codec are foreign to the node: they carry
    none of its sentinels ([BrokerErrors], [StoreErrors], [CodecErrors]). *)

From S2P Require Import Prelude GoStd CloudEvent Stream Publisher Blob Convert Attest Handler.

(** None of the errors writeError looks for is in it. *)
Definition foreign (e : error) : Prop :=
  errors_is e ErrValidation = false /\ errors_is e ErrUnavailable = false /\
  errors_is e ErrPayloadTooLarge = false /\ errors_as_max_bytes e = false.

Class BrokerErrors (J : JetStreamPublish) : Prop := {
  publish_foreign js m js' e : PublishMsgAsync js m = (js', Err e) -> foreign e;
  await_foreign js f js' e : (AwaitFuture js f = (js', AckErr e) \/ AwaitFuture js f = (js', AckCtxDone e)) -> foreign e
}.

(** The same of the object store's put and of marshalling. *)
Class StoreErrors (S : ObjectStore) : Prop := put_foreign st key raw st' e : PutObject st key raw = (st', Some e) -> foreign e.
Class CodecErrors (C : CloudEventLib) : Prop := {
  header_foreign h e : MarshalHeader h = Err e -> foreign e;
  event_foreign (r : RawEvent) e : MarshalJSON r = Err e -> foreign e
}.

(** A failure to publish: the event is too large, or the broker did not acknowledge. *)
Definition outage (e : error) : Prop :=
  classified e /\ errors_is e ErrValidation = false /\ errors_as_max_bytes e = false.

(** It says that something is too large. *)
Definition size_marked (e : error) : bool := errors_as_max_bytes e || errors_is e ErrPayloadTooLarge.

(** The caller's fault, and the node's. *)
Definition caller_answer (e : error) (resp : response) : Prop :=
  status resp = (if size_marked e then StatusRequestEntityTooLarge else StatusBadRequest) /\ retry_after resp = None.
Definition node_answer (resp : response) : Prop := status resp = StatusInternalServerError /\ retry_after resp = None.

Lemma writeError_outage e :
  outage e ->
  (errors_is e ErrPayloadTooLarge = true /\ status (writeError e) = StatusRequestEntityTooLarge /\ retry_after (writeError e) = None) \/
  (errors_is e ErrUnavailable = true /\ status (writeError e) = StatusServiceUnavailable /\ retry_after (writeError e) = Some "5").
Proof.
  intros (Hc & Hv & Hm). unfold writeError. rewrite Hm, Hv. destruct (errors_is e ErrPayloadTooLarge) eqn:Ep; [by left|].
  destruct Hc as [?|Hu]; [congruence|]. rewrite Hu. by right.
Qed.

Lemma writeError_validation e : errors_is e ErrValidation = true -> caller_answer e (writeError e).
Proof.
  intros Hv. unfold caller_answer, size_marked, writeError. rewrite Hv.
  by destruct (errors_as_max_bytes e), (errors_is e ErrPayloadTooLarge).
Qed.

Lemma writeError_foreign e : foreign e -> node_answer (writeError e).
Proof. intros (Hv & Hu & Hp & Hm). unfold node_answer, writeError. by rewrite Hv, Hu, Hp, Hm. Qed.

Lemma foreign_marks e e' : same_marks e e' -> foreign e' -> foreign e.
Proof. intros [Hs Hm] (Hv & Hu & Hp & Hx). unfold foreign. by rewrite !Hs, Hm. Qed.

Section Outage.
Context `{C : CloudEventLib} `{!CodecErrors C} `{NatsHeaderLib} `{J : JetStreamPublish} `{B : !BrokerErrors J}.
Variable partitions : Z.

(** Why a batch is not published: the broker, or an event of it that cannot be marshalled. *)
Definition unmarshallable (event : StoredEvent) : Prop := is_ok (MarshalJSON event) = false.
Definition unpublished (events : list StoredEvent) (e : error) : Prop :=
  outage e \/ (foreign e /\ Exists unmarshallable events).

Lemma unpublished_in events events' e : (forall x, x ∈ events -> x ∈ events') -> unpublished events e -> unpublished events' e.
Proof.
  intros Hin [Ho|[Hf Hx]]; [by left|right]. split; [done|]. apply Exists_exists in Hx as (x & Hx & Hu).
  apply Exists_exists. eauto.
Qed.

Lemma classify_outage e : foreign e -> outage (classifyPublishErr e).
Proof.
  intros (Hv & _ & _ & Hm). split; [apply classifyPublishErr_classified|]. unfold classifyPublishErr.
  destruct (errors_is e natsErrMaxPayload); simpl; by rewrite Hv, Hm.
Qed.

Lemma submitAsync_fails js event js' e : submitAsync partitions js event = (js', Err e) -> unpublished [event] e.
Proof.
  unfold submitAsync. destruct (MarshalJSON event) as [body|e'] eqn:Em.
  - destruct (PublishMsgAsync js _) as [js1 [f|e']] eqn:Ep; [done|]. intros [= _ <-]. left.
    by eapply classify_outage, publish_foreign.
  - intros [= _ <-]. right. split; [exact (event_foreign _ _ Em)|]. constructor. unfold unmarshallable. by rewrite Em.
Qed.

Lemma awaitAck_outage js f js' e : awaitAck js f = (js', Some e) -> outage e.
Proof.
  unfold awaitAck. destruct (AwaitFuture js f) as [js1 o] eqn:Ea. destruct o as [|e'|e']; [done|intros [= _ <-]..].
  - eapply classify_outage, await_foreign. by left.
  - assert (foreign e') as (Hv & _ & _ & Hm) by (eapply await_foreign; by right).
    split; [by right|]. simpl. by rewrite Hv, Hm.
Qed.

Lemma awaitAll_fails events js rs e :
  (forall e', Err e' ∈ rs -> unpublished events e') -> Some e ∈ (awaitAll js rs).2 -> unpublished events e.
Proof.
  revert js. induction rs as [|[f|e1] rs IH]; intros js Hrs; simpl; [by intros ?%elem_of_nil| |].
  - destruct (awaitAck js f) as [js1 o] eqn:Ea. specialize (IH js1). destruct (awaitAll js1 rs) as [js2 os].
    simpl in *. intros [He|He]%elem_of_cons; [subst o; left; by eapply awaitAck_outage|].
    apply IH; [|done]. intros e' He'. apply Hrs. by right.
  - specialize (IH js). destruct (awaitAll js rs) as [js2 os]. simpl in *.
    intros [[= ->]|He]%elem_of_cons; [apply Hrs; by left|]. apply IH; [|done]. intros e' He'. apply Hrs. by right.
Qed.

Lemma submitAll_fails js events e : Err e ∈ (submitAll partitions js events).2 -> unpublished events e.
Proof.
  revert js. induction events as [|ev events IH]; intros js; simpl; [by intros ?%elem_of_nil|].
  destruct (submitAsync partitions js ev) as [js1 r] eqn:Es. specialize (IH js1).
  destruct (submitAll partitions js1 events) as [js2 rs]. simpl in *. intros [He|He]%elem_of_cons.
  - subst r. apply submitAsync_fails in Es. eapply unpublished_in; [|exact Es]. intros x ->%list_elem_of_singleton. by left.
  - eapply unpublished_in; [|by apply IH]. intros x Hx. by right.
Qed.

Lemma firstErr_elem os e : firstErr os = Some e -> Some e ∈ os.
Proof. induction os as [|[x|] os IH]; simpl; [done|intros [= ->]; by left|]. intros He. right. by apply IH. Qed.

Lemma PublishBatch_fails js events js' obs e :
  PublishBatch partitions js events = (js', obs, Some e) -> unpublished events e.
Proof.
  destruct (batch_outcomes partitions js events) as [js1 os] eqn:Eb.
  destruct (PublishBatch_reference _ _ _ _ _ Eb) as (obs' & -> & _). intros [= _ _ He].
  apply firstErr_elem in He. revert Eb. unfold batch_outcomes.
  pose proof (submitAll_fails js events) as Hs. destruct (submitAll partitions js events) as [js2 rs]. simpl in Hs.
  intros Eb. eapply (awaitAll_fails events js2 rs); [exact Hs|]. by rewrite Eb.
Qed.
End Outage.

(** ** Lemmas: joined faults *)

Lemma join_all_is e0 fs s e :
  join_all e0 fs = Some e ->
  errors_is e s = (match e0 with Some x => errors_is x s | None => false end) ||
                  existsb (fun o => match o with Some x => errors_is x s | None => false end) fs.
Proof.
  unfold join_all. revert e0. induction fs as [|o fs IH]; intros e0; simpl.
  - intros ->. by rewrite orb_false_r.
  - intros Hj. rewrite (IH _ Hj). destruct (errors_join e0 o) as [x|] eqn:Ej.
    + by rewrite (errors_is_join _ _ s _ Ej), orb_assoc.
    + apply errors_join_None in Ej as [-> ->]. done.
Qed.

Lemma join_all_some e0 fs : (exists e, Some e ∈ fs) -> exists e, join_all e0 fs = Some e.
Proof.
  intros (x & Hx). destruct (join_all e0 fs) as [e|] eqn:Ej; [by exists e|].
  apply join_all_None in Ej as [_ Hf]. rewrite Forall_forall in Hf. by apply Hf in Hx.
Qed.

Lemma join_all_none_or fs : join_all None fs = None \/ exists e, join_all None fs = Some e /\ exists x, Some x ∈ fs.
Proof.
  destruct (join_all None fs) as [e|] eqn:Ej; [right|by left]. exists e. split; [done|].
  destruct (decide (Forall (fun o => o = None) fs)) as [Hf|Hn].
  - assert (join_all None fs = None) as Hn by (apply join_all_None; done). congruence.
  - apply not_Forall_Exists in Hn; [|apply _]. apply Exists_exists in Hn as ([x|] & Hx & Hne); [by exists x|by destruct Hne].
Qed.

(** Joined errors that are all foreign are foreign. *)
Lemma join_all_foreign fs : forall e0 e,
  join_all e0 fs = Some e -> (forall x, e0 = Some x -> foreign x) -> (forall x, Some x ∈ fs -> foreign x) -> foreign e.
Proof.
  induction fs as [|o fs IH]; intros e0 e Hj He0 Hfs; [by apply He0|].
  apply (IH (errors_join e0 o) e Hj); [|intros x Hx; apply Hfs; by right].
  intros x Hx. destruct e0 as [a|], o as [b|]; simpl in Hx; simplify_eq; [|by apply He0|apply Hfs; by left].
  destruct (He0 _ eq_refl) as (H1 & H2 & H3 & H4), (Hfs b ltac:(by left)) as (K1 & K2 & K3 & K4).
  unfold foreign. simpl. by rewrite H1, H2, H3, H4, K1, K2, K3, K4.
Qed.

(** ** Properties *)

Section Answers.
Context `{C : CloudEventLib} `{EthLib} `{ModuleLib} `{EthCrypto} `{NatsHeaderLib} `{J : JetStreamPublish}
  `{B : !BrokerErrors J} `{S : ObjectStore} `{SE : !StoreErrors S} `{CE : !CodecErrors C}.
Variables (partitions : Z) (splitter : Splitter) (skew : Z).

Abbreviation deps := (node_deps partitions splitter skew).

(** A header the module returned for this payload cannot be marshalled. *)
Definition header_fails (w : node) (source body : string) : Prop :=
  exists hdrs data hdr h e', ConvertToCloudEvents source body = Ok (hdrs, data) /\ hdr ∈ hdrs /\
    validateAndSetContentType (setDefaults hdr source (next_id w) (n_now w)) false = Ok h /\ MarshalHeader h = Err e'.

(** What the connection endpoint answers a request, by what fails first on its way:
    identity, body, conversion, publishing of what could be split, splitting, fingerprints. *)
Definition answer (vf : bool) (w : node) (r : request) (resp : response) : Prop :=
  match req_source r with
  | None => status resp = StatusUnauthorized
  | Some source =>
      match req_body r with
      | Err e =>
          (errors_as_max_bytes e = true -> status resp = StatusRequestEntityTooLarge) /\ (foreign e -> node_answer resp)
      | Ok body =>
          match @deps_Convert deps w source body with
          | (_, Err e) =>
              (errors_is e ErrValidation = true /\ caller_answer e resp) \/ (header_fails w source body /\ node_answer resp)
          | (w1, Ok events) =>
              let '(w2, toPublish, splitErr, validationErr) := @collect _ _ deps vf w1 events [] None None in
              match (@deps_PublishBatch deps w2 toPublish).2 with
              | Some e =>
                  (errors_is e ErrPayloadTooLarge = true /\ status resp = StatusRequestEntityTooLarge /\ retry_after resp = None) \/
                  (errors_is e ErrUnavailable = true /\ status resp = StatusServiceUnavailable /\ retry_after resp = Some "5") \/
                  (Exists unmarshallable toPublish /\ node_answer resp)
              | None =>
                  match splitErr, validationErr with
                  | Some _, _ => Exists (fun ev => threshold splitter < dataPayloadLen ev) events /\ node_answer resp
                  | None, Some e =>
                      vf = true /\ Exists (fun ev => exists x, Validate ev = Some x /\ errors_is x ErrInvalidVIN = false) events /\
                      caller_answer e resp
                  | None, None => status resp = StatusOK /\ retry_after resp = None
                  end
              end
          end
      end
  end.

(** The errors the loop joins for the events it could not split. *)
Lemma split_fate_foreign vf events fates :
  Forall2 (fate_of (D := deps) vf) events fates ->
  forall x, Some x ∈ split_error_of <$> fates ->
    foreign x /\ Exists (fun ev => threshold splitter < dataPayloadLen ev) events.
Proof.
  intros Hf x (f & Hx & (i & Hi)%list_elem_of_lookup)%list_elem_of_fmap. destruct f as [| |x'|]; simplify_eq/=.
  destruct (Forall2_lookup_r _ _ _ _ _ Hf Hi) as (event & Hev & Hfe). inversion Hfe as [| |wa wb e0 _ Hsp|]; subst.
  unfold split in Hsp. destruct (@deps_MaybeSplit deps wa event) as [wc [s|e1]] eqn:Em; [done|]. injection Hsp as _ <-.
  simpl in Em. destruct (MaybeSplit splitter _ _ _ event) as [st0 r0] eqn:Es. injection Em as _ ->.
  split; [|apply Exists_exists; exists event; split; [by eapply list_elem_of_lookup_2|]].
  - revert Es. unfold MaybeSplit. destruct (dataPayloadLen event <=? threshold splitter); [done|].
    destruct (decodePayload event) as [raw|de] eqn:Ed.
    + destruct (PutObject _ _ raw) as [st1 [pe|]] eqn:Ep; [|done]. intros [= _ <-]. exact (put_foreign _ _ _ _ _ Ep).
    + intros [= _ <-]. unfold decodePayload in Ed. destruct (negb _); [|done]. destruct (b64_DecodeString _); [done|].
      injection Ed as <-. done.
  - destruct (decide (threshold splitter < dataPayloadLen event)) as [|Hn]; [done|]. revert Es. unfold MaybeSplit.
    by replace (_ <=? _) with true by (symmetry; apply Z.leb_le; lia).
Qed.

(** The errors the loop joins for fingerprints. *)
Lemma fault_fate_validation vf events fates e :
  Forall2 (fate_of (D := deps) vf) events fates -> join_all None (fault_of <$> fates) = Some e ->
  errors_is e ErrValidation = true /\ vf = true /\
  Exists (fun ev => exists x, Validate ev = Some x /\ errors_is x ErrInvalidVIN = false) events.
Proof.
  intros Hf Ej. destruct (join_all_none_or (fault_of <$> fates)) as [Hn|(e' & Ej' & x & Hx)]; [congruence|].
  apply list_elem_of_fmap in Hx as (f & Hx & (i & Hi)%list_elem_of_lookup).
  destruct f as [|x'| |]; simplify_eq/=. destruct (Forall2_lookup_r _ _ _ _ _ Hf Hi) as (event & Hev & Hfe).
  inversion Hfe as [|e0 Hv| |]; subst. unfold fingerprintVerdict in Hv. destruct vf; [|done].
  destruct (Validate event) as [ve|] eqn:Eve; [|done]. destruct (errors_is ve ErrInvalidVIN) eqn:Ei; [done|].
  split_and!; [|done|apply Exists_exists; exists event; split; [by eapply list_elem_of_lookup_2|eauto]].
  rewrite (join_all_is _ _ ErrValidation _ Ej). simpl. apply existsb_exists. injection Hv as <-.
  eexists. split; [apply list_elem_of_In, list_elem_of_fmap; eexists; split; [|by eapply list_elem_of_lookup_2]; reflexivity|done].
Qed.

Lemma Convert_answer w source body w1 e :
  @deps_Convert deps w source body = (w1, Err e) ->
  (errors_is e ErrValidation = true /\ caller_answer e (writeError e)) \/ (header_fails w source body /\ node_answer (writeError e)).
Proof.
  simpl. destruct (Convert skew _ _ _ source body) as [warns rc] eqn:Ecv. intros [= _ ->].
  destruct (Convert_Err skew (n_now w) (next_id w) (n_warns w) source body e) as [Hv|(hdrs & d & hdr & Hc & Hin & h & e' & Hh & Hm & Hs)].
  - by rewrite Ecv.
  - left. split; [done|]. by apply writeError_validation.
  - right. split; [by exists hdrs, d, hdr, h, e'|]. eapply writeError_foreign, foreign_marks; [exact Hs|]. by eapply header_foreign.
Qed.

Lemma publish_answer w events w' e :
  @deps_PublishBatch deps w events = (w', Some e) ->
  (errors_is e ErrPayloadTooLarge = true /\ status (writeError e) = StatusRequestEntityTooLarge /\ retry_after (writeError e) = None) \/
  (errors_is e ErrUnavailable = true /\ status (writeError e) = StatusServiceUnavailable /\ retry_after (writeError e) = Some "5") \/
  (Exists unmarshallable events /\ node_answer (writeError e)).
Proof.
  simpl. destruct (PublishBatch partitions _ _) as [[js obs] pe] eqn:Epb. intros [= _ ->].
  apply PublishBatch_fails in Epb as [Ho|[Hf Hx]].
  - destruct (writeError_outage e Ho); auto.
  - right; right. split; [done|]. by apply writeError_foreign.
Qed.


(** A payload whose data_base64 is not base64 is the caller's fault, but above the
    threshold the splitter meets it and wraps no [ErrValidation]: an attestation that
    carries one is answered 500, with nothing published. *)
Theorem malformed_base64_answers_500 w r w' resp source body w1 att :
  req_source r = Some source -> req_body r = Ok body ->
  @deps_Parse deps w (HexToAddress source) body = (w1, Ok att) ->
  threshold splitter < dataPayloadLen (att_event att) -> is_ok (decodePayload (att_event att)) = false ->
  @AttestationHandler _ deps w r = (w', resp) ->
  status resp = StatusInternalServerError /\ n_wal w' = n_wal w1.
Proof.
  intros Hs Hb Hp Ht Hd. unfold AttestationHandler, publishOne, split. rewrite Hs, Hb, Hp. simpl.
  unfold MaybeSplit. replace (_ <=? _) with false by (symmetry; by apply Z.leb_gt).
  unfold decodePayload in *. destruct (negb _); [|done]. destruct (b64_DecodeString _); [done|].
  by intros [= <- <-].
Qed.
End Answers.

(** ** A broker that is down, for the witness *)

Definition down_js : JetStreamPublish := {|
  wal := list Msg;
  future := Msg;
  PublishMsgAsync js m := (js, Ok m);
  AwaitFuture js m := (js, AckErr (ENew "nats: no response from stream"))
|}.

#[export] Instance down_js_foreign : BrokerErrors down_js.
Proof.
  split; [done|]. intros js f js' e [[= _ <-]|?]; [|done]. by repeat split.
Defined.

#[export] Instance map_store_foreign : StoreErrors map_store.
Proof. intros st key raw st' e. simpl. by intros [= _ <-] || done. Defined.
#[export] Instance sample_lib_codec : CodecErrors sample_lib.
Proof. split; done. Defined.

Definition down_node : Deps :=
  @node_deps sample_lib sample_eth sample_modules sample_crypto map_headers down_js map_store 4 sample_splitter 300.
Definition down_boot : @node down_js map_store := @mkNode down_js map_store [] no_blobs ∅ 9 ["id-1"; "id-2"].
Definition down_run : @node down_js map_store * response :=
  @Connection sample_lib sample_modules down_node true down_boot device_request.

Lemma down_answered :
  @Connection sample_lib sample_modules down_node true down_boot device_request = (down_run.1, down_run.2).
Proof. unfold down_run. by destruct (Connection _ _ _). Qed.

