(* ===== verification/Server.v ===== *)
(** * Package server: listeners, authentication, rate limiting

    internal/server/middleware.go, server.go and postOnly of cmd/din/main.go. A
    middleware is a function on handlers; a handler takes the server's world and a
    request and answers, or panics before it has answered (None). Verified TLS chains, the JWT parser, the
    certificate and key files, and x/time's token bucket are parameters. *)

From S2P Require Import Prelude GoStd CloudEvent Stream Publisher Blob Convert Attest Handler.

Definition DefaultConnectionAddr : string := ":9443".
Definition DefaultAttestationAddr : string := ":9442".
Definition DefaultOpsAddr : string := ":8080".
Definition DefaultTimeout : Z := 5 * Second.
Definition DefaultMaxBodyBytes : Z := Z.shiftl 32 20.
Definition DefaultIdleTimeout : Z := 60 * Second.
Definition DefaultMaxHeaderBytes : Z := Z.shiftl 64 10.

Definition StatusMethodNotAllowed : Z := 405.
Definition StatusTooManyRequests : Z := 429.

(** ** Requests and handlers *)

(** [hr_chains] is r.TLS.VerifiedChains with the CommonName of each certificate
    (None: no TLS); [hr_body] what reading the body delivers, and the error at the
    end of it; [hr_source] the source in the request's context. *)
Record httpRequest := mkHttp {
  hr_method : string; hr_remote : string; hr_chains : option (list (list string)); hr_authorization : string;
  hr_body : string * option error; hr_source : option string
}.
Definition WithSource (r : httpRequest) (source : string) : httpRequest :=
  mkHttp (hr_method r) (hr_remote r) (hr_chains r) (hr_authorization r) (hr_body r) (Some source).
Definition with_body (r : httpRequest) (b : string * option error) : httpRequest :=
  mkHttp (hr_method r) (hr_remote r) (hr_chains r) (hr_authorization r) b (hr_source r).

(** io.ReadAll(r.Body) *)
Definition ReadAll (b : string * option error) : result string :=
  match b.2 with None => Ok b.1 | Some e => Err e end.

(** The request the business handlers see. *)
Definition handlerRequest (r : httpRequest) : request := mkRequest (hr_source r) (ReadAll (hr_body r)).

Definition handler (W : Type) : Type := W -> httpRequest -> W * option response.

Section Middleware.
Context {W : Type}.

(** recoverMiddleware *)
Definition recoverMiddleware (next : handler W) : handler W := fun w r =>
  match next w r with
  | (w', None) => (w', Some (http_Error "internal server error" StatusInternalServerError))
  | answered => answered
  end.

(** The CommonName of the verified leaf, if there is one. *)
Definition verifiedLeaf (r : httpRequest) : option string :=
  match hr_chains r with Some ((cn :: _) :: _) => Some cn | _ => None end.

Definition certSourceHandler (next : handler W) : handler W := fun w r =>
  match verifiedLeaf r with
  | None => (w, Some (http_Error "client certificate required" StatusUnauthorized))
  | Some source => next w (WithSource r source)
  end.

(** http.MaxBytesReader: a body longer than the limit reads as limit bytes and an
    error of its own. *)
Definition maxBytesMiddleware (limit : Z) (next : handler W) : handler W := fun w r =>
  next w (with_body r
    (if limit <? strlen (hr_body r).1
     then (String.substring 0 (Z.to_nat limit) (hr_body r).1, Some (EMaxBytes limit)) else hr_body r)).

Definition postOnly (next : handler W) : handler W := fun w r =>
  if negb (hr_method r =?s "POST") then (w, Some (http_Error "method not allowed" StatusMethodNotAllowed))
  else next w r.

(** The authentication step of the attestation server around [auth]. *)
Definition authHandler (auth : httpRequest -> result string) (next : handler W) : handler W := fun w r =>
  match auth r with
  | Err _ => (w, Some (http_Error "unauthorized" StatusUnauthorized))
  | Ok source => next w (WithSource r source)
  end.
End Middleware.

(** ** Attestation tokens *)

Section Auth.
Context `{EthLib}.
(** The parser built from the issuer, RS256 and the key set: the address claim of
    a valid token (the zero address when the claim is absent), or an error. *)
Variable ParseWithClaims : string -> result string.

Definition noAddress : string := HexToAddress "".

Definition attestationAuth (r : httpRequest) : result string :=
  match CutPrefix (hr_authorization r) "Bearer " with
  | None => Err (ENew "authorization header must use the Bearer scheme")
  | Some tokenStr =>
      address ← wrap_err (fun e => EWrap "invalid token string: " e "") (ParseWithClaims (TrimSpace tokenStr));
      _ ← reject_if (address =?s noAddress) (ESentinel ErrInvalidEthAddr);
      Ok (AddressHex address)
  end.
End Auth.

(** ** Rate limiting *)

Definition limiterMaxKeys : Z := 100000.
Definition limiterShards : Z := 64.
(** limiterMaxKeys/limiterShards, and a tenth of it. *)
Definition shardMax : Z := Z.quot limiterMaxKeys limiterShards.
Definition evictAtOnce : nat := Z.to_nat (Z.quot shardMax 10).

(** x/time/rate: a bucket, lim.Allow() at a time, and lim.Tokens() >= float64(burst). *)
Class RateLib := {
  bucket : Type;
  NewLimiter : Z -> Z -> bucket;
  Allow : bucket -> Z -> bucket * bool;
  FullTokens : bucket -> Z -> Z -> bool
}.

Section Limiter.
Context `{RateLib}.

Abbreviation shard := (gmap string bucket).
Record remoteLimiter := mkLimiter { shards : list shard; rps : Z; burst : Z }.

Definition newRemoteLimiter (rps burst : Z) : remoteLimiter :=
  mkLimiter (replicate (Z.to_nat limiterShards) ∅) rps burst.

(** h.Sum32() % limiterShards *)
Definition shardIndex (key : string) : nat := Z.to_nat (fnv32a key mod limiterShards).

(** The order in which a range visits the keys of a map. *)
Variable rangeOrder : shard -> list string.

Definition evictIdle (now burst : Z) (s : shard) : shard :=
  filter (fun kv => FullTokens kv.2 now burst = false) s.
Definition evictLocked (now burst : Z) (s : shard) : shard :=
  let s := evictIdle now burst s in
  if Z.of_nat (size s) <? shardMax then s
  else foldl (fun s key => delete key s) s (take evictAtOnce (rangeOrder s)).

(** allow, on the shard of the key. *)
Definition allowShard (now : Z) (l : remoteLimiter) (s : shard) (key : string) : shard * bool :=
  let '(lim, s) :=
    match s !! key with
    | Some lim => (lim, s)
    | None =>
        let s := if Z.of_nat (size s) >=? shardMax then evictLocked now (burst l) s else s in
        (NewLimiter (rps l) (burst l), s)
    end in
  let '(lim', ok) := Allow lim now in
  (<[key := lim']> s, ok).

Definition allow (now : Z) (l : remoteLimiter) (key : string) : remoteLimiter * bool :=
  let s := default ∅ (shards l !! shardIndex key) in
  let '(s', ok) := allowShard now l s key in
  (mkLimiter (<[shardIndex key := s']> (shards l)) (rps l) (burst l), ok).

(** The burst rateLimitMiddleware uses; config.Load reads rps as an unsigned integer, so it is its
    ceiling itself. *)
Definition effectiveBurst (rps burst : Z) : Z :=
  if burst <=? 0 then (if rps <? 1 then 1 else rps) else burst.

Definition rateLimitMiddleware {W : Type} (rps : Z) (now : Z) (keyFn : httpRequest -> string)
    (next : handler W) : handler (remoteLimiter * W) := fun '(l, w) r =>
  if rps <=? 0 then let '(w', a) := next w r in ((l, w'), a)
  else
    let '(l', ok) := allow now l (keyFn r) in
    if negb ok then ((l', w), Some (http_Error "rate limit exceeded" StatusTooManyRequests))
    else let '(w', a) := next w r in ((l', w'), a).
End Limiter.

(** net.SplitHostPort: the host, None for its errors. *)
Fixpoint indexByte (s : string) (c : Ascii.ascii) : option nat :=
  match s with
  | "" => None
  | String d s' => if Ascii.eqb d c then Some O else S <$> indexByte s' c
  end.
Fixpoint lastIndexByte (s : string) (c : Ascii.ascii) : option nat :=
  match s with
  | "" => None
  | String d s' =>
      match lastIndexByte s' c with
      | Some i => Some (S i)
      | None => if Ascii.eqb d c then Some O else None
      end
  end.
Definition substr (s : string) (i j : nat) : string := String.substring i (j - i) s.

Definition SplitHost (hostport : string) : option string :=
  match lastIndexByte hostport (chr ":") with
  | None => None
  | Some i =>
      let host_jk :=
        if HasPrefix hostport "[" then
          match indexByte hostport (chr "]") with
          | None => None
          | Some end_ => if (end_ + 1 =? i)%nat then Some (substr hostport 1 end_, 1%nat, (end_ + 1)%nat) else None
          end
        else if has_byte (substr hostport 0 i) (chr ":") then None
        else Some (substr hostport 0 i, O, O) in
      match host_jk with
      | None => None
      | Some (host, j, k) =>
          if has_byte (substr hostport j (String.length hostport)) (chr "[") ||
             has_byte (substr hostport k (String.length hostport)) (chr "]") then None
          else Some host
      end
  end.
Definition remoteIPKey (r : httpRequest) : string := default (hr_remote r) (SplitHost (hr_remote r)).
Definition certCNKey (r : httpRequest) : string := default (remoteIPKey r) (verifiedLeaf r).

Example SplitHost_examples :
  SplitHost "10.0.0.1:443" = Some "10.0.0.1" /\ SplitHost "[::1]:80" = Some "::1" /\ SplitHost "::1:80" = None.
Proof. by vm_compute. Qed.

(** ** The servers *)

Record ConnectionConfig := mkConnectionConfig {
  cc_Addr : string; cc_TLSCertFile : string; cc_TLSKeyFile : string; cc_ClientCAFiles : list string;
  cc_Timeout : Z; cc_MaxBodyBytes : Z; cc_RateLimitRPS : Z; cc_RateLimitBurst : Z
}.
Record AttestationConfig := mkAttestationConfig {
  ac_Addr : string; ac_Timeout : Z; ac_MaxBodyBytes : Z; ac_RateLimitRPS : Z; ac_RateLimitBurst : Z
}.

(** http.Server: the listener's limits, whether TLS 1.2 with a verified client
    certificate is demanded, and the body limit and limiter its chain was built
    with. *)
Record server := mkServer {
  srv_Addr : string; srv_mutualTLS : bool;
  srv_ReadTimeout : Z; srv_ReadHeaderTimeout : Z; srv_WriteTimeout : Z; srv_IdleTimeout : Z; srv_MaxHeaderBytes : Z;
  srv_maxBody : Z; srv_rps : Z; srv_burst : Z
}.

Definition or_positive (v d : Z) : Z := if v <=? 0 then d else v.
Definition or_text (s d : string) : string := if s =?s "" then d else s.

Section Servers.
(** tls.LoadX509KeyPair, os.ReadFile and AppendCertsFromPEM. *)
Variables (LoadX509KeyPair : string -> string -> option error) (ReadFile : string -> result string)
  (AppendCertsFromPEM : string -> bool).

Fixpoint loadCAs (files : list string) : option error :=
  match files with
  | [] => None
  | caFile :: files' =>
      match ReadFile caFile with
      | Err e => Some (EWrap ("reading client CA file " +:+ caFile +:+ ": ") e "")
      | Ok pemBytes =>
          if negb (AppendCertsFromPEM pemBytes) then Some (ENew ("no client CA certificates found in " +:+ caFile))
          else loadCAs files'
      end
  end.

Definition NewConnectionServer (cfg : ConnectionConfig) : result server :=
  match LoadX509KeyPair (cc_TLSCertFile cfg) (cc_TLSKeyFile cfg) with
  | Some e => Err (EWrap "loading server key pair: " e "")
  | None =>
      match cc_ClientCAFiles cfg with
      | [] => Err (ENew "at least one client CA file is required for mutual TLS")
      | files =>
          match loadCAs files with
          | Some e => Err e
          | None =>
              let timeout := or_positive (cc_Timeout cfg) DefaultTimeout in
              Ok (mkServer (or_text (cc_Addr cfg) DefaultConnectionAddr) true timeout timeout timeout DefaultIdleTimeout
                    DefaultMaxHeaderBytes (or_positive (cc_MaxBodyBytes cfg) DefaultMaxBodyBytes)
                    (cc_RateLimitRPS cfg) (effectiveBurst (cc_RateLimitRPS cfg) (cc_RateLimitBurst cfg)))
          end
      end
  end.

(** [authErr] is the error of newAttestationAuth, if it has one. *)
Definition NewAttestationServer (authErr : option error) (cfg : AttestationConfig) : result server :=
  match authErr with
  | Some e => Err (EWrap "building attestation auth: " e "")
  | None =>
      let timeout := or_positive (ac_Timeout cfg) DefaultTimeout in
      Ok (mkServer (or_text (ac_Addr cfg) DefaultAttestationAddr) false timeout timeout timeout DefaultIdleTimeout
            DefaultMaxHeaderBytes (or_positive (ac_MaxBodyBytes cfg) DefaultMaxBodyBytes)
            (ac_RateLimitRPS cfg) (effectiveBurst (ac_RateLimitRPS cfg) (ac_RateLimitBurst cfg)))
  end.
End Servers.

(** NewOpsServer: what /ping and /ready answer; [ready] is cfg.Ready. None is left to
    promhttp (/metrics) and to the mux (any other path). *)
Definition opsAnswer (ready : option bool) (path : string) : option response :=
  if path =?s "/ping" then Some (mkResponse StatusOK None "ok")
  else if path =?s "/ready" then
    match ready with
    | Some false => Some (http_Error "not ready" StatusServiceUnavailable)
    | _ => Some (mkResponse StatusOK None "ok")
    end
  else None.

Section Chains.
Context `{RateLib} {W : Type}.
Variables (rangeOrder : gmap string bucket -> list string) (now : Z) (srv : server).

(** The handler chains the two servers install, outermost first. *)
Definition connectionChain (business : handler W) : handler (remoteLimiter * W) :=
  recoverMiddleware
    (rateLimitMiddleware rangeOrder (srv_rps srv) now certCNKey
       (maxBytesMiddleware (srv_maxBody srv) (certSourceHandler (postOnly business)))).
Definition attestationChain (auth : httpRequest -> result string) (business : handler W) : handler (remoteLimiter * W) :=
  recoverMiddleware
    (rateLimitMiddleware rangeOrder (srv_rps srv) now remoteIPKey
       (maxBytesMiddleware (srv_maxBody srv) (authHandler auth (postOnly business)))).
End Chains.

(** A business handler sees the handler package's request; it may panic, or always
    answer. *)
Definition inner {W : Type} (h : W -> request -> W * option response) : handler W := fun w r => h w (handlerRequest r).
Definition answering {W : Type} (h : W -> request -> W * response) : W -> request -> W * option response :=
  fun w r => let '(w', a) := h w r in (w', Some a).
Definition business {W : Type} (h : W -> request -> W * response) : handler W := inner (answering h).

(** ** Lemmas: the limiter *)

(** Runs of the limiter: requests are a time and a key. *)
Section LimiterLemmas.
Context `{R : RateLib}.
Variable rangeOrder : gmap string bucket -> list string.

Fixpoint allowAll (l : remoteLimiter) (reqs : list (Z * string)) : remoteLimiter * list bool :=
  match reqs with
  | [] => (l, [])
  | (now, key) :: reqs' =>
      let '(l1, ok) := allow rangeOrder now l key in
      let '(l2, oks) := allowAll l1 reqs' in (l2, ok :: oks)
  end.

(** A range visits each key of the map once. *)
Definition ranges : Prop := forall s, NoDup (rangeOrder s) /\ forall k, k ∈ rangeOrder s <-> is_Some (s !! k).

Lemma delete_all_size ks (s : gmap string bucket) :
  NoDup ks -> (forall k, k ∈ ks -> is_Some (s !! k)) ->
  size (foldl (fun s key => delete key s) s ks) = (size s - length ks)%nat.
Proof.
  revert s. induction ks as [|k ks IH]; intros s Hnd Hin; simpl; [lia|].
  apply NoDup_cons in Hnd as [Hk Hnd]. rewrite IH; [|done|].
  - destruct (Hin k) as [b Hb]; [set_solver|]. rewrite map_size_delete, Hb. simpl. lia.
  - intros k' Hk'. rewrite lookup_delete_ne by (intros ->; done). apply Hin. set_solver.
Qed.

Lemma range_length s : ranges -> length (rangeOrder s) = size s.
Proof.
  intros Hr. destruct (Hr s) as [Hnd Hk]. rewrite <- size_dom, <- (size_list_to_set (C := gset string)) by done.
  f_equal. apply set_eq. intros k. by rewrite elem_of_list_to_set, elem_of_dom, Hk.
Qed.

Lemma evictIdle_size now b s : (size (evictIdle now b s) <= size s)%nat.
Proof. unfold evictIdle. apply map_subseteq_size, map_filter_subseteq. Qed.

Lemma shardMax_val : shardMax = 1562.
Proof. reflexivity. Qed.

(** After an eviction there is room for one more bucket. *)
Lemma evictLocked_size now b s :
  ranges -> Z.of_nat (size s) <= shardMax -> Z.of_nat (size (evictLocked rangeOrder now b s)) < shardMax.
Proof.
  intros Hr Hs. unfold evictLocked. set (s1 := evictIdle now b s). pose proof (evictIdle_size now b s) as Hle. fold s1 in Hle.
  destruct (Z.of_nat (size s1) <? shardMax) eqn:E; bool_to_prop; [done|].
  destruct (Hr s1) as [Hnd Hk]. rewrite delete_all_size.
  - rewrite length_take, range_length by done. rewrite shardMax_val in *.
    assert (He : evictAtOnce = 156%nat) by reflexivity. rewrite He. lia.
  - eapply sublist_NoDup; [exact Hnd|apply sublist_take].
  - intros k Hin%elem_of_take. apply Hk. destruct Hin as (i & Hi & _). by apply list_elem_of_lookup_2 in Hi.
Qed.

Lemma allowShard_size now l s key s' ok :
  ranges -> Z.of_nat (size s) <= shardMax -> allowShard rangeOrder now l s key = (s', ok) ->
  Z.of_nat (size s') <= shardMax.
Proof.
  intros Hr Hs. unfold allowShard. destruct (s !! key) as [lim|] eqn:Ek.
  - destruct (Allow lim now) as [lim' ok']. intros [= <- <-]. rewrite map_size_insert, Ek. simpl. lia.
  - destruct (Allow _ now) as [lim' ok']. intros [= <- <-].
    pose proof (evictLocked_size now (burst l) s Hr Hs) as He. rewrite map_size_insert.
    destruct (Z.of_nat (size s) >=? shardMax) eqn:E; bool_to_prop; 
      match goal with |- context [?m !! key] => destruct (m !! key) end; unfold id; lia.
Qed.

(** What holds of a limiter: 64 shards of bounded size. *)
Definition bounded (l : remoteLimiter) : Prop :=
  Zlen (shards l) = limiterShards /\ Forall (fun s : gmap string bucket => Z.of_nat (size s) <= shardMax) (shards l).

Lemma bounded_new r b : bounded (newRemoteLimiter r b).
Proof.
  split; [done|]. apply Forall_replicate. change (size (∅ : gmap string bucket)) with O. rewrite shardMax_val. lia.
Qed.

Lemma bounded_allow now l key l' ok : ranges -> bounded l -> allow rangeOrder now l key = (l', ok) -> bounded l'.
Proof.
  intros Hr [Hlen Hf]. unfold allow. destruct (allowShard _ _ _ _ _) as [s' ok'] eqn:Es. intros [= <- <-].
  split; [unfold Zlen in *; simpl; by rewrite length_insert|]. simpl. apply Forall_insert; [done|].
  eapply allowShard_size; [done| |exact Es]. destruct (shards l !! shardIndex key) as [s|] eqn:E; simpl.
  - rewrite Forall_forall in Hf. apply Hf. by apply list_elem_of_lookup_2 in E.
  - change (size (∅ : gmap string bucket)) with O. rewrite shardMax_val. lia.
Qed.

Lemma bounded_allowAll reqs l l' oks : ranges -> bounded l -> allowAll l reqs = (l', oks) -> bounded l'.
Proof.
  intros Hr. revert l l' oks. induction reqs as [|[now key] reqs IH]; intros l l' oks Hb; simpl; [by intros [= <- _]|].
  destruct (allow rangeOrder now l key) as [l1 ok] eqn:Ea. destruct (allowAll l1 reqs) as [l2 oks'] eqn:E.
  intros [= <- _]. eapply IH; [|exact E]. by eapply bounded_allow.
Qed.

Definition keys_held (l : remoteLimiter) : Z := sumZ ((fun s : gmap string bucket => Z.of_nat (size s)) <$> shards l).

Lemma bounded_keys l : bounded l -> keys_held l <= limiterMaxKeys.
Proof.
  intros [Hlen Hf]. assert (keys_held l <= Zlen (shards l) * shardMax) as Hk.
  { unfold keys_held. clear Hlen. induction Hf as [|s ss Hs Hf IH]; [unfold Zlen; simpl; lia|].
    rewrite Zlen_cons, fmap_cons. change (sumZ (?x :: ?l)) with (x + sumZ l). lia. }
  rewrite Hlen, shardMax_val in Hk. unfold limiterShards, limiterMaxKeys in *. lia.
Qed.
End LimiterLemmas.

(** ** The limiter against one bucket per remote *)

(** Buckets a limiter can hold: made with its parameters, then used. *)
Inductive made `{RateLib} (r b : Z) : bucket -> Prop :=
| made_new : made r b (NewLimiter r b)
| made_allow x t : made r b x -> made r b (Allow x t).1.

(** What x/time/rate promises: from a time on, two buckets can be
    indistinguishable; they then decide alike and stay so, later too; and a bucket
    that is full at a time is, from then on, as good as a new one. *)
Class RateLaws (R : RateLib) := {
  same : Z -> bucket -> bucket -> Prop;
  same_equiv t : Equivalence (same t);
  same_later t t' x y : t <= t' -> same t x y -> same t' x y;
  same_allow t x y : same t x y -> (Allow x t).2 = (Allow y t).2 /\ same t (Allow x t).1 (Allow y t).1;
  same_full t r b x : made r b x -> FullTokens x t b = true -> same t x (NewLimiter r b)
}.
#[export] Existing Instance same_equiv.

Section Refinement.
Context {R : RateLib} {L : RateLaws R}.
Variable rangeOrder : gmap string bucket -> list string.
Variables r b : Z.

(** The reference: a bucket for every remote, never forgotten. *)
Fixpoint allowEach (m : gmap string bucket) (reqs : list (Z * string)) : list bool :=
  match reqs with
  | [] => []
  | (now, key) :: reqs' =>
      let '(lim, ok) := Allow (default (NewLimiter r b) (m !! key)) now in
      ok :: allowEach (<[key := lim]> m) reqs'
  end.

Definition shardOf (l : remoteLimiter) (key : string) : gmap string bucket := default ∅ (shards l !! shardIndex key).

(** A request that does not find its shard full of busy buckets. *)
Definition calm (now : Z) (l : remoteLimiter) (key : string) : bool :=
  bool_decide (is_Some (shardOf l key !! key)) ||
  (Z.of_nat (size (shardOf l key)) <? shardMax) ||
  (Z.of_nat (size (evictIdle now b (shardOf l key))) <? shardMax).
Fixpoint calmRun (t : Z) (l : remoteLimiter) (reqs : list (Z * string)) : bool :=
  match reqs with
  | [] => true
  | (now, key) :: reqs' =>
      (t <=? now) && calm now l key && calmRun now (allow rangeOrder now l key).1 reqs'
  end.

Definition held (l : remoteLimiter) (key : string) : bucket := default (NewLimiter r b) (shardOf l key !! key).

(** The two sides agree from time [t] on. *)
Definition agree (t : Z) (l : remoteLimiter) (m : gmap string bucket) : Prop :=
  Zlen (shards l) = limiterShards /\ rps l = r /\ burst l = b /\
  (forall k k' x, shardOf l k !! k' = Some x -> made r b x) /\
  forall k, same t (held l k) (default (NewLimiter r b) (m !! k)).

Lemma shardIndex_lt key : (shardIndex key < Z.to_nat limiterShards)%nat.
Proof. unfold shardIndex, limiterShards. pose proof (Z.mod_pos_bound (fnv32a key) 64). lia. Qed.

(** The shard after a calm request: the key's bucket was used, another bucket is
    still there or was idle. *)
Lemma allowShard_calm now l key s' ok :
  burst l = b -> rps l = r -> calm now l key = true ->
  allowShard rangeOrder now l (shardOf l key) key = (s', ok) ->
  ok = (Allow (held l key) now).2 /\ s' !! key = Some (Allow (held l key) now).1 /\
  forall k, k <> key -> s' !! k = shardOf l key !! k \/
    (s' !! k = None /\ exists x, shardOf l key !! k = Some x /\ FullTokens x now b = true).
Proof.
  intros Hb Hr Hc. unfold allowShard, held. destruct (shardOf l key !! key) as [lim|] eqn:Ek; simpl.
  { destruct (Allow lim now) as [lim' ok']. intros [= <- <-]. simpl. split_and!; [done|by rewrite lookup_insert_eq|].
    intros k Hk. left. by rewrite lookup_insert_ne. }
  rewrite Hb, Hr. destruct (Allow (NewLimiter r b) now) as [lim' ok']. intros [= <- <-]. simpl.
  split_and!; [done|by rewrite lookup_insert_eq|]. intros k Hk. rewrite lookup_insert_ne by done.
  destruct (_ >=? shardMax) eqn:Em; [|by left]. unfold evictLocked.
  assert (Hsz : (Z.of_nat (size (evictIdle now b (shardOf l key))) <? shardMax) = true).
  { unfold calm in Hc. rewrite Ek in Hc. rewrite bool_decide_eq_false_2 in Hc by (by intros []). simpl in Hc.
    apply orb_true_iff in Hc as [Hc|Hc]; [|done]. bool_to_prop. lia. }
  rewrite Hsz. unfold evictIdle. rewrite map_lookup_filter.
  destruct (shardOf l key !! k) as [x|] eqn:Ex; simpl; [|by left].
  destruct (FullTokens x now b) eqn:Ef.
  - right. split; [|eauto]. by rewrite option_guard_False.
  - left. by rewrite option_guard_True.
Qed.

(** A shard after the shard of [key] was replaced. *)
Definition with_shard (l : remoteLimiter) (key : string) (s : gmap string bucket) : remoteLimiter :=
  mkLimiter (<[shardIndex key := s]> (shards l)) (rps l) (burst l).

Lemma shardOf_with_shard l key s k :
  Zlen (shards l) = limiterShards ->
  shardOf (with_shard l key s) k = if decide (shardIndex k = shardIndex key) then s else shardOf l k.
Proof.
  intros Hlen. pose proof (shardIndex_lt key). unfold shardOf, with_shard, Zlen, limiterShards in *. simpl. case_decide as Hk.
  - rewrite Hk, list_lookup_insert_eq; [done|lia].
  - by rewrite list_lookup_insert_ne.
Qed.

(** Every bucket of the limiter was made by it. *)
Definition all_made (l : remoteLimiter) : Prop := forall k k' x, shardOf l k !! k' = Some x -> made r b x.

Lemma all_made_step now l key s' ok :
  burst l = b -> rps l = r -> Zlen (shards l) = limiterShards -> calm now l key = true -> all_made l ->
  allowShard rangeOrder now l (shardOf l key) key = (s', ok) -> all_made (with_shard l key s').
Proof.
  intros Hb Hr Hlen Hc Hm Es k k' x. rewrite shardOf_with_shard by done. case_decide; [|apply Hm].
  destruct (allowShard_calm _ _ _ _ _ Hb Hr Hc Es) as (_ & Hkey & Hother).
  destruct (decide (k' = key)) as [->|Hne].
  - rewrite Hkey. intros [= <-]. apply made_allow. unfold held.
    destruct (shardOf l key !! key) eqn:E; simpl; [by eapply Hm|constructor].
  - destruct (Hother k' Hne) as [->|[-> _]]; [apply Hm|done].
Qed.

Lemma agree_allow t now l m key l' ok :
  t <= now -> agree t l m -> calm now l key = true -> allow rangeOrder now l key = (l', ok) ->
  let '(lim, ok') := Allow (default (NewLimiter r b) (m !! key)) now in
  ok = ok' /\ agree now l' (<[key := lim]> m).
Proof.
  intros Ht (Hlen & Hr & Hb & Hmade & Hsame) Hc. unfold allow. fold (shardOf l key).
  destruct (allowShard _ _ _ _ _) as [s' ok''] eqn:Es. intros [= <- <-]. fold (with_shard l key s').
  pose proof (all_made_step _ _ _ _ _ Hb Hr Hlen Hc Hmade Es) as Hmade'.
  destruct (allowShard_calm _ _ _ _ _ Hb Hr Hc Es) as (-> & Hkey & Hother).
  destruct (same_allow _ _ _ (same_later _ now _ _ Ht (Hsame key))) as [Hok Hnext].
  destruct (Allow (default (NewLimiter r b) (m !! key)) now) as [lim ok'] eqn:Ea. simpl in *. split; [done|].
  split_and!; [unfold Zlen; simpl; by rewrite length_insert|done..|].
  intros k. unfold held. rewrite shardOf_with_shard by done. destruct (decide (k = key)) as [->|Hne].
  { rewrite decide_True by done. by rewrite Hkey, lookup_insert_eq. }
  rewrite lookup_insert_ne by done. pose proof (same_later _ now _ _ Ht (Hsame k)) as Hk. unfold held in Hk.
  case_decide as Hki; [|done]. assert (Hss : shardOf l k = shardOf l key) by (unfold shardOf; by rewrite Hki).
  rewrite Hss in Hk. destruct (Hother k Hne) as [-> |(-> & x & Ex & Hf)]; [done|].
  rewrite Ex in Hk. simpl in *. etransitivity; [|exact Hk]. symmetry. apply same_full; [by eapply Hmade|done].
Qed.

Lemma agree_allowAll reqs t l m :
  agree t l m -> calmRun t l reqs = true -> (allowAll rangeOrder l reqs).2 = allowEach m reqs.
Proof.
  revert t l m. induction reqs as [|[now key] reqs IH]; intros t l m Ha; simpl; [done|].
  intros [[Ht Hc]%andb_true_iff Hrun]%andb_true_iff. bool_to_prop.
  destruct (allow rangeOrder now l key) as [l1 ok] eqn:Eal. simpl in Hrun.
  pose proof (agree_allow _ _ _ _ _ _ _ Ht Ha Hc Eal) as Hstep.
  destruct (Allow (default (NewLimiter r b) (m !! key)) now) as [lim ok'].
  destruct Hstep as [-> Hnext]. specialize (IH _ _ _ Hnext Hrun).
  destruct (allowAll rangeOrder l1 reqs) as [l2 oks]. simpl in *. by f_equal.
Qed.
End Refinement.

(** ** Properties *)

(** The memory of the rate limiter is bounded. Over any sequence of requests,
    with any keys and whatever order a range takes, a limiter never holds more
    buckets than limiterMaxKeys, nor a shard more than its share. *)
Theorem limiter_bounded `{RateLib} rangeOrder r b reqs l oks :
  ranges rangeOrder -> allowAll rangeOrder (newRemoteLimiter r b) reqs = (l, oks) ->
  keys_held l <= limiterMaxKeys /\ Forall (fun s : gmap string bucket => Z.of_nat (size s) <= shardMax) (shards l).
Proof.
  intros Hr Hrun. pose proof (bounded_allowAll _ _ _ _ _ Hr (bounded_new r b) Hrun) as Hb.
  split; [by apply bounded_keys|apply Hb].
Qed.

(** C38: Sharing and forgetting buckets is invisible. As long as no new remote
    finds its shard full of busy buckets, the sharded, evicting limiter decides every
    request exactly as one private token bucket per remote would. *)
Theorem limiter_refines_private_buckets `{R : RateLib} {L : RateLaws R} rangeOrder r b t reqs :
  calmRun rangeOrder b t (newRemoteLimiter r b) reqs = true ->
  (allowAll rangeOrder (newRemoteLimiter r b) reqs).2 = allowEach r b ∅ reqs.
Proof.
  intros Hc. apply (agree_allowAll rangeOrder r b _ t); [|done].
  assert (He : forall k, shardOf (newRemoteLimiter r b) k = ∅).
  { intros k. unfold shardOf, newRemoteLimiter. cbn [shards].
    rewrite lookup_replicate_2; [done|]. apply shardIndex_lt. }
  split_and!; [done..| |].
  - intros k k' x. rewrite He, lookup_empty. done.
  - intros k. unfold held. rewrite He, !lookup_empty. simpl. reflexivity.
Qed.

(** The body a handler reads behind a limit. *)
Definition limited (limit : Z) (body : string * option error) : result string :=
  if limit <? strlen body.1 then Err (EMaxBytes limit) else ReadAll body.

(** An authenticated chain either refuses, without touching the world, or runs
    the business handler with the source it verified; a handler that panics is answered
    for with a 500. *)
Definition served {W} (authenticated : httpRequest -> option string) (limit : Z) (h : W -> request -> W * option response)
    (w : W) (r : httpRequest) (w' : W) (a : response) : Prop :=
  (w' = w /\ status a ∈ [StatusUnauthorized; StatusMethodNotAllowed; StatusTooManyRequests]) \/
  (exists source, authenticated r = Some source /\ hr_method r = "POST" /\
     (h w (mkRequest (Some source) (limited limit (hr_body r))) = (w', Some a) \/
      (h w (mkRequest (Some source) (limited limit (hr_body r))) = (w', None) /\
       a = http_Error "internal server error" StatusInternalServerError))).

(** What [served] says before the panic is recovered from. *)
Definition served_raw {W} (authenticated : httpRequest -> option string) (limit : Z) (h : W -> request -> W * option response)
    (w : W) (r : httpRequest) (w' : W) (a : option response) : Prop :=
  (w' = w /\ exists refusal, a = Some refusal /\ status refusal ∈ [StatusUnauthorized; StatusMethodNotAllowed; StatusTooManyRequests]) \/
  (exists source, authenticated r = Some source /\ hr_method r = "POST" /\
     h w (mkRequest (Some source) (limited limit (hr_body r))) = (w', a)).

Lemma refused {W} auth limit (h : W -> request -> W * option response) w r msg code :
  code ∈ [StatusUnauthorized; StatusMethodNotAllowed; StatusTooManyRequests] ->
  served_raw auth limit h w r w (Some (http_Error msg code)).
Proof. intros Hc. left. split; [done|]. eexists. split; [done|exact Hc]. Qed.

Lemma served_inner {W} limit (h : W -> request -> W * option response) w r source w' a authenticated :
  authenticated r = Some source ->
  (postOnly (inner h)) w (WithSource (with_body r
    (if limit <? strlen (hr_body r).1
     then (String.substring 0 (Z.to_nat limit) (hr_body r).1, Some (EMaxBytes limit)) else hr_body r)) source) = (w', a) ->
  served_raw authenticated limit h w r w' a.
Proof.
  intros Hs. unfold postOnly. simpl. destruct (hr_method r =?s "POST") eqn:Em; simpl.
  - apply String.eqb_eq in Em. intros Hh. right. exists source. split_and!; [done..|]. rewrite <- Hh.
    unfold inner, handlerRequest, limited. simpl. by destruct (limit <? _).
  - intros [= <- <-]. apply refused. set_solver.
Qed.

Lemma recover_rate `{RateLib} {W} rangeOrder rps now keyFn (next : handler W) l w rq l' w' a auth limit h :
  recoverMiddleware (rateLimitMiddleware rangeOrder rps now keyFn next) (l, w) rq = ((l', w'), a) ->
  (forall w1 a1, next w rq = (w1, a1) -> served_raw auth limit h w rq w1 a1) ->
  exists a', a = Some a' /\ served auth limit h w rq w' a'.
Proof.
  unfold recoverMiddleware, rateLimitMiddleware. intros Hrun Hnext.
  assert (Hr : forall w1 a1, served_raw auth limit h w rq w1 a1 ->
    exists a', (match a1 with Some _ => a1 | None => Some (http_Error "internal server error" StatusInternalServerError) end) = Some a' /\
      served auth limit h w rq w1 a').
  { intros w1 a1 [(-> & ref & -> & Hc)|(src & Ha & Hm & Hh)]; [eexists; split; [done|by left]|].
    destruct a1 as [a1|]; (eexists; split; [done|]); right; exists src; eauto. }
  destruct (next w rq) as [w1 a1] eqn:En. specialize (Hr _ _ (Hnext _ _ eq_refl)) as Hn.
  destruct (rps <=? 0); [by destruct a1; injection Hrun as <- <- <-|].
  destruct (allow rangeOrder now l (keyFn rq)) as [l1 []]; simpl in Hrun; [by destruct a1; injection Hrun as <- <- <-|].
  injection Hrun as <- <- <-. eexists. split; [done|]. left. split; [done|set_solver].
Qed.

Lemma connection_served `{RateLib} {W} rangeOrder now srv (h : W -> request -> W * option response) l w r l' w' a :
  connectionChain rangeOrder now srv (inner h) (l, w) r = ((l', w'), a) ->
  exists a', a = Some a' /\ served verifiedLeaf (srv_maxBody srv) h w r w' a'.
Proof.
  intros Hrun. eapply recover_rate; [exact Hrun|]. intros w1 a1. unfold maxBytesMiddleware, certSourceHandler.
  change (verifiedLeaf (with_body r _)) with (verifiedLeaf r).
  destruct (verifiedLeaf r) as [cn|] eqn:Ev; [by apply served_inner|]. intros [= <- <-]. apply refused. set_solver.
Qed.

Lemma attestation_served `{RateLib} {W} rangeOrder now srv auth (h : W -> request -> W * option response) l w r l' w' a :
  (forall rq b, auth (with_body rq b) = auth rq) ->
  attestationChain rangeOrder now srv auth (inner h) (l, w) r = ((l', w'), a) ->
  exists a', a = Some a' /\ served (fun r => match auth r with Ok s => Some s | Err _ => None end) (srv_maxBody srv) h w r w' a'.
Proof.
  intros Hb Hrun. eapply recover_rate; [exact Hrun|]. intros w1 a1. unfold maxBytesMiddleware, authHandler. rewrite Hb.
  destruct (auth r) as [s|] eqn:Ev; [apply served_inner; by rewrite Ev|]. intros [= <- <-]. apply refused. set_solver.
Qed.

Lemma connection_answered `{RateLib} {W} rangeOrder now srv (h : W -> request -> W * response) l w r l' w' a :
  connectionChain rangeOrder now srv (business h) (l, w) r = ((l', w'), Some a) -> status a = StatusOK ->
  exists source, verifiedLeaf r = Some source /\ hr_method r = "POST" /\
    h w (mkRequest (Some source) (limited (srv_maxBody srv) (hr_body r))) = (w', a).
Proof.
  intros (a' & [= <-] & Hs)%connection_served Hok. destruct Hs as [[_ Hc]|(source & Hv & Hm & Hh)].
  { rewrite Hok in Hc. unfold StatusOK in Hc. set_solver. }
  exists source. do 2 (split; [done|]). unfold answering in Hh. destruct (h w _) as [w1 a1] eqn:Eh.
  destruct Hh as [[= <- <-]|[[=] _]]. done.
Qed.

(** C37: Only authenticated requests reach the handlers, and every request is answered,
    also when a handler panics. Unless the answer is a refusal (401, 405 or 429) that left
    the world alone, the request was a POST, its body was capped at the limit, and the
    handler ran with the identity that was verified (the CommonName of the verified
    client certificate, or the non-zero address claim of a valid bearer token); the answer
    is the handler's, or a 500 if it panicked. *)
Theorem servers_authenticate `{EthLib} `{RateLib} {W} rangeOrder now srv ParseWithClaims
    (h : W -> request -> W * option response) l w r l1 w1 a1 l2 w2 a2 :
  connectionChain rangeOrder now srv (inner h) (l, w) r = ((l1, w1), a1) ->
  attestationChain rangeOrder now srv (attestationAuth ParseWithClaims) (inner h) (l, w) r = ((l2, w2), a2) ->
  (exists a, a1 = Some a /\ served verifiedLeaf (srv_maxBody srv) h w r w1 a) /\
  (exists a, a2 = Some a /\
     served (fun r => match attestationAuth ParseWithClaims r with Ok s => Some s | Err _ => None end)
       (srv_maxBody srv) h w r w2 a) /\
  (forall source, attestationAuth ParseWithClaims r = Ok source -> exists token address,
     CutPrefix (hr_authorization r) "Bearer " = Some token /\ ParseWithClaims (TrimSpace token) = Ok address /\
     address <> noAddress /\ source = AddressHex address).
Proof.
  intros H1 H2. split; [|split].
  - by eapply connection_served.
  - by eapply attestation_served.
  - intros source. unfold attestationAuth. destruct (CutPrefix _ _) as [token|]; [|done].
    intros Hs. inv_ok Hs. injection Hs as <-. bool_to_prop. eauto 10.
Qed.

(** ** Instances and witnesses *)

(** A token bucket: billionths of a token at a time, refilled at [tb_rps] per
    nanosecond up to the burst. *)
Record tokenBucket := mkBucket { tb_rps : Z; tb_cap : Z; tb_tokens : Z; tb_last : Z }.
Definition refilled (x : tokenBucket) (now : Z) : Z :=
  Z.min (tb_cap x) (tb_tokens x + Z.max 0 (now - tb_last x) * tb_rps x).
Definition oneToken : Z := 1000000000.

Definition tokenBuckets : RateLib := {|
  bucket := tokenBucket;
  NewLimiter r b := mkBucket (Z.max 0 r) (b * oneToken) (b * oneToken) 0;
  Allow x now :=
    if refilled x now >=? oneToken
    then (mkBucket (tb_rps x) (tb_cap x) (refilled x now - oneToken) now, true) else (x, false);
  FullTokens x now b := refilled x now >=? b * oneToken |}.

(** From [t] on the two hold the same tokens. *)
Definition same_tokens (t : Z) (x y : tokenBucket) : Prop :=
  tb_rps x = tb_rps y /\ tb_cap x = tb_cap y /\ forall t', t <= t' -> refilled x t' = refilled y t'.

Lemma made_shape r b x :
  @made tokenBuckets r b x -> tb_rps x = Z.max 0 r /\ tb_cap x = b * oneToken.
Proof. induction 1 as [|x t Hx IH]; simpl; [done|]. by destruct (refilled x t >=? oneToken). Qed.

Lemma refilled_mono x t t' : 0 <= tb_rps x -> t <= t' -> refilled x t <= refilled x t'.
Proof. intros Hr Ht. unfold refilled. nia. Qed.

#[global] Instance tokenBuckets_laws : RateLaws tokenBuckets.
Proof.
  refine {| same := (same_tokens : Z -> @bucket tokenBuckets -> @bucket tokenBuckets -> Prop) |}; unfold same_tokens.
  - intros t. split.
    + by intros x.
    + intros x y (? & ? & E). split_and!; [done..|]. intros t' Ht. by rewrite E.
    + intros x y z (-> & -> & E1) (-> & -> & E2). split_and!; [done..|]. intros t' Ht. by rewrite E1, E2.
  - intros t t' x y Ht (? & ? & E). split_and!; [done..|]. intros. apply E. lia.
  - intros t x y (Er & Ec & E). simpl. rewrite (E t) by lia. destruct (refilled y t >=? oneToken); simpl; [|done].
    split_and!; [done..|]. intros t' Ht. unfold refilled. simpl. by rewrite Er, Ec.
  - intros t r b x [Hr Hc]%made_shape Hf. simpl in *. bool_to_prop. rewrite Hr, Hc. split_and!; [done..|].
    intros t' Ht. pose proof (refilled_mono x t t' ltac:(lia) Ht). unfold refilled in *. simpl. rewrite Hr, Hc in *. nia.
Defined.

Definition keysOf (s : gmap string (@bucket tokenBuckets)) : list string := (map_to_list s).*1.

Lemma keysOf_ranges : @ranges tokenBuckets keysOf.
Proof.
  intros s. split; [apply NoDup_fst_map_to_list|]. intros k. unfold keysOf. rewrite list_elem_of_fmap. split.
  - intros ([k' x] & -> & Hx%elem_of_map_to_list). eauto.
  - intros [x Hx]. exists (k, x). by rewrite elem_of_map_to_list.
Qed.

Definition sampleRequests : list (Z * string) :=
  [(0, "a"); (1, "a"); (2, "a"); (3, "b"); (2000000000, "a"); (2000000001, "b")].

Lemma limiter_bounded_witness :
  keys_held (allowAll (R := tokenBuckets) keysOf (@newRemoteLimiter tokenBuckets 1 2) sampleRequests).1 <= limiterMaxKeys.
Proof.
  exact (proj1 (@limiter_bounded tokenBuckets keysOf 1 2 sampleRequests
    (allowAll (R := tokenBuckets) keysOf (@newRemoteLimiter tokenBuckets 1 2) sampleRequests).1
    (allowAll (R := tokenBuckets) keysOf (@newRemoteLimiter tokenBuckets 1 2) sampleRequests).2
    keysOf_ranges ltac:(by destruct (allowAll _ _ _)))).
Defined.

Lemma limiter_refines_private_buckets_witness :
  (allowAll (R := tokenBuckets) keysOf (@newRemoteLimiter tokenBuckets 1 2) sampleRequests).2 =
    [true; true; false; true; true; true] /\
  allowEach (R := tokenBuckets) 1 2 ∅ sampleRequests = [true; true; false; true; true; true].
Proof.
  split; [vm_compute; reflexivity|].
  rewrite <- (@limiter_refines_private_buckets tokenBuckets tokenBuckets_laws keysOf 1 2 0 sampleRequests
    ltac:(vm_compute; reflexivity)).
  vm_compute. reflexivity.
Defined.

(** A listener with a limit of ten bytes in front of a handler that stores the
    source of every request it sees, and panics on one body. *)
Definition tinyServer : server := mkServer ":9443" true 0 0 0 0 0 10 1 2.
Definition recorder (w : list (option string)) (r : request) : list (option string) * option response :=
  match req_body r with
  | Ok "!" => (w, None)
  | Ok _ => (w ++ [req_source r], Some (mkResponse StatusOK None ""))
  | Err e => (w, Some (writeError e))
  end.
Definition plainEth : EthLib := {|
  IsHexAddress s := HasPrefix s "0x"; HexToAddress s := if s =?s "" then "0x00" else s; AddressHex s := s |}.
Definition oneKey (token : string) : result string :=
  if token =?s "tok" then Ok "0xabc" else Err (ENew "token is malformed").
Definition sampleRequest : httpRequest :=
  mkHttp "POST" "10.0.0.1:5555" (Some [["0xLicense"; "root"]]) "Bearer tok " ("{}", None) None.

Definition connectionRun (r : httpRequest) := @connectionChain tokenBuckets _ keysOf 0 tinyServer (inner recorder)
  (@newRemoteLimiter tokenBuckets 1 2, []) r.
Definition attestationRun (r : httpRequest) := @attestationChain tokenBuckets _ keysOf 0 tinyServer (@attestationAuth plainEth oneKey)
  (inner recorder) (@newRemoteLimiter tokenBuckets 1 2, []) r.

Lemma servers_authenticate_witness :
  ((connectionRun sampleRequest).1.2 = [Some "0xLicense"] /\ exists a, (connectionRun sampleRequest).2 = Some a /\
     served verifiedLeaf 10 recorder [] sampleRequest (connectionRun sampleRequest).1.2 a) /\
  ((attestationRun sampleRequest).1.2 = [Some "0xabc"] /\ exists token address,
     CutPrefix (hr_authorization sampleRequest) "Bearer " = Some token /\ oneKey (TrimSpace token) = Ok address) /\
  status <$> (connectionRun (with_body sampleRequest ("!", None))).2 = Some 500.
Proof.
  destruct (@servers_authenticate plainEth tokenBuckets _ keysOf 0 tinyServer oneKey recorder
    (@newRemoteLimiter tokenBuckets 1 2) [] sampleRequest
    (connectionRun sampleRequest).1.1 (connectionRun sampleRequest).1.2 (connectionRun sampleRequest).2
    (attestationRun sampleRequest).1.1 (attestationRun sampleRequest).1.2 (attestationRun sampleRequest).2
    ltac:(by unfold connectionRun; destruct (connectionChain _ _ _ _ _ _) as [[??]?])
    ltac:(by unfold attestationRun; destruct (attestationChain _ _ _ _ _ _ _) as [[??]?])) as (H1 & _ & H3).
  split; [|split; [|vm_compute; reflexivity]]; (split; [vm_compute; reflexivity|]).
  - exact H1.
  - destruct (H3 "0xabc" ltac:(vm_compute; reflexivity)) as (token & address & Ht & Ha & _). eauto.
Defined.
