(* ===== verification/LakeWriter.v ===== *)
(** * Package lake, write path: one bundle, one transaction

    internal/lake/row.go, internal/lake/writer.go and the retry helpers of
    internal/lake/lake.go. DuckDB (connections, appender, transactions) is a
    parameter: [DuckDB] lists the calls the writer makes, over a database value
    that is threaded through them; [DuckLaws] is what a transaction promises. *)

From S2P Require Import Prelude GoStd CloudEvent Stream Publisher.

(** ** row.go *)

(** driver.Value, as far as a row uses it. *)
Inductive value := VNull | VString (s : string) | VBytes (s : string) | VTime (t : Z).
#[export] Instance value_eq_dec : EqDecision value.
Proof. solve_decision. Defined.

Definition rawEventColumnCount : Z := 13.
Definition emptyExtrasJSON : value := VString "{}".

(** fillRowArgs: the raw_events columns of an event, in DDL order. *)
Definition fillRowArgs `{CloudEventLib} (event : StoredEvent) : result (list value) :=
  extrasJSON ←
    (match ExtrasJSON event with
     | None => Ok emptyExtrasJSON
     | Some (Ok b) => Ok (VBytes b)
     | Some (Err e) => Err (EWrap "marshaling extras: " e "")
     end);
  let dataBase64 := if negb (DataBase64 event =?s "") then VBytes (DataBase64 event) else VNull in
  let data := if negb (DataBase64 event =?s "") then VNull
              else if 0 <? strlen (Data event) then VBytes (Data event) else VNull in
  let dataIndexKey := if negb (DataIndexKey event =?s "") then VString (DataIndexKey event) else VNull in
  let voidsID := if negb (VoidsID event =?s "") then VString (VoidsID event) else VNull in
  Ok [VString (Subject event); VTime (Truncate (Time event) Millisecond); VString (CEType event);
      VString (ID event); VString (Source event); VString (Producer event);
      VString (DataContentType event); VString (DataVersion event); extrasJSON;
      data; dataBase64; dataIndexKey; voidsID].

(** rowArgs: the same in a fresh slice. *)
Definition rowArgs `{CloudEventLib} (event : StoredEvent) : result (list value) := fillRowArgs event.

(** ** The retry loop of lake.go *)

Section Retry.
Context {S : Type}.
(** fn, the predicate, and the wait between attempts: time.After, or the end of
    the context with its error. *)
Variables (fn : S -> S * option error) (shouldRetry : error -> bool) (wait : S -> Z -> S * option error).

Fixpoint retryLoop (fuel : nat) (attempt : Z) (s : S) : S * option error :=
  match fuel with
  | O => (s, Some (ENew "retry: out of fuel"))
  | Datatypes.S fuel' =>
      match fn s with
      | (s1, None) => (s1, None)
      | (s1, Some err) =>
          if negb (shouldRetry err) then (s1, Some err)
          else
            let attempt := attempt + 1 in
            if attempt >=? 3 then (s1, Some err)
            else match wait s1 (attempt * (500 * Millisecond)) with
                 | (s2, Some ctxErr) => (s2, Some ctxErr)
                 | (s2, None) => retryLoop fuel' attempt s2
                 end
      end
  end.

(** Three attempts at most, so three units of fuel never run out. *)
Definition retryCatalogIf (s : S) : S * option error := retryLoop 3 0 s.
End Retry.

(** retryCatalog retries every error. *)
Definition retryCatalog {S} (fn : S -> S * option error) (wait : S -> Z -> S * option error) (s : S)
    : S * option error := retryCatalogIf fn (fun _ => true) wait s.

(** ** writer.go *)

(** The statements the writer executes on its connection. *)
Inductive tx_stmt := BEGIN | COMMIT | ROLLBACK.

(** The calls the writer makes; a connection is a number. The flag of [Exec] is
    false for the statements run under context.WithoutCancel; [RawConn] is what
    conn.Raw reports before it runs its function (the connection is gone, or is
    not DuckDB's); [Wait] is the pause of the retry loop. *)
Class DuckDB := {
  db : Type;
  appender : Type;
  OpenConn : db -> db * result Z;
  CloseConn : db -> Z -> db * option error;
  Exec : db -> Z -> bool -> tx_stmt -> db * option error;
  RawConn : db -> Z -> option error;
  NewAppender : db -> Z -> string -> db * result appender;
  AppendRow : db -> appender -> list value -> db * option error;
  CloseAppender : db -> appender -> db * option error;
  Wait : db -> Z -> db * option error
}.

Section Writer.
Context `{CloudEventLib} `{DuckDB}.

Definition isCommitConflict (err : error) : bool :=
  if errors_is err ErrPoisonRow then false
  else
    let msg := ToLower (error_text err) in
    Contains msg "transactioncontext error" || Contains msg "conflict".

(** The loop of appendAll over the events, from index [i]. *)
Fixpoint appendRows (d : db) (a : appender) (i : Z) (events : list StoredEvent) : db * option error :=
  match events with
  | [] =>
      match CloseAppender d a with
      | (d', Some e) => (d', Some (EWrap "lake appender close: " e ""))
      | (d', None) => (d', None)
      end
  | event :: events' =>
      match fillRowArgs event with
      | Err e =>
          let '(d', _) := CloseAppender d a in
          (d', Some (EWrap2 ("lake row " +:+ fmt_d i +:+ ": ") (ESentinel ErrPoisonRow) ": " e ""))
      | Ok args =>
          match AppendRow d a args with
          | (d1, Some e) =>
              let '(d', _) := CloseAppender d1 a in
              (d', Some (EWrap2 ("lake append row " +:+ fmt_d i +:+ ": ") (ESentinel ErrPoisonRow) ": " e ""))
          | (d1, None) => appendRows d1 a (i + 1) events'
          end
      end
  end.

Definition appendAll (d : db) (conn : Z) (table : string) (events : list StoredEvent) : db * option error :=
  match RawConn d conn with
  | Some e => (d, Some e)
  | None =>
      match NewAppender d conn table with
      | (d', Err e) => (d', Some (EWrap "lake appender: " e ""))
      | (d', Ok a) => appendRows d' a 0 events
      end
  end.

Definition writeBundleOnce (conn : Z) (table : string) (events : list StoredEvent) (d : db)
    : db * option error :=
  match Exec d conn true BEGIN with
  | (d1, Some e) => (d1, Some (EWrap "lake write begin: " e ""))
  | (d1, None) =>
      match appendAll d1 conn table events with
      | (d2, Some err) =>
          match Exec d2 conn false ROLLBACK with
          | (d3, Some rbErr) => (d3, Some (EWrap2 "" err " (rollback also failed: " rbErr ")"))
          | (d3, None) => (d3, Some err)
          end
      | (d2, None) =>
          match Exec d2 conn true COMMIT with
          | (d3, Some e) =>
              let '(d4, _) := Exec d3 conn false ROLLBACK in
              (d4, Some (EWrap "lake write commit: " e ""))
          | (d3, None) => (d3, None)
          end
      end
  end.

(** lake.Writer: the table, its pinned connections, the round-robin counter. *)
Record Writer := mkWriter { w_table : string; w_conns : list Z; w_next : Z }.

(** Close: every connection is closed, the first error is returned. *)
Fixpoint closeConns (d : db) (conns : list Z) (firstErr : option error) : db * option error :=
  match conns with
  | [] => (d, firstErr)
  | c :: conns' =>
      let '(d', err) := CloseConn d c in
      closeConns d' conns' (match firstErr with None => err | Some _ => firstErr end)
  end.

(** NewWriterN: pin n connections (at least one), releasing them on failure. *)
Fixpoint pinConns (d : db) (n : nat) (conns : list Z) : db * result (list Z) :=
  match n with
  | O => (d, Ok conns)
  | S n' =>
      match OpenConn d with
      | (d', Ok c) => pinConns d' n' (conns ++ [c])
      | (d', Err e) =>
          let '(d'', _) := closeConns d' conns None in (d'', Err (EWrap "lake writer: " e ""))
      end
  end.

Definition NewWriterN (d : db) (table : string) (n : Z) : db * result Writer :=
  let n := if n <? 1 then 1 else n in
  let '(d', r) := pinConns d (Z.to_nat n) [] in (d', conns ← r; Ok (mkWriter table conns 0)).

(** w.conns[int(w.next.Add(1) % uint64(len(w.conns)))] *)
Definition nextConn (w : Writer) : Z * Writer :=
  let n := wrap64 (w_next w + 1) in
  (nth (Z.to_nat (n mod Zlen (w_conns w))) (w_conns w) 0, mkWriter (w_table w) (w_conns w) n).

Definition WriteBundle (s : Writer * db) (events : list StoredEvent) : Writer * db * option error :=
  let '(w, d) := s in
  match events with
  | [] => (w, d, None)
  | _ =>
      let '(conn, w') := nextConn w in
      let '(d', err) :=
        retryCatalogIf (writeBundleOnce conn (w_table w) events) isCommitConflict Wait d in
      (w', d', err)
  end.
End Writer.

(** What DuckDB promises the writer, on the committed rows of the table and on
    the rows staged in a connection's transaction: appends stage, COMMIT adds the
    staged rows or (with an error) nothing, and nothing else changes the table. *)
Class DuckLaws (D : DuckDB) (table : string) := {
  committed : db -> list (list value);
  staged : db -> Z -> list (list value);
  app_conn : appender -> Z;
  begin_ok d c b d' : Exec d c b BEGIN = (d', None) -> staged d' c = [];
  begin_keeps d c b d' e : Exec d c b BEGIN = (d', e) -> committed d' = committed d;
  rollback_keeps d c b d' e : Exec d c b ROLLBACK = (d', e) -> committed d' = committed d;
  commit_ok d c b d' : Exec d c b COMMIT = (d', None) -> committed d' = committed d ++ staged d c;
  commit_fails d c b d' e : Exec d c b COMMIT = (d', Some e) -> committed d' = committed d;
  new_appender_ok d c d' a : NewAppender d c table = (d', Ok a) -> app_conn a = c /\ staged d' c = staged d c;
  new_appender_keeps d c d' r : NewAppender d c table = (d', r) -> committed d' = committed d;
  append_ok d a r d' : AppendRow d a r = (d', None) -> staged d' (app_conn a) = staged d (app_conn a) ++ [r];
  append_keeps d a r d' e : AppendRow d a r = (d', e) -> committed d' = committed d;
  close_ok d a d' : CloseAppender d a = (d', None) -> staged d' (app_conn a) = staged d (app_conn a);
  close_keeps d a d' e : CloseAppender d a = (d', e) -> committed d' = committed d;
  wait_keeps d t d' e : Wait d t = (d', e) -> committed d' = committed d
}.

(** ** Lemmas *)

Section RetryLemmas.
Context {S : Type}.
Variables (fn : S -> S * option error) (shouldRetry : error -> bool) (wait : S -> Z -> S * option error).

(** With three units of fuel or more the loop never runs out: more fuel changes
    nothing. *)
Lemma retryLoop_fuel n s : retryLoop fn shouldRetry wait (3 + n) 0 s = retryCatalogIf fn shouldRetry wait s.
Proof.
  unfold retryCatalogIf. simpl.
  repeat (split_match; try done).
Qed.

(** An invariant of one attempt and of the pause is one of the loop. *)
Lemma retryLoop_keeps (P : S -> Prop) fuel attempt s :
  (forall s s' e, P s -> fn s = (s', Some e) -> P s') ->
  (forall s t s' e, P s -> wait s t = (s', e) -> P s') ->
  P s ->
  match retryLoop fn shouldRetry wait fuel attempt s with
  | (s', Some _) => P s'
  | (s', None) => exists s0, P s0 /\ fn s0 = (s', None)
  end.
Proof.
  intros Hfn Hwait. revert attempt s. induction fuel as [|fuel IH]; intros attempt s Hs; simpl; [done|].
  destruct (fn s) as [s1 [err|]] eqn:Ef; [|eauto].
  destruct (negb (shouldRetry err)); [eauto|]. destruct (_ >=? 3); [eauto|].
  destruct (wait s1 _) as [s2 [ce|]] eqn:Ew; [eauto|]. apply IH. eauto.
Qed.
End RetryLemmas.

(** How often the loop calls fn: instrument fn with a counter. *)
Definition counted {S} (fn : S -> S * option error) (s : S * Z) : S * Z * option error :=
  let '(s', e) := fn s.1 in (s', s.2 + 1, e).
Definition counted_wait {S} (wait : S -> Z -> S * option error) (s : S * Z) (t : Z) : S * Z * option error :=
  let '(s', e) := wait s.1 t in (s', s.2, e).

Section WriterLemmas.
Context `{CloudEventLib} `{D : DuckDB} `{L : !DuckLaws D table}.

(** The rows of a bundle, in order; undefined when one cannot be built. *)
Definition bundle_rows (events : list StoredEvent) (rows : list (list value)) : Prop :=
  Forall2 (fun ev row => fillRowArgs ev = Ok row) events rows.

Lemma appendRows_keeps d a i events d' e : appendRows d a i events = (d', e) -> committed d' = committed d.
Proof.
  revert d i. induction events as [|ev events IH]; intros d i; simpl.
  { destruct (CloseAppender d a) as [d1 [e1|]] eqn:Ec; intros [= <- _]; by eapply close_keeps. }
  destruct (fillRowArgs ev) as [args|e1].
  - destruct (AppendRow d a args) as [d1 [e1|]] eqn:Ea.
    + destruct (CloseAppender d1 a) as [d2 e2] eqn:Ec. intros [= <- _].
      rewrite (close_keeps _ _ _ _ Ec). by eapply append_keeps.
    + intros ->%IH. by eapply append_keeps.
  - destruct (CloseAppender d a) as [d2 e2] eqn:Ec. intros [= <- _]. by eapply close_keeps.
Qed.

Lemma appendRows_ok d a i events d' :
  appendRows d a i events = (d', None) ->
  exists rows, bundle_rows events rows /\ staged d' (app_conn a) = staged d (app_conn a) ++ rows.
Proof.
  revert d i. induction events as [|ev events IH]; intros d i; simpl.
  { destruct (CloseAppender d a) as [d1 [e1|]] eqn:Ec; [done|]. intros [= <-].
    exists []. rewrite app_nil_r. split; [constructor | by eapply close_ok]. }
  destruct (fillRowArgs ev) as [args|e1] eqn:Ef; [|by destruct (CloseAppender d a)].
  destruct (AppendRow d a args) as [d1 [e1|]] eqn:Ea; [by destruct (CloseAppender d1 a)|].
  intros (rows & Hr & Hs)%IH. exists (args :: rows). split; [by constructor|].
  rewrite Hs, (append_ok _ _ _ _ Ea), <- app_assoc. done.
Qed.

Lemma appendAll_keeps d c events d' e : appendAll d c table events = (d', e) -> committed d' = committed d.
Proof.
  unfold appendAll. destruct (RawConn d c); [by intros [= <- _]|].
  destruct (NewAppender d c table) as [d1 [a|e1]] eqn:En.
  - intros ->%appendRows_keeps. by eapply new_appender_keeps.
  - intros [= <- _]. by eapply new_appender_keeps.
Qed.

Lemma appendAll_ok d c events d' :
  appendAll d c table events = (d', None) ->
  exists rows, bundle_rows events rows /\ staged d' c = staged d c ++ rows.
Proof.
  unfold appendAll. destruct (RawConn d c); [done|].
  destruct (NewAppender d c table) as [d1 [a|e1]] eqn:En; [|done].
  destruct (new_appender_ok _ _ _ _ En) as [<- Hs].
  intros (rows & Hr & Hs')%appendRows_ok. exists rows. split; [done|]. by rewrite Hs', Hs.
Qed.

(** One attempt is atomic. *)
Lemma writeBundleOnce_spec c events d d' e :
  writeBundleOnce c table events d = (d', e) ->
  match e with
  | Some _ => committed d' = committed d
  | None => exists rows, bundle_rows events rows /\ committed d' = committed d ++ rows
  end.
Proof.
  unfold writeBundleOnce. destruct (Exec d c true BEGIN) as [d1 [e1|]] eqn:Eb.
  { intros [= <- <-]. by eapply begin_keeps. }
  destruct (appendAll d1 c table events) as [d2 [err|]] eqn:Ea.
  - destruct (Exec d2 c false ROLLBACK) as [d3 [rb|]] eqn:Er; intros [= <- <-];
      by rewrite (rollback_keeps _ _ _ _ _ Er), (appendAll_keeps _ _ _ _ _ Ea), (begin_keeps _ _ _ _ _ Eb).
  - destruct (appendAll_ok _ _ _ _ Ea) as (rows & Hr & Hs).
    destruct (Exec d2 c true COMMIT) as [d3 [ce|]] eqn:Ec.
    + destruct (Exec d3 c false ROLLBACK) as [d4 rb] eqn:Er. intros [= <- <-].
      by rewrite (rollback_keeps _ _ _ _ _ Er), (commit_fails _ _ _ _ _ Ec),
        (appendAll_keeps _ _ _ _ _ Ea), (begin_keeps _ _ _ _ _ Eb).
    + intros [= <- <-]. exists rows. split; [done|].
      rewrite (commit_ok _ _ _ _ Ec), Hs, (begin_ok _ _ _ _ Eb),
        (appendAll_keeps _ _ _ _ _ Ea), (begin_keeps _ _ _ _ _ Eb). done.
Qed.

Lemma WriteBundle_spec w d events w' d' e :
  w_table w = table -> WriteBundle (w, d) events = (w', d', e) ->
  w_table w' = table /\
  match e with
  | Some _ => committed d' = committed d
  | None => exists rows, bundle_rows events rows /\ committed d' = committed d ++ rows
  end.
Proof.
  intros Ht. unfold WriteBundle. destruct events as [|ev events].
  { intros [= <- <- <-]. split; [done|]. exists []. rewrite app_nil_r. by split; [constructor|]. }
  unfold nextConn. rewrite Ht. set (c := nth _ _ _). set (evs := ev :: events).
  pose proof (retryLoop_keeps (writeBundleOnce c table evs) isCommitConflict Wait
    (fun x => committed x = committed d) 3 0 d) as Hk.
  unfold retryCatalogIf. destruct (retryLoop _ _ _ 3 0 d) as [d1 e1]. intros [= <- <- <-].
  split; [done|]. destruct e1 as [e1|].
  - apply Hk; [|intros s t s' e Hs Hw; by rewrite (wait_keeps _ _ _ _ Hw)|done].
    intros s s' e Hs He. apply writeBundleOnce_spec in He. congruence.
  - destruct Hk as (s0 & Hs0 & He); [|intros s t s' e Hs Hw; by rewrite (wait_keeps _ _ _ _ Hw)|done|].
    + intros s s' e Hs He. apply writeBundleOnce_spec in He. congruence.
    + apply writeBundleOnce_spec in He. by rewrite Hs0 in He.
Qed.
End WriterLemmas.

(** ** Reading a row back *)

Definition text_of (v : value) : string := match v with VString s | VBytes s => s | _ => "" end.
Definition time_of (v : value) : Z := match v with VTime t => t | _ => 0 end.

(** What a reader gets from a row: the columns, NULL read as the empty value. *)
Record row_view := mkView {
  v_subject : string; v_time : Z; v_type : string; v_id : string; v_source : string;
  v_producer : string; v_content_type : string; v_version : string;
  v_data : string; v_base64 : string; v_key : string; v_voids : string
}.
Definition read_row (row : list value) : option row_view :=
  match row with
  | [subj; t; ty; id; src; prod; ct; ver; _; data; b64; key; voids] =>
      Some (mkView (text_of subj) (time_of t) (text_of ty) (text_of id) (text_of src) (text_of prod)
              (text_of ct) (text_of ver) (text_of data) (text_of b64) (text_of key) (text_of voids))
  | _ => None
  end.

Lemma pinConns_ok `{DuckDB} d n conns d' conns' :
  pinConns d n conns = (d', Ok conns') -> length conns' = (length conns + n)%nat.
Proof.
  revert d conns. induction n as [|n IH]; intros d conns; simpl; [intros [= _ <-]; lia|].
  destruct (OpenConn d) as [d1 [c|e]]; [|by destruct (closeConns d1 conns None)].
  intros ->%IH. rewrite length_app. simpl. lia.
Qed.

(** What a reader of the row of an event finds. *)
Definition event_view (event : StoredEvent) : row_view :=
  mkView (Subject event) (Time event - Time event mod Millisecond) (CEType event)
    (ID event) (Source event) (Producer event) (DataContentType event) (DataVersion event)
    (if DataBase64 event =?s "" then Data event else "") (DataBase64 event)
    (DataIndexKey event) (VoidsID event).

Lemma read_fillRowArgs `{CloudEventLib} (event : StoredEvent) row :
  fillRowArgs event = Ok row -> Zlen row = rawEventColumnCount /\ read_row row = Some (event_view event).
Proof.
  unfold fillRowArgs. intros Hr. inv_ok Hr. simplify_eq. split; [done|]. unfold event_view. simpl.
  unfold Truncate. simpl.
  destruct (String.eqb_spec (DataBase64 event) "") as [->|]; simpl;
    destruct (String.eqb_spec (DataIndexKey event) "") as [->|];
    destruct (String.eqb_spec (VoidsID event) "") as [->|]; simpl; try done;
    (destruct (Data event); [done|]); done.
Qed.

(** ** Properties *)

(** C5: A bundle is one transaction: nil means that one row per event, in order,
    was added to the table and nothing else (so acking is safe); an error, after
    up to three attempts, means that the table is as it was (so redelivery is). *)
Theorem WriteBundle_atomic `{CloudEventLib} `{D : DuckDB} `{L : !DuckLaws D table} w d events w' d' e :
  w_table w = table -> WriteBundle (w, d) events = (w', d', e) ->
  match e with
  | Some _ => committed d' = committed d
  | None => exists rows, Forall2 (fun ev row => fillRowArgs ev = Ok row) events rows /\
                         committed d' = committed d ++ rows
  end.
Proof. intros Ht Hw. by apply (WriteBundle_spec w d events w' d' e Ht) in Hw as [_ ?]. Qed.

(** The retry loop makes one to three attempts, whatever the attempts, the
    predicate and the pauses do, and counting them does not change its result. *)
Theorem retryCatalogIf_attempts {S} (fn : S -> S * option error) p wait s :
  let r := retryCatalogIf (counted fn) p (counted_wait wait) (s, 0) in
  1 <= r.1.2 <= 3 /\ (r.1.1, r.2) = retryCatalogIf fn p wait s.
Proof.
  unfold retryCatalogIf, counted, counted_wait. simpl.
  repeat (split_match; simplify_eq/=; try (split; [lia | done])).
Qed.

(** A row keeps the event: reading the columns back gives the header fields,
    the time cut to milliseconds, the blob key, the voided id and the payload, as
    base64 when the event has one (then data is NULL) and as data otherwise. *)
Theorem row_roundtrip `{CloudEventLib} (event : StoredEvent) row :
  fillRowArgs event = Ok row ->
  Zlen row = rawEventColumnCount /\
  read_row row = Some (mkView (Subject event) (Time event - Time event mod Millisecond) (CEType event)
    (ID event) (Source event) (Producer event) (DataContentType event) (DataVersion event)
    (if DataBase64 event =?s "" then Data event else "") (DataBase64 event)
    (DataIndexKey event) (VoidsID event)).
Proof. apply read_fillRowArgs. Qed.

(** A writer is usable for ever: NewWriterN pins at least one connection, as
    many as asked for, and the round robin picks one of them also after its
    64-bit counter has wrapped. *)
Theorem NewWriterN_usable `{DuckDB} d table n d' w next :
  NewWriterN d table n = (d', Ok w) ->
  Zlen (w_conns w) = Z.max 1 n /\ (nextConn (mkWriter table (w_conns w) next)).1 ∈ w_conns w.
Proof.
  unfold NewWriterN. destruct (pinConns d _ []) as [d1 [conns|e]] eqn:Ep; [|done].
  intros [= <- <-]. apply pinConns_ok in Ep. simpl in *.
  assert (Zlen conns = Z.max 1 n) as Hl by (unfold Zlen; destruct (Z.ltb_spec n 1); lia).
  split; [done|]. apply list_elem_of_In, nth_In. apply Nat2Z.inj_lt.
  pose proof (Z.mod_pos_bound (wrap64 (next + 1)) (Zlen conns)). unfold Zlen in *. lia.
Qed.

(** ** Instances for the witnesses *)

(** A database with one table and a transaction per connection; it rejects rows
    whose subject is "bad", and its first [conflicts] commits lose a race. *)
Record mem_db := mkMem { m_rows : list (list value); m_staged : gmap Z (list (list value)); m_conflicts : nat }.

Definition bad_row (r : list value) : bool := match r with VString s :: _ => s =?s "bad" | _ => false end.

Definition mem_duck : DuckDB := {|
  db := mem_db;
  appender := Z;
  OpenConn d := (d, Ok 0);
  CloseConn d c := (d, None);
  Exec d c _ st :=
    let stg := default [] (m_staged d !! c) in
    match st with
    | BEGIN => (mkMem (m_rows d) (<[c := []]> (m_staged d)) (m_conflicts d), None)
    | ROLLBACK => (mkMem (m_rows d) (<[c := []]> (m_staged d)) (m_conflicts d), None)
    | COMMIT =>
        match m_conflicts d with
        | O => (mkMem (m_rows d ++ stg) (<[c := []]> (m_staged d)) 0, None)
        | S k => (mkMem (m_rows d) (m_staged d) k, Some (ENew "TransactionContext Error: conflict"))
        end
    end;
  RawConn d c := None;
  NewAppender d c table := (d, Ok c);
  AppendRow d a r :=
    if bad_row r then (d, Some (ENew "invalid row"))
    else (mkMem (m_rows d) (<[a := default [] (m_staged d !! a) ++ [r]]> (m_staged d)) (m_conflicts d), None);
  CloseAppender d a := (d, None);
  Wait d t := (d, None)
|}.

#[export] Instance mem_duck_laws : DuckLaws mem_duck "raw_events".
Proof.
  refine {| committed := fun d : @db mem_duck => m_rows d;
            staged := fun (d : @db mem_duck) c => default [] (m_staged d !! c);
            app_conn := fun a : @appender mem_duck => (a : Z) |}; simpl; intros.
  all: repeat match goal with
    | H : context [m_conflicts ?d] |- _ => destruct (m_conflicts d); simplify_eq/=
    | H : context [bad_row ?r] |- _ => destruct (bad_row r); simplify_eq/=
    end; simplify_map_eq; try done.
Defined.

Definition mem0 (conflicts : nat) : mem_db := mkMem [] ∅ conflicts.
Definition sample_writer : Writer := mkWriter "raw_events" [0] 0.

(** The sample event goes in at the third attempt. *)
Definition sample_write : Writer * mem_db * option error :=
  @WriteBundle sample_lib mem_duck (sample_writer, mem0 2) [sample_stored].

Lemma WriteBundle_atomic_witness :
  exists rows, Forall2 (fun ev row => @fillRowArgs sample_lib ev = Ok row) [sample_stored] rows /\
    m_rows sample_write.1.2 = [] ++ rows.
Proof.
  refine (@WriteBundle_atomic sample_lib mem_duck "raw_events" mem_duck_laws sample_writer (mem0 2)
            [sample_stored] sample_write.1.1 sample_write.1.2 None eq_refl _).
  vm_compute. reflexivity.
Defined.

Lemma row_roundtrip_witness :
  Zlen [VString (Subject sample_stored); VTime 0; VString (CEType sample_stored); VString "local-1";
        VString (Source sample_stored); VString (Producer sample_stored);
        VString (DataContentType sample_stored); VString (DataVersion sample_stored); emptyExtrasJSON;
        VBytes "42"; VNull; VString "blobs/k"; VString "void-1"] = rawEventColumnCount.
Proof.
  refine (proj1 (@row_roundtrip sample_lib sample_stored _ _)). vm_compute. reflexivity.
Defined.

Lemma NewWriterN_usable_witness :
  Zlen [0; 0; 0] = Z.max 1 3 /\ (nextConn (mkWriter "raw_events" [0; 0; 0] (2 ^ 64 - 1))).1 ∈ [0; 0; 0].
Proof.
  apply (@NewWriterN_usable mem_duck (mem0 0) "raw_events" 3 (mem0 0)
           (mkWriter "raw_events" [0; 0; 0] 0) (2 ^ 64 - 1)).
  vm_compute. reflexivity.
Defined.
