(* ===== verification/Schema.v ===== *)
(** * The raw_events table: rows against the schema

    The writer fills a slice by position (internal/lake/row.go), the table is declared
    by name (internal/lake/ddl.go). The columns are read here from the text of the
    CREATE statement itself, so the two are compared as they are written. *)

From S2P Require Import Prelude GoStd CloudEvent Stream Publisher LakeWriter LakeSQL.

(** ** Reading the declaration *)

(** A column as the statement declares it: "name TYPE", the name perhaps quoted. *)
Record column := mkColumn { col_name : string; col_type : string }.
#[export] Instance column_eq_dec : EqDecision column.
Proof. solve_decision. Defined.

Definition unquote (s : string) : string :=
  string_of (List.filter (fun b => negb (b =? 34)) (bytes_of s)).

Definition readColumn (decl : string) : column :=
  match SplitByte (TrimSpace decl) (chr " ") with
  | name :: words => mkColumn (unquote name) (Join words " ")
  | [] => mkColumn "" ""
  end.

(** What stands between the first parenthesis and the last byte, split at the commas. *)
Fixpoint after_paren (s : string) : string :=
  match s with
  | "" => ""
  | String c s' => if Ascii.eqb c (chr "(") then s' else after_paren s'
  end.
Definition columns (create : string) : list column :=
  readColumn <$> SplitByte (String.substring 0 (pred (String.length (after_paren create))) (after_paren create)) (chr ",").

Definition raw_events : list column := columns rawEventsCreate.

(** ** Types *)

(** What the appender takes for a column of a type: a string or bytes for VARCHAR,
    bytes for BLOB, a time for a timestamp; NULL for any, as no column is NOT NULL. *)
Definition accepts (ty : string) (v : value) : bool :=
  match v with
  | VNull => true
  | VString _ => ty =?s "VARCHAR"
  | VBytes _ => (ty =?s "VARCHAR") || (ty =?s "BLOB")
  | VTime _ => ty =?s "TIMESTAMP WITH TIME ZONE"
  end.

(** ** The values by name *)

Section ByName.
Context `{CloudEventLib}.

Definition nullable (s : string) : value := if nonempty s then VString s else VNull.

(** The columns of an event as cloudevent/parquet names them: the payload is in
    data_base64 when the event has one, else in data; an absent payload, index key or
    voided id is NULL. *)
Definition value_of (event : StoredEvent) (extras : value) (c : string) : option value :=
  match c with
  | "subject" => Some (VString (Subject event))
  | "time" => Some (VTime (Truncate (Time event) Millisecond))
  | "type" => Some (VString (CEType event))
  | "id" => Some (VString (ID event))
  | "source" => Some (VString (Source event))
  | "producer" => Some (VString (Producer event))
  | "data_content_type" => Some (VString (DataContentType event))
  | "data_version" => Some (VString (DataVersion event))
  | "extras" => Some extras
  | "data" => Some (if nonempty (DataBase64 event) then VNull else
                    if nonempty (Data event) then VBytes (Data event) else VNull)
  | "data_base64" => Some (if nonempty (DataBase64 event) then VBytes (DataBase64 event) else VNull)
  | "data_index_key" => Some (nullable (DataIndexKey event))
  | "voids_id" => Some (nullable (VoidsID event))
  | _ => None
  end.

(** ** Lemmas *)

Lemma strlen_nonempty s : (0 <? strlen s) = nonempty s.
Proof. by destruct s. Qed.

Definition extras_of (event : StoredEvent) : value :=
  match ExtrasJSON event with Some (Ok b) => VBytes b | _ => emptyExtrasJSON end.

Lemma raw_events_columns :
  raw_events =
    [mkColumn "subject" "VARCHAR"; mkColumn "time" "TIMESTAMP WITH TIME ZONE"; mkColumn "type" "VARCHAR";
     mkColumn "id" "VARCHAR"; mkColumn "source" "VARCHAR"; mkColumn "producer" "VARCHAR";
     mkColumn "data_content_type" "VARCHAR"; mkColumn "data_version" "VARCHAR"; mkColumn "extras" "VARCHAR";
     mkColumn "data" "VARCHAR"; mkColumn "data_base64" "BLOB"; mkColumn "data_index_key" "VARCHAR";
     mkColumn "voids_id" "VARCHAR"].
Proof. vm_compute. reflexivity. Qed.

Lemma fillRowArgs_by_name (event : StoredEvent) row :
  fillRowArgs event = Ok row ->
  Forall2 (fun c v => value_of event (extras_of event) (col_name c) = Some v /\ accepts (col_type c) v = true) raw_events row.
Proof.
  rewrite raw_events_columns. unfold fillRowArgs, extras_of. rewrite strlen_nonempty.
  change (negb (DataBase64 event =?s "")) with (nonempty (DataBase64 event)).
  change (negb (DataIndexKey event =?s "")) with (nonempty (DataIndexKey event)).
  change (negb (VoidsID event =?s "")) with (nonempty (VoidsID event)).
  destruct (ExtrasJSON event) as [[b|e]|]; [|done|]; intros [= <-]; unfold value_of, nullable;
    repeat (apply Forall2_cons_2; [split; [reflexivity|cbn [col_type]]|]); try apply Forall2_nil_2; try reflexivity;
    by destruct (nonempty (DataBase64 event)), (nonempty (Data event)), (nonempty (DataIndexKey event)), (nonempty (VoidsID event)).
Qed.

(** ** Properties *)

(** C24: A row has the type of its table. The slice the writer fills by position has one
    value per column that CREATE TABLE declares, the value of the field the column is
    named after, and of the type it is declared with; payload goes to one of
    data and data_base64 at most, and to neither exactly when the event carries none
    (as a split event does). *)
Theorem row_has_table_type (event : StoredEvent) row :
  fillRowArgs event = Ok row ->
  Zlen row = rawEventColumnCount /\
  Forall2 (fun c v => value_of event (extras_of event) (col_name c) = Some v /\ accepts (col_type c) v = true) raw_events row /\
  (row !! 9%nat = Some VNull \/ row !! 10%nat = Some VNull) /\
  (row !! 9%nat = Some VNull /\ row !! 10%nat = Some VNull <-> Data event = "" /\ DataBase64 event = "").
Proof.
  intros Hr. pose proof (fillRowArgs_by_name event row Hr) as Hf. split; [|split; [done|]].
  - apply Forall2_length in Hf. unfold Zlen. rewrite <- Hf, raw_events_columns. reflexivity.
  - rewrite raw_events_columns in Hf.
    destruct (Forall2_lookup_l _ _ _ 9 _ Hf eq_refl) as (v9 & -> & [[= <-] _]).
    destruct (Forall2_lookup_l _ _ _ 10 _ Hf eq_refl) as (v10 & -> & [[= <-] _]).
    destruct (DataBase64 event) as [|a s], (Data event) as [|b t]; simpl; intuition congruence.
Qed.

(** The layout is by columns the table has. *)
Theorem layout_columns_exist :
  Forall (fun c => c ∈ (col_name <$> raw_events)) ["type"; "time"; "subject"] /\ NoDup (col_name <$> raw_events).
Proof. rewrite raw_events_columns. split; [|]; apply (bool_decide_eq_true_1 _); vm_compute; reflexivity. Qed.
End ByName.

(** An event whose payload was split off: both payload columns are NULL. *)
Lemma row_has_table_type_witness :
  exists row, @fillRowArgs sample_lib (mkStored (mkRaw sample_header "" "") "blobs/k" "") = Ok row /\
    Zlen row = 13 /\ row !! 9%nat = Some VNull /\ row !! 10%nat = Some VNull /\ row !! 11%nat = Some (VString "blobs/k").
Proof.
  eexists. split; [vm_compute; reflexivity|].
  destruct (@row_has_table_type sample_lib (mkStored (mkRaw sample_header "" "") "blobs/k" "") _ eq_refl)
    as (Hlen & _ & _ & Hp).
  split; [exact Hlen|]. split; [apply Hp; done|]. split; [apply Hp; done|]. reflexivity.
Defined.
