(* ===== verification/Layout.v ===== *)
(** * Package lake: keeping the layout of raw_events

    The two catalog queries behind reassertLayout (isPartitioned, isSorted) as relations
    over DuckLake's metadata tables, what reassertLayout makes of the layout, and the
    protocol it plays with the running backfills: each drops the partitioning for
    its registration window and keeps a heartbeat in a shared table, while any pod
    may re-assert the layout, and any other backfill may start or end, between any
    two of its statements. *)

From S2P Require Import Prelude GoStd LakeWriter LakeSQL.

(** ** The metadata tables *)

Record partitionInfo := mkPartition { pi_partition : Z; pi_table : Z; pi_end : option Z }.
Record sortInfo := mkSort { si_table : Z; si_end : option Z }.

(** ducklake_table_info (name and id), ducklake_partition_info,
    ducklake_partition_column (the partition a column belongs to) and
    ducklake_sort_info. *)
Record metadata := mkMetadata {
  table_info : list (string * Z); partition_info : list partitionInfo;
  partition_column : list Z; sort_info : list sortInfo
}.

(** (SELECT table_id FROM ducklake_table_info('lake') WHERE table_name = ?): NULL for no
    row, an error for more than one. *)
Definition tableID (m : metadata) (name : string) : result (option Z) :=
  match List.filter (fun t => t.1 =?s name) (table_info m) with
  | [] => Ok None
  | [t] => Ok (Some t.2)
  | _ => Err (ENew "More than one row returned by a subquery used as an expression")
  end.

(** a = b where b may be NULL. *)
Definition sql_eq (a : Z) (b : option Z) : bool := match b with Some x => a =? x | None => false end.
Definition is_null {A} (o : option A) : bool := match o with None => true | Some _ => false end.

Definition isPartitioned (m : metadata) : result bool :=
  id ← tableID m RawTable;
  Ok (0 <? Zlen (List.filter (fun r => (r.1 =? pi_partition r.2) && is_null (pi_end r.2) && sql_eq (pi_table r.2) id)
                   (list_prod (partition_column m) (partition_info m)))).
Definition isSorted (m : metadata) : result bool :=
  id ← tableID m RawTable;
  Ok (0 <? Zlen (List.filter (fun r => is_null (si_end r) && sql_eq (si_table r) id) (sort_info m))).

(** ** Re-asserting the layout *)

(** The session's queries read the metadata, and the ALTERs of the layout do what
    lake.go documents of them: each makes its spec active and leaves the other alone. *)
Class LayoutCatalog (S : LakeSession) := {
  meta : ldb -> metadata;
  reads_partitioned d b : l_partitioned d = Ok b -> isPartitioned (meta d) = Ok b;
  reads_sorted d b : l_sorted d = Ok b -> isSorted (meta d) = Ok b;
  sets_partitioned d d' : l_Exec d layoutPartitioned = (d', None) ->
    isPartitioned (meta d') = Ok true /\ isSorted (meta d') = isSorted (meta d);
  sets_sorted d d' : l_Exec d layoutSorted = (d', None) ->
    isSorted (meta d') = Ok true /\ isPartitioned (meta d') = isPartitioned (meta d);
  pause_keeps_meta d d' e : l_Exec d createPauseTable = (d', e) -> meta d' = meta d
}.

Section Repair.
Context `{S : LakeSession} `{L : !LayoutCatalog S}.

Lemma backfillPauseActive_meta d d' r : backfillPauseActive d = (d', r) -> meta d' = meta d.
Proof.
  unfold backfillPauseActive, ensureBackfillPauseTable. destruct (l_Exec d createPauseTable) as [d1 [e|]] eqn:E;
    intros [= <- _]; by eapply pause_keeps_meta.
Qed.

Lemma reassertOne_partitioned d d' :
  reassertOne (l_partitioned d) layoutPartitioned d = (d', None) ->
  isPartitioned (meta d') = Ok true /\ isSorted (meta d') = isSorted (meta d) /\ (l_partitioned d = Ok true -> d' = d).
Proof.
  unfold reassertOne. destruct (l_partitioned d) as [[]|e] eqn:Ep;
    [intros [= <-]; split_and!; [by apply reads_partitioned|done|done]|..];
    destruct (l_Exec d layoutPartitioned) as [d1 [e'|]] eqn:E; try done; intros [= <-];
    destruct (sets_partitioned _ _ E); done.
Qed.

Lemma reassertOne_sorted d d1 d' :
  isSorted (meta d1) = isSorted (meta d) -> reassertOne (l_sorted d) layoutSorted d1 = (d', None) ->
  isSorted (meta d') = Ok true /\ isPartitioned (meta d') = isPartitioned (meta d1) /\ (l_sorted d = Ok true -> d' = d1).
Proof.
  intros Hs. unfold reassertOne. destruct (l_sorted d) as [[]|e] eqn:Ep;
    [intros [= <-]; split_and!; [rewrite Hs; by apply reads_sorted|done|done]|..];
    destruct (l_Exec d1 layoutSorted) as [d2 [e'|]] eqn:E; try done; intros [= <-];
    destruct (sets_sorted _ _ E); done.
Qed.

Lemma reassertLayout_cases d d0 r d' :
  backfillPauseActive d = (d0, r) -> reassertLayout d = (d', None) ->
  (r = Ok true /\ d' = d0) \/
  exists d1, reassertOne (l_partitioned d0) layoutPartitioned d0 = (d1, None) /\
             reassertOne (l_sorted d0) layoutSorted d1 = (d', None).
Proof.
  intros Eb. unfold reassertLayout. rewrite Eb. destruct r as [[]|e]; [intros [= <-]; by left|..];
    (destruct (reassertOne (l_partitioned d0) _ d0) as [d1 [e'|]]; [done|]; intros Hs; right; by exists d1).
Qed.

(** The layout heals. When reassertLayout returns nil, either a fresh backfill
    heartbeat made it leave the table alone, or both the partitioning and the sort
    order are active: whatever a crashed backfill or a half-applied layout left
    behind is repaired, also when a check could not be read. A layout that is
    read as active is not altered again, so an intact table sees no schema
    change. *)
Theorem reassertLayout_repairs d d' :
  reassertLayout d = (d', None) ->
  (backfillPauseActive d = (d', Ok true) /\ meta d' = meta d) \/
  (isPartitioned (meta d') = Ok true /\ isSorted (meta d') = Ok true /\
   forall d0 r, backfillPauseActive d = (d0, r) -> l_partitioned d0 = Ok true -> l_sorted d0 = Ok true -> d' = d0).
Proof.
  intros Hr. destruct (backfillPauseActive d) as [d0 r] eqn:Eb.
  destruct (reassertLayout_cases _ _ _ _ Eb Hr) as [[-> ->]|(d1 & Hp & Hs)].
  - left. split; [done|]. by eapply backfillPauseActive_meta.
  - right. destruct (reassertOne_partitioned _ _ Hp) as (Hp1 & Hk & Hid).
    destruct (reassertOne_sorted _ _ _ Hk Hs) as (Hs1 & Hk' & Hid').
    split_and!; [by rewrite Hk'|done|]. intros d0' r' [= <- <-] Ep Es. rewrite (Hid' Es). by apply Hid.
Qed.
End Repair.

(** ** The protocol with the running backfills *)

(** Where a backfill is between its statements on the shared catalog: past its first
    heartbeat, inside the registration window, past the restoring ALTER (or past a
    RESET that failed, where only the pause is left to clear), over. *)
Inductive bpc := BPaused | BWindow | BRestored | BDone.

(** What a re-assert saw when it looked for the heartbeat: the number of backfills
    started by then, the time, the rows of the pause table (None: the check failed),
    and the backfill that emptied the table after the last heartbeat, if one did. *)
Record observation := mkObs { o_started : nat; o_time : Z; o_rows : option (list Z); o_cleared : option nat }.

(** Who put the partitioning back inside a window: a backfill that ended, or a pod. *)
Inductive breach := ByRun (k : nat) | ByPod (o : observation).

(** A run of lake-backfill; [b_breach] is the last breach of its current window. *)
Record brun := mkRun { b_pc : bpc; b_breach : option breach }.

(** Where a re-assert is: not running, past the pause check, past isPartitioned, past
    isSorted, past the first ALTER. *)
Inductive rpc :=
| RIdle
| RChecked (o : observation)
| RPartRead (o : observation) (partitioned : bool)
| RBothRead (o : observation) (partitioned sorted : bool)
| RSort (sorted : bool).

(** The catalog, the pause table, the clock, the backfills in the order they started,
    one re-assert per pod, and who emptied the pause table since the last
    heartbeat. *)
Record system := mkSystem {
  y_meta : metadata; y_pause : list Z; y_now : Z; y_runs : list brun; y_r : list rpc; y_cleared : option nat
}.

(** EXISTS (SELECT 1 ... WHERE now() - updated_at < INTERVAL '1800 seconds') *)
Definition pauseFresh (now : Z) (rows : list Z) : bool := existsb (fun t => now - t <? backfillPauseStaleness) rows.
Definition passes (o : observation) : bool := match o_rows o with Some rows => negb (pauseFresh (o_time o) rows) | None => true end.

Definition has_table (m : metadata) : Prop := exists id, tableID m RawTable = Ok (Some id).

(** The table was partitioned: every window open then has the breach. *)
Definition breached (b : breach) (r : brun) : brun := match b_pc r with BWindow => mkRun BWindow (Some b) | _ => r end.

(** The ALTERs as functions of the metadata of a lake that has the table. *)
Class AlterLaws (setP resetP setS : metadata -> metadata) : Prop := {
  set_is m : has_table m -> has_table (setP m) /\ isPartitioned (setP m) = Ok true;
  reset_is m : has_table m -> has_table (resetP m) /\ isPartitioned (resetP m) = Ok false;
  sort_keeps m : has_table m -> has_table (setS m) /\ isPartitioned (setS m) = isPartitioned m
}.

Section Protocol.
Variables setP resetP setS : metadata -> metadata.

(** One statement of some backfill [k]; any number of them overlap, every statement
    may fail without effect, and a process may be killed between any two. A heartbeat
    is one transaction, DELETE and INSERT of its start time; a DELETE removes the
    rows its snapshot sees, so rows inserted meanwhile by other backfills ([kept])
    survive it. *)
Inductive bstep : system -> system -> Prop :=
| b_start t kept m rows now bs rs c :
    t <= now -> kept ⊆ rows ->
    bstep (mkSystem m rows now bs rs c) (mkSystem m (t :: kept) now (bs ++ [mkRun BPaused None]) rs None)
| b_reset k br m rows now bs rs c :
    bs !! k = Some (mkRun BPaused br) ->
    bstep (mkSystem m rows now bs rs c) (mkSystem (resetP m) rows now (<[k := mkRun BWindow None]> bs) rs c)
| b_reset_fails k br m rows now bs rs c :
    bs !! k = Some (mkRun BPaused br) ->
    bstep (mkSystem m rows now bs rs c) (mkSystem m rows now (<[k := mkRun BRestored br]> bs) rs c)
| b_beat k t kept br m rows now bs rs c :
    bs !! k = Some (mkRun BWindow br) -> t <= now -> kept ⊆ rows ->
    bstep (mkSystem m rows now bs rs c) (mkSystem m (t :: kept) now bs rs None)
| b_restore k br m rows now bs rs c :
    bs !! k = Some (mkRun BWindow br) ->
    bstep (mkSystem m rows now bs rs c)
          (mkSystem (setP m) rows now (breached (ByRun k) <$> <[k := mkRun BRestored br]> bs) rs c)
| b_restore_fails k br m rows now bs rs c :
    bs !! k = Some (mkRun BWindow br) ->
    bstep (mkSystem m rows now bs rs c) (mkSystem m rows now (<[k := mkRun BRestored br]> bs) rs c)
| b_clear k kept br m rows now bs rs c :
    bs !! k = Some (mkRun BRestored br) -> kept ⊆ rows ->
    bstep (mkSystem m rows now bs rs c)
          (mkSystem m kept now (<[k := mkRun BDone br]> bs) rs (match kept with [] => Some k | _ => c end))
| b_over k pc br m rows now bs rs c :
    bs !! k = Some (mkRun pc br) ->
    bstep (mkSystem m rows now bs rs c) (mkSystem m rows now (<[k := mkRun BDone br]> bs) rs c).

(** What the re-assert of pod [i] does next; [err] says that the statement fails. *)
Inductive rstep (i : nat) : system -> system -> Prop :=
| r_check (err : bool) m rows now bs rs c :
    let o := mkObs (length bs) now (if err then None else Some rows) c in
    rs !! i = Some RIdle ->
    rstep i (mkSystem m rows now bs rs c)
            (mkSystem m rows now bs (<[i := if passes o then RChecked o else RIdle]> rs) c)
| r_partitioned (err : bool) o m rows now bs rs c :
    rs !! i = Some (RChecked o) ->
    rstep i (mkSystem m rows now bs rs c)
            (mkSystem m rows now bs
               (<[i := RPartRead o (if err then false else match isPartitioned m with Ok p => p | Err _ => false end)]> rs) c)
| r_sorted (err : bool) o p m rows now bs rs c :
    rs !! i = Some (RPartRead o p) ->
    rstep i (mkSystem m rows now bs rs c)
            (mkSystem m rows now bs
               (<[i := RBothRead o p (if err then false else match isSorted m with Ok s => s | Err _ => false end)]> rs) c)
| r_partition_skip o s m rows now bs rs c :
    rs !! i = Some (RBothRead o true s) ->
    rstep i (mkSystem m rows now bs rs c) (mkSystem m rows now bs (<[i := RSort s]> rs) c)
| r_partition o s m rows now bs rs c :
    rs !! i = Some (RBothRead o false s) ->
    rstep i (mkSystem m rows now bs rs c)
            (mkSystem (setP m) rows now (breached (ByPod o) <$> bs) (<[i := RSort s]> rs) c)
| r_partition_fails o s m rows now bs rs c :
    rs !! i = Some (RBothRead o false s) ->
    rstep i (mkSystem m rows now bs rs c) (mkSystem m rows now bs (<[i := RIdle]> rs) c)
| r_sort (ok : bool) s m rows now bs rs c :
    rs !! i = Some (RSort s) ->
    rstep i (mkSystem m rows now bs rs c)
            (mkSystem (if ok && negb s then setS m else m) rows now bs (<[i := RIdle]> rs) c).

Inductive ystep : system -> system -> Prop :=
| y_tick now' m rows now bs rs c :
    now <= now' -> ystep (mkSystem m rows now bs rs c) (mkSystem m rows now' bs rs c)
| y_backfill st st' : bstep st st' -> ystep st st'
| y_reassert i st st' : rstep i st st' -> ystep st st'.

(** Some number of pods on a lake with the table, nothing running; an earlier backfill
    may have left rows in the pause table. *)
Inductive yreach : system -> Prop :=
| y_init m rows now pods : has_table m -> yreach (mkSystem m rows now [] (replicate pods RIdle) None)
| y_next st st' : yreach st -> ystep st st' -> yreach st'.

(** ** Lemmas *)

(** The observation a re-assert holds. *)
Definition held (r : rpc) : option observation :=
  match r with RChecked o | RPartRead o _ | RBothRead o _ _ => Some o | _ => None end.

(** Backfill [k] has left its window. *)
Definition ended (bs : list brun) (k : nat) : Prop := exists r, bs !! k = Some r /\ (b_pc r = BRestored \/ b_pc r = BDone).

(** Why a re-assert may go on while backfill [j] runs: it looked before that backfill
    started, it could not look, every heartbeat it saw was stale, or it saw none
    because another backfill, ending, had deleted them all. *)
Definition excused (bs : list brun) (j : nat) (o : observation) : Prop :=
  (o_started o <= j)%nat \/ o_rows o = None \/
  (exists t rows, o_rows o = Some (t :: rows) /\ Forall (fun t => backfillPauseStaleness <= o_time o - t) (t :: rows)) \/
  (exists k, o_rows o = Some [] /\ o_cleared o = Some k /\ k <> j /\ ended bs k).

(** Who may have put the partitioning back inside the window of backfill [j]. *)
Definition allowed (bs : list brun) (j : nat) (b : breach) : Prop :=
  match b with ByRun k => k <> j /\ ended bs k | ByPod o => excused bs j o end.

(** Every running backfill excuses the observation. *)
Definition tolerated (bs : list brun) (r : rpc) : Prop :=
  forall o, held r = Some o -> (o_started o <= length bs)%nat /\
    forall j b, bs !! j = Some b -> b_pc b <> BDone -> excused bs j o.

(** While a backfill runs, the pause table is empty only because another one emptied
    it, and whoever passed the check is excused; the table is not partitioned
    inside a window, except by a recorded breach. *)
Record protocol_inv (st : system) : Prop := mkInv {
  inv_table : has_table (y_meta st);
  inv_beat j b : y_runs st !! j = Some b -> b_pc b <> BDone -> y_pause st = [] -> is_Some (y_cleared st);
  inv_cleared k : y_cleared st = Some k -> exists b, y_runs st !! k = Some b /\ b_pc b = BDone;
  inv_held : Forall (tolerated (y_runs st)) (y_r st);
  inv_breach j b x : y_runs st !! j = Some b -> b_pc b = BWindow -> b_breach b = Some x -> allowed (y_runs st) j x;
  inv_window j b : y_runs st !! j = Some b -> b_pc b = BWindow -> b_breach b = None -> isPartitioned (y_meta st) = Ok false
}.

Lemma protocol_init m rows now pods : has_table m -> protocol_inv (mkSystem m rows now [] (replicate pods RIdle) None).
Proof. intros Hm. split; simpl; try done. by apply Forall_replicate. Qed.

Context {A : AlterLaws setP resetP setS}.

(** *** Backfills only move forward *)

(** What a step may do to the backfills: those that ended stay ended, those that are
    over stay over, and none becomes undone. *)
Record forward (bs bs' : list brun) : Prop := mkForward {
  fw_len : (length bs <= length bs')%nat;
  fw_ended k : ended bs k -> ended bs' k;
  fw_over k b : bs !! k = Some b -> b_pc b = BDone -> exists b', bs' !! k = Some b' /\ b_pc b' = BDone;
  fw_live j b' : bs' !! j = Some b' -> b_pc b' <> BDone -> (length bs <= j)%nat \/ exists b, bs !! j = Some b /\ b_pc b <> BDone
}.

Lemma forward_refl bs : forward bs bs.
Proof. split; eauto. Qed.

Lemma forward_trans bs1 bs2 bs3 : forward bs1 bs2 -> forward bs2 bs3 -> forward bs1 bs3.
Proof.
  intros [L1 E1 O1 V1] [L2 E2 O2 V2]. split; [lia|by auto|..].
  - intros k b Hb Hp. destruct (O1 k b Hb Hp) as (b2 & Hb2 & Hp2). by apply (O2 k b2).
  - intros j b Hb Hp. destruct (V2 j b Hb Hp) as [?|(b2 & Hb2 & Hp2)]; [left; lia|]. by apply (V1 j b2).
Qed.

Lemma forward_start bs b : forward bs (bs ++ [b]).
Proof.
  split; [rewrite length_app; lia|..].
  - intros k (r & Hr & Hp). exists r. by rewrite lookup_app_l by (by eapply lookup_lt_Some).
  - intros k r Hr Hp. exists r. by rewrite lookup_app_l by (by eapply lookup_lt_Some).
  - intros j r Hr Hp. destruct (decide (j < length bs)%nat) as [Hl|Hl]; [|left; lia].
    right. exists r. by rewrite lookup_app_l in Hr.
Qed.

(** A backfill moves on: never back from the end. *)
Definition pc_rank (p : bpc) : nat := match p with BPaused => 0 | BWindow => 1 | BRestored => 2 | BDone => 3 end.
Lemma forward_insert (bs : list brun) k b b' :
  bs !! k = Some b -> (pc_rank (b_pc b) <= pc_rank (b_pc b'))%nat -> forward bs (<[k := b']> bs).
Proof.
  intros Hb Hle. pose proof (lookup_lt_Some _ _ _ Hb) as Hl. split; [by rewrite length_insert|..].
  - intros i (r & Hr & Hp). destruct (decide (i = k)) as [->|Hne]; [|exists r; by rewrite list_lookup_insert_ne].
    exists b'. rewrite list_lookup_insert_eq by done. split; [done|]. simplify_eq.
    destruct (b_pc b'); destruct Hp as [Hp|Hp]; rewrite Hp in Hle; simpl in Hle; auto; lia.
  - intros i r Hr Hp. destruct (decide (i = k)) as [->|Hne]; [|exists r; by rewrite list_lookup_insert_ne].
    exists b'. rewrite list_lookup_insert_eq by done. split; [done|]. simplify_eq. rewrite Hp in Hle.
    destruct (b_pc b'); simpl in Hle; auto; lia.
  - intros j r Hr Hp. right. destruct (decide (j = k)) as [->|Hne]; [|rewrite list_lookup_insert_ne in Hr by done; eauto].
    rewrite list_lookup_insert_eq in Hr by done. simplify_eq. exists b. split; [done|]. intros E. rewrite E in Hle.
    destruct (b_pc r); simpl in Hle; auto; lia.
Qed.

Lemma breached_pc x b : b_pc (breached x b) = b_pc b.
Proof. unfold breached. by destruct b as [[] ?]. Qed.

Lemma forward_breached x bs : forward bs (breached x <$> bs).
Proof.
  split; [by rewrite length_fmap|..].
  - intros k (r & Hr & Hp). exists (breached x r). rewrite list_lookup_fmap, Hr. split; [done|]. by rewrite breached_pc.
  - intros k r Hr Hp. exists (breached x r). rewrite list_lookup_fmap, Hr. split; [done|]. by rewrite breached_pc.
  - intros j r Hr Hp. apply list_lookup_fmap_Some in Hr as (b & -> & Hb). rewrite breached_pc in Hp. eauto.
Qed.

Lemma excused_forward bs bs' j o : forward bs bs' -> excused bs j o -> excused bs' j o.
Proof.
  intros F [H|[H|[H|(k & H1 & H2 & H3 & H4)]]]; [by left|by right; left|by right; right; left|].
  right; right; right. exists k. split_and!; try done. by eapply fw_ended.
Qed.

Lemma allowed_forward bs bs' j x : forward bs bs' -> allowed bs j x -> allowed bs' j x.
Proof. intros F. destruct x; simpl; [|by apply excused_forward]. intros [? ?]. split; [done|by eapply fw_ended]. Qed.

Lemma tolerated_forward bs bs' rs : forward bs bs' -> Forall (tolerated bs) rs -> Forall (tolerated bs') rs.
Proof.
  intros F Hf. eapply Forall_impl; [exact Hf|]. intros r Hr o Ho. destruct (Hr o Ho) as [Hn Hx].
  split; [pose proof (fw_len _ _ F); lia|]. intros j b' Hb Hp.
  destruct (fw_live _ _ F j b' Hb Hp) as [?|(b & Hb' & Hp')]; [left; lia|]. by eapply excused_forward, Hx.
Qed.

(** *** The invariant *)

(** The backfill whose window stays open keeps its recorded breach. *)
Lemma lookup_moved (bs : list brun) k b j r : <[k := b]> bs !! j = Some r -> (j = k /\ r = b) \/ (j <> k /\ bs !! j = Some r).
Proof.
  destruct (decide (j = k)) as [->|Hne]; [|rewrite list_lookup_insert_ne by done; auto].
  intros H. left. split; [done|]. apply list_lookup_insert_Some in H as [(_ & <- & _)|(Hne & _)]; done.
Qed.

(** A backfill that moves on outside the windows, the table unchanged. *)
Lemma move_inv m rows now bs rs c k b b' c' rows' :
  protocol_inv (mkSystem m rows now bs rs c) -> bs !! k = Some b ->
  (pc_rank (b_pc b) <= pc_rank (b_pc b'))%nat -> b_pc b' <> BWindow ->
  (rows' = [] -> (c' = Some k /\ b_pc b' = BDone) \/ (rows = [] /\ c' = c)) -> (c' = Some k /\ b_pc b' = BDone \/ c' = c) ->
  protocol_inv (mkSystem m rows' now (<[k := b']> bs) rs c').
Proof.
  intros [Hm Hb Hc Hh Hr Hw] Hk Hle Hnw Hrows Hc'. pose proof (forward_insert _ _ _ _ Hk Hle) as F. simpl in *.
  split; simpl; [done|..].
  - intros j r Hj Hp Hrow. destruct (Hrows Hrow) as [[-> _]|[-> ->]]; [done|].
    destruct (fw_live _ _ F j r Hj Hp) as [Hl|(r0 & Hr0 & Hp0)]; [|by apply (Hb j r0)].
    apply lookup_lt_Some in Hj. rewrite length_insert in Hj. lia.
  - intros i ->. destruct Hc' as [[[= ->] Hd]|E].
    + exists b'. by rewrite list_lookup_insert_eq by (by eapply lookup_lt_Some).
    + destruct (Hc i (eq_sym E)) as (r & Hi & Hd). by apply (fw_over _ _ F i r).
  - by eapply tolerated_forward.
  - intros j r x Hj Hp Hx. apply lookup_moved in Hj as [[-> ->]|[_ Hj]]; [done|].
    eapply allowed_forward; [exact F|]. by apply (Hr j r).
  - intros j r Hj Hp Hx. apply lookup_moved in Hj as [[-> ->]|[_ Hj]]; [done|]. by apply (Hw j r).
Qed.

(** The table is partitioned: every open window records who did it. *)
Lemma set_inv m rows now bs rs c x :
  protocol_inv (mkSystem m rows now bs rs c) ->
  (forall j b, bs !! j = Some b -> b_pc b = BWindow -> allowed bs j x) ->
  protocol_inv (mkSystem (setP m) rows now (breached x <$> bs) rs c).
Proof.
  intros [Hm Hb Hc Hh Hr Hw] Hx. pose proof (forward_breached x bs) as F. simpl in *.
  split; simpl; [by apply set_is|..].
  - intros j r Hj Hp. apply list_lookup_fmap_Some in Hj as (b & -> & Hj). rewrite breached_pc in Hp. by apply (Hb j b).
  - intros k Hk. destruct (Hc k Hk) as (b & Hb1 & Hp). by apply (fw_over _ _ F k b).
  - by eapply tolerated_forward.
  - intros j r y Hj Hp Hy. apply list_lookup_fmap_Some in Hj as (b & -> & Hj). rewrite breached_pc in Hp.
    unfold breached in Hy. rewrite Hp in Hy. injection Hy as <-. eapply allowed_forward; [exact F|]. by apply (Hx j b).
  - intros j r Hj Hp Hy. apply list_lookup_fmap_Some in Hj as (b & -> & Hj). rewrite breached_pc in Hp.
    unfold breached in Hy. by rewrite Hp in Hy.
Qed.

Lemma start_inv m rows now bs rs c t kept :
  protocol_inv (mkSystem m rows now bs rs c) ->
  protocol_inv (mkSystem m (t :: kept) now (bs ++ [mkRun BPaused None]) rs None).
Proof.
  intros [Hm Hb Hc Hh Hr Hw]. pose proof (forward_start bs (mkRun BPaused None)) as F. simpl in *. split; simpl; try done.
  - by eapply tolerated_forward.
  - intros j r x Hj Hp Hx. apply lookup_app_Some in Hj as [Hj|[_ Hj]].
    + eapply allowed_forward; [exact F|]. by apply (Hr j r).
    + apply list_lookup_singleton_Some in Hj as [_ <-]. done.
  - intros j r Hj Hp Hx. apply lookup_app_Some in Hj as [Hj|[_ Hj]]; [by apply (Hw j r)|].
    apply list_lookup_singleton_Some in Hj as [_ <-]. done.
Qed.

Lemma reset_inv m rows now bs rs c k br :
  protocol_inv (mkSystem m rows now bs rs c) -> bs !! k = Some (mkRun BPaused br) ->
  protocol_inv (mkSystem (resetP m) rows now (<[k := mkRun BWindow None]> bs) rs c).
Proof.
  intros [Hm Hb Hc Hh Hr Hw] Hk. simpl in *.
  pose proof (forward_insert _ _ _ (mkRun BWindow None) Hk ltac:(simpl; lia)) as F. destruct (reset_is _ Hm). split; simpl; [done|..].
  - intros j r Hj Hp Hrow. destruct (fw_live _ _ F j r Hj Hp) as [Hl|(r0 & Hr0 & Hp0)]; [|by apply (Hb j r0)].
    apply lookup_lt_Some in Hj. rewrite length_insert in Hj. lia.
  - intros i Hi. destruct (Hc i Hi) as (r & Hr1 & Hd). by apply (fw_over _ _ F i r).
  - by eapply tolerated_forward.
  - intros j r x Hj Hp Hx. apply lookup_moved in Hj as [[-> ->]|[_ Hj]]; [done|].
    eapply allowed_forward; [exact F|]. by apply (Hr j r).
  - done.
Qed.

Lemma bstep_inv st st' : protocol_inv st -> bstep st st' -> protocol_inv st'.
Proof.
  intros I Hs. destruct Hs as [t kept m rows now bs rs c Ht Hk|k br m rows now bs rs c Hk|k br m rows now bs rs c Hk
    |k t kept br m rows now bs rs c Hk Ht Hs|k br m rows now bs rs c Hk|k br m rows now bs rs c Hk
    |k kept br m rows now bs rs c Hk Hs|k pc br m rows now bs rs c Hk].
  - by eapply start_inv.
  - by eapply reset_inv.
  - eapply move_inv; eauto; simpl; lia.
  - destruct I as [Hm Hb Hc Hh Hr Hw]. by split.
  - eapply set_inv; [eapply (move_inv _ rows _ _ _ c); eauto; simpl; lia|].
    intros j b Hj Hp. apply lookup_moved in Hj as [[-> ->]|[Hne Hj]]; [done|]. split; [done|].
    exists (mkRun BRestored br). rewrite list_lookup_insert_eq by (by eapply lookup_lt_Some). auto.
  - eapply move_inv; eauto; simpl; lia.
  - eapply move_inv; eauto; simpl; first [lia | (intros ->; auto) | (destruct kept; auto)].
  - eapply move_inv; eauto; simpl; try done; destruct pc; simpl; lia.
Qed.

(** A check that passes is excused by every running backfill. *)
Lemma passes_excused m rows now bs rs c (err : bool) :
  protocol_inv (mkSystem m rows now bs rs c) ->
  let o := mkObs (length bs) now (if err then None else Some rows) c in
  tolerated bs (if passes o then RChecked o else RIdle).
Proof.
  intros [_ Hb Hc _ _ _] o o'. simpl in *. destruct (passes o) eqn:Hpass; [|done]. intros [= <-]. split; [done|].
  intros j b Hj Hp. subst o. destruct err; [by right; left|]. destruct rows as [|t rows].
  - right; right; right. destruct (Hb j b Hj Hp eq_refl) as [k ->]. exists k. destruct (Hc k eq_refl) as (r & Hr & Hd).
    split_and!; try done; [intros ->; congruence|]. exists r. auto.
  - right; right; left. exists t, rows. split; [done|]. apply Forall_forall. intros u Hu.
    unfold passes, pauseFresh in Hpass. simpl o_rows in Hpass. apply negb_true_iff in Hpass. simpl o_time in *.
    assert ((now - u <? backfillPauseStaleness) = false) as Hf; [|bool_to_prop; simpl in *; lia].
    apply not_true_is_false. intros Ht. apply not_true_iff_false in Hpass. apply Hpass, existsb_exists.
    exists u. split; [by apply list_elem_of_In|done].
Qed.

(** A pod that moves on with what it already held, or with nothing. *)
Lemma pod_inv m rows now bs rs c i r :
  protocol_inv (mkSystem m rows now bs rs c) -> tolerated bs r -> protocol_inv (mkSystem m rows now bs (<[i := r]> rs) c).
Proof. intros [Hm Hb Hc Hh Hr Hw] Ht. split; try done. by apply Forall_insert. Qed.

Lemma rstep_inv i st st' : protocol_inv st -> rstep i st st' -> protocol_inv st'.
Proof.
  intros I Hs.
  assert (forall r, y_r st !! i = Some r -> tolerated (y_runs st) r) as Hi.
  { intros r Hr. pose proof (inv_held _ I) as Hh. rewrite Forall_forall in Hh. by eapply Hh, list_elem_of_lookup_2. }
  destruct Hs as [err m rows now bs rs c o Hr|err o m rows now bs rs c Hr|err o p m rows now bs rs c Hr|o s m rows now bs rs c Hr
    |o s m rows now bs rs c Hr|o s m rows now bs rs c Hr|ok s m rows now bs rs c Hr]; simpl in *; specialize (Hi _ Hr).
  - apply pod_inv; [done|]. by eapply passes_excused.
  - apply pod_inv; [done|]. intros o' [= <-]. by apply Hi.
  - apply pod_inv; [done|]. intros o' [= <-]. by apply Hi.
  - by apply pod_inv.
  - apply (pod_inv _ _ _ _ rs); [|by intros o' Ho'].
    apply set_inv; [done|]. intros j b Hj Hp. simpl. eapply Hi; [done|exact Hj|congruence].
  - by apply pod_inv.
  - apply (pod_inv _ _ _ _ rs); [|by intros o' Ho']. destruct (ok && negb s); [|done].
    destruct I as [Hm Hb Hc Hh Hrr Hw]. simpl in *. destruct (sort_keeps _ Hm) as [? E]. split; simpl; try done.
    intros j b Hj Hp Hx. rewrite E. by apply (Hw j b).
Qed.

Lemma yreach_inv st : yreach st -> protocol_inv st.
Proof.
  induction 1 as [m rows now pods Hm|st st' _ IH Hs]; [by apply protocol_init|]. destruct Hs as [now' m rows now bs rs c _|st st' Hs|i st st' Hs].
  - destruct IH. by split.
  - by eapply bstep_inv.
  - by eapply rstep_inv.
Qed.

(** ** Properties *)

(** C19: The registration window is protected, but not from other backfills. In any
    interleaving of any number of backfills and pods, with failing statements and
    killed processes, while backfill [j] registers files into the table it stripped of
    its partitioning, the table is unpartitioned, or the partitioning was put back by
    another backfill that ended, or by a pod that looked for the heartbeat before
    backfill [j] wrote its first one, failed to read the pause table, saw only
    heartbeats older than backfillPauseStaleness, or saw none because another
    backfill, ending, had deleted backfill [j]'s. *)
Theorem window_protected st j b :
  yreach st -> y_runs st !! j = Some b -> b_pc b = BWindow ->
  isPartitioned (y_meta st) = Ok false \/ exists x, b_breach b = Some x /\ allowed (y_runs st) j x.
Proof.
  intros Hr Hj Hp. apply yreach_inv in Hr as [_ _ _ _ He Hw]. destruct (b_breach b) as [x|] eqn:E.
  - right. exists x. split; [done|]. by apply (He j b).
  - left. by apply (Hw j b).
Qed.

(** The first excuse of a pod is real. A pod that looked for a heartbeat just before
    the backfill wrote its first one partitions the table inside the registration
    window although the heartbeat is fresh: the check and the ALTER it guards are
    separate statements. *)
Theorem reassert_race m (now : Z) :
  has_table m -> exists st o,
    yreach st /\ y_runs st = [mkRun BWindow (Some (ByPod o))] /\ isPartitioned (y_meta st) = Ok true /\
    pauseFresh (y_now st) (y_pause st) = true /\ o_rows o = Some [] /\ o_time o = y_now st.
Proof.
  intros Hm. destruct (reset_is m Hm) as [Hmr Hr], (set_is (resetP m) Hmr) as [_ Hs].
  set (o := mkObs 0 now (Some []) None). set (s := match isSorted (resetP m) with Ok s => s | Err _ => false end).
  exists (mkSystem (setP (resetP m)) [now] now [mkRun BWindow (Some (ByPod o))] [RSort s] None), o.
  split; [|split_and!; try done; simpl; by rewrite Z.sub_diag].
  eapply y_next; [eapply y_next; [eapply y_next; [eapply y_next; [eapply y_next; [eapply y_next;
    [exact (y_init m [] now 1 Hm)|]|]|]|]|]|].
  - apply (y_reassert 0), (r_check 0 false). done.
  - apply y_backfill, (b_start now []); [lia|done].
  - apply y_backfill, (b_reset 0 None). done.
  - apply (y_reassert 0), (r_partitioned 0 false o). done.
  - simpl. rewrite Hr. apply (y_reassert 0), (r_sorted 0 false o false). done.
  - exact (y_reassert 0 _ _ (r_partition 0 o s (resetP m) [now] now [mkRun BWindow None] [RBothRead o false s] None eq_refl)).
Qed.

(** Nor is the other backfill's end an idle worry: with no pod at all, a second backfill
    that runs and ends inside the window of the first leaves it with a partitioned
    table and no heartbeat. *)
Theorem overlapping_backfill_breaks_window m (now : Z) :
  has_table m -> exists st,
    yreach st /\ y_runs st = [mkRun BWindow (Some (ByRun 1)); mkRun BDone None] /\ y_r st = [] /\
    isPartitioned (y_meta st) = Ok true /\ y_pause st = [].
Proof.
  intros Hm. destruct (reset_is m Hm) as [Hmr _], (reset_is (resetP m) Hmr) as [Hmr2 _], (set_is _ Hmr2) as [_ Hs].
  exists (mkSystem (setP (resetP (resetP m))) [] now [mkRun BWindow (Some (ByRun 1)); mkRun BDone None] [] (Some 1%nat)).
  split; [|done].
  eapply y_next; [eapply y_next; [eapply y_next; [eapply y_next; [eapply y_next; [eapply y_next;
    [exact (y_init m [] now 0 Hm)|]|]|]|]|]|]; apply y_backfill.
  - apply (b_start now []); [lia|done].
  - apply (b_reset 0 None). done.
  - apply (b_start now []); [lia|]. apply list_subseteq_nil.
  - apply (b_reset 1 None). done.
  - apply (b_restore 1 None). done.
  - apply (b_clear 1 [] None); [done|]. apply list_subseteq_nil.
Qed.
End Protocol.

(** ** A metadata store for the witnesses *)

(** A table's specs are closed by the next one; RESET opens one without columns. *)
Definition close_spec (id : Z) (p : partitionInfo) : partitionInfo :=
  if pi_table p =? id then mkPartition (pi_partition p) (pi_table p) (Some 0) else p.
Definition next_partition (m : metadata) : Z := 1 + foldr Z.max 0 (partition_column m).
Definition open_spec (withColumns : bool) (m : metadata) : metadata :=
  match tableID m RawTable with
  | Ok (Some id) =>
      mkMetadata (table_info m) ((close_spec id <$> partition_info m) ++ [mkPartition (next_partition m) id None])
        (partition_column m ++ (if withColumns then [next_partition m] else [])) (sort_info m)
  | _ => m
  end.
Definition open_sort (m : metadata) : metadata :=
  match tableID m RawTable with
  | Ok (Some id) => mkMetadata (table_info m) (partition_info m) (partition_column m) (mkSort id None :: sort_info m)
  | _ => m
  end.

Lemma filter_count {A} (f : A -> bool) l : (0 <? Zlen (List.filter f l)) = existsb f l.
Proof. induction l as [|x l IH]; simpl; [done|]. destruct (f x); [done|apply IH]. Qed.

#[export] Instance open_spec_laws : AlterLaws (open_spec true) (open_spec false) open_sort.
Proof.
  split; intros m (id & Hid); unfold open_spec, open_sort; rewrite Hid; (split; [by exists id|]).
  - unfold isPartitioned. change (tableID _ RawTable) with (tableID m RawTable). rewrite Hid. simpl. f_equal.
    rewrite filter_count. apply existsb_exists. exists (next_partition m, mkPartition (next_partition m) id None).
    split; [|by rewrite !Z.eqb_refl]. apply in_prod; apply in_or_app; right; by left.
  - unfold isPartitioned. change (tableID _ RawTable) with (tableID m RawTable). rewrite Hid. simpl. f_equal.
    rewrite filter_count. apply not_true_is_false. intros ((c & p) & Hin & Hp)%existsb_exists.
    rewrite app_nil_r in Hin. apply in_prod_iff in Hin as [Hc Hi]. simpl in *.
    apply in_app_or in Hi as [Hi|[<-|[]]].
    + apply list_elem_of_In, list_elem_of_fmap in Hi as (q & -> & _). unfold close_spec in Hp.
      destruct (pi_table q =? id) eqn:Eq; simpl in *; [by rewrite andb_false_r in Hp|]. rewrite Eq, andb_false_r in Hp. done.
    + simpl in Hp. rewrite !andb_true_iff in Hp. destruct Hp as [[Hp _] _]. bool_to_prop.
      apply list_elem_of_In, foldr_max_ge in Hc. unfold next_partition in Hp. lia.
  - unfold isPartitioned. by change (tableID _ RawTable) with (tableID m RawTable).
Defined.

Definition intact : metadata := open_sort (open_spec true (mkMetadata [(RawTable, 7)] [] [] [])).
Lemma intact_table : has_table intact.
Proof. by exists 7. Defined.

(** Two backfills in their windows, and the second one's end: no pod re-asserting. *)
Definition in_window : system :=
  mkSystem (open_spec false (open_spec false intact)) [5] 5 [mkRun BWindow None; mkRun BWindow None] [RIdle] None.
Definition broken_window : system :=
  mkSystem (open_spec true (y_meta in_window)) [5] 5 [mkRun BWindow (Some (ByRun 1)); mkRun BRestored None] [RIdle] None.
Lemma in_window_reached : yreach (open_spec true) (open_spec false) open_sort in_window.
Proof.
  eapply y_next; [eapply y_next; [eapply y_next; [eapply y_next; [exact (y_init _ _ _ intact [] 5 1 intact_table)|]|]|]|]; apply y_backfill.
  - apply (b_start _ _ 5 []); [lia|done].
  - apply (b_start _ _ 5 []); [lia|apply list_subseteq_nil].
  - apply (b_reset _ _ 0 None). done.
  - apply (b_reset _ _ 1 None). done.
Defined.
Lemma broken_window_reached : yreach (open_spec true) (open_spec false) open_sort broken_window.
Proof. eapply y_next; [exact in_window_reached|]. apply y_backfill, (b_restore _ _ 1 None). done. Defined.

Lemma window_protected_witness :
  isPartitioned (y_meta in_window) = Ok false /\
  isPartitioned (y_meta broken_window) = Ok true /\ allowed (y_runs broken_window) 0 (ByRun 1).
Proof.
  split; [|split; [vm_compute; reflexivity|]].
  - destruct (@window_protected (open_spec true) (open_spec false) open_sort _ in_window 0 _ in_window_reached eq_refl eq_refl)
      as [Hw|(o & Ho & _)]; [exact Hw|discriminate Ho].
  - destruct (@window_protected (open_spec true) (open_spec false) open_sort _ broken_window 0 _ broken_window_reached eq_refl eq_refl)
      as [Hw|(x & Hx & Ha)]; [vm_compute in Hw; discriminate Hw|]. injection Hx as <-. exact Ha.
Defined.

Lemma reassert_race_witness :
  exists st o, yreach (open_spec true) (open_spec false) open_sort st /\ y_runs st = [mkRun BWindow (Some (ByPod o))] /\
    isPartitioned (y_meta st) = Ok true /\ pauseFresh (y_now st) (y_pause st) = true.
Proof.
  destruct (@reassert_race (open_spec true) (open_spec false) open_sort _ intact 5 intact_table)
    as (st & o & H1 & H2 & H3 & H4 & _). by exists st, o.
Defined.

(** A session on the metadata, for the repair: statements are the layout's or do
    nothing. *)
Definition metaSession : LakeSession := {|
  ldb := metadata;
  l_mkdir d _ := (d, None); l_open d := (d, None); l_close d := d;
  l_Exec d q := (if q =?s layoutPartitioned then
                   match tableID d RawTable with Ok (Some _) => (open_spec true d, None) | _ => (d, Some (ENew "no table")) end
                 else if q =?s layoutSorted then
                   match tableID d RawTable with Ok (Some _) => (open_sort d, None) | _ => (d, Some (ENew "no table")) end
                 else (d, None));
  l_encrypted _ := Ok None; l_table_count _ := Ok 1; l_pause_fresh _ _ := Ok false;
  l_partitioned := isPartitioned; l_sorted := isSorted; l_Wait d _ := (d, None)
|}.

#[export] Instance metaSession_layout : LayoutCatalog metaSession.
Proof.
  refine {| meta := fun d : @ldb metaSession => (d : metadata) |}; [done|done|..].
  - intros d d'. cbv beta iota delta [l_Exec metaSession]. rewrite String.eqb_refl. destruct (tableID d RawTable) as [[id|]|e] eqn:Hid; try done.
    intros [= <-]. split; [by apply (set_is (setP := open_spec true)); exists id|]. unfold open_spec. rewrite Hid. done.
  - intros d d'. cbv beta iota delta [l_Exec metaSession].
    replace (layoutSorted =?s layoutPartitioned) with false by (vm_compute; reflexivity). rewrite String.eqb_refl.
    destruct (tableID d RawTable) as [[id|]|e] eqn:Hid; try done. intros [= <-]. unfold open_sort. rewrite Hid.
    split; [|done]. unfold isSorted. change (tableID _ RawTable) with (tableID d RawTable). rewrite Hid. simpl.
    by rewrite Z.eqb_refl.
  - by intros d d' e [= <- _].
Defined.

(** After a crash inside the window: reset and unsorted, both are put back. *)
Definition crashed : @ldb metaSession := open_spec false (mkMetadata [(RawTable, 7)] [] [] []).
Lemma reassertLayout_repairs_witness :
  isPartitioned crashed = Ok false /\ isSorted crashed = Ok false /\
  isPartitioned (@reassertLayout metaSession crashed).1 = Ok true /\
  isSorted (@reassertLayout metaSession crashed).1 = Ok true.
Proof.
  split; [reflexivity|]. split; [reflexivity|].
  destruct (@reassertLayout_repairs metaSession metaSession_layout crashed (@reassertLayout metaSession crashed).1)
    as [[H1 _]|(H1 & H2 & _)]; [vm_compute; reflexivity|vm_compute in H1; discriminate H1|]. by split.
Defined.
