(* ===== verification/Startup.v ===== *)
(** * Starting the parts a node is made of

    internal/natsembed (the embedded broker), internal/lake/extensions.go (the
    extensions of the image), internal/convert/modules.go (the conversion modules),
    newAttestationAuth of internal/server/middleware.go and attest.NewVerifier. The
    libraries they start are parameters. *)

From S2P Require Import Prelude GoStd Url CloudEvent Convert Server LakeWriter LakeSQL.

(** ** The embedded broker *)

Record EmbedConfig := mkEmbed { ec_StoreDir : string; ec_Port : Z; ec_StartTimeout : Z; ec_MaxStore : Z }.

(** The fields of natsserver.Options that are set. *)
Record serverOptions := mkServerOptions {
  so_JetStream : bool; so_StoreDir : string; so_Port : Z; so_NoSigs : bool; so_JetStreamMaxStore : Z; so_DontListen : bool
}.

(** nats-server and the in-process connection of nats.go. [Start] is the effect of the
    goroutine that runs the server. *)
Class NatsServer := {
  nworld : Type; nserver : Type; nconn : Type;
  NewServer : nworld -> serverOptions -> nworld * result nserver;
  Start : nworld -> nserver -> nworld;
  ReadyForConnections : nworld -> nserver -> Z -> nworld * bool;
  Shutdown : nworld -> nserver -> nworld;
  WaitForShutdown : nworld -> nserver -> nworld;
  ConnectInProcess : nworld -> nserver -> nworld * result nconn
}.

Definition embedTimeout (cfg : EmbedConfig) : Z := or_default (ec_StartTimeout cfg) (10 * Second).

Definition embedOptions (cfg : EmbedConfig) : serverOptions :=
  mkServerOptions true (ec_StoreDir cfg) (ec_Port cfg) true
    (if 0 <? ec_MaxStore cfg then ec_MaxStore cfg else 0) (ec_Port cfg <=? 0).

Section Embed.
Context `{NatsServer}.


Definition embedRun (w : nworld) (cfg : EmbedConfig) : nworld * result nserver :=
  if ec_StoreDir cfg =?s "" then (w, Err (ENew "natsembed: StoreDir is required"))
  else
    match NewServer w (embedOptions cfg) with
    | (w1, Err e) => (w1, Err (EWrap "creating embedded nats server: " e ""))
    | (w1, Ok srv) =>
        match ReadyForConnections (Start w1 srv) srv (embedTimeout cfg) with
        | (w2, true) => (w2, Ok srv)
        | (w2, false) =>
            (WaitForShutdown (Shutdown w2 srv) srv,
             Err (ENew ("embedded nats server not ready after " +:+ DurationString (embedTimeout cfg))))
        end
    end.

Definition embedConnect (w : nworld) (srv : nserver) : nworld * result nconn :=
  match ConnectInProcess w srv with
  | (w', Err e) => (w', Err (EWrap "connecting to embedded nats server: " e ""))
  | (w', Ok conn) => (w', Ok conn)
  end.
End Embed.

(** What nats-server promises: a server that starts holds the lock of its store
    directory until it has shut down, and listens on its port unless DontListen is set. *)
Class NatsServerLaws (N : NatsServer) := {
  locks : nworld -> gset string;
  listens : nworld -> gset Z;
  options_of : nserver -> serverOptions;
  new_options w w' o srv : NewServer w o = (w', Ok srv) -> options_of srv = o;
  new_keeps w w' o r : NewServer w o = (w', r) -> locks w' = locks w /\ listens w' = listens w;
  start_locks w srv : locks (Start w srv) = {[so_StoreDir (options_of srv)]} ∪ locks w;
  start_listens w srv : listens (Start w srv) =
    if so_DontListen (options_of srv) then listens w else {[so_Port (options_of srv)]} ∪ listens w;
  ready_keeps w w' srv t b : ReadyForConnections w srv t = (w', b) -> locks w' = locks w /\ listens w' = listens w;
  shutdown_releases w srv :
    locks (WaitForShutdown (Shutdown w srv) srv) = locks w ∖ {[so_StoreDir (options_of srv)]} /\
    listens (WaitForShutdown (Shutdown w srv) srv) = listens w ∖ {[so_Port (options_of srv)]}
}.

(** ** DuckDB extensions *)

Section Extensions.
Context `{LakeSession}.

Definition extensionSQL (dir : string) : list string :=
  ["SET extension_directory = " +:+ sqlString dir; "INSTALL ducklake"; "INSTALL postgres"; "INSTALL httpfs"].

Definition InstallExtensions (d : ldb) (dir : string) : ldb * option error :=
  match l_open d with
  | (d1, Some e) => (d1, Some (EWrap "opening duckdb: " e ""))
  | (d1, None) =>
      let '(d2, err) := execAll (fun q e => EWrap (q +:+ ": ") e "") d1 (extensionSQL dir) in
      (l_close d2, err)
  end.
End Extensions.

(** ** Conversion modules *)

Record ConvertConfig := mkConvertConfig {
  cc_ChainID : Z; cc_Vehicle : string; cc_Aftermarket : string; cc_Synthetic : string
}.

(** The modules of model-garage, with their fields. *)
Record chainModule := mkChainModule { AftermarketContractAddr : string; VehicleContractAddr : string; ModuleChainID : Z }.
Inductive cloudEventModule := AutoPi (m : chainModule) | Ruptela (m : chainModule) | HashDog (m : chainModule) | OtherModule.

(** modules.AutoPiSource.String() and the others. *)
Class ModuleSources := { AutoPiSource : string; RuptelaSource : string; KaufmannSource : string; HashDogSource : string }.

Abbreviation registry := (gmap string cloudEventModule).

Definition RegisterModules `{ModuleSources} (cfg : ConvertConfig) (CloudEventRegistry : registry) : registry :=
  let aftermarket := mkChainModule (cc_Aftermarket cfg) (cc_Vehicle cfg) (cc_ChainID cfg) in
  let synthetic := mkChainModule (cc_Synthetic cfg) (cc_Vehicle cfg) (cc_ChainID cfg) in
  let r := <[AutoPiSource := AutoPi aftermarket]> CloudEventRegistry in
  let r := <[RuptelaSource := Ruptela aftermarket]> r in
  let r := <[KaufmannSource := Ruptela synthetic]> r in
  <[HashDogSource := HashDog aftermarket]> r.

(** NewConverter: the registry it leaves, and the empty warning map. *)
Definition NewConverter `{ModuleSources} (cfg : ConvertConfig) (CloudEventRegistry : registry) : registry * gmap string Z :=
  (RegisterModules cfg CloudEventRegistry, ∅).

(** ** Authentication *)

Section Auth.
Context `{EthLib} `{url.UrlHosts}.
(** keyfunc.NewDefault, and ParseWithClaims of the jwt parser
    made of an issuer, the valid methods and the key set. *)
Variable keyset : Type.
Variables (NewDefault : list string -> result keyset)
  (JwtParse : string -> list string -> keyset -> string -> result string).

Definition newAttestationAuth (issuer jwksURL : string) : result (httpRequest -> result string) :=
  issuerURL ← wrap_err (fun e => EWrap "failed to parse issuer URL: " e "") (url.ParseURL issuer);
  jwks ← wrap_err (fun e => EWrap "failed to create a keyfunc.Keyfunc from the server's URL: " e "") (NewDefault [jwksURL]);
  Ok (attestationAuth (JwtParse (url.String_ issuerURL) ["RS256"] jwks)).
End Auth.

(** attest.NewVerifier: a verifier is its backend. *)
Definition NewVerifier {backend : Type} (Dial : string -> result backend) (rpcURL : string) : result backend :=
  wrap_err (fun e => EWrap ("failed to connect to rpc url " +:+ rpcURL +:+ ": ") e "") (Dial rpcURL).

(** ** Lemmas and properties *)

Section EmbedProperties.
Context `{N : NatsServer} `{L : !NatsServerLaws N}.

(** The embedded broker is contained. Without a positive port a node opens no network
    listener, whatever happens; a server that runs has JetStream on its store
    directory and leaves signals to the node; and a start that fails, before or
    after the server came up, holds no lock on the store directory, so that it can
    be retried. *)
Theorem embedRun_contained w cfg w' r :
  ec_StoreDir cfg ∉ locks w -> embedRun w cfg = (w', r) ->
  (ec_Port cfg <= 0 -> ec_Port cfg ∉ listens w -> listens w' = listens w) /\
  match r with
  | Ok srv => so_JetStream (options_of srv) = true /\ so_NoSigs (options_of srv) = true /\
              so_StoreDir (options_of srv) = ec_StoreDir cfg /\ locks w' = {[ec_StoreDir cfg]} ∪ locks w
  | Err _ => locks w' = locks w
  end.
Proof.
  intros Hd. unfold embedRun. destruct (ec_StoreDir cfg =?s ""); [by intros [= <- <-]|].
  destruct (NewServer w _) as [w1 [srv|e]] eqn:En; pose proof (new_keeps _ _ _ _ En) as [Hk1 Hl1]; [|by intros [= <- <-]].
  apply new_options in En. destruct (ReadyForConnections _ srv _) as [w2 b] eqn:Er.
  apply ready_keeps in Er as [Hk2 Hl2]. rewrite start_locks, En in Hk2. rewrite start_listens, En in Hl2. simpl in *.
  assert (ec_Port cfg <= 0 -> listens w2 = listens w) as Hlw.
  { intros Hp. rewrite Hl2, <- Hl1. by replace (ec_Port cfg <=? 0) with true by (symmetry; by apply Z.leb_le). }
  destruct b; intros [= <- <-].
  - split; [by intros; apply Hlw|]. rewrite En. simpl. by rewrite Hk2, Hk1.
  - destruct (shutdown_releases w2 srv) as [Hs1 Hs2]. rewrite Hs1, Hs2, En, Hk2, Hk1. simpl.
    split; [|set_solver -Hlw]. intros Hp Hn. rewrite (Hlw Hp). set_solver -Hlw.
Qed.
End EmbedProperties.

(** Each source is converted by its module, on the chain and contracts of the
    configuration; the synthetic contract stands for the aftermarket one with
    Kaufmann's; other sources keep what they had. *)
Theorem RegisterModules_dispatch `{ModuleSources} cfg r source :
  NoDup [AutoPiSource; RuptelaSource; KaufmannSource; HashDogSource] ->
  RegisterModules cfg r !! source =
    (if decide (source = AutoPiSource) then Some (AutoPi (mkChainModule (cc_Aftermarket cfg) (cc_Vehicle cfg) (cc_ChainID cfg)))
     else if decide (source = RuptelaSource) then Some (Ruptela (mkChainModule (cc_Aftermarket cfg) (cc_Vehicle cfg) (cc_ChainID cfg)))
     else if decide (source = KaufmannSource) then Some (Ruptela (mkChainModule (cc_Synthetic cfg) (cc_Vehicle cfg) (cc_ChainID cfg)))
     else if decide (source = HashDogSource) then Some (HashDog (mkChainModule (cc_Aftermarket cfg) (cc_Vehicle cfg) (cc_ChainID cfg)))
     else r !! source).
Proof.
  rewrite !NoDup_cons, !not_elem_of_cons. intros ((H1 & H2 & H3 & _) & (H4 & H5 & _) & (H6 & _) & _).
  unfold RegisterModules. repeat case_decide; subst;
    repeat (rewrite lookup_insert_eq || (rewrite lookup_insert_ne by congruence)); done.
Qed.

(** Statements run until one fails, and the error is about that one. *)
Lemma execAll_first_failure `{LakeSession} wrap qs da db r :
  execAll wrap da qs = (db, r) ->
  match r with
  | None => execAll (fun _ e => e) da qs = (db, None)
  | Some x => exists ok q rest dq e, qs = ok ++ q :: rest /\ execAll (fun _ e => e) da ok = (dq, None) /\
                l_Exec dq q = (db, Some e) /\ x = wrap q e
  end.
Proof.
  revert da. induction qs as [|q qs IH]; intros da; simpl; [by intros [= <- <-]|].
  destruct (l_Exec da q) as [dq [e|]] eqn:Eq.
  - intros [= <- <-]. by exists [], q, qs, da, e.
  - intros Hr. specialize (IH _ Hr). destruct r as [x|]; [|done].
    destruct IH as (ok & q' & rest & dq' & e' & -> & Hok & He & ->).
    exists (q :: ok), q', rest, dq', e'. simpl. by rewrite Eq.
Qed.

(** Installing stops at the first statement that fails, which the error names; the
    database is closed either way. *)
Theorem InstallExtensions_stops `{LakeSession} d dir d' err :
  InstallExtensions d dir = (d', err) ->
  match err with
  | None => exists d1 d2, l_open d = (d1, None) /\ execAll (fun _ e => e) d1 (extensionSQL dir) = (d2, None) /\ d' = l_close d2
  | Some _ => (exists e, l_open d = (d', Some e)) \/
              exists d1 ok q rest dq d2 e, l_open d = (d1, None) /\ extensionSQL dir = ok ++ q :: rest /\
                execAll (fun _ e => e) d1 ok = (dq, None) /\ l_Exec dq q = (d2, Some e) /\
                err = Some (EWrap (q +:+ ": ") e "") /\ d' = l_close d2
  end.
Proof.
  unfold InstallExtensions. destruct (l_open d) as [d1 [e|]] eqn:Eo; [intros [= <- <-]; left; by exists e|].
  destruct (execAll _ d1 _) as [d2 r] eqn:Ee. pose proof (execAll_first_failure _ _ _ _ _ Ee) as Hx. intros [= <- <-].
  destruct r as [x|]; [right|by exists d1, d2]. destruct Hx as (ok & q & rest & dq & e' & Hq & Hok & He & ->).
  by exists d1, ok, q, rest, dq, d2, e'.
Qed.

(** C36: Only tokens of the configured issuer are accepted. For an issuer of the usual shape
    (a lower-case scheme, a plain host with an optional port, a valid path) the parser is
    built for exactly the configured text, RS256 and the key set, and a request passes
    only with a bearer token that this parser accepts and whose address is not zero. *)
Theorem attestation_issuer_checked `{EthLib} `{url.UrlHosts} keyset NewDefault JwtParse sch name port path jwksURL auth :
  plainScheme sch -> plainHost name port -> plainPath path ->
  newAttestationAuth keyset NewDefault JwtParse (plainURL name port sch path) jwksURL = Ok auth ->
  exists jwks, NewDefault [jwksURL] = Ok jwks /\
    forall r source, auth r = Ok source ->
      exists token address, CutPrefix (hr_authorization r) "Bearer " = Some token /\
        JwtParse (plainURL name port sch path) ["RS256"] jwks (TrimSpace token) = Ok address /\
        address <> noAddress /\ source = AddressHex address.
Proof.
  intros Hs Hp Hpath. unfold newAttestationAuth. destruct (String_Parse_plain name port Hp sch path Hs Hpath) as (u & -> & Hu).
  cbn. destruct (NewDefault [jwksURL]) as [jwks|e]; cbn; [|done]. intros [= <-]. exists jwks. split; [done|].
  intros r source. unfold attestationAuth. rewrite Hu. destruct (CutPrefix _ _) as [token|]; [|done].
  destruct (JwtParse _ _ _ _) as [address|e] eqn:Ej; cbn; [|done]. destruct (String.eqb_spec address noAddress) as [|Hne]; cbn; [done|].
  intros [= <-]. by exists token, address.
Qed.

(** ** A server that does not come up, for the witness *)

Definition stuckServer : NatsServer := {|
  nworld := gset string * gset Z; nserver := serverOptions; nconn := unit;
  NewServer w o := (w, Ok o);
  Start w s := ({[so_StoreDir s]} ∪ w.1, if so_DontListen s then w.2 else {[so_Port s]} ∪ w.2);
  ReadyForConnections w s t := (w, false);
  Shutdown w s := w;
  WaitForShutdown w s := (w.1 ∖ {[so_StoreDir s]}, w.2 ∖ {[so_Port s]});
  ConnectInProcess w s := (w, Ok tt)
|}.

#[export] Instance stuckServer_laws : NatsServerLaws stuckServer.
Proof.
  refine {| locks := fun w : @nworld stuckServer => w.1; listens := fun w : @nworld stuckServer => w.2;
            options_of := fun s : @nserver stuckServer => s |}; try done.
  - by intros w w' o srv [= _ <-].
  - by intros w w' o r [= <- _].
  - by intros w w' srv t b [= <- _].
Defined.

Definition nodeBroker : EmbedConfig := mkEmbed "/data/nats" 0 0 0.
Lemma embedRun_contained_witness :
  is_ok (@embedRun stuckServer (∅, ∅) nodeBroker).2 = false /\
  listens (@embedRun stuckServer (∅, ∅) nodeBroker).1 = ∅ /\
  locks (@embedRun stuckServer (∅, ∅) nodeBroker).1 = ∅.
Proof.
  split; [reflexivity|].
  destruct (@embedRun_contained stuckServer stuckServer_laws (∅, ∅) nodeBroker
    (@embedRun stuckServer (∅, ∅) nodeBroker).1 (@embedRun stuckServer (∅, ∅) nodeBroker).2)
    as [Hl Hk]; [set_solver|apply surjective_pairing|]. split; [by apply Hl; [|set_solver]|exact Hk].
Defined.

(** One issuer, one key set that knows one token. *)
Definition oneToken (issuer : string) (methods : list string) (keys : unit) (token : string) : result string :=
  if (issuer =?s "https://auth.dimo.zone") && (token =?s "t1") then Ok "0xaa" else Err (ENew "token is unverifiable").
Definition bearerRequest : httpRequest := mkHttp "POST" "10.0.0.1" None "Bearer t1" ("", None) None.
Lemma attestation_issuer_checked_witness :
  exists address, oneToken "https://auth.dimo.zone" ["RS256"] tt "t1" = Ok address /\ address <> @noAddress sample_eth.
Proof.
  destruct (@attestation_issuer_checked sample_eth plainHosts unit (fun _ => Ok tt) oneToken "https" "auth.dimo.zone" None "" "https://auth.dimo.zone/keys"
    (@attestationAuth sample_eth (oneToken "https://auth.dimo.zone" ["RS256"] tt))) as ([] & _ & Hc);
    [by split|by repeat split|split; [by left|done]|vm_compute; reflexivity|].
  destruct (Hc bearerRequest "0xaa") as (token & address & Ht & Hj & Hne & _); [vm_compute; reflexivity|].
  exists address. injection Ht as <-. split; [exact Hj|exact Hne].
Defined.
