(* ===== verification/Backfill.v ===== *)
(** * Package lake, backfill: registering existing Parquet files

    internal/lake/backfill.go and the pause heartbeat of internal/lake/lake.go.
    The catalog is a parameter ([BackfillDB]): the statements run on the pinned
    connection are the text the code builds (quoting included, LakeSQL), the pause
    table is written through transactions of the pool. [BackfillLaws] is what
    DuckLake promises: one snapshot per committed transaction, holding the files its
    statements registered. Logging is left out. *)

From S2P Require Import Prelude GoStd LakeWriter LakeSQL.

Definition backfillBatch : nat := Z.to_nat 1000.
Definition backfillFilesPerSnapshot : nat := Z.to_nat 2000.

Record BackfillResult := mkBackfillResult { Registered : Z; Skipped : Z }.

(** The calls of a backfill. [b_query] is the listing of ducklake_list_files: the
    rows as they scan, and rows.Err() at the end. [b_exec] runs on the pinned
    connection, under the context (true) or without cancellation (false);
    [b_pool] and the [b_tx] operations run on the pool. *)
Class BackfillDB := {
  bdb : Type;
  b_query : bdb -> string -> result (list (result string) * option error);
  b_conn : bdb -> bdb * option error;
  b_close : bdb -> bdb;
  b_exec : bdb -> bool -> string -> bdb * option error;
  b_pool : bdb -> bool -> string -> bdb * option error;
  b_begin : bdb -> bdb * option error;
  b_txExec : bdb -> string -> bdb * option error;
  b_txCommit : bdb -> bdb * option error;
  b_txRollback : bdb -> bdb
}.

(** groupParquetByPrefix. *)
Definition prefixOf (f : string) : string := upto_last f (chr "/").
Fixpoint groupLoop (files : list string) (groups : gmap string (list string)) (order : list string)
    : gmap string (list string) * list string :=
  match files with
  | [] => (groups, order)
  | f :: files' =>
      if negb (HasSuffix f ".parquet") then groupLoop files' groups order
      else
        let prefix := prefixOf f in
        let order := match groups !! prefix with Some _ => order | None => order ++ [prefix] end in
        groupLoop files' (<[prefix := default [] (groups !! prefix) ++ [f]]> groups) order
  end.
Definition groupParquetByPrefix (files : list string) : gmap string (list string) * list string :=
  groupLoop files ∅ [].

(** files[i:end] for i = 0, n, 2n, ...; a batch takes at least one file, so the
    length is enough fuel. *)
Fixpoint chunks (fuel n : nat) (files : list string) : list (list string) :=
  match fuel, files with
  | S fuel', _ :: _ => take n files :: chunks fuel' n (drop n files)
  | _, _ => []
  end.
Definition batches (n : nat) (files : list string) : list (list string) := chunks (length files) n files.

Definition addDataFilesListSQL (files : list string) : string :=
  "CALL ducklake_add_data_files('lake', " +:+ sqlString RawTable +:+ ", [" +:+
  Join (sqlString <$> files) ", " +:+ "], allow_missing => true)".
(** The statements with a fixed text. *)
Definition listFilesSQL : string := "SELECT data_file FROM ducklake_list_files('lake', " +:+ sqlString RawTable +:+ ")".
Definition resetPartitioned : string := "ALTER TABLE lake.raw_events RESET PARTITIONED BY".
Definition deletePause : string := "DELETE FROM meta.lake_backfill_pause".
Definition insertPause : string := "INSERT INTO meta.lake_backfill_pause (updated_at) VALUES (now())".
Definition addDataFileSQL (f : string) : string :=
  "CALL ducklake_add_data_files('lake', " +:+ sqlString RawTable +:+ ", " +:+ sqlString f +:+
  ", allow_missing => true)".

Section Backfill.
Context `{BackfillDB}.

(** heartbeatBackfillPause and clearBackfillPause; [c] is false under
    context.WithoutCancel. The deferred Rollback after a Commit is a no-op of
    database/sql, so it is run only on the other exits. *)
Definition heartbeatBackfillPause (d : bdb) : bdb * option error :=
  match b_pool d true createPauseTable with
  | (d1, Some e) => (d1, Some e)
  | (d1, None) =>
      match b_begin d1 with
      | (d2, Some e) => (d2, Some e)
      | (d2, None) =>
          match b_txExec d2 deletePause with
          | (d3, Some e) => (b_txRollback d3, Some e)
          | (d3, None) =>
              match b_txExec d3 insertPause with
              | (d4, Some e) => (b_txRollback d4, Some e)
              | (d4, None) => b_txCommit d4
              end
          end
      end
  end.
Definition clearBackfillPause (d : bdb) (c : bool) : bdb * option error :=
  match b_pool d c createPauseTable with
  | (d1, Some e) => (d1, Some e)
  | (d1, None) => b_pool d1 c deletePause
  end.

(** registeredFiles. *)
Fixpoint scanRows (rows : list (result string)) (out : gset string) : result (gset string) :=
  match rows with
  | [] => Ok out
  | Err e :: _ => Err e
  | Ok path :: rows' => scanRows rows' ({[path]} ∪ out)
  end.
Definition registeredFiles (d : bdb) : result (gset string) :=
  match b_query d listFilesSQL with
  | Err e => Err (EWrap "lake backfill: listing registered files: " e "")
  | Ok (rows, rowsErr) =>
      match scanRows rows ∅ with
      | Err e => Err e
      | Ok out => match rowsErr with Some e => Err e | None => Ok out end
      end
  end.

(** A failed registration rolls back; the error carries the rollback's. *)
Definition rollbackWith (d : bdb) (text : string) (err : error) : bdb * error :=
  match b_exec d false "ROLLBACK" with
  | (d', Some rbErr) => (d', EWrap2 text err " (rollback also failed: " rbErr ")")
  | (d', None) => (d', EWrap text err "")
  end.

(** The statements of one batch: one CALL over the list (registerListed), or one
    CALL per file (registerFiles). *)
Definition addListed (d : bdb) (batch : list string) : bdb * option (string * error) :=
  match b_exec d true (addDataFilesListSQL batch) with
  | (d', Some e) => (d', Some ("registering batch of " +:+ fmt_d (Zlen batch) +:+ " files: ", e))
  | (d', None) => (d', None)
  end.
Fixpoint addEach (d : bdb) (batch : list string) : bdb * option (string * error) :=
  match batch with
  | [] => (d, None)
  | f :: batch' =>
      match b_exec d true (addDataFileSQL f) with
      | (d', Some e) => (d', Some ("registering " +:+ f +:+ ": ", e))
      | (d', None) => addEach d' batch'
      end
  end.

(** The loop registerListed and registerFiles share. *)
Fixpoint registerBatches (add : bdb -> list string -> bdb * option (string * error)) (d : bdb)
    (bs : list (list string)) (registered : Z) : bdb * Z * option error :=
  match bs with
  | [] => (d, registered, None)
  | batch :: bs' =>
      let '(d0, _) := heartbeatBackfillPause d in
      match b_exec d0 true "BEGIN" with
      | (d1, Some e) => (d1, registered, Some (EWrap "lake backfill begin: " e ""))
      | (d1, None) =>
          match add d1 batch with
          | (d2, Some (text, e)) => let '(d3, e') := rollbackWith d2 text e in (d3, registered, Some e')
          | (d2, None) =>
              match b_exec d2 true "COMMIT" with
              | (d3, Some e) =>
                  let '(d4, _) := b_exec d3 false "ROLLBACK" in
                  (d4, registered, Some (EWrap "lake backfill commit: " e ""))
              | (d3, None) => registerBatches add d3 bs' (registered + Zlen batch)
              end
          end
      end
  end.
Definition registerListed (d : bdb) (files : list string) : bdb * Z * option error :=
  registerBatches addListed d (batches backfillFilesPerSnapshot files) 0.
Definition registerFiles (d : bdb) (files : list string) : bdb * Z * option error :=
  registerBatches addEach d (batches backfillBatch files) 0.

(** The loop of Backfill over the prefixes. *)
Fixpoint prefixLoop (existing : gset string) (groups : gmap string (list string)) (order : list string)
    (d : bdb) (res : BackfillResult) : bdb * BackfillResult * option error :=
  match order with
  | [] => (d, res, None)
  | prefix :: order' =>
      let group := default [] (groups !! prefix) in
      let newFiles := filter (fun f => f ∉ existing) group in
      let already := Zlen group - Zlen newFiles in
      if Zlen newFiles =? 0
      then prefixLoop existing groups order' d (mkBackfillResult (Registered res) (Skipped res + already))
      else if already =? 0 then
        match registerListed d group with
        | (d', n, Some e) => (d', mkBackfillResult (Registered res + n) (Skipped res), Some e)
        | (d', n, None) => prefixLoop existing groups order' d' (mkBackfillResult (Registered res + n) (Skipped res))
        end
      else
        match registerFiles d newFiles with
        | (d', n, Some e) => (d', mkBackfillResult (Registered res + n) (Skipped res), Some e)
        | (d', n, None) =>
            prefixLoop existing groups order' d' (mkBackfillResult (Registered res + n) (Skipped res + already))
        end
  end.

(** Backfill, with its deferred actions: restore the partitioning, clear the
    pause, release the connection. *)
Definition Backfill (files : list string) (d : bdb) : bdb * BackfillResult * option error :=
  let res := mkBackfillResult 0 0 in
  match registeredFiles d with
  | Err e => (d, res, Some e)
  | Ok existing =>
      match b_conn d with
      | (d1, Some e) => (d1, res, Some (EWrap "lake backfill: " e ""))
      | (d1, None) =>
          match heartbeatBackfillPause d1 with
          | (d2, Some e) => (b_close d2, res, Some (EWrap "lake backfill: signaling maintenance pause: " e ""))
          | (d2, None) =>
              match b_exec d2 true resetPartitioned with
              | (d3, Some e) =>
                  let '(d4, _) := clearBackfillPause d3 false in
                  (b_close d4, res, Some (EWrap "lake backfill: dropping partitioning: " e ""))
              | (d3, None) =>
                  let '(groups, order) := groupParquetByPrefix files in
                  let '(d4, res', err) := prefixLoop existing groups order d3 res in
                  let '(d5, _) := b_exec d4 false layoutPartitioned in
                  let '(d6, _) := clearBackfillPause d5 false in
                  (b_close d6, res', err)
              end
          end
      end
  end.
End Backfill.

(** What the catalog promises of the statements a backfill issues: [snaps] is the
    snapshots of registered files, [inTx] whether a transaction is open on the pinned
    connection, [pending] the files it staged. A CALL registers its files with the
    COMMIT of the transaction it runs in (outside one it would commit by itself);
    the other statements register nothing. *)
Class BackfillLaws (B : BackfillDB) := {
  snaps : bdb -> list (list string);
  inTx : bdb -> bool;
  pending : bdb -> list string;
  query_lists d rows : b_query d listFilesSQL = Ok (rows, None) ->
    forall l, rows = Ok <$> l -> forall f, f ∈ l <-> f ∈ concat (snaps d);
  conn_keeps d : snaps (b_conn d).1 = snaps d;
  close_db_keeps d : snaps (b_close d) = snaps d;
  exec_keeps d c q : q ∈ ["BEGIN"; "ROLLBACK"; resetPartitioned; layoutPartitioned] -> snaps (b_exec d c q).1 = snaps d;
  exec_begin d d' : b_exec d true "BEGIN" = (d', None) -> inTx d' = true /\ pending d' = [];
  exec_list d d' l e : inTx d = true -> b_exec d true (addDataFilesListSQL l) = (d', e) ->
    snaps d' = snaps d /\ (e = None -> inTx d' = true /\ pending d' = pending d ++ l);
  exec_file d d' f e : inTx d = true -> b_exec d true (addDataFileSQL f) = (d', e) ->
    snaps d' = snaps d /\ (e = None -> inTx d' = true /\ pending d' = pending d ++ [f]);
  exec_commit d d' : inTx d = true -> b_exec d true "COMMIT" = (d', None) -> snaps d' = snaps d ++ [pending d];
  exec_commit_fails d d' e : inTx d = true -> b_exec d true "COMMIT" = (d', Some e) -> snaps d' = snaps d;
  pool_keeps d c q : q ∈ [createPauseTable; deletePause] -> snaps (b_pool d c q).1 = snaps d;
  begin_tx_keeps d : snaps (b_begin d).1 = snaps d;
  tx_exec_keeps d q : q ∈ [deletePause; insertPause] -> snaps (b_txExec d q).1 = snaps d;
  tx_commit_keeps d : snaps (b_txCommit d).1 = snaps d;
  tx_rollback_keeps d : snaps (b_txRollback d) = snaps d
}.

(** ** Lemmas *)

Definition parquet (f : string) : bool := HasSuffix f ".parquet".

(** *** Batches *)

Lemma chunks_concat fuel n l : (0 < n)%nat -> (length l <= fuel)%nat -> concat (chunks fuel n l) = l.
Proof.
  intros Hn. revert l. induction fuel as [|fuel IH]; intros [|x l] Hl; simpl in *; try done; [lia|].
  destruct n as [|n]; [lia|]. rewrite IH; [by rewrite take_drop|]. rewrite length_drop. simpl. lia.
Qed.

Lemma chunks_size fuel n l : (0 < n)%nat -> Forall (fun b => 1 <= length b <= n)%nat (chunks fuel n l).
Proof.
  intros Hn. revert l. induction fuel as [|fuel IH]; intros [|x l]; simpl; constructor; [|apply IH].
  rewrite length_take. simpl. lia.
Qed.

Lemma batches_concat n l : (0 < n)%nat -> concat (batches n l) = l.
Proof. intros. by apply chunks_concat. Qed.
Lemma batches_size n l : (0 < n)%nat -> Forall (fun b => 1 <= length b <= n)%nat (batches n l).
Proof. intros. by apply chunks_size. Qed.

(** *** Grouping *)

Definition get (groups : gmap string (list string)) (p : string) : list string := default [] (groups !! p).

Lemma concat_get_other groups p l order :
  p ∉ order -> concat (get (<[p := l]> groups) <$> order) = concat (get groups <$> order).
Proof.
  intros Hp. f_equal. apply list_fmap_ext. intros i q Hq. unfold get. rewrite lookup_insert_ne; [done|].
  intros ->. by apply Hp, list_elem_of_lookup_2 with i.
Qed.

Lemma concat_get_insert groups p f order :
  NoDup order -> p ∈ order ->
  concat (get (<[p := get groups p ++ [f]]> groups) <$> order) ≡ₚ concat (get groups <$> order) ++ [f].
Proof.
  intros Hnd. induction Hnd as [|q order Hq Hnd IH]; intros Hp; [by apply not_elem_of_nil in Hp|].
  rewrite !fmap_cons. cbn [concat]. destruct (decide (p = q)) as [->|Hne].
  - rewrite concat_get_other by done. unfold get at 1. rewrite lookup_insert_eq. simpl.
    rewrite <- !app_assoc. f_equiv. apply Permutation_app_comm.
  - unfold get at 1. rewrite lookup_insert_ne by done. fold (get groups q).
    rewrite IH by set_solver. by rewrite app_assoc.
Qed.

(** What the loop keeps: the order has each prefix once, and the groups hold the
    files seen so far. *)
Lemma groupLoop_spec files groups order groups' order' :
  NoDup order -> (forall p, p ∈ order <-> is_Some (groups !! p)) ->
  groupLoop files groups order = (groups', order') ->
  NoDup order' /\
  concat (get groups' <$> order') ≡ₚ concat (get groups <$> order) ++ List.filter parquet files.
Proof.
  revert groups order. induction files as [|f files IH]; intros groups order Hnd Hdom; cbn [groupLoop List.filter].
  { intros [= <- <-]. by rewrite app_nil_r. }
  unfold parquet at 1. destruct (HasSuffix f ".parquet"); cbn [negb]; [|by apply IH].
  set (p := prefixOf f). destruct (groups !! p) as [g|] eqn:Eg; intros Hg.
  - assert (Hp : p ∈ order) by (apply Hdom; eauto).
    apply IH in Hg as [Hnd' Hperm]; [|done|].
    + split; [done|]. rewrite Hperm. replace (default [] (Some g)) with (get groups p) by (unfold get; by rewrite Eg).
      rewrite concat_get_insert by done. by rewrite <- app_assoc.
    + intros q. rewrite Hdom. destruct (decide (p = q)) as [->|]; [rewrite lookup_insert_eq|rewrite lookup_insert_ne by done];
        rewrite ?Eg; split; eauto.
  - assert (Hp : p ∉ order) by (rewrite Hdom, Eg; apply is_Some_None).
    apply IH in Hg as [Hnd' Hperm].
    + split; [done|]. rewrite Hperm, fmap_app, concat_app, concat_get_other by done. simpl.
      unfold get at 2. rewrite lookup_insert_eq. simpl. by rewrite <- app_assoc.
    + apply NoDup_app. split_and!; [done|set_solver|apply NoDup_singleton].
    + intros q. rewrite elem_of_app, Hdom, list_elem_of_singleton.
      destruct (decide (p = q)) as [->|]; [rewrite lookup_insert_eq|rewrite lookup_insert_ne by done]; [by split; eauto|].
      split; [intros [?| ->]; done || eauto | auto].
Qed.

Lemma groupParquetByPrefix_spec files groups order :
  groupParquetByPrefix files = (groups, order) ->
  concat (get groups <$> order) ≡ₚ List.filter parquet files.
Proof.
  intros Hg. apply groupLoop_spec in Hg as [_ Hp]; [done|constructor|].
  intros p. rewrite lookup_empty. split; [by intros ?%not_elem_of_nil|by intros [? ?]].
Qed.

(** *** Registration *)

Section BackfillLemmas.
Context {B : BackfillDB} {L : BackfillLaws B}.

Lemma heartbeat_keeps d : snaps (heartbeatBackfillPause d).1 = snaps d.
Proof.
  unfold heartbeatBackfillPause.
  pose proof (pool_keeps d true createPauseTable ltac:(set_solver)) as E1.
  destruct (b_pool d true createPauseTable) as [d1 [e|]]; simpl in E1; [done|].
  pose proof (begin_tx_keeps d1) as E2. destruct (b_begin d1) as [d2 [e|]]; simpl in *; [congruence|].
  match goal with |- context [b_txExec d2 ?q] => pose proof (tx_exec_keeps d2 q ltac:(set_solver)) as E3; destruct (b_txExec d2 q) as [d3 [e|]] end;
    simpl in *; [rewrite tx_rollback_keeps; congruence|].
  match goal with |- context [b_txExec d3 ?q] => pose proof (tx_exec_keeps d3 q ltac:(set_solver)) as E4; destruct (b_txExec d3 q) as [d4 [e|]] end;
    simpl in *; [rewrite tx_rollback_keeps; congruence|].
  rewrite tx_commit_keeps. congruence.
Qed.

Lemma clear_keeps d c : snaps (clearBackfillPause d c).1 = snaps d.
Proof.
  unfold clearBackfillPause. pose proof (pool_keeps d c createPauseTable ltac:(set_solver)) as E1.
  destruct (b_pool d c createPauseTable) as [d1 [e|]]; simpl in *; [done|]. rewrite pool_keeps; [done|set_solver].
Qed.

(** Inside a transaction, adding a batch stages exactly its files and commits nothing. *)
Definition stages (add : bdb -> list string -> bdb * option (string * error)) : Prop :=
  forall d b, inTx d = true ->
    snaps (add d b).1 = snaps d /\
    ((add d b).2 = None -> inTx (add d b).1 = true /\ pending (add d b).1 = pending d ++ b).

Lemma addListed_stages : stages addListed.
Proof.
  intros d b Ht. unfold addListed. destruct (b_exec d true (addDataFilesListSQL b)) as [d' e] eqn:Ex.
  destruct (exec_list _ _ _ _ Ht Ex) as [Hs Hp]. destruct e; simpl; (split; [done|]); [done|]. intros _. by apply Hp.
Qed.

Lemma addEach_stages : stages addEach.
Proof.
  intros d b. revert d. induction b as [|f b IH]; intros d Ht; simpl; [by rewrite app_nil_r|].
  destruct (b_exec d true (addDataFileSQL f)) as [d' e] eqn:Ex. destruct (exec_file _ _ _ _ Ht Ex) as [E Hf].
  destruct e as [e|]; simpl; [by split|]. destruct (Hf eq_refl) as [Ht' Hp'].
  destruct (IH d' Ht') as [Hs Hp]. split; [congruence|]. intros He. destruct (Hp He) as [? ->]. by rewrite Hp', <- app_assoc.
Qed.

(** The batches committed are a prefix of the batches, one snapshot each, all of
    them when no error is returned; the count is theirs. *)
Lemma registerBatches_spec add d bs r d' n err :
  stages add -> registerBatches add d bs r = (d', n, err) ->
  exists committed rest, bs = committed ++ rest /\ snaps d' = snaps d ++ committed /\
    n = r + Zlen (concat committed) /\ (err = None -> rest = []).
Proof.
  intros Hadd. revert d r. induction bs as [|b bs IH]; intros d r; cbn [registerBatches].
  { intros [= <- <- <-]. exists [], []. rewrite (app_nil_r (snaps _)). split_and!; [done..|unfold Zlen; simpl; lia|done]. }
  assert (Hstop : forall d1 e, snaps d1 = snaps d -> (d1, r, Some e) = (d', n, err) ->
    exists committed rest, b :: bs = committed ++ rest /\ snaps d' = snaps d ++ committed /\
      n = r + Zlen (concat committed) /\ (err = None -> rest = [])).
  { intros d1 e Hs [= <- <- <-]. exists [], (b :: bs). rewrite (app_nil_r (snaps _)). split_and!; [done..|unfold Zlen; simpl; lia|done]. }
  pose proof (heartbeat_keeps d) as Hh. destruct (heartbeatBackfillPause d) as [d0 he]. simpl in Hh.
  pose proof (exec_keeps d0 true "BEGIN" ltac:(set_solver)) as Hb.
  destruct (b_exec d0 true "BEGIN") as [d1 [e|]] eqn:Eb; simpl in Hb; [apply Hstop; congruence|].
  destruct (exec_begin _ _ Eb) as [Ht Hp0]. destruct (Hadd d1 b Ht) as [Hs Hp]. destruct (add d1 b) as [d2 [[text e]|]]; simpl in *.
  { unfold rollbackWith. pose proof (exec_keeps d2 false "ROLLBACK" ltac:(set_solver)) as Hr.
    destruct (b_exec d2 false "ROLLBACK") as [d3 [rb|]]; simpl in Hr; apply Hstop; congruence. }
  destruct (Hp eq_refl) as [Ht2 Hp2]. rewrite Hp0 in Hp2.
  destruct (b_exec d2 true "COMMIT") as [d3 [e|]] eqn:Ec.
  - pose proof (exec_keeps d3 false "ROLLBACK" ltac:(set_solver)) as Hr.
    apply exec_commit_fails in Ec; [|done]. destruct (b_exec d3 false "ROLLBACK") as [d4 rb]; simpl in Hr. apply Hstop. congruence.
  - apply exec_commit in Ec; [|done]. intros (committed & rest & -> & Hsn & -> & Hrest)%IH.
    exists (b :: committed), rest. split_and!; [done| |cbn [concat]; rewrite Zlen_app; lia|done].
    rewrite Hsn, Ec, Hp2, Hs, Hb, Hh, <- app_assoc. done.
Qed.

Definition fresh (existing : gset string) (l : list string) : list string := filter (fun f => f ∉ existing) l.


Lemma fresh_all existing l : Zlen l - Zlen (fresh existing l) = 0 -> fresh existing l = l.
Proof.
  unfold fresh, Zlen. induction l as [|f l IH]; [done|]. rewrite filter_cons.
  pose proof (length_filter (fun f => f ∉ existing) l). case_decide; simpl; intros; [|lia].
  f_equal. apply IH. lia.
Qed.

(** What one prefix contributes: its new files, in snapshots of bounded size. *)
Lemma registered_group existing group d d' n err :
  (if Zlen group - Zlen (fresh existing group) =? 0 then registerListed d group
   else registerFiles d (fresh existing group)) = (d', n, err) ->
  exists committed rest, fresh existing group = concat committed ++ rest /\ snaps d' = snaps d ++ committed /\
    n = Zlen (concat committed) /\ (err = None -> rest = []) /\
    Forall (fun b => 1 <= length b <= backfillFilesPerSnapshot)%nat committed.
Proof.
  assert (Hgen : forall add size l, stages add -> (0 < size <= backfillFilesPerSnapshot)%nat ->
    registerBatches add d (batches size l) 0 = (d', n, err) ->
    exists committed rest, l = concat committed ++ rest /\ snaps d' = snaps d ++ committed /\
      n = Zlen (concat committed) /\ (err = None -> rest = []) /\
      Forall (fun b => 1 <= length b <= backfillFilesPerSnapshot)%nat committed).
  { intros add size l Hadd Hsize Hr. apply registerBatches_spec in Hr as (committed & rest & Hb & Hs & Hn & He); [|done].
    pose proof (batches_size size l ltac:(lia)) as Hl. rewrite Hb in Hl. apply Forall_app in Hl as [Hl _].
    exists committed, (concat rest). split_and!; [|done|lia|by intros ->%He|].
    - rewrite <- concat_app, <- Hb. symmetry. apply batches_concat. lia.
    - eapply Forall_impl; [exact Hl|]. simpl. lia. }
  destruct (_ =? 0) eqn:E; bool_to_prop.
  - rewrite (fresh_all existing group E). apply Hgen; [apply addListed_stages|].
    unfold backfillFilesPerSnapshot. lia.
  - apply Hgen; [apply addEach_stages|]. unfold backfillBatch, backfillFilesPerSnapshot. lia.
Qed.

(** The files the loop is to register, in order. *)
Definition plan (existing : gset string) (groups : gmap string (list string)) (order : list string) : list string :=
  concat ((fun p => fresh existing (get groups p)) <$> order).

(** From [d] and [res], a run over [todo], with [total] files in its groups, ends
    in the second state: a prefix of [todo] was committed, in bounded snapshots, all
    of it when there is no error; the counts are those of the files. *)
Definition advance (todo : list string) (total : Z) (d : bdb) (res : BackfillResult)
    (d' : bdb) (res' : BackfillResult) (err : option error) : Prop :=
  exists committed rest, todo = concat committed ++ rest /\
    snaps d' = snaps d ++ committed /\ Registered res' = Registered res + Zlen (concat committed) /\
    Forall (fun b => 1 <= length b <= backfillFilesPerSnapshot)%nat committed /\
    (err = None -> rest = [] /\ Registered res' + Skipped res' = Registered res + Skipped res + total).

Lemma advance_nil d res : advance [] 0 d res d res None.
Proof.
  exists [], []. rewrite (app_nil_r (snaps _)). split_and!; try done; [unfold Zlen; simpl; lia|]. split; [done|lia].
Qed.

(** A group, then the rest. *)
Lemma advance_group existing group todo total d res d1 n d' res' err :
  (if Zlen group - Zlen (fresh existing group) =? 0 then registerListed d group
   else registerFiles d (fresh existing group)) = (d1, n, None) ->
  advance todo total d1
    (mkBackfillResult (Registered res + n) (Skipped res + (Zlen group - Zlen (fresh existing group)))) d' res' err ->
  advance (fresh existing group ++ todo) (Zlen group + total) d res d' res' err.
Proof.
  intros (c1 & r1 & Hf & Hs & Hn & He & Hsz)%registered_group (c2 & r2 & -> & Hs2 & Hr2 & Hf2 & He2).
  rewrite (He eq_refl), app_nil_r in Hf. simpl in *. exists (c1 ++ c2), r2.
  rewrite Hf, concat_app, Hs2, Hs, <- !app_assoc. split_and!; [done..|rewrite Zlen_app; lia|by apply Forall_app|].
  intros [-> Hsum]%He2. split; [done|]. rewrite Hf in *. lia.
Qed.

Lemma advance_fails existing group todo total d res d1 n e :
  (if Zlen group - Zlen (fresh existing group) =? 0 then registerListed d group
   else registerFiles d (fresh existing group)) = (d1, n, Some e) ->
  advance (fresh existing group ++ todo) total d res d1 (mkBackfillResult (Registered res + n) (Skipped res)) (Some e).
Proof.
  intros (c1 & r1 & Hf & Hs & Hn & He & Hsz)%registered_group. exists c1, (r1 ++ todo).
  rewrite Hf, <- app_assoc. simpl. split_and!; done || lia.
Qed.

Lemma prefixLoop_spec existing groups order d res d' res' err :
  prefixLoop existing groups order d res = (d', res', err) ->
  advance (plan existing groups order) (Zlen (concat (get groups <$> order))) d res d' res' err.
Proof.
  revert d res. induction order as [|p order IH]; intros d res; cbn [prefixLoop].
  { intros [= <- <- <-]. apply advance_nil. }
  change (default [] (groups !! p)) with (get groups p).
  change (filter (fun f => f ∉ existing) (get groups p)) with (fresh existing (get groups p)).
  set (group := get groups p). change (plan existing groups (p :: order)) with (fresh existing group ++ plan existing groups order).
  rewrite fmap_cons. cbn [concat]. rewrite Zlen_app. fold group.
  destruct (Zlen (fresh existing group) =? 0) eqn:Ez; bool_to_prop.
  { intros (committed & rest & Hp & Hs & Hr & Hf & He)%IH. exists committed, rest. simpl in *.
    destruct (fresh existing group); [|unfold Zlen in Ez; simpl in Ez; lia]. split_and!; [done..|].
    intros [-> ?]%He. split; [done|]. unfold Zlen in *. simpl in *. lia. }
  pose proof (advance_group existing group (plan existing groups order) (Zlen (concat (get groups <$> order))) d res) as Hok.
  pose proof (advance_fails existing group (plan existing groups order) (Zlen group + Zlen (concat (get groups <$> order))) d res) as Hbad.
  destruct (Zlen group - Zlen (fresh existing group) =? 0) eqn:Ea; bool_to_prop.
  - destruct (registerListed d group) as [[d1 n] [e|]] eqn:Er; [intros [= <- <- <-]; by apply Hbad|].
    intros Hl%IH. eapply Hok; [done|]. by rewrite Ea, Z.add_0_r.
  - destruct (registerFiles d (fresh existing group)) as [[d1 n] [e|]] eqn:Er; [intros [= <- <- <-]; by apply Hbad|].
    intros Hl%IH. by eapply Hok.
Qed.

(** The plan is the Parquet files not yet tracked. *)
Lemma plan_fresh existing files groups order :
  groupParquetByPrefix files = (groups, order) ->
  plan existing groups order ≡ₚ fresh existing (List.filter parquet files).
Proof.
  intros Hg%groupParquetByPrefix_spec. unfold fresh. rewrite <- Hg. unfold plan. clear Hg.
  induction order as [|p order IH]; [done|]. rewrite !fmap_cons. cbn [concat]. rewrite filter_app. by f_equiv.
Qed.

Lemma scanRows_ok rows out s :
  scanRows rows out = Ok s -> exists l, rows = Ok <$> l /\ forall f, f ∈ s <-> f ∈ l \/ f ∈ out.
Proof.
  revert out. induction rows as [|[path|e] rows IH]; intros out; simpl; [|intros (l & -> & Hl)%IH|done].
  - intros [= <-]. exists []. split; [done|]. set_solver.
  - exists (path :: l). split; [done|]. intros f. rewrite Hl. set_solver.
Qed.

Lemma registeredFiles_ok d s : registeredFiles d = Ok s -> forall f, f ∈ s <-> f ∈ concat (snaps d).
Proof.
  unfold registeredFiles. destruct (b_query d _) as [[rows [e|]]|e] eqn:Eq; [by destruct (scanRows rows ∅)| |done].
  destruct (scanRows rows ∅) as [out|e] eqn:Es; [|done]. intros [= <-].
  apply scanRows_ok in Es as (l & Hl & Hs). intros f. rewrite Hs, <- (query_lists _ _ Eq l Hl f). set_solver.
Qed.
End BackfillLemmas.

(** ** Properties *)

Section BackfillProperties.
Context {B : BackfillDB} {L : BackfillLaws B}.

(** Everything but the loop leaves the snapshots alone. *)
Lemma Backfill_cases files d d' res err :
  Backfill files d = (d', res, err) ->
  (d' = d \/ snaps d' = snaps d) /\ res = mkBackfillResult 0 0 /\ err <> None \/
  exists existing groups order d0 d1, registeredFiles d = Ok existing /\ snaps d0 = snaps d /\
    groupParquetByPrefix files = (groups, order) /\
    prefixLoop existing groups order d0 (mkBackfillResult 0 0) = (d1, res, err) /\ snaps d' = snaps d1.
Proof.
  unfold Backfill. destruct (registeredFiles d) as [existing|e]; [|intros [= <- <- <-]; auto].
  pose proof (conn_keeps d) as E1. destruct (b_conn d) as [d1 [e|]]; simpl in E1; [intros [= <- <- <-]; auto|].
  pose proof (heartbeat_keeps d1) as E2. destruct (heartbeatBackfillPause d1) as [d2 [e|]]; simpl in E2.
  { intros [= <- <- <-]. left. split; [|done]. right. rewrite close_db_keeps. congruence. }
  pose proof (exec_keeps d2 true resetPartitioned ltac:(set_solver)) as E3.
  destruct (b_exec d2 true _) as [d3 [e|]]; simpl in E3.
  { pose proof (clear_keeps d3 false) as E4. destruct (clearBackfillPause d3 false) as [d4 ce]; simpl in E4.
    intros [= <- <- <-]. left. split; [|done]. right. rewrite close_db_keeps. congruence. }
  destruct (groupParquetByPrefix files) as [groups order] eqn:Eg.
  destruct (prefixLoop existing groups order d3 _) as [[d4 res'] err'] eqn:El.
  pose proof (exec_keeps d4 false layoutPartitioned ltac:(set_solver)) as E4.
  destruct (b_exec d4 false layoutPartitioned) as [d5 le]; simpl in E4.
  pose proof (clear_keeps d5 false) as E5. destruct (clearBackfillPause d5 false) as [d6 ce]; simpl in E5.
  intros [= <- <- <-]. right. exists existing, groups, order, d3, d4. split_and!; [done|congruence|done..|].
  rewrite close_db_keeps. congruence.
Qed.

Lemma Backfill_advances files d d' res err :
  Backfill files d = (d', res, err) ->
  (d' = d \/ snaps d' = snaps d) /\ res = mkBackfillResult 0 0 /\ err <> None \/
  exists existing groups order d0, registeredFiles d = Ok existing /\ snaps d0 = snaps d /\
    groupParquetByPrefix files = (groups, order) /\
    advance (plan existing groups order) (Zlen (concat (get groups <$> order))) d0 (mkBackfillResult 0 0) d' res err.
Proof.
  intros [He|(existing & groups & order & d0 & d1 & Hex & H0 & Hg & Hl & Hd)]%Backfill_cases; [by left|right].
  exists existing, groups, order, d0. split_and!; [done..|].
  apply prefixLoop_spec in Hl as (committed & rest & Hp & Hs & Hrest). exists committed, rest. by rewrite Hd.
Qed.

(** Everything a backfill does to the catalog. *)
Lemma Backfill_spec files d d' res err :
  NoDup files -> NoDup (concat (snaps d)) -> Backfill files d = (d', res, err) ->
  exists added, snaps d' = snaps d ++ added /\
    Forall (fun s => 1 <= length s <= backfillFilesPerSnapshot)%nat added /\
    Registered res = Zlen (concat added) /\
    NoDup (concat (snaps d')) /\
    Forall (fun f => f ∈ files /\ parquet f = true) (concat added) /\
    (err = None ->
       (forall f, f ∈ files -> parquet f = true -> f ∈ concat (snaps d')) /\
       Registered res + Skipped res = Zlen (List.filter parquet files)).
Proof.
  intros Hnd Hsn Hb. apply Backfill_advances in Hb as [([->|Hs] & -> & He)|(ex & groups & order & d0 & Hex & H0 & Hg & Hp)].
  1, 2: exists []; rewrite (app_nil_r (snaps _)); rewrite ?Hs; split_and!; done.
  pose proof (registeredFiles_ok _ _ Hex) as Hin. pose proof (plan_fresh ex _ _ _ Hg) as Hplan.
  apply groupParquetByPrefix_spec in Hg. destruct Hp as (added & rest & Hpl & Hs & Hr & Hsz & Hok).
  rewrite H0 in Hs. simpl in Hr.
  assert (Hpnd : NoDup (plan ex groups order)).
  { rewrite Hplan. by apply NoDup_filter, NoDup_ListNoDup, List.NoDup_filter, NoDup_ListNoDup. }
  assert (Hmem : forall f, f ∈ plan ex groups order <-> (f ∈ files /\ parquet f = true) /\ f ∉ concat (snaps d)).
  { intros f. rewrite Hplan. unfold fresh. rewrite list_elem_of_filter, list_elem_of_In, List.filter_In, <- list_elem_of_In, <- Hin. tauto. }
  rewrite Hpl in Hpnd. apply NoDup_app in Hpnd as (Hand & _ & _).
  assert (Hadd : forall f, f ∈ concat added -> (f ∈ files /\ parquet f = true) /\ f ∉ concat (snaps d)).
  { intros f Hf. apply Hmem. rewrite Hpl. set_solver. }
  exists added. split_and!; [done..| | |].
  - rewrite Hs, concat_app. apply NoDup_app. split_and!; [done| |done]. intros f Hf Hf'%Hadd. tauto.
  - apply Forall_forall. intros f Hf%Hadd. tauto.
  - intros [-> Hsum]%Hok. rewrite app_nil_r in Hpl. split; [|rewrite Hsum, Hg; simpl; lia].
    intros f Hf Hpq. rewrite Hs, concat_app, elem_of_app, <- Hpl, Hmem.
    destruct (decide (f ∈ concat (snaps d))); auto.
Qed.

(** C34: A backfill registers each new file once, and only whole batches. Whatever
    statement fails, the catalog gains snapshots of 1 to backfillFilesPerSnapshot
    files each, which together are distinct Parquet files of the request that were
    not tracked before; Registered counts exactly them. A run without error leaves
    every Parquet file of the request tracked, and Registered and Skipped add up to
    their number. A rerun after a failure therefore completes the work without
    registering anything twice. *)
Theorem Backfill_exactly_once files d d' res err :
  NoDup files -> NoDup (concat (snaps d)) -> Backfill files d = (d', res, err) ->
  exists added, snaps d' = snaps d ++ added /\
    Forall (fun s => 1 <= length s <= backfillFilesPerSnapshot)%nat added /\
    Registered res = Zlen (concat added) /\
    NoDup (concat (snaps d')) /\
    Forall (fun f => f ∈ files /\ parquet f = true) (concat added) /\
    (err = None ->
       (forall f, f ∈ files -> parquet f = true -> f ∈ concat (snaps d')) /\
       Registered res + Skipped res = Zlen (List.filter parquet files)).
Proof. apply Backfill_spec. Qed.
End BackfillProperties.

(** ** Instances and witnesses *)

(** A catalog in memory, which reads the files of a CALL from the statement's
    literals. *)
Record memCatalog := mkMem { mem_snaps : list (list string); mem_pending : list string }.

Definition mem_exec (d : memCatalog) (q : string) : memCatalog :=
  if q =?s "BEGIN" then mkMem (mem_snaps d) []
  else if q =?s "COMMIT" then mkMem (mem_snaps d ++ [mem_pending d]) []
  else if HasPrefix q "CALL ducklake_add_data_files('lake', " then
    mkMem (mem_snaps d) (mem_pending d ++ drop 2 (literals q))
  else d.

(** It runs out of room when a third snapshot would be committed. *)
Definition memDB : BackfillDB := {|
  bdb := memCatalog;
  b_query d _ := Ok (Ok <$> concat (mem_snaps d), None);
  b_conn d := (d, None); b_close d := d;
  b_exec d _ q :=
    if (q =?s "COMMIT") && (2 <=? Zlen (mem_snaps d)) then (d, Some (ENew "catalog full")) else (mem_exec d q, None);
  b_pool d _ _ := (d, None); b_begin d := (d, None); b_txExec d _ := (d, None);
  b_txCommit d := (d, None); b_txRollback d := d |}.

Lemma reads_paths c l : no_quote c -> c <> "" -> reads (c +:+ Join (sqlString <$> l) ", ") l.
Proof.
  revert c. induction l as [|f l IH]; intros c Hc Hn.
  - rewrite string_app_nil_r. by apply reads_code.
  - destruct l as [|g l]; [by apply reads_lit|]. rewrite !fmap_cons.
    change (Join (sqlString f :: sqlString g :: (sqlString <$> l)) ", ")
      with (sqlString f +:+ (", " +:+ Join (sqlString <$> g :: l) ", ")).
    rewrite <- string_app_assoc. apply (reads_app _ _ [f] (g :: l)); [by apply reads_lit|by apply IH].
Qed.

Lemma reads_call s l :
  reads s l -> reads ("CALL ducklake_add_data_files('lake', " +:+ sqlString RawTable +:+ s) ("lake" :: RawTable :: l).
Proof.
  intros Hs. change (reads (("CALL ducklake_add_data_files(" +:+ sqlString "lake") +:+ ((", " +:+ sqlString RawTable) +:+ s))
                       (["lake"] ++ [RawTable] ++ l)).
  repeat apply reads_app; [by apply reads_lit|by apply reads_lit|done].
Qed.

(** The statements of a backfill carry the paths, whatever characters they
    have. *)
Lemma addDataFiles_literals l f :
  literals (addDataFilesListSQL l) = "lake" :: RawTable :: l /\
  literals (addDataFileSQL f) = ["lake"; RawTable; f].
Proof.
  split; apply reads_literals, reads_call.
  - rewrite <- string_app_assoc. pose proof (reads_app _ _ l [] (reads_paths ", [" l eq_refl ltac:(discriminate))
      (reads_code "], allow_missing => true)" eq_refl)) as Hr. by rewrite app_nil_r in Hr.
  - rewrite <- string_app_assoc. apply (reads_app _ _ [f] []); [by apply reads_lit|by apply reads_code].
Qed.

Lemma mem_exec_call d s :
  mem_exec d ("CALL ducklake_add_data_files('lake', " +:+ s) =
  mkMem (mem_snaps d) (mem_pending d ++ drop 2 (literals ("CALL ducklake_add_data_files('lake', " +:+ s))).
Proof. unfold mem_exec. rewrite HasPrefix_app. done. Qed.

#[global] Instance memDB_laws : BackfillLaws memDB.
Proof.
  refine {| snaps := (mem_snaps : @bdb memDB -> _); inTx := (fun _ => true) : @bdb memDB -> _;
            pending := (mem_pending : @bdb memDB -> _) |}; simpl; try done.
  - intros d rows [= <-] l Hl%list_fmap_eq_inj; [by subst|]. intros ?? [= ->]. done.
  - intros d _ q Hq. repeat (apply elem_of_cons in Hq as [->|Hq]; [reflexivity|]). by apply elem_of_nil in Hq.
  - by intros d d' [= <-].
  - intros d d' l e _. change (addDataFilesListSQL l =?s "COMMIT") with false. simpl. intros [= <- <-].
    pose proof (proj1 (addDataFiles_literals l "")) as Hl. unfold addDataFilesListSQL in *.
    rewrite mem_exec_call. cbn [mem_pending mem_snaps]. by rewrite Hl.
  - intros d d' f e _. change (addDataFileSQL f =?s "COMMIT") with false. simpl. intros [= <- <-].
    pose proof (proj2 (addDataFiles_literals [] f)) as Hl. unfold addDataFileSQL in *.
    rewrite mem_exec_call. cbn [mem_pending mem_snaps]. by rewrite Hl.
  - intros d d' _. destruct (2 <=? _); [done|]. by intros [= <-].
  - intros d d' e _. destruct (2 <=? _); [by intros [= <- _]|done].
Defined.

Definition sampleFiles : list string :=
  ["valid/2024/01/a.parquet"; "valid/2024/01/o'brien.parquet"; "valid/2024/01/notes.txt"; "valid/2024/02/c.parquet"].

Lemma Backfill_exactly_once_witness :
  exists added, Backfill sampleFiles (mkMem [["valid/2024/01/a.parquet"]] [] : @bdb memDB) =
      (mkMem ([["valid/2024/01/a.parquet"]] ++ added) ["valid/2024/02/c.parquet"], mkBackfillResult 1 1,
       Some (EWrap "lake backfill commit: " (ENew "catalog full") "")) /\
    NoDup (concat ([["valid/2024/01/a.parquet"]] ++ added)).
Proof.
  destruct (Backfill_exactly_once (B := memDB) sampleFiles (mkMem [["valid/2024/01/a.parquet"]] [])
    (mkMem [["valid/2024/01/a.parquet"]; ["valid/2024/01/o'brien.parquet"]] ["valid/2024/02/c.parquet"])
    (mkBackfillResult 1 1) (Some (EWrap "lake backfill commit: " (ENew "catalog full") ""))) as (added & Hs & _ & _ & Hnd & _).
  - apply (bool_decide_unpack _). by vm_compute.
  - apply (bool_decide_unpack _). by vm_compute.
  - vm_compute. reflexivity.
  - exists [["valid/2024/01/o'brien.parquet"]]. split; [vm_compute; reflexivity | exact Hnd].
Defined.
