(* ===== verification/Overlap.v ===== *)
(** * Package lake, several backfills: who registers a file twice

    internal/lake/backfill.go, run by several lake-backfill commands on one catalog while
    the maintainer merges files away (internal/lake/maintain.go). A run is what Backfill
    does to the catalog: it looks up what is registered once, then commits the batches of
    [batchPlan] one by one ([Backfill_runs_plan] ties this to the code). Runs, merges and
    clean-ups interleave freely ([ostep], [oreach]). *)

From S2P Require Import Prelude GoStd LakeWriter LakeSQL Backfill.

(** ** The transactions of a run *)

(** The batches of one prefix: all of it if it is wholly new, else its new files. *)
Definition groupBatches (existing : gset string) (group : list string) : list (list string) :=
  let newFiles := fresh existing group in
  if Zlen newFiles =? 0 then []
  else if Zlen group - Zlen newFiles =? 0 then batches backfillFilesPerSnapshot group
  else batches backfillBatch newFiles.

Definition batchPlan (existing : gset string) (files : list string) : list (list string) :=
  let '(groups, order) := groupParquetByPrefix files in
  concat ((fun p => groupBatches existing (get groups p)) <$> order).

(** ** The system *)

(** A lake-backfill command: the objects it listed; then, after it looked up the
    registered files, the batches left, with how many registrations there were by then
    and which files had been merged away. *)
Inductive opc := ONone | OListed (files : list string) | ORunning (todo : list (list string)) | OEnded.
Record orun := mkRun { r_pc : opc; r_seen : nat; r_superseded : list string }.

(** The source bucket; what ducklake_list_files lists; all registrations in order, by run;
    the files merged away. *)
Record osys := mkOsys {
  bucket : gset string; live : list string; registrations : list (nat * string);
  superseded : list string; runs : list orun
}.

Inductive ostep : osys -> osys -> Prop :=
| o_list i r files bu li re su rs :
    rs !! i = Some r -> r_pc r = ONone -> NoDup files -> (forall f, f ∈ files -> f ∈ bu) ->
    ostep (mkOsys bu li re su rs) (mkOsys bu li re su (<[i := mkRun (OListed files) 0 []]> rs))
| o_lookup i r files bu li re su rs :
    rs !! i = Some r -> r_pc r = OListed files ->
    ostep (mkOsys bu li re su rs)
      (mkOsys bu li re su (<[i := mkRun (ORunning (batchPlan (list_to_set li) files)) (length re) su]> rs))
| o_commit i r b todo bu li re su rs :
    rs !! i = Some r -> r_pc r = ORunning (b :: todo) ->
    ostep (mkOsys bu li re su rs)
      (mkOsys bu (li ++ b) (re ++ (pair i <$> b)) su (<[i := mkRun (ORunning todo) (r_seen r) (r_superseded r)]> rs))
| o_end i r bu li re su rs :
    rs !! i = Some r ->
    ostep (mkOsys bu li re su rs) (mkOsys bu li re su (<[i := mkRun OEnded (r_seen r) (r_superseded r)]> rs))
| o_merge old new bu li re su rs :
    (forall f, f ∈ old -> f ∈ li) ->
    ostep (mkOsys bu li re su rs) (mkOsys bu (filter (fun f => f ∉ old) li ++ [new]) re (su ++ old) rs)
| o_cleanup f bu li re su rs :
    f ∈ su -> ostep (mkOsys bu li re su rs) (mkOsys (bu ∖ {[f]}) li re su rs).

(** Some commands about to start, on a lake with some files. *)
Inductive oreach : osys -> Prop :=
| o_init bu li n : oreach (mkOsys bu li [] [] (replicate n (mkRun ONone 0 [])))
| o_next st st' : oreach st -> ostep st st' -> oreach st'.

(** ** Lemmas: the plan *)

Lemma groupBatches_concat existing group : concat (groupBatches existing group) = fresh existing group.
Proof.
  unfold groupBatches. destruct (_ =? 0) eqn:E0; bool_to_prop.
  { unfold Zlen in E0. by destruct (fresh existing group); [|simpl in E0; lia]. }
  destruct (_ - _ =? 0) eqn:E1; bool_to_prop.
  - rewrite batches_concat by (unfold backfillFilesPerSnapshot; lia). by rewrite fresh_all.
  - by rewrite batches_concat by (unfold backfillBatch; lia).
Qed.

Lemma batchPlan_concat existing files : concat (batchPlan existing files) ≡ₚ fresh existing (List.filter parquet files).
Proof.
  unfold batchPlan. destruct (groupParquetByPrefix files) as [groups order] eqn:Eg. rewrite <- (plan_fresh _ _ _ _ Eg).
  unfold plan. clear Eg. induction order as [|p order IH]; [done|]. rewrite !fmap_cons. cbn [concat].
  rewrite concat_app, groupBatches_concat. by f_equiv.
Qed.

Lemma batchPlan_elem existing files f :
  f ∈ concat (batchPlan existing files) <-> f ∉ existing /\ f ∈ files /\ parquet f = true.
Proof.
  rewrite batchPlan_concat. unfold fresh.
  rewrite list_elem_of_filter, list_elem_of_In, List.filter_In, <- list_elem_of_In. tauto.
Qed.

Lemma batchPlan_NoDup existing files : NoDup files -> NoDup (concat (batchPlan existing files)).
Proof.
  intros Hnd. rewrite batchPlan_concat. by apply NoDup_filter, NoDup_ListNoDup, List.NoDup_filter, NoDup_ListNoDup.
Qed.

(** The loop of Backfill commits the plan from its start, all of it when it returns no
    error. *)
Lemma prefixLoop_runs {B : BackfillDB} {L : BackfillLaws B} existing groups order d res d' res' err :
  prefixLoop existing groups order d res = (d', res', err) ->
  exists committed rest, concat ((fun p => groupBatches existing (get groups p)) <$> order) = committed ++ rest /\
    snaps d' = snaps d ++ committed /\ (err = None -> rest = []).
Proof.
  revert d res. induction order as [|p order IH]; intros d res; cbn [prefixLoop].
  { intros [= <- <- <-]. exists [], []. by rewrite (app_nil_r (snaps _)). }
  change (default [] (groups !! p)) with (get groups p).
  change (filter (fun f => f ∉ existing) (get groups p)) with (fresh existing (get groups p)).
  rewrite fmap_cons. cbn [concat]. unfold groupBatches at 1. destruct (Zlen (fresh existing (get groups p)) =? 0); [apply IH|].
  assert (forall add bs d1 n e, stages add -> registerBatches add d bs 0 = (d1, n, e) ->
    forall d2 err2, (e <> None -> d2 = d1 /\ err2 = e) ->
    (e = None -> exists committed rest, concat ((fun p => groupBatches existing (get groups p)) <$> order) = committed ++ rest /\
       snaps d2 = snaps d1 ++ committed /\ (err2 = None -> rest = [])) ->
    exists committed rest, bs ++ concat ((fun p => groupBatches existing (get groups p)) <$> order) = committed ++ rest /\
      snaps d2 = snaps d ++ committed /\ (err2 = None -> rest = [])) as Hgen.
  { intros add bs d1 n e Hadd Hr d2 err2 Hfail Hok. apply registerBatches_spec in Hr as (c & r & -> & Hs & _ & He); [|done].
    destruct e as [e|].
    - destruct (Hfail ltac:(done)) as [-> ->]. exists c, (r ++ concat ((fun p => groupBatches existing (get groups p)) <$> order)).
      by rewrite <- app_assoc.
    - destruct (Hok eq_refl) as (c' & r' & -> & Hs' & He'). exists (c ++ c'), r'.
      by rewrite (He eq_refl), app_nil_r, Hs', Hs, <- !app_assoc. }
  destruct (Zlen (get groups p) - _ =? 0).
  - unfold registerListed. destruct (registerBatches addListed d _ 0) as [[d1 n] [e|]] eqn:Er; intros Hl;
      (eapply Hgen; [apply addListed_stages|exact Er| |]); try done; [by injection Hl as <- _ <-|intros _; by eapply IH].
  - unfold registerFiles. destruct (registerBatches addEach d _ 0) as [[d1 n] [e|]] eqn:Er; intros Hl;
      (eapply Hgen; [apply addEach_stages|exact Er| |]); try done; [by injection Hl as <- _ <-|intros _; by eapply IH].
Qed.

(** Backfill, run alone, is one run of the system: it looks up what is registered and
    commits its plan from the start, batch by batch; without an error, all of it. *)
Theorem Backfill_runs_plan {B : BackfillDB} {L : BackfillLaws B} files d d' res err :
  Backfill files d = (d', res, err) ->
  (snaps d' = snaps d /\ err <> None) \/
  exists existing committed rest, (forall f, f ∈ existing <-> f ∈ concat (snaps d)) /\
    batchPlan existing files = committed ++ rest /\ snaps d' = snaps d ++ committed /\ (err = None -> rest = []).
Proof.
  intros [([->|Hs] & _ & He)|(existing & groups & order & d0 & d1 & Hex & H0 & Hg & Hl & Hd)]%Backfill_cases; [by left..|right].
  apply prefixLoop_runs in Hl as (committed & rest & Hp & Hs & He). exists existing, committed, rest.
  split_and!; [by apply registeredFiles_ok|unfold batchPlan; by rewrite Hg|by rewrite Hd, Hs, H0|done].
Qed.

(** ** Lemmas: the system *)

(** A registered file is listed, or was merged away. *)
Definition known (st : osys) : Prop := forall i f, (i, f) ∈ registrations st -> f ∈ live st \/ f ∈ superseded st.

(** What a run still has to do: nothing twice, nothing it did already, and of what was
    registered when it looked only what had been merged away by then. *)
Definition run_ok (st : osys) (i : nat) (r : orun) : Prop :=
  (r_seen r <= length (registrations st))%nat /\
  (forall a f, registrations st !! a = Some (i, f) -> (r_seen r <= a)%nat) /\
  match r_pc r with
  | ONone => forall f, (i, f) ∉ registrations st
  | OListed files => NoDup files /\ forall f, (i, f) ∉ registrations st
  | ORunning todo =>
      NoDup (concat todo) /\
      (forall f, f ∈ concat todo -> (i, f) ∉ registrations st) /\
      (forall a j f, (a < r_seen r)%nat -> registrations st !! a = Some (j, f) -> f ∈ concat todo -> f ∈ r_superseded r)
  | OEnded => True
  end.

(** Why run [j] registered a file again: it had looked before, or the file was gone from
    the listing when it looked. *)
Definition again (st : osys) : Prop := forall a b i j f,
  (a < b)%nat -> registrations st !! a = Some (i, f) -> registrations st !! b = Some (j, f) ->
  exists r, runs st !! j = Some r /\ (f ∈ r_superseded r \/ (i <> j /\ (r_seen r <= a)%nat)).

Record overlap_inv (st : osys) : Prop := {
  oi_known : known st;
  oi_runs : forall i r, runs st !! i = Some r -> run_ok st i r;
  oi_again : again st
}.

(** A step that registers nothing keeps the reasons, if a run with registrations keeps
    what it saw. *)
Lemma again_update bu li re su rs bu' li' su' i r r' :
  again (mkOsys bu li re su rs) -> rs !! i = Some r ->
  (forall f, (i, f) ∉ re) \/ (r_seen r' = r_seen r /\ r_superseded r' = r_superseded r) ->
  again (mkOsys bu' li' re su' (<[i := r']> rs)).
Proof.
  intros Ha Hr Hk a b i' j f Hab Hi Hj. simpl in *. destruct (Ha a b i' j f Hab Hi Hj) as (r0 & Hr0 & Hc). simpl in *.
  destruct (decide (j = i)) as [->|Hne]; [|exists r0; by rewrite list_lookup_insert_ne].
  destruct Hk as [Hno|[Hs Hg]]; [by apply list_elem_of_lookup_2, Hno in Hj|].
  exists r'. rewrite list_lookup_insert_eq by by eapply lookup_lt_Some. split; [done|]. rewrite Hs, Hg. congruence.
Qed.

Lemma run_ok_same bu li re su rs bu' li' su' rs' i r :
  run_ok (mkOsys bu li re su rs) i r -> run_ok (mkOsys bu' li' re su' rs') i r.
Proof. done. Qed.

(** The runs after run [i] moved on. *)
Lemma runs_update st st' i r' :
  (forall k r, runs st !! k = Some r -> k <> i -> run_ok st' k r) -> run_ok st' i r' ->
  runs st' = <[i := r']> (runs st) -> forall k r, runs st' !! k = Some r -> run_ok st' k r.
Proof.
  intros Ho Hi -> k r Hk. destruct (decide (k = i)) as [->|Hne].
  - assert (i < length (runs st))%nat as Hl by (apply lookup_lt_Some in Hk; by rewrite length_insert in Hk).
    rewrite list_lookup_insert_eq in Hk by done. by injection Hk as <-.
  - rewrite list_lookup_insert_ne in Hk by done. by eapply Ho.
Qed.

Lemma elem_pair (i : nat) (b : list string) k f : (k, f) ∈ pair i <$> b <-> k = i /\ f ∈ b.
Proof. rewrite list_elem_of_fmap. split; [by intros (x & [= -> ->] & Hx)|by intros [-> Hx]; exists f]. Qed.

Lemma commit_inv i r b todo bu li re su rs :
  overlap_inv (mkOsys bu li re su rs) -> rs !! i = Some r -> r_pc r = ORunning (b :: todo) ->
  overlap_inv (mkOsys bu (li ++ b) (re ++ (pair i <$> b)) su (<[i := mkRun (ORunning todo) (r_seen r) (r_superseded r)]> rs)).
Proof.
  intros [Hk Hr Ha] Hi Hpc. destruct (Hr i r Hi) as (Hlen & Hfirst & Hrun). rewrite Hpc in Hrun. simpl in *.
  destruct Hrun as (Hnd & Hown & Hgone). apply NoDup_app in Hnd as (Hb & Hdis & Hnd).
  assert (forall f, f ∈ b -> (i, f) ∉ re) as Hnew by (intros f Hf; apply Hown; set_solver).
  split.
  - intros k f. simpl. rewrite !elem_of_app, elem_pair. intros [He|[-> Hf]]; [|by left; right]. destruct (Hk k f He); auto.
  - apply (runs_update (mkOsys bu li re su rs) _ i (mkRun (ORunning todo) (r_seen r) (r_superseded r))); [| |reflexivity].
    + intros k rk Hrk Hne. destruct (Hr k rk Hrk) as (Hl & Hf1 & Hm). simpl in *.
      assert (forall f, (k, f) ∉ re -> (k, f) ∉ re ++ (pair i <$> b)) as Hno
        by (intros f Hf; rewrite elem_of_app, elem_pair; naive_solver).
      split_and!; [simpl; rewrite length_app; lia| |].
      * intros a f [He|[_ He]]%lookup_app_Some; [by eapply Hf1|]. apply list_elem_of_lookup_2, elem_pair in He as [-> _]. done.
      * destruct (r_pc rk) as [|files|td|]; simpl; [by intros f; apply Hno|destruct Hm; split; [done|by intros f; apply Hno]| |done].
        destruct Hm as (Hm1 & Hm2 & Hm3). split_and!; [done|by intros f Hf; apply Hno, Hm2|].
        intros a j f Hlt He. rewrite lookup_app_l in He by (simpl in *; lia). by eapply Hm3.
    + split_and!; simpl; [rewrite length_app; lia| |split_and!; [done|..]].
      * intros a f [He|[Hge _]]%lookup_app_Some; [by eapply Hfirst|lia].
      * intros f Hf. rewrite elem_of_app, elem_pair. intros [He|[_ Hfb]]; [by eapply (Hown f); [set_solver|]|by eapply Hdis].
      * intros a j f Hlt He Hf. rewrite lookup_app_l in He by lia. eapply Hgone; [done..|]. set_solver.
  - intros a c k j f Hac Hk1 Hj1. simpl in *.
    apply lookup_app_Some in Hj1 as [Hj1|[Hge Hj1]].
    { rewrite lookup_app_l in Hk1 by (apply lookup_lt_Some in Hj1; lia).
      by apply (again_update bu li re su rs bu li su i r (mkRun (ORunning todo) (r_seen r) (r_superseded r)) Ha Hi
        (or_intror (conj eq_refl eq_refl)) a c k j f Hac). }
    pose proof (list_elem_of_lookup_2 _ _ _ Hj1) as [-> Hfb]%elem_pair.
    eexists. rewrite list_lookup_insert_eq by by eapply lookup_lt_Some. split; [done|]. simpl.
    apply lookup_app_Some in Hk1 as [Hk1|[Hge' Hk1]].
    + destruct (decide (a < r_seen r)%nat) as [Hlt|Hlt]; [left; eapply Hgone; [done..|set_solver]|right].
      split; [|lia]. intros ->. by apply (Hnew f Hfb), list_elem_of_lookup_2 with a.
    + exfalso. apply list_lookup_fmap_Some in Hk1 as (x & [= _ ->] & Hx), Hj1 as (y & [= ->] & Hy).
      pose proof (NoDup_lookup _ _ _ _ Hb Hx Hy). lia.
Qed.

Lemma ostep_inv st st' : overlap_inv st -> ostep st st' -> overlap_inv st'.
Proof.
  intros Hinv Hs. pose proof Hinv as [Hk Hr Ha]. destruct Hs as [i r files bu li re su rs Hi Hpc Hnd Hin|i r files bu li re su rs Hi Hpc
    |i r b todo bu li re su rs Hi Hpc|i r bu li re su rs Hi|old new bu li re su rs Hold|f bu li re su rs Hf].
  - destruct (Hr i r Hi) as (Hl & Hf & Hno). rewrite Hpc in Hno. simpl in *. split; [exact Hk| |by eapply again_update; [exact Ha|exact Hi|left]].
    apply (runs_update (mkOsys bu li re su rs) _ i (mkRun (OListed files) 0 [])); [intros k rk Hrk _; by apply Hr|split_and!; simpl; [lia|intros; lia|done]|reflexivity].
  - destruct (Hr i r Hi) as (Hl & Hf & Hno). rewrite Hpc in Hno. destruct Hno as [Hnd Hno]. simpl in *.
    split; [exact Hk| |by eapply again_update; [exact Ha|exact Hi|left]].
    apply (runs_update (mkOsys bu li re su rs) _ i (mkRun (ORunning (batchPlan (list_to_set li) files)) (length re) su)); [intros k rk Hrk _; by apply Hr| |reflexivity]. split_and!; simpl; [done| |split_and!].
    + intros a f He. by apply list_elem_of_lookup_2, Hno in He.
    + by apply batchPlan_NoDup.
    + intros f _. apply Hno.
    + intros a j f _ He (Hli & _)%batchPlan_elem. apply list_elem_of_lookup_2, Hk in He as [He|He]; simpl in *; [|done]. set_solver.
  - by eapply commit_inv.
  - split; [exact Hk| |eapply again_update; [exact Ha|exact Hi|by right]].
    apply (runs_update (mkOsys bu li re su rs) _ i (mkRun OEnded (r_seen r) (r_superseded r))); [intros k rk Hrk _; by apply Hr| |reflexivity].
    destruct (Hr i r Hi) as (Hl & Hf & _). by split_and!.
  - split; [|exact Hr|exact Ha]. intros k f He. simpl. destruct (Hk k f He) as [Hlv|Hsu]; simpl in *; [|set_solver].
    destruct (decide (f ∈ old)); [set_solver|]. left. rewrite elem_of_app. left. by apply list_elem_of_filter.
  - by split.
Qed.

Lemma oreach_inv st : oreach st -> overlap_inv st.
Proof.
  induction 1 as [bu li n|st st' _ IH Hs]; [|by eapply ostep_inv]. split.
  - intros i f He. simpl in He. set_solver.
  - intros i r Hr. simpl in Hr. apply lookup_replicate in Hr as [-> _]. split_and!; simpl; [lia|done|]. intros f He. set_solver.
  - done.
Qed.

(** ** Properties *)

(** C23: Why a file is registered twice. In any interleaving of any number of backfills with
    merges and clean-ups, a run that registers a file some run has registered already had
    looked up the registered files before that run registered it, or found the file
    merged away when it looked; a run never registers a file twice itself. *)
Theorem registered_twice_cause st a b i j f :
  oreach st -> (a < b)%nat -> registrations st !! a = Some (i, f) -> registrations st !! b = Some (j, f) ->
  exists r, runs st !! j = Some r /\ (f ∈ r_superseded r \/ (i <> j /\ (r_seen r <= a)%nat)).
Proof. intros Hr Hab Hi Hj. by eapply (oi_again _ (oreach_inv _ Hr)). Qed.

(** ** Both causes are real *)

Definition oldFile : string := "s3://raw/valid/a.parquet".
Definition oneObject : gset string := {[oldFile]}.
Definition idle : orun := mkRun ONone 0 [].
Definition runOver (seen : nat) (su : list string) (todo : list (list string)) : orun := mkRun (ORunning todo) seen su.

Lemma plan_old : batchPlan (list_to_set []) [oldFile] = [[oldFile]].
Proof. vm_compute. reflexivity. Qed.
Lemma plan_merged : batchPlan (list_to_set ["lake/merged.parquet"]) [oldFile] = [[oldFile]].
Proof. vm_compute. reflexivity. Qed.

(** One command from the listing to its first commit. *)
Lemma first_registration rs i r :
  rs !! i = Some r -> r_pc r = ONone ->
  oreach (mkOsys oneObject [] [] [] rs) ->
  oreach (mkOsys oneObject [oldFile] [(i, oldFile)] [] (<[i := runOver 0 [] []]> rs)).
Proof.
  intros Hi Hpc Hr. assert (i < length rs)%nat as Hl by by eapply lookup_lt_Some.
  eapply o_next; [eapply o_next; [eapply o_next; [exact Hr|]|]|].
  - eapply (o_list i r [oldFile]); [done..|apply NoDup_singleton|]. intros f Hf. unfold oneObject. set_solver.
  - eapply (o_lookup i _ [oldFile]); [by rewrite list_lookup_insert_eq|done].
  - rewrite list_insert_insert_eq, plan_old. rewrite <- (list_insert_insert_eq rs i (runOver 0 [] []) (runOver 0 [] [[oldFile]])).
    apply (o_commit i (runOver 0 [] [[oldFile]]) [oldFile] [] oneObject [] [] [] (<[i := runOver 0 [] [[oldFile]]]> rs)); [|done].
    by rewrite list_lookup_insert_eq.
Qed.

(** Two runs that both looked before either registered: the file is in the table twice,
    without any maintenance. *)
Theorem overlapping_backfills_duplicate :
  exists st, oreach st /\ registrations st = [(0%nat, oldFile); (1%nat, oldFile)] /\ superseded st = [].
Proof.
  eexists. split; [eapply o_next; [eapply o_next; [eapply o_next; [eapply o_next; [eapply o_next; [eapply o_next;
    [exact (o_init oneObject [] 2)|]|]|]|]|]|]|].
  - eapply (o_list 0 _ [oldFile]); [done..|apply NoDup_singleton|unfold oneObject; set_solver].
  - eapply (o_list 1 _ [oldFile]); [done..|apply NoDup_singleton|unfold oneObject; set_solver].
  - eapply (o_lookup 0 _ [oldFile]); done.
  - eapply (o_lookup 1 _ [oldFile]); done.
  - eapply (o_commit 0 (runOver 0 [] [[oldFile]])); [by rewrite plan_old|done].
  - eapply (o_commit 1 (runOver 0 [] [[oldFile]])); [by rewrite plan_old|done].
  - split; reflexivity.
Qed.

(** A rerun after a merge registers everything again. A backfill ends, a maintenance
    cycle merges its file away, and before the clean-up deletes the original a second
    backfill lists it: no two runs overlap, and the rows are in the table twice. *)
Theorem rerun_after_merge_duplicates :
  exists st r, oreach st /\ registrations st = [(0%nat, oldFile); (1%nat, oldFile)] /\
    runs st !! 1%nat = Some r /\ r_seen r = 1%nat /\ r_superseded r = [oldFile] /\ oldFile ∈ bucket st.
Proof.
  eexists _, _. split; [eapply o_next; [eapply o_next; [eapply o_next; [eapply o_next; [eapply o_next; [apply (first_registration (replicate 2 idle) 0 idle);
    [| |exact (o_init oneObject [] 2)]; done|]|]|]|]|]|].
  - eapply (o_end 0). done.
  - eapply (o_merge [oldFile] "lake/merged.parquet"). set_solver.
  - eapply (o_list 1 _ [oldFile]); [done..|apply NoDup_singleton|unfold oneObject; set_solver].
  - eapply (o_lookup 1 _ [oldFile]); done.
  - eapply (o_commit 1 (runOver 1 [oldFile] [[oldFile]])); [|done].
    assert (filter (fun f => f ∉ [oldFile]) [oldFile] ++ ["lake/merged.parquet"] = ["lake/merged.parquet"]) as -> by (vm_compute; reflexivity).
    by rewrite plan_merged.
  - split_and!; [reflexivity..|]. simpl. unfold oneObject. set_solver.
Qed.

Lemma registered_twice_cause_witness :
  exists st r, oreach st /\ runs st !! 1%nat = Some r /\ (oldFile ∈ r_superseded r \/ (r_seen r <= 0)%nat).
Proof.
  destruct overlapping_backfills_duplicate as (st & Hr & Hreg & _).
  destruct (registered_twice_cause st 0 1 0 1 oldFile Hr ltac:(lia)) as (r & Hj & Hc); [by rewrite Hreg..|].
  exists st, r. split; [exact Hr|]. split; [exact Hj|]. destruct Hc as [Hc|[_ Hc]]; [by left|by right].
Defined.
