(* ===== verification/FsStore.v ===== *)
(** * Package fsstore: objects as files

    internal/fsstore/fsstore.go. A path is the list of its components (the text is
    them joined by slashes after a leading one). The file system is a parameter:
    [FileSystem] has the calls PutObject makes, [FileSystemLaws] what POSIX says of
    them; a directory tree to walk is a value ([node]). PutObject returns the states
    it went through as well, so that what a concurrent reader or a crash can find is
    a statement about them. *)

From S2P Require Import Prelude GoStd.

Definition path : Type := list string.

Definition tempPrefix : string := ".tmp-".

(** filepath.Clean of an absolute path, on its components. *)
Definition cleanStep (acc : path) (c : string) : path :=
  if (c =?s "") || (c =?s ".") then acc
  else if c =?s ".." then removelast acc
  else acc ++ [c].
Definition cleanAbs (s : string) : path := foldl cleanStep [] (SplitByte s (chr "/")).

(** Client.path: filepath.Join(c.root, key). *)
Definition clientPath (root key : string) : path :=
  cleanAbs (if key =?s "" then root else root +:+ "/" +:+ key).

(** ** PutObject *)

(** [fs_CreateTemp dir prefix] makes a file of a fresh name; [fs_SyncDir] opens,
    syncs and closes a directory, whatever comes of it. *)
Class FileSystem := {
  fsys : Type;
  fs_MkdirAll : fsys -> path -> fsys * option error;
  fs_CreateTemp : fsys -> path -> string -> fsys * result path;
  fs_Write : fsys -> path -> string -> fsys * option error;
  fs_Sync : fsys -> path -> fsys * option error;
  fs_Close : fsys -> path -> fsys * option error;
  fs_Chmod : fsys -> path -> fsys * option error;
  fs_Rename : fsys -> path -> path -> fsys * option error;
  fs_Remove : fsys -> path -> fsys;
  fs_SyncDir : fsys -> path -> fsys
}.

Section Put.
Context `{FileSystem}.

(** New: the root must be absolute. *)
Definition NewClient (f : fsys) (root : string) : fsys * result string :=
  if negb (HasPrefix root "/") then (f, Err (ENew ("fsstore root must be an absolute path, got " +:+ fmt_q root)))
  else match fs_MkdirAll f (cleanAbs root) with
       | (f', Some e) => (f', Err (EWrap "creating fsstore root: " e ""))
       | (f', None) => (f', Ok root)
       end.

(** The calls on the temporary file between its creation and the rename, with the
    clean-up each failure runs: (what, call, close first?). *)
Definition tempSteps (tmp : path) (body : string) : list (string * (fsys -> fsys * option error) * bool) :=
  [("writing ", fun f => fs_Write f tmp body, true);
   ("syncing ", fun f => fs_Sync f tmp, true);
   ("closing ", fun f => fs_Close f tmp, false);
   ("setting mode for ", fun f => fs_Chmod f tmp, false)].

(** Run the steps, remembering the states. *)
Fixpoint runTemp (key : string) (tmp : path) (steps : list (string * (fsys -> fsys * option error) * bool))
    (f : fsys) (seen : list fsys) : fsys * list fsys * option error :=
  match steps with
  | [] => (f, seen, None)
  | (what, call, closeFirst) :: steps' =>
      match call f with
      | (f1, Some e) =>
          let f2 := if (closeFirst : bool) then (fs_Close f1 tmp).1 else f1 in
          let f3 := fs_Remove f2 tmp in
          (f3, seen ++ [f1; f2; f3], Some (EWrap (what +:+ key +:+ ": ") e ""))
      | (f1, None) => runTemp key tmp steps' f1 (seen ++ [f1])
      end
  end.

Definition PutFile (root : string) (f : fsys) (key body : string) : fsys * list fsys * option error :=
  let target := clientPath root key in
  let dir := removelast target in
  match fs_MkdirAll f dir with
  | (f1, Some e) => (f1, [f1], Some (EWrap ("creating directories for " +:+ key +:+ ": ") e ""))
  | (f1, None) =>
      match fs_CreateTemp f1 dir tempPrefix with
      | (f2, Err e) => (f2, [f1; f2], Some (EWrap ("creating temp file for " +:+ key +:+ ": ") e ""))
      | (f2, Ok tmp) =>
          match runTemp key tmp (tempSteps tmp body) f2 [f1; f2] with
          | (f3, seen, Some e) => (f3, seen, Some e)
          | (f3, seen, None) =>
              match fs_Rename f3 tmp target with
              | (f4, Some e) =>
                  let f5 := fs_Remove f4 tmp in
                  (f5, seen ++ [f4; f5], Some (EWrap ("publishing " +:+ key +:+ ": ") e ""))
              | (f4, None) => let f5 := fs_SyncDir f4 dir in (f5, seen ++ [f4; f5], None)
              end
          end
      end
  end.
End Put.

(** What POSIX says, on the contents of the regular files. *)
Class FileSystemLaws (F : FileSystem) := {
  file : fsys -> path -> option string;
  mkdir_keeps f d p : file (fs_MkdirAll f d).1 p = file f p;
  create_ok f d pre f' t : fs_CreateTemp f d pre = (f', Ok t) ->
    (exists name, t = d ++ [name] /\ HasPrefix name pre = true) /\ file f t = None /\
    forall p, p <> t -> file f' p = file f p;
  create_fails f d pre f' e p : fs_CreateTemp f d pre = (f', Err e) -> file f' p = file f p;
  write_ok f t b f' : fs_Write f t b = (f', None) -> file f' t = Some b;
  write_keeps f t b p : p <> t -> file (fs_Write f t b).1 p = file f p;
  sync_keeps f t p : file (fs_Sync f t).1 p = file f p;
  close_keeps f t p : file (fs_Close f t).1 p = file f p;
  chmod_keeps f t p : file (fs_Chmod f t).1 p = file f p;
  rename_ok f a b f' : fs_Rename f a b = (f', None) -> a <> b ->
    file f' b = file f a /\ file f' a = None /\ forall p, p <> a -> p <> b -> file f' p = file f p;
  rename_fails f a b f' e p : fs_Rename f a b = (f', Some e) -> file f' p = file f p;
  remove_keeps f t p : p <> t -> file (fs_Remove f t) p = file f p;
  syncdir_keeps f d p : file (fs_SyncDir f d) p = file f p
}.

(** ** ListObjectsV2 *)

(** A file with what d.Info() gives, or a directory with what os.ReadDir gives;
    None is an entry that vanished (fs.ErrNotExist). *)
Inductive node :=
| File (info : result (option Z))
| Dir (entries : result (option (list (string * node)))).

Record ObjectInfo := mkObject { obj_Key : string; obj_Size : Z }.

Definition hidden (name : string) : bool := HasPrefix name ".".

(** The walk below [n], whose path relative to the root is [rel] and whose entry
    has the name [name]. *)
Fixpoint walk (prefix : string) (rel : path) (name : string) (n : node) : result (list ObjectInfo) :=
  if hidden name then Ok []
  else match n with
       | File info =>
           if negb (HasPrefix (Join rel "/") prefix) then Ok []
           else match info with
                | Ok (Some size) => Ok [mkObject (Join rel "/") size]
                | Ok None => Ok []
                | Err e => Err e
                end
       | Dir (Err e) => Err e
       | Dir (Ok None) => Ok []
       | Dir (Ok (Some entries)) =>
           (fix each entries :=
              match entries with
              | [] => Ok []
              | (c, n') :: entries' =>
                  out ← walk prefix (rel ++ [c]) c n';
                  rest ← each entries';
                  Ok (out ++ rest)
              end) entries
       end.

Fixpoint descend (n : node) (p : path) : option node :=
  match p with
  | [] => Some n
  | c :: p' => match n with
               | Dir (Ok (Some entries)) =>
                   match List.find (fun e => e.1 =?s c) entries with Some (_, n') => descend n' p' | None => None end
               | _ => None
               end
  end.

Definition key_le (a b : ObjectInfo) : Prop := String.leb (obj_Key a) (obj_Key b) = true.
#[global] Instance key_le_dec a b : Decision (key_le a b).
Proof. unfold key_le. apply _. Defined.

(** The listing of a store whose root directory is the last component of [root]
    and has the tree [t]: path.Split finds the directory part of the prefix. *)
Definition baseName (p : path) : string := List.last p "/".
Definition ListObjectsV2 (root : string) (t : node) (prefix : string) : result (list ObjectInfo) :=
  let dir := cleanAbs (upto_last prefix (chr "/")) in
  match descend t dir with
  | None => Ok []
  | Some n => wrap_err (fun e => EWrap ("listing " +:+ prefix +:+ ": ") e "")
                (out ← walk prefix dir (baseName (cleanAbs root ++ dir)) n; Ok (merge_sort key_le out))
  end.

(** ** Lemmas: PutObject *)

Section PutLemmas.
Context {F : FileSystem} {L : FileSystemLaws F}.

(** Two states agree away from the temporary file. *)
Definition agree_off (t : path) (f f' : fsys) : Prop := forall p, p <> t -> file f' p = file f p.

Lemma agree_off_trans t a b c : agree_off t a b -> agree_off t b c -> agree_off t a c.
Proof. intros H1 H2 p Hp. by rewrite H2, H1. Qed.

(** Every call on the temporary file leaves the others alone, and only the write
    changes it. *)
Definition temp_call (t : path) (call : fsys -> fsys * option error) : Prop := forall f, agree_off t f (call f).1.
Definition temp_keeps (t : path) (call : fsys -> fsys * option error) : Prop := forall f, file (call f).1 t = file f t.

Lemma runTemp_spec key t steps f seen f' seen' err :
  Forall (fun s => temp_call t s.1.2) steps -> runTemp key t steps f seen = (f', seen', err) ->
  agree_off t f f' /\ exists new, seen' = seen ++ new /\ Forall (agree_off t f) new /\
    (err = None -> Forall (fun s => temp_keeps t s.1.2) steps -> file f' t = file f t).
Proof.
  intros Hs. revert f seen. induction Hs as [|[[what call] closeFirst] steps Hc Hs IH]; intros f seen; simpl.
  { intros [= <- <- <-]. split; [done|]. exists []. rewrite app_nil_r. split_and!; done || constructor. }
  simpl in Hc. pose proof (Hc f) as H1. destruct (call f) as [f1 [e|]] eqn:Ec; simpl in H1.
  - intros [= <- <- <-]. set (f2 := if closeFirst then (fs_Close f1 t).1 else f1).
    assert (H2 : agree_off t f f2) by (unfold f2; destruct closeFirst; [intros p Hp; by rewrite close_keeps, H1|done]).
    assert (H3 : agree_off t f (fs_Remove f2 t)) by (intros p Hp; by rewrite remove_keeps, H2).
    split; [done|]. eexists. split; [done|]. split; [by repeat constructor|done].
  - intros (Hf & new & -> & Hnew & Hk)%IH. split; [by eapply agree_off_trans|].
    exists (f1 :: new). rewrite <- app_assoc. split; [done|]. split.
    + constructor; [done|]. eapply Forall_impl; [exact Hnew|]. intros st Hst. by eapply agree_off_trans.
    + intros He Hkeep. inversion Hkeep as [|?? Hk1 Hk2]; subst. rewrite Hk by done.
      specialize (Hk1 f). simpl in Hk1. by rewrite Ec in Hk1.
Qed.

Lemma tempSteps_calls t body : Forall (fun s => temp_call t s.1.2) (tempSteps t body).
Proof.
  repeat constructor; intros f p Hp; simpl; by rewrite ?write_keeps, ?sync_keeps, ?close_keeps, ?chmod_keeps.
Qed.

Lemma runTemp_first key t what call cl steps f seen f' seen' :
  runTemp key t ((what, call, cl) :: steps) f seen = (f', seen', None) ->
  exists f1, call f = (f1, None) /\ runTemp key t steps f1 (seen ++ [f1]) = (f', seen', None).
Proof. cbn [runTemp]. destruct (call f) as [f1 [e|]]; [done|]. eauto. Qed.

(** When all steps succeed, the temporary file holds the body. *)
Lemma tempSteps_body key t body f seen f' seen' :
  runTemp key t (tempSteps t body) f seen = (f', seen', None) -> file f' t = Some body.
Proof.
  intros (f1 & Ew & Hr)%runTemp_first.
  pose proof (tempSteps_calls t body) as Hc. inversion Hc as [|?? _ Hc']; subst.
  apply runTemp_spec in Hr as (_ & new & _ & _ & Hk); [|exact Hc'].
  rewrite Hk; [by eapply write_ok|done|]. repeat constructor; intros g; simpl; by rewrite ?sync_keeps, ?close_keeps, ?chmod_keeps.
Qed.

(** A state seen during a put of [body] at [target] that began in [f] and used
    the temporary name [name]: a reader finds the old object or the whole new one, and
    only the target and the temporary file can differ. *)
Definition seen_during (f : fsys) (target : path) (name body : string) (st : fsys) : Prop :=
  (file st target = file f target \/ file st target = Some body) /\
  forall p, p <> target -> p <> removelast target ++ [name] -> file st p = file f p.

Lemma seen_off f target name body st :
  target <> removelast target ++ [name] -> agree_off (removelast target ++ [name]) f st ->
  seen_during f target name body st.
Proof. intros Ht Ho. split; [left; by apply Ho|]. intros p _ Hp. by apply Ho. Qed.

Lemma seen_all_off f target name body sts :
  target <> removelast target ++ [name] -> Forall (agree_off (removelast target ++ [name]) f) sts ->
  Forall (seen_during f target name body) sts.
Proof. intros Ht Ho. eapply Forall_impl; [exact Ho|]. intros st. by apply seen_off. Qed.

(** The state after the steps on the temporary file, and those before it. *)
Lemma temp_phase key target name body f f1 f2 f3 seen err :
  let tmp := removelast target ++ [name] in
  agree_off tmp f f1 -> agree_off tmp f f2 ->
  runTemp key tmp (tempSteps tmp body) f2 [f1; f2] = (f3, seen, err) ->
  agree_off tmp f f3 /\ Forall (agree_off tmp f) seen.
Proof.
  intros tmp H1 H2 Hr. apply runTemp_spec in Hr as (H3 & new & -> & Hnew & _); [|apply tempSteps_calls].
  split; [by eapply agree_off_trans|]. do 2 (apply Forall_cons_2; [done|]).
  eapply Forall_impl; [exact Hnew|]. intros st Hst. by eapply agree_off_trans.
Qed.
End PutLemmas.

(** Prove something of each state of an explicit list. *)
Ltac each_state tac := repeat (apply Forall_cons_2; [tac|]); try apply Forall_nil_2.

(** ** Properties *)

(** C39: A put is atomic. Whatever call fails, in every state PutObject goes
    through the target holds the object it held before or the complete new one, never
    a part of it; after nil it holds the new one, after an error the old one; and no
    file but the target and one file named .tmp-* in its directory ever changes. *)
Theorem PutFile_atomic {F : FileSystem} {L : FileSystemLaws F} root f key body f' seen err :
  let target := clientPath root key in
  HasPrefix (List.last target "") tempPrefix = false -> PutFile root f key body = (f', seen, err) ->
  file f' target = match err with None => Some body | Some _ => file f target end /\
  exists name, HasPrefix name tempPrefix = true /\ Forall (seen_during f target name body) (f' :: seen).
Proof.
  intros target Hlast. unfold PutFile. fold target.
  assert (Ht : forall name, HasPrefix name tempPrefix = true -> target <> removelast target ++ [name]).
  { intros name Hn E. rewrite E, List.last_last in Hlast. congruence. }
  pose proof (mkdir_keeps f (removelast target)) as Hmk. destruct (fs_MkdirAll f (removelast target)) as [f1 [e|]]; simpl in Hmk.
  { intros [= <- <- <-]. split; [done|]. exists tempPrefix. split; [done|].
    apply seen_all_off; [by apply Ht|]. each_state ltac:(by intros p _). }
  destruct (fs_CreateTemp f1 (removelast target) tempPrefix) as [f2 [tmp|e]] eqn:Ec.
  2: { intros [= <- <- <-]. pose proof (fun p => create_fails _ _ _ _ _ p Ec) as Hc. split; [by rewrite Hc|].
       exists tempPrefix. split; [done|]. apply seen_all_off; [by apply Ht|].
       each_state ltac:(intros p _; by rewrite ?Hc). }
  destruct (create_ok _ _ _ _ _ Ec) as ((name & -> & Hname) & _ & Hoff).
  destruct (runTemp key _ _ f2 [f1; f2]) as [[f3 seen3] terr] eqn:Er.
  destruct (temp_phase _ _ _ _ f _ _ _ _ _ (fun p _ => Hmk p) (fun p Hp => eq_trans (Hoff p Hp) (Hmk p)) Er) as [H3 Hall].
  destruct terr as [e|].
  { intros [= <- <- <-]. split; [by apply H3, Ht|]. exists name. split; [done|].
    apply seen_all_off; [by apply Ht|]. by constructor. }
  destruct (fs_Rename f3 _ target) as [f4 [e|]] eqn:Ern.
  - pose proof (fun p => rename_fails _ _ _ _ _ p Ern) as H4. intros [= <- <- <-].
    assert (H5 : agree_off (removelast target ++ [name]) f (fs_Remove f4 (removelast target ++ [name])))
      by (intros p Hp; rewrite remove_keeps, H4 by done; by apply H3).
    split; [by apply H5, Ht|]. exists name. split; [done|]. apply seen_all_off; [by apply Ht|].
    constructor; [done|]. apply Forall_app. split; [done|].
    each_state ltac:(done || (intros p Hp; rewrite H4; by apply H3)).
  - destruct (rename_ok _ _ _ _ Ern) as (Hto & _ & Hoth); [by apply not_eq_sym, Ht|].
    rewrite (tempSteps_body _ _ _ _ _ _ _ Er) in Hto. intros [= <- <- <-]. pose proof (syncdir_keeps f4 (removelast target)) as H5.
    assert (Hs : forall st, (forall p, file st p = file f4 p) -> seen_during f target name body st).
    { intros st Hst. split; [right; by rewrite Hst|]. intros p Hp Hq. rewrite Hst, Hoth by done. by apply H3. }
    split; [by rewrite H5|]. exists name. split; [done|]. constructor; [by apply Hs|]. apply Forall_app.
    split; [apply seen_all_off; [by apply Ht|done]|]. each_state ltac:(by apply Hs).
Qed.

(** A store whose root directory has a name with a leading dot lists nothing:
    the walk takes its own root for a hidden directory and skips it, whatever objects
    it holds. *)
Theorem hidden_root_lists_nothing root t prefix :
  hidden (baseName (cleanAbs root)) = true -> has_byte prefix (chr "/") = false ->
  ListObjectsV2 root t prefix = Ok [].
Proof.
  intros Hr Hp. unfold ListObjectsV2.
  assert (Hu : upto_last prefix (chr "/") = "").
  { clear -Hp. induction prefix as [|c prefix IH]; [done|]. cbn [has_byte upto_last] in *.
    apply orb_false_iff in Hp as [-> Hp]. by rewrite IH. }
  rewrite Hu. simpl. rewrite app_nil_r. by destruct t; simpl; rewrite Hr.
Qed.

(** ** Instances and witnesses *)

(** Files in memory, with one temporary name per directory. *)
Definition memFS : FileSystem := {|
  fsys := gmap (list string) string;
  fs_MkdirAll f _ := (f, None);
  fs_CreateTemp f d pre :=
    match f !! (d ++ [pre +:+ "1"]) with
    | Some _ => (f, Err (ENew "file exists"))
    | None => (<[d ++ [pre +:+ "1"] := ""]> f, Ok (d ++ [pre +:+ "1"]))
    end;
  fs_Write f t b := (<[t := b]> f, None);
  fs_Sync f _ := (f, None); fs_Close f _ := (f, None); fs_Chmod f _ := (f, None);
  fs_Rename f a b :=
    match f !! a with Some c => (<[b := c]> (delete a f), None) | None => (f, Some (ENew "no such file")) end;
  fs_Remove f t := delete t f;
  fs_SyncDir f _ := f |}.

#[global] Instance memFS_laws : FileSystemLaws memFS.
Proof.
  refine {| file := (fun f p => f !! p) : @fsys memFS -> path -> option string |}; simpl; try done.
  - intros f d pre f' t. destruct (f !! (d ++ [pre +:+ "1"])) eqn:E; intros [= <- <-]. split_and!; [|done|].
    + eexists. split; [done|]. apply HasPrefix_app.
    + intros p Hp. by rewrite lookup_insert_ne.
  - intros f d pre f' e p. destruct (f !! _); [by intros [= <- _]|done].
  - intros f t b f' [= <-]. by rewrite lookup_insert_eq.
  - intros f t b p Hp. by rewrite lookup_insert_ne.
  - intros f a b f'. destruct (f !! a) as [c|] eqn:E; [|done]. intros [= <-] Hab. split_and!.
    + by rewrite lookup_insert_eq.
    + rewrite lookup_insert_ne by done. by rewrite lookup_delete_eq.
    + intros p Hpa Hpb. by rewrite lookup_insert_ne, lookup_delete_ne by done.
  - intros f a b f' e p. destruct (f !! a); [done|]. by intros [= <- _].
  - intros f t p Hp. by rewrite lookup_delete_ne.
Defined.

Definition storedBefore : @fsys memFS := {[ ["data"; "blobs"; "a"] := "old" ]}.

Definition putRun := @PutFile memFS "/data" storedBefore "blobs//x/../a" "new".

Lemma PutFile_atomic_witness :
  putRun.2 = None /\ @file memFS memFS_laws putRun.1.1 ["data"; "blobs"; "a"] = Some "new".
Proof.
  assert (He : putRun.2 = None) by (vm_compute; reflexivity). split; [exact He|].
  assert (Hp : putRun = (putRun.1.1, putRun.1.2, putRun.2)) by (by destruct putRun as [[? ?] ?]).
  pose proof (proj1 (@PutFile_atomic memFS memFS_laws "/data" storedBefore "blobs//x/../a" "new"
    putRun.1.1 putRun.1.2 putRun.2 ltac:(vm_compute; reflexivity) Hp)) as Hf.
  rewrite He in Hf. exact Hf.
Defined.

Definition twoFiles : node :=
  Dir (Ok (Some [(".tmp-1", File (Ok (Some 3))); ("b", File (Ok (Some 7))); ("a", Dir (Ok (Some [("x", File (Ok (Some 5)))])))])).

Example lists_objects :
  ListObjectsV2 "/data/blobs" twoFiles "" = Ok [mkObject "a/x" 5; mkObject "b" 7] /\
  ListObjectsV2 "/data/blobs" twoFiles "a/" = Ok [mkObject "a/x" 5].
Proof. split; vm_compute; reflexivity. Qed.

Lemma hidden_root_lists_nothing_witness :
  ListObjectsV2 "/data/.blobs" twoFiles "" = Ok [].
Proof. apply hidden_root_lists_nothing; vm_compute; reflexivity. Defined.
