(* ===== verification/S3Client.v ===== *)
(** * Package s3client: objects in a bucket

    internal/s3client/s3client.go. The AWS SDK is a parameter ([AwsSDK]): loading its
    configuration, the client made of it, the put request and the listing
    paginator. [S3Laws] is what S3 documents: an acknowledged put stored the object
    of the request, and the pages of a listing are the keys under the prefix. The
    client is an object store ([s3_store]) that keeps the splitter's contract. *)

From S2P Require Import Prelude GoStd CloudEvent Stream Publisher Blob FsStore.

Definition putObjectTimeout : Z := 30 * Second.
Definition maxRetryAttempts : Z := 3.

Record S3Config := mkS3Config {
  s3_Bucket : string; s3_Region : string; s3_AccessKeyID : string; s3_SecretAccessKey : string;
  s3_Endpoint : string; s3_KMSKeyID : string
}.

(** The options of awsconfig.LoadDefaultConfig that are used, and s3.Options. *)
Inductive loadOption :=
| WithRegion (region : string)
| WithStaticCredentials (id secret token : string)
| WithRetryMaxAttempts (n : Z).
Record s3Options := mkS3Options { BaseEndpoint : option string; UsePathStyle : bool }.

(** s3.PutObjectInput, the fields that are set; a missing text is the zero value. *)
Record PutObjectInput := mkPut {
  in_Bucket : string; in_Key : string; in_Body : string; in_ContentType : string;
  in_ServerSideEncryption : string; in_SSEKMSKeyId : option string; in_BucketKeyEnabled : option bool
}.
Definition ServerSideEncryptionAwsKms : string := "aws:kms".

(** An entry of a page: key and size, each possibly nil. *)
Definition listed : Type := option string * option Z.

Class AwsSDK := {
  awsConfig : Type;
  s3api : Type;
  service : Type;
  paginator : Type;
  LoadDefaultConfig : list loadOption -> result awsConfig;
  NewFromConfig : awsConfig -> (s3Options -> s3Options) -> s3api;
  api_PutObject : s3api -> service -> Z -> PutObjectInput -> service * option error;
  NewListObjectsV2Paginator : s3api -> string -> string -> paginator;
  HasMorePages : paginator -> bool;
  NextPage : service -> paginator -> service * paginator * result (list listed)
}.

Section Client.
Context `{AwsSDK}.

Record S3Client := mkS3Client { c_s3 : s3api; c_bucket : string; c_kmsKeyID : string }.

Definition loadOptions (cfg : S3Config) : list loadOption :=
  (if s3_Region cfg =?s "" then [] else [WithRegion (s3_Region cfg)]) ++
  (if negb (s3_AccessKeyID cfg =?s "") && negb (s3_SecretAccessKey cfg =?s "")
   then [WithStaticCredentials (s3_AccessKeyID cfg) (s3_SecretAccessKey cfg) ""] else []) ++
  [WithRetryMaxAttempts maxRetryAttempts].

Definition endpointOptions (cfg : S3Config) (o : s3Options) : s3Options :=
  if s3_Endpoint cfg =?s "" then o else mkS3Options (Some (s3_Endpoint cfg)) true.

Definition NewS3 (cfg : S3Config) : result S3Client :=
  if s3_Bucket cfg =?s "" then Err (ENew "s3 bucket is required")
  else
    awsCfg ← wrap_err (fun e => EWrap "loading AWS config: " e "") (LoadDefaultConfig (loadOptions cfg));
    Ok (mkS3Client (NewFromConfig awsCfg (endpointOptions cfg)) (s3_Bucket cfg) (s3_KMSKeyID cfg)).

(** The request of a put. *)
Definition putInput (c : S3Client) (key body : string) : PutObjectInput :=
  if c_kmsKeyID c =?s ""
  then mkPut (c_bucket c) key body "application/octet-stream" "" None None
  else mkPut (c_bucket c) key body "application/octet-stream" ServerSideEncryptionAwsKms
         (Some (c_kmsKeyID c)) (Some true).

Definition S3PutObject (c : S3Client) (st : service) (key body : string) : service * option error :=
  match api_PutObject (c_s3 c) st putObjectTimeout (putInput c key body) with
  | (st', Some e) => (st', Some (EWrap ("put object " +:+ c_bucket c +:+ "/" +:+ key +:+ ": ") e ""))
  | (st', None) => (st', None)
  end.

Definition objectInfo (o : listed) : ObjectInfo := mkObject (default "" o.1) (default 0 o.2).

(** The loop over the pages; the fuel bounds the pages looked at, None: still running. *)
Fixpoint listPages (fuel : nat) (c : S3Client) (prefix : string) (st : service) (p : paginator)
    (objects : list ObjectInfo) : service * option (result (list ObjectInfo)) :=
  match fuel with
  | O => (st, None)
  | S fuel' =>
      if negb (HasMorePages p) then (st, Some (Ok objects))
      else match NextPage st p with
           | (st', _, Err e) =>
               (st', Some (Err (EWrap ("listing objects under " +:+ c_bucket c +:+ "/" +:+ prefix +:+ ": ") e "")))
           | (st', p', Ok page) => listPages fuel' c prefix st' p' (objects ++ (objectInfo <$> page))
           end
  end.
Definition S3ListObjectsV2 (fuel : nat) (c : S3Client) (st : service) (prefix : string) :=
  listPages fuel c prefix st (NewListObjectsV2Paginator (c_s3 c) (c_bucket c) prefix) [].

(** The client as the splitter's store. *)
Definition s3_store (c : S3Client) : ObjectStore := {| store := service; PutObject := S3PutObject c |}.
End Client.

(** ** What S3 promises *)

(** An object at rest: its bytes, and the encryption its put asked for. *)
Record atRest := mkAtRest { r_body : string; r_encryption : string; r_key : option string; r_bucketKey : option bool }.
Definition requested (i : PutObjectInput) : atRest :=
  mkAtRest (in_Body i) (in_ServerSideEncryption i) (in_SSEKMSKeyId i) (in_BucketKeyEnabled i).

(** [bucket_of] is what a bucket holds. Listing does not change it, and the pages
    still to come ([pages]) are used up one by one: at the start they are the keys
    under the prefix, each once, with their sizes. *)
Class S3Laws (S : AwsSDK) := {
  bucket_of : service -> string -> gmap string atRest;
  pages : service -> paginator -> list (list listed);
  put_stored api st t i st' : api_PutObject api st t i = (st', None) ->
    bucket_of st' (in_Bucket i) = <[in_Key i := requested i]> (bucket_of st (in_Bucket i));
  pages_start api st bucket prefix :
    exists objs, objectInfo <$> concat (pages st (NewListObjectsV2Paginator api bucket prefix)) = objs /\
      NoDup (obj_Key <$> objs) /\
      forall key, key ∈ obj_Key <$> objs <-> HasPrefix key prefix = true /\ is_Some (bucket_of st bucket !! key);
  pages_more st p : HasMorePages p = true <-> pages st p <> [];
  pages_next st p st' p' page : NextPage st p = (st', p', Ok page) -> pages st p = page :: pages st' p'
}.

(** ** Lemmas *)

Section S3Lemmas.
Context `{S : AwsSDK} `{L : !S3Laws S}.

Lemma listPages_returns fuel c prefix st p objects :
  (length (pages st p) < fuel)%nat ->
  (exists e st', listPages fuel c prefix st p objects = (st', Some (Err e))) \/
  (exists st', listPages fuel c prefix st p objects = (st', Some (Ok (objects ++ (objectInfo <$> concat (pages st p)))))).
Proof.
  revert st p objects. induction fuel as [|fuel IH]; intros st p objects Hf; [lia|]. cbn [listPages].
  pose proof (pages_more st p) as Hm. destruct (HasMorePages p); simpl.
  - destruct (NextPage st p) as [[st1 p1] [page|e]] eqn:En; [|by left; eauto].
    apply pages_next in En. rewrite En in Hf |- *. simpl in Hf.
    destruct (IH st1 p1 (objects ++ (objectInfo <$> page)) ltac:(lia)) as [?|(st2 & ->)]; [by left|right].
    exists st2. simpl. by rewrite fmap_app, app_assoc.
  - right. exists st. destruct (pages st p) as [|page rest]; [by rewrite app_nil_r|].
    destruct Hm as [_ Hm]. by discriminate Hm.
Qed.

(** The client keeps the contract of a store: its bucket's bodies. *)
Definition bodies (m : gmap string atRest) : gmap string string := r_body <$> m.

#[export] Instance s3_store_laws (c : S3Client) : ObjectStoreLaws (s3_store c).
Proof.
  refine {| contents := fun st : @store (s3_store c) => bodies (bucket_of st (c_bucket c)) |}.
  intros st k b st'. simpl. unfold S3PutObject. destruct (api_PutObject _ _ _ _) as [st1 [e|]] eqn:Ep; [done|].
  intros [= <-]. apply put_stored in Ep. unfold putInput, bodies in *.
  destruct (c_kmsKeyID c =?s ""); simpl in Ep; by rewrite Ep, fmap_insert.
Defined.

Lemma S3PutObject_stored c st key body st' :
  S3PutObject c st key body = (st', None) ->
  bucket_of st' (c_bucket c) = <[key := requested (putInput c key body)]> (bucket_of st (c_bucket c)).
Proof.
  unfold S3PutObject. destruct (api_PutObject _ _ _ _) as [st1 [e|]] eqn:Ep; [done|]. intros [= <-].
  apply put_stored in Ep. unfold putInput in *. by destruct (c_kmsKeyID c =?s "").
Qed.

Lemma S3_listing fuel c st prefix :
  (length (pages st (NewListObjectsV2Paginator (c_s3 c) (c_bucket c) prefix)) < fuel)%nat ->
  exists st' r, S3ListObjectsV2 fuel c st prefix = (st', Some r) /\
    forall objs, r = Ok objs -> NoDup (obj_Key <$> objs) /\
      forall key, key ∈ obj_Key <$> objs <->
                  HasPrefix key prefix = true /\ is_Some (bucket_of st (c_bucket c) !! key).
Proof.
  intros Hf. destruct (pages_start (c_s3 c) st (c_bucket c) prefix) as (objs & Ho & Hnd & Hk).
  unfold S3ListObjectsV2. destruct (listPages_returns fuel c prefix st _ [] Hf) as [(e & st' & ->)|(st' & ->)].
  - exists st', (Err e). by split.
  - exists st'. eexists. split; [done|]. rewrite app_nil_l. intros objs' [= <-]. rewrite Ho. done.
Qed.
End S3Lemmas.

(** ** Properties *)

(** A listing is complete and ends. Given a turn per page and one more,
    ListObjectsV2 returns; unless a page failed, its result has every key of the
    bucket under the prefix, no other key, and none twice. *)
Theorem S3ListObjectsV2_complete `{S : AwsSDK} `{L : !S3Laws S} fuel c st prefix :
  (length (pages st (NewListObjectsV2Paginator (c_s3 c) (c_bucket c) prefix)) < fuel)%nat ->
  exists st' r, S3ListObjectsV2 fuel c st prefix = (st', Some r) /\
    forall objs, r = Ok objs -> NoDup (obj_Key <$> objs) /\
      forall key, key ∈ obj_Key <$> objs <->
                  HasPrefix key prefix = true /\ is_Some (bucket_of st (c_bucket c) !! key).
Proof. apply S3_listing. Qed.
