(* ===== verification/Sink.v ===== *)
(** * Package sink: from the WAL to the lake

    internal/sink/sink.go: the batching buffer, its flush triggers, the flush
    queue and its backpressure, and the flush workers with the bisecting
    isolation of a bundle that does not commit. The writer is an interface
    ([BundleWriter], its promise [BundleWriterLaws]); [lake_writer] at the end
    discharges it with the lake's writer. Metrics and logging are left out. *)

From S2P Require Import Prelude GoStd CloudEvent Stream Publisher LakeWriter.

Definition poisonRedeliveryThreshold : Z := 10.
Definition isolateProbeLimit : Z := 8.
Definition DefaultMaxAgeHard : Z := 5 * Minute.
Definition bufferedMsgOverhead : Z := 512.

(** ** Configuration *)

Record Config := mkConfig {
  MaxRowsPerFlush : Z; MaxBytesPerFlush : Z; MaxBufferedBytes : Z; PodSinks : Z; MaxAge : Z;
  MinFlushBytes : Z; MaxAgeHard : Z; Workers : Z; FetchBatch : Z; DrainTimeout : Z;
  Name : string; FlushTimeout : Z; CommitFailureWindow : Z
}.

(** The MaxBufferedBytes default: four flushes per pod, divided across the sinks
    of the pod, and at least three flushes; int arithmetic wraps at 64 bits. *)
Definition defaultMaxBufferedBytes (maxBytesPerFlush podSinks : Z) : Z :=
  let v := int64 (4 * maxBytesPerFlush) in
  let v := if 1 <? podSinks then Z.quot v podSinks else v in
  let floor := int64 (3 * maxBytesPerFlush) in
  if v <? floor then floor else v.

Definition applyDefaults (c : Config) : Config :=
  let maxBytes := or_default (MaxBytesPerFlush c) (Z.shiftl 128 20) in
  {| MaxRowsPerFlush := or_default (MaxRowsPerFlush c) 100000;
     MaxBytesPerFlush := maxBytes;
     MaxBufferedBytes := if MaxBufferedBytes c =? 0 then defaultMaxBufferedBytes maxBytes (PodSinks c)
                         else MaxBufferedBytes c;
     PodSinks := PodSinks c;
     MaxAge := or_default (MaxAge c) Minute;
     MinFlushBytes := or_default (MinFlushBytes c) (Z.shiftl 16 20);
     MaxAgeHard := or_default (MaxAgeHard c) DefaultMaxAgeHard;
     Workers := or_default (Workers c) 2;
     FetchBatch := or_default (FetchBatch c) 1000;
     DrainTimeout := or_default (DrainTimeout c) (30 * Second);
     Name := if Name c =?s "" then "sink" else Name c;
     FlushTimeout := or_default (FlushTimeout c) (5 * Minute);
     CommitFailureWindow := or_default (CommitFailureWindow c) (10 * Minute) |}.

(** ** Messages, buffer, sink *)

(** jetstream.Msg: its place in the stream identifies it; Metadata gives the
    number of deliveries or fails. *)
Record JMsg := mkJMsg {
  jm_seq : Z; jm_Headers : gmap string (list string); jm_Data : string; jm_NumDelivered : result Z
}.

(** What the sink told JetStream about a message. *)
Inductive settlement := Acked (m : JMsg) | Termed (m : JMsg).
Definition settled_msg (s : settlement) : JMsg := match s with Acked m | Termed m => m end.

Record eventBuffer := mkBuffer {
  b_events : list StoredEvent; b_msgs : list JMsg; b_bytes : Z; b_footprint : Z; b_firstAt : Z
}.

Record flushJob := mkJob {
  j_events : list StoredEvent; j_msgs : list JMsg; j_bytes : Z; j_footprint : Z
}.

(** Sink: the channel jobs is the list of queued jobs, flushed the number of
    tokens in its channel, fatal the posted error. *)
Record Sink := mkSink {
  cfg : Config;
  buffer : option eventBuffer;
  jobs : list flushJob;
  inflight : Z;
  flushed : Z;
  commitFailFirst : Z;
  fatal : option error;
  drainDeadline : Z
}.

Definition New (c : Config) : Sink := mkSink (applyDefaults c) None [] 0 0 0 None 0.

Definition set_buffer b s := mkSink (cfg s) b (jobs s) (inflight s) (flushed s) (commitFailFirst s) (fatal s) (drainDeadline s).
Definition set_jobs j s := mkSink (cfg s) (buffer s) j (inflight s) (flushed s) (commitFailFirst s) (fatal s) (drainDeadline s).
Definition set_inflight i s := mkSink (cfg s) (buffer s) (jobs s) i (flushed s) (commitFailFirst s) (fatal s) (drainDeadline s).
Definition set_flushed n s := mkSink (cfg s) (buffer s) (jobs s) (inflight s) n (commitFailFirst s) (fatal s) (drainDeadline s).
Definition set_commitFailFirst t s := mkSink (cfg s) (buffer s) (jobs s) (inflight s) (flushed s) t (fatal s) (drainDeadline s).
Definition set_fatal e s := mkSink (cfg s) (buffer s) (jobs s) (inflight s) (flushed s) (commitFailFirst s) e (drainDeadline s).
Definition set_drainDeadline t s := mkSink (cfg s) (buffer s) (jobs s) (inflight s) (flushed s) (commitFailFirst s) (fatal s) t.

Definition bufferedFootprint (ev : StoredEvent) (msgLen : Z) : Z :=
  msgLen + strlen (Data ev) + strlen (DataBase64 ev) + bufferedMsgOverhead.

Section Buffering.
Context `{CloudEventLib} `{NatsHeaderLib}.

(** add: an undecodable message is terminated, any other one buffered. *)
Definition add (now : Z) (s : Sink) (msg : JMsg) : Sink * list settlement :=
  match ParseMsg (jm_Headers msg) (jm_Data msg) with
  | Err _ => (s, [Termed msg])
  | Ok event =>
      let buf := match buffer s with Some b => b | None => mkBuffer [] [] 0 0 now end in
      (set_buffer (Some (mkBuffer (b_events buf ++ [event]) (b_msgs buf ++ [msg])
                           (b_bytes buf + strlen (jm_Data msg))
                           (b_footprint buf + bufferedFootprint event (strlen (jm_Data msg)))
                           (b_firstAt buf))) s, [])
  end.

(** enqueue, at the moment its select resolves: the job channel holds Workers*8
    jobs; blocking, it waits for a slot until the drain deadline, and [timedOut]
    says whether the timer won. *)
Definition enqueue (now : Z) (timedOut : bool) (s : Sink) (buf : eventBuffer) (block : bool) : Sink * bool :=
  let job := mkJob (b_events buf) (b_msgs buf) (b_bytes buf) (b_footprint buf) in
  let room := Zlen (jobs s) <? Workers (cfg s) * 8 in
  let sent := if block then (0 <? drainDeadline s - now) && negb timedOut && room else room in
  if negb sent then (s, false)
  else (set_buffer None (set_inflight (inflight s + j_footprint job) (set_jobs (jobs s ++ [job]) s)), true).

(** The flush triggers. *)
Definition triggered (c : Config) (now : Z) (buf : eventBuffer) : bool :=
  let age := now - b_firstAt buf in
  (Zlen (b_events buf) >=? MaxRowsPerFlush c) ||
  (b_bytes buf >=? MaxBytesPerFlush c) ||
  ((age >=? MaxAge c) && (b_bytes buf >=? MinFlushBytes c)) ||
  (age >=? MaxAgeHard c).

Definition flushReady (now : Z) (timedOut : bool) (s : Sink) (force : bool) : Sink :=
  match buffer s with
  | None => s
  | Some buf =>
      if Zlen (b_events buf) =? 0 then s
      else if force || triggered (cfg s) now buf then (enqueue now timedOut s buf force).1
      else s
  end.

(** Resident bytes: the buffer and everything handed to the workers. *)
Definition bufBytes (s : Sink) : Z := match buffer s with Some b => b_footprint b | None => 0 end.
Definition resident (s : Sink) : Z := bufBytes s + inflight s.

(** The two halves of one round of applyBackpressure: is the sink under its
    ceiling (the loop returns), and the hand-off before it waits on flushed. *)
Definition underCeiling (s : Sink) : bool :=
  (MaxBufferedBytes (cfg s) <=? 0) || (resident s <? MaxBufferedBytes (cfg s)).
Definition handOff (now : Z) (s : Sink) : Sink :=
  match buffer s with Some b => (enqueue now false s b false).1 | None => s end.
End Buffering.

(** ** The flush workers *)

(** BundleWriter, over the state of the lake; [bw_ctxErr] tells whether the
    flush context is done (timed out or cancelled) in that state. *)
Class BundleWriter := {
  lake : Type;
  bw_WriteBundle : lake -> list StoredEvent -> lake * option error;
  bw_ctxErr : lake -> bool
}.

(** "WriteBundle durably persists events; on return, acking is safe", and what
    is persisted stays. *)
Class BundleWriterLaws (W : BundleWriter) := {
  persisted : lake -> StoredEvent -> Prop;
  write_persists l evs l' : bw_WriteBundle l evs = (l', None) -> Forall (persisted l') evs;
  write_keeps l evs l' r ev : bw_WriteBundle l evs = (l', r) -> persisted l ev -> persisted l' ev
}.

Definition recordCommitFailure (now : Z) (s : Sink) : Sink :=
  if commitFailFirst s =? 0 then set_commitFailFirst now s
  else if now - commitFailFirst s >=? CommitFailureWindow (cfg s)
  then match fatal s with
       | None => set_fatal (Some (ENew ("sink committed nothing for " +:+ DurationString (CommitFailureWindow (cfg s)) +:+
           ": writer/catalog durably broken (restart re-pins connections)"))) s
       | Some _ => s
       end
  else s.

(** flushDone: a token is dropped when the channel already holds Workers. *)
Definition flushDone (footprint : Z) (s : Sink) : Sink :=
  let s := set_inflight (inflight s - footprint) s in
  if flushed s <? Workers (cfg s) then set_flushed (flushed s + 1) s else s.

Definition redeliveryCount (m : JMsg) : Z := match jm_NumDelivered m with Ok n => n | Err _ => 0 end.

(** s[lo:hi] *)
Definition slice {A} (l : list A) (lo hi : nat) : list A := take (hi - lo) (drop lo l).

(** ackAll and terminatePoison: what they settle, in order; an Ack or Term that fails is
    only logged. *)
Definition ackAll (msgs : list JMsg) : list settlement := Acked <$> msgs.
Definition terminatePoison (m : JMsg) : list settlement := [Termed m].

Section Isolate.
Context `{BundleWriter}.

(** The state of one isolate pass: the lake, whether a commit cleared the
    failure streak, isolateState, and what was settled so far. *)
Record pass := mkPass {
  p_lake : lake; p_cleared : bool; p_committed : Z; p_attempts : Z; p_settled : list settlement
}.

(** isolateRange on job.events[lo:hi]; the fuel bounds the depth of the
    bisection, and hi - lo is enough of it (see isolateRange_fuel). *)
Fixpoint isolateRange (fuel : nat) (job : flushJob) (lo hi : nat) (p : pass) : pass :=
  match fuel with
  | O => p
  | S fuel' =>
      if (hi <=? lo)%nat || bw_ctxErr (p_lake p) then p
      else if (p_committed p =? 0) && (p_attempts p >=? isolateProbeLimit) then p
      else
        match bw_WriteBundle (p_lake p) (slice (j_events job) lo hi) with
        | (l, None) =>
            mkPass l true (p_committed p + Z.of_nat (hi - lo)) (p_attempts p + 1)
              (p_settled p ++ ackAll (slice (j_msgs job) lo hi))
        | (l, Some err) =>
            let p := mkPass l (p_cleared p) (p_committed p) (p_attempts p + 1) (p_settled p) in
            if (hi - lo =? 1)%nat then
              match j_msgs job !! lo with
              | Some m =>
                  if errors_is err ErrPoisonRow ||
                     ((0 <? p_committed p) && (redeliveryCount m >=? poisonRedeliveryThreshold))
                  then mkPass (p_lake p) (p_cleared p) (p_committed p) (p_attempts p) (p_settled p ++ terminatePoison m)
                  else p
              | None => p
              end
            else
              let mid := (lo + (hi - lo) / 2)%nat in
              isolateRange fuel' job mid hi (isolateRange fuel' job lo mid p)
        end
  end.

Definition isolate (l : lake) (job : flushJob) : pass :=
  isolateRange (length (j_events job)) job 0 (length (j_events job)) (mkPass l false 0 0 []).

(** flush: the bundle, or else its isolation; then the job's footprint is
    released. *)
Definition flush (now : Z) (s : Sink) (l : lake) (job : flushJob) : Sink * lake * list settlement :=
  match bw_WriteBundle l (j_events job) with
  | (l', Some _) =>
      let s := recordCommitFailure now s in
      let p := isolate l' job in
      let s := if p_cleared p then set_commitFailFirst 0 s else s in
      (flushDone (j_footprint job) s, p_lake p, p_settled p)
  | (l', None) => (flushDone (j_footprint job) (set_commitFailFirst 0 s), l', ackAll (j_msgs job))
  end.
End Isolate.

(** ** Run: the event loop and the workers as a step relation *)

(** Where the Run goroutine is: at its select, in a round of applyBackpressure,
    waiting there for a worker, draining, or out of the loop with an error. *)
Inductive control := AtSelect | InBackpressure | Waiting | Draining | Exited (e : error).

Section Run.
Context `{CloudEventLib} `{NatsHeaderLib} `{BundleWriter}.

(** The sink, the control point, the jobs the workers are flushing, the lake,
    what was settled, the deliveries received, and whether ctx is done. *)
Record state := mkState {
  st_sink : Sink; st_pc : control; st_running : list flushJob; st_lake : lake;
  st_settled : list settlement; st_received : list JMsg; st_done : bool
}.

Definition init (c : Config) (l : lake) : state := mkState (New c) AtSelect [] l [] [] false.

(** One step of the Run goroutine, of a worker, or of the environment. The
    counter updates of enqueue and flushDone commute and only Run reads the sum,
    so each is one step with its channel operation; a flush is one step, the
    writes of concurrent workers being independent appends. *)
Inductive step : state -> state -> Prop :=
| step_message now msg s s' out run l tr rcv d :
    add now s msg = (s', out) ->
    step (mkState s AtSelect run l tr rcv d)
         (mkState (flushReady now false s' false) InBackpressure run l (tr ++ out) (rcv ++ [msg]) d)
| step_tick now s run l tr rcv d :
    step (mkState s AtSelect run l tr rcv d)
         (mkState (flushReady now false s false) AtSelect run l tr rcv d)
| step_under s run l tr rcv d :
    underCeiling s = true ->
    step (mkState s InBackpressure run l tr rcv d) (mkState s AtSelect run l tr rcv d)
| step_over now s run l tr rcv d :
    underCeiling s = false ->
    step (mkState s InBackpressure run l tr rcv d) (mkState (handOff now s) Waiting run l tr rcv d)
| step_wake s run l tr rcv d :
    0 < flushed s ->
    step (mkState s Waiting run l tr rcv d)
         (mkState (set_flushed (flushed s - 1) s) InBackpressure run l tr rcv d)
| step_wait_done s run l tr rcv :
    step (mkState s Waiting run l tr rcv true) (mkState s AtSelect run l tr rcv true)
| step_cancel s pc run l tr rcv d :
    step (mkState s pc run l tr rcv d) (mkState s pc run l tr rcv true)
| step_fatal e s run l tr rcv d :
    fatal s = Some e ->
    step (mkState s AtSelect run l tr rcv d)
         (mkState (set_fatal None s) (Exited e) run l tr rcv d)
| step_drain now later timedOut s run l tr rcv d :
    step (mkState s AtSelect run l tr rcv d)
         (mkState (flushReady later timedOut (set_drainDeadline (now + DrainTimeout (cfg s)) s) true)
            Draining run l tr rcv d)
| step_take job js s pc run l tr rcv d :
    jobs s = job :: js -> Zlen run < Workers (cfg s) ->
    step (mkState s pc run l tr rcv d) (mkState (set_jobs js s) pc (run ++ [job]) l tr rcv d)
| step_flush now job run1 run2 s s' pc l l' tr out rcv d :
    flush now s l job = (s', l', out) ->
    step (mkState s pc (run1 ++ job :: run2) l tr rcv d)
         (mkState s' pc (run1 ++ run2) l' (tr ++ out) rcv d).

Inductive reachable (c : Config) (l : lake) : state -> Prop :=
| reach_init : reachable c l (init c l)
| reach_step st st' : reachable c l st -> step st st' -> reachable c l st'.
End Run.

(** ** Lemmas: slices and the bisection *)

Lemma slice_split {A} (l : list A) lo mid hi :
  (lo <= mid <= hi)%nat -> slice l lo hi = slice l lo mid ++ slice l mid hi.
Proof.
  intros Hm. unfold slice.
  replace (drop mid l) with (drop (mid - lo) (drop lo l)) by (rewrite drop_drop; f_equal; lia).
  rewrite take_take_drop. f_equal. lia.
Qed.

Lemma slice_single {A} (l : list A) lo hi x :
  (hi - lo = 1)%nat -> l !! lo = Some x -> slice l lo hi = [x].
Proof. intros Hd Hx. unfold slice. by rewrite Hd, (drop_S _ _ _ Hx). Qed.

Lemma slice_all {A} (l : list A) : slice l 0 (length l) = l.
Proof. unfold slice. by rewrite Nat.sub_0_r, drop_0, firstn_all. Qed.

Lemma elem_of_slice {A} (l : list A) lo hi x : x ∈ slice l lo hi -> exists i, l !! i = Some x /\ (lo <= i < hi)%nat.
Proof.
  unfold slice. intros (i & Hi)%list_elem_of_lookup. apply lookup_take_Some in Hi as [Hi Hlt].
  rewrite lookup_drop in Hi. exists (lo + i)%nat. split; [done | lia].
Qed.

Lemma length_slice {A} (l : list A) lo hi : (hi <= length l)%nat -> length (slice l lo hi) = (hi - lo)%nat.
Proof. intros Hh. unfold slice. rewrite length_take, length_drop. lia. Qed.

#[local] Arguments Nat.div : simpl never.

(** The midpoint of the bisection splits off two shorter, non-empty ranges. *)
Lemma mid_bounds lo hi :
  (lo < hi)%nat -> (hi - lo <> 1)%nat ->
  (lo < lo + (hi - lo) / 2 < hi)%nat.
Proof.
  intros Hl Hn. pose proof (Nat.div_str_pos (hi - lo) 2 ltac:(lia)).
  pose proof (Nat.div_lt (hi - lo) 2 ltac:(lia) ltac:(lia)). lia.
Qed.

Section IsolateLemmas.
Context `{W : BundleWriter}.

(** Enough fuel: the range's length, or more. *)
Lemma isolateRange_fuel fuel fuel' job lo hi p :
  (hi - lo <= fuel)%nat -> (hi - lo <= fuel')%nat ->
  isolateRange fuel job lo hi p = isolateRange fuel' job lo hi p.
Proof.
  revert fuel' lo hi p. induction fuel as [|fuel IH]; intros fuel' lo hi p Hf Hf'.
  { destruct fuel' as [|fuel']; simpl; [done|]. by destruct (Nat.leb_spec hi lo); [|lia]. }
  destruct fuel' as [|fuel']; simpl; [by destruct (Nat.leb_spec hi lo); [|lia]|].
  destruct (Nat.leb_spec hi lo); [done|]. simpl. destruct (bw_ctxErr _); [done|].
  destruct (_ && _); [done|]. destruct (bw_WriteBundle _ _) as [l [err|]]; [|done].
  destruct (Nat.eqb_spec (hi - lo) 1); [done|].
  pose proof (mid_bounds lo hi ltac:(lia) ltac:(lia)).
  generalize dependent (lo + (hi - lo) / 2)%nat. intros mid Hmid.
  rewrite (IH fuel' lo mid) by lia. apply IH; lia.
Qed.

(** A rule for properties of the pass that every write and every termination
    preserve: [P lo hi p p'] relates the pass before and after a range. *)
Lemma isolateRange_ind job (P : nat -> nat -> pass -> pass -> Prop) :
  (forall lo hi p, (hi <= lo)%nat \/ bw_ctxErr (p_lake p) = true \/
                   (p_committed p = 0 /\ isolateProbeLimit <= p_attempts p) -> P lo hi p p) ->
  (forall lo hi p l, (lo < hi)%nat -> ~ (p_committed p = 0 /\ isolateProbeLimit <= p_attempts p) ->
     bw_WriteBundle (p_lake p) (slice (j_events job) lo hi) = (l, None) ->
     P lo hi p (mkPass l true (p_committed p + Z.of_nat (hi - lo)) (p_attempts p + 1)
                  (p_settled p ++ (Acked <$> slice (j_msgs job) lo hi)))) ->
  (forall lo hi p l err out, (hi - lo = 1)%nat -> ~ (p_committed p = 0 /\ isolateProbeLimit <= p_attempts p) ->
     bw_WriteBundle (p_lake p) (slice (j_events job) lo hi) = (l, Some err) ->
     (out = [] \/ exists m, out = [Termed m] /\ j_msgs job !! lo = Some m /\
        (errors_is err ErrPoisonRow = true \/
         (0 < p_committed p /\ poisonRedeliveryThreshold <= redeliveryCount m))) ->
     P lo hi p (mkPass l (p_cleared p) (p_committed p) (p_attempts p + 1) (p_settled p ++ out))) ->
  (forall lo mid hi p l err p1 p2, (lo < mid < hi)%nat ->
     ~ (p_committed p = 0 /\ isolateProbeLimit <= p_attempts p) ->
     bw_WriteBundle (p_lake p) (slice (j_events job) lo hi) = (l, Some err) ->
     P lo mid (mkPass l (p_cleared p) (p_committed p) (p_attempts p + 1) (p_settled p)) p1 ->
     P mid hi p1 p2 -> P lo hi p p2) ->
  forall fuel lo hi p, (hi - lo <= fuel)%nat -> P lo hi p (isolateRange fuel job lo hi p).
Proof.
  intros Hstop Hok Hleaf Hsplit fuel. induction fuel as [|fuel IH]; intros lo hi p Hf; simpl.
  { apply Hstop. left. lia. }
  destruct (Nat.leb_spec hi lo); simpl; [apply Hstop; left; lia|].
  destruct (bw_ctxErr (p_lake p)) eqn:Ec; [apply Hstop; auto|].
  destruct (_ && _) eqn:Ep; [bool_to_prop; apply Hstop; auto|].
  assert (~ (p_committed p = 0 /\ isolateProbeLimit <= p_attempts p)) as Hnp.
  { intros [E1 E2]. rewrite E1 in Ep. simpl in Ep. bool_to_prop. lia. }
  destruct (bw_WriteBundle _ _) as [l [err|]] eqn:Ew; [|by apply Hok].
  destruct (Nat.eqb_spec (hi - lo) 1).
  - destruct (j_msgs job !! lo) as [m|] eqn:Em.
    + destruct (_ || _) eqn:Et; simpl.
      * apply (Hleaf _ _ _ _ err [Termed m]); auto. right. exists m. split; [done|]. split; [done|].
        apply orb_true_iff in Et as [?|Et]; [by left|]. right. simpl in Et. bool_to_prop. lia.
      * rewrite <- (app_nil_r (p_settled p)) at 1. apply (Hleaf _ _ _ _ err []); auto.
    + rewrite <- (app_nil_r (p_settled p)) at 1. apply (Hleaf _ _ _ _ err []); auto.
  - pose proof (mid_bounds lo hi ltac:(lia) ltac:(lia)).
    eapply Hsplit; [eassumption..| |]; apply IH; lia.
Qed.
End IsolateLemmas.

Section FlushLemmas.
Context `{W : BundleWriter} `{L : !BundleWriterLaws W}.

(** Why a settlement of a job's message is right: an acked event is in the
    lake; a terminated one failed to be written alone, with the poison tag, or at
    its tenth delivery or later while another message of the pass committed. *)
Definition justified (job : flushJob) (l : lake) (tr : list settlement) (s : settlement) : Prop :=
  exists i ev, j_events job !! i = Some ev /\ j_msgs job !! i = Some (settled_msg s) /\
    match s with
    | Acked _ => persisted l ev
    | Termed m =>
        exists l0 l1 err, bw_WriteBundle l0 [ev] = (l1, Some err) /\
          (errors_is err ErrPoisonRow = true \/
           (poisonRedeliveryThreshold <= redeliveryCount m /\ exists m', Acked m' ∈ tr))
    end.

Lemma justified_mono job l l' tr tr' s :
  (forall ev, persisted l ev -> persisted l' ev) -> (forall x, x ∈ tr -> x ∈ tr') ->
  justified job l tr s -> justified job l' tr' s.
Proof.
  intros Hl Ht (i & ev & He & Hm & Hs). exists i, ev. split; [done|]. split; [done|].
  destruct s; [auto|]. destruct Hs as (l0 & l1 & err & Hw & Hp). exists l0, l1, err. split; [done|].
  destruct Hp as [?|(? & m' & ?)]; [by left | right; eauto].
Qed.

Definition job_wf (job : flushJob) : Prop := length (j_events job) = length (j_msgs job).

(** The invariant of a pass. *)
Record pass_ok (job : flushJob) (p : pass) : Prop := {
  po_nonneg : 0 <= p_committed p;
  po_acked : 0 < p_committed p -> exists m, Acked m ∈ p_settled p;
  po_none : p_committed p = 0 -> forall m, Acked m ∉ p_settled p;
  po_just : Forall (justified job (p_lake p) (p_settled p)) (p_settled p)
}.

Lemma Forall_justified_mono job l l' tr tr' xs :
  (forall ev, persisted l ev -> persisted l' ev) -> (forall x, x ∈ tr -> x ∈ tr') ->
  Forall (justified job l tr) xs -> Forall (justified job l' tr') xs.
Proof. intros Hl Ht Hf. eapply Forall_impl; [exact Hf|]. intros s. by apply justified_mono. Qed.

Lemma in_app_l {A} (tr out : list A) : forall x, x ∈ tr -> x ∈ tr ++ out.
Proof. intros x Hx. apply elem_of_app. by left. Qed.

Lemma acked_slice_justified job l lo hi tr :
  job_wf job -> Forall (persisted l) (slice (j_events job) lo hi) ->
  Forall (justified job l tr) (Acked <$> slice (j_msgs job) lo hi).
Proof.
  intros Hwf Hp. apply Forall_fmap, Forall_forall. intros m Hm.
  apply elem_of_slice in Hm as (i & Hi & Hb).
  destruct (lookup_lt_is_Some_2 (j_events job) i) as [ev Hev].
  { rewrite Hwf. by eapply lookup_lt_Some. }
  exists i, ev. split; [done|]. split; [done|]. rewrite Forall_forall in Hp. apply Hp.
  apply list_elem_of_lookup. exists (i - lo)%nat. unfold slice. rewrite lookup_take, lookup_drop.
  replace (lo + (i - lo))%nat with i by lia. by case_decide; [|lia].
Qed.

Lemma isolateRange_ok fuel job lo hi p :
  job_wf job -> (hi <= length (j_events job))%nat -> (hi - lo <= fuel)%nat ->
  pass_ok job p -> pass_ok job (isolateRange fuel job lo hi p).
Proof.
  intros Hwf Hhi Hf. revert Hhi.
  apply (isolateRange_ind job (fun lo hi p p' =>
    (hi <= length (j_events job))%nat -> pass_ok job p -> pass_ok job p')); try done; clear - Hwf L.
  - intros lo hi p l Hlt Hnp Hw Hhi [Hn Ha Hz Hj]. split; simpl; [lia| |lia|].
    + intros _. destruct (slice (j_msgs job) lo hi) as [|m ms] eqn:Es.
      { apply (f_equal length) in Es. rewrite length_slice in Es by (rewrite <- Hwf; lia). simpl in Es. lia. }
      exists m. apply elem_of_app. right. by left.
    + apply Forall_app. split.
      * eapply Forall_justified_mono; [|apply in_app_l|exact Hj]. intros ev. by eapply write_keeps.
      * apply acked_slice_justified; [done|]. by eapply write_persists.
  - intros lo hi p l err out Hlt Hnp Hw Hout Hhi [Hn Ha Hz Hj]. split; simpl; [lia| | |].
    + intros Hc. destruct (Ha Hc) as [m Hm]. exists m. by apply in_app_l.
    + intros Hc m [Hm|Hm]%elem_of_app; [by eapply Hz|].
      destruct Hout as [->|(m' & -> & _)]; [by apply elem_of_nil in Hm|].
      by apply list_elem_of_singleton in Hm.
    + apply Forall_app. split.
      * eapply Forall_justified_mono; [|apply in_app_l|exact Hj]. intros ev. by eapply write_keeps.
      * destruct Hout as [->|(m & -> & Hm & He)]; [constructor|]. constructor; [|constructor].
        destruct (lookup_lt_is_Some_2 (j_events job) lo) as [ev Hev]; [lia|].
        exists lo, ev. split; [done|]. split; [done|]. exists (p_lake p), l, err.
        rewrite (slice_single _ _ _ ev) in Hw by done. split; [done|].
        destruct He as [?|[Hc ?]]; [by left|]. right. split; [done|].
        destruct (Ha Hc) as [m' Hm']. exists m'. by apply in_app_l.
  - intros lo mid hi p l err p1 p2 Hm Hnp Hw H1 H2 Hhi [Hn Ha Hz Hj].
    apply H2; [done|]. apply H1; [lia|]. split; simpl; [done..|].
    eapply Forall_justified_mono; [|by intros x Hx|exact Hj]. intros ev. by eapply write_keeps.
Qed.

(** Settlements of a range are appended, in message order and at most one per
    message. *)
Lemma isolateRange_settled fuel job lo hi p :
  (hi - lo <= fuel)%nat ->
  exists out, p_settled (isolateRange fuel job lo hi p) = p_settled p ++ out /\
    (settled_msg <$> out) `sublist_of` slice (j_msgs job) lo hi.
Proof.
  apply (isolateRange_ind job (fun lo hi p p' => exists out, p_settled p' = p_settled p ++ out /\
    (settled_msg <$> out) `sublist_of` slice (j_msgs job) lo hi)); clear.
  - intros lo hi p _. exists []. rewrite app_nil_r. split; [done | apply sublist_nil_l].
  - intros lo hi p l _ _ _. eexists. split; [done|].
    rewrite <- list_fmap_compose, (list_fmap_ext _ id), list_fmap_id; [done|]. by intros.
  - intros lo hi p l err out Hlt _ _ Hout. exists out. split; [done|].
    destruct Hout as [->|(m & -> & Hm & _)]; [apply sublist_nil_l|].
    by rewrite (slice_single _ _ _ m).
  - intros lo mid hi p l err p1 p2 Hm _ _ (o1 & E1 & S1) (o2 & E2 & S2). exists (o1 ++ o2).
    rewrite E2, E1, <- app_assoc. split; [done|].
    rewrite fmap_app, (slice_split _ lo mid hi) by lia. by apply sublist_app.
Qed.

(** A range settled in full has the row of every ack in the lake. *)
Definition ack_stored (l : lake) (ev : StoredEvent) (s : settlement) : Prop :=
  match s with Acked _ => persisted l ev | Termed _ => True end.
Lemma ack_stored_mono l l' evs out :
  (forall ev, persisted l ev -> persisted l' ev) -> Forall2 (ack_stored l) evs out -> Forall2 (ack_stored l') evs out.
Proof. intros Hk Hf. eapply Forall2_impl; [exact Hf|]. intros ev []; simpl; auto. Qed.

Lemma isolateRange_stores fuel job lo hi p :
  job_wf job -> (hi <= length (j_events job))%nat -> (hi - lo <= fuel)%nat ->
  let p' := isolateRange fuel job lo hi p in
  (forall ev, persisted (p_lake p) ev -> persisted (p_lake p') ev) /\
  exists out, p_settled p' = p_settled p ++ out /\ (length out <= hi - lo)%nat /\
    (length out = (hi - lo)%nat -> Forall2 (ack_stored (p_lake p')) (slice (j_events job) lo hi) out).
Proof.
  intros Hwf Hhi Hf. revert Hhi.
  apply (isolateRange_ind job (fun lo hi p p' => (hi <= length (j_events job))%nat ->
    (forall ev, persisted (p_lake p) ev -> persisted (p_lake p') ev) /\
    exists out, p_settled p' = p_settled p ++ out /\ (length out <= hi - lo)%nat /\
      (length out = (hi - lo)%nat -> Forall2 (ack_stored (p_lake p')) (slice (j_events job) lo hi) out))); try done; clear - Hwf L.
  - intros lo hi p Hhi. split; [done|]. exists []. rewrite app_nil_r. simpl. split_and!; [done|lia|]. intros He.
    replace (slice (j_events job) lo hi) with (@nil StoredEvent); [constructor|]. unfold slice. by rewrite <- He, take_0.
  - intros lo hi p l Hlt Hnp Hw Hhi. simpl. split; [intros ev; by eapply write_keeps|]. eexists. split; [done|].
    rewrite length_fmap, length_slice by (rewrite <- Hwf; lia). split; [done|]. intros _.
    apply write_persists in Hw. apply Forall2_fmap_r. apply Forall2_same_length_lookup_2; [rewrite !length_slice; [done|rewrite <- Hwf; lia|lia]|].
    intros i ev m Hev _. rewrite Forall_lookup in Hw. by eapply Hw.
  - intros lo hi p l err out Hlt Hnp Hw Hout Hhi. simpl. split; [intros ev; by eapply write_keeps|]. exists out. split; [done|].
    destruct Hout as [->|(m & -> & _)]; simpl; (split; [lia|]); intros He.
    + lia.
    + destruct (lookup_lt_is_Some_2 (j_events job) lo) as [ev Hev]; [lia|]. rewrite (slice_single _ _ _ ev) by (done || lia).
      constructor; [done|constructor].
  - intros lo mid hi p l err p1 p2 Hm Hnp Hw H1 H2 Hhi. destruct (H1 ltac:(lia)) as (K1 & o1 & E1 & L1 & S1).
    destruct (H2 Hhi) as (K2 & o2 & E2 & L2 & S2). simpl in *.
    split; [intros ev Hev; apply K2, K1; by eapply write_keeps|]. exists (o1 ++ o2).
    rewrite E2, E1, <- app_assoc, length_app. split_and!; [done|lia|]. intros He.
    rewrite (slice_split _ lo mid hi) by lia. apply Forall2_app; [|apply S2; lia]. eapply ack_stored_mono; [exact K2|]. apply S1. lia.
Qed.

(** Write attempts: linear in the range, and at most the probe limit when nothing
    commits. *)
Lemma isolateRange_attempts fuel job lo hi p :
  (hi - lo <= fuel)%nat ->
  let p' := isolateRange fuel job lo hi p in
  0 <= p_committed p -> 0 <= p_committed p' - p_committed p /\
  p_attempts p' - p_attempts p <= Z.max 0 (2 * Z.of_nat (hi - lo) - 1) /\
  (p_attempts p <= isolateProbeLimit -> p_committed p' = 0 -> p_attempts p' <= isolateProbeLimit).
Proof.
  apply (isolateRange_ind job (fun lo hi p p' =>
    0 <= p_committed p -> 0 <= p_committed p' - p_committed p /\
    p_attempts p' - p_attempts p <= Z.max 0 (2 * Z.of_nat (hi - lo) - 1) /\
    (p_attempts p <= isolateProbeLimit -> p_committed p' = 0 -> p_attempts p' <= isolateProbeLimit)));
    clear; unfold isolateProbeLimit; simpl.
  - intros; lia.
  - intros; lia.
  - intros; lia.
  - intros lo mid hi p l err p1 p2 Hm Hnp _ H1 H2 Hc.
    destruct (H1 Hc) as (? & ? & ?). destruct H2 as (? & ? & ?); lia.
Qed.
End FlushLemmas.

(** ** Lemmas: the state invariant *)

Section Invariant.
Context `{CloudEventLib} `{NatsHeaderLib} `{W : BundleWriter} `{L : !BundleWriterLaws W}.

Definition decoded (ev : StoredEvent) (m : JMsg) : Prop := ParseMsg (jm_Headers m) (jm_Data m) = Ok ev.
Definition footprint_of (ev : StoredEvent) (m : JMsg) : Z := bufferedFootprint ev (strlen (jm_Data m)).

(** A batch (buffer or job): events and messages side by side, with the byte
    counts the code keeps for them. *)
Record batch_ok (evs : list StoredEvent) (ms : list JMsg) (bytes footprint : Z) : Prop := {
  bo_decoded : Forall2 decoded evs ms;
  bo_nonempty : evs <> [];
  bo_bytes : bytes = sumZ ((fun m => strlen (jm_Data m)) <$> ms);
  bo_footprint : footprint = sumZ (zip_with footprint_of evs ms)
}.
Definition buffer_ok (b : eventBuffer) : Prop := batch_ok (b_events b) (b_msgs b) (b_bytes b) (b_footprint b).
Definition job_ok (j : flushJob) : Prop := batch_ok (j_events j) (j_msgs j) (j_bytes j) (j_footprint j).

(** The enqueued sink: the buffer became the last job. *)
Definition moved (s : Sink) (b : eventBuffer) : Sink :=
  set_buffer None (set_inflight (inflight s + b_footprint b)
    (set_jobs (jobs s ++ [mkJob (b_events b) (b_msgs b) (b_bytes b) (b_footprint b)]) s)).

(** Handing the buffer off changes nothing or moves it into a free slot. *)
Definition hands_off (s s' : Sink) : Prop :=
  s' = s \/ exists b, buffer s = Some b /\ Zlen (jobs s) < Workers (cfg s) * 8 /\ s' = moved s b.

Lemma enqueue_hands_off now t s b block : buffer s = Some b -> hands_off s (enqueue now t s b block).1.
Proof.
  intros Hb. unfold enqueue. destruct (Zlen (jobs s) <? _) eqn:Er.
  - apply Z.ltb_lt in Er. destruct (negb _); simpl; [by left | right]. by exists b.
  - left. rewrite andb_false_r. by destruct block.
Qed.

Lemma flushReady_hands_off now t s force : hands_off s (flushReady now t s force).
Proof.
  unfold flushReady. destruct (buffer s) as [b|] eqn:Eb; [|by left].
  destruct (_ =? 0); [by left|]. destruct (_ || _); [by apply enqueue_hands_off | by left].
Qed.

Lemma handOff_hands_off now s : hands_off s (handOff now s).
Proof. unfold handOff. destruct (buffer s) as [b|] eqn:Eb; [by apply enqueue_hands_off | by left]. Qed.

Lemma moved_resident s b : buffer s = Some b -> resident (moved s b) = resident s.
Proof. intros Hb. unfold resident, bufBytes. rewrite Hb. simpl. lia. Qed.

(** What add does to the buffer. *)
Lemma add_cases now s m s' out :
  add now s m = (s', out) ->
  (is_ok (ParseMsg (jm_Headers m) (jm_Data m)) = false /\ s' = s /\ out = [Termed m]) \/
  (exists ev b, decoded ev m /\ out = [] /\ s' = set_buffer (Some b) s /\
     b_msgs b = default [] (b_msgs <$> buffer s) ++ [m] /\
     ((forall b0, buffer s = Some b0 -> buffer_ok b0) -> buffer_ok b) /\
     b_footprint b = bufBytes s + footprint_of ev m).
Proof.
  unfold add, bufBytes. destruct (ParseMsg _ _) as [ev|e] eqn:Ep; intros [= <- <-]; [|by left]. right.
  eexists ev, _. split; [done|]. split; [done|]. split; [done|].
  destruct (buffer s) as [b|]; simpl; (split; [done|]; split; [|done]).
  - intros Hb. destruct (Hb b eq_refl) as [Hd Hn Hy Hf]. split; simpl.
    + apply Forall2_app; [done|]. constructor; [done | constructor].
    + by destruct (b_events b).
    + rewrite fmap_app, sumZ_app, Hy. simpl. lia.
    + rewrite zip_with_app by (by eapply Forall2_length). rewrite sumZ_app, Hf. simpl.
      unfold footprint_of. lia.
  - intros _. split; simpl; [constructor; [done | constructor] | done | lia | unfold footprint_of; lia].
Qed.

(** Messages received and not yet through a flush. *)
Definition pending (st : state) : list JMsg :=
  default [] (b_msgs <$> buffer (st_sink st)) ++
  concat (j_msgs <$> jobs (st_sink st) ++ st_running st).

(** Why a settlement is right, without reference to a job. *)
Definition rightly (l : lake) (s : settlement) : Prop :=
  match s with
  | Acked m => exists ev, decoded ev m /\ persisted l ev
  | Termed m =>
      is_ok (ParseMsg (jm_Headers m) (jm_Data m)) = false \/
      exists ev l0 l1 err, decoded ev m /\ bw_WriteBundle l0 [ev] = (l1, Some err) /\
        (errors_is err ErrPoisonRow = true \/ poisonRedeliveryThreshold <= redeliveryCount m)
  end.

Record inv (c : Config) (st : state) : Prop := {
  i_cfg : cfg (st_sink st) = applyDefaults c;
  i_buffer : forall b, buffer (st_sink st) = Some b -> buffer_ok b;
  i_jobs : Forall job_ok (jobs (st_sink st) ++ st_running st);
  i_inflight : inflight (st_sink st) = sumZ (j_footprint <$> jobs (st_sink st) ++ st_running st);
  i_queue : Zlen (jobs (st_sink st)) <= Z.max 0 (Workers (cfg (st_sink st)) * 8);
  i_settled : Forall (rightly (st_lake st)) (st_settled st);
  i_once : (settled_msg <$> st_settled st) ++ pending st ⊆+ st_received st
}.

Lemma rightly_mono l l' s : (forall ev, persisted l ev -> persisted l' ev) -> rightly l s -> rightly l' s.
Proof. intros Hl. destruct s; simpl; [|done]. intros (ev & ? & ?). eauto. Qed.

Lemma inv_init c l : inv c (init c l).
Proof. split; simpl; try done; try constructor. unfold Zlen; simpl; lia. Qed.

(** A hand-off keeps the invariant, wherever Run is. *)
Lemma inv_hands_off c s s' pc pc' run l tr rcv d d' :
  hands_off s s' -> inv c (mkState s pc run l tr rcv d) -> inv c (mkState s' pc' run l tr rcv d').
Proof.
  intros [->|(b & Hb & Hr & ->)] [Hc Hbuf Hj Hi Hq Hs Ho]; simpl in *; [by split|].
  specialize (Hbuf b Hb). split; simpl; try done.
  - rewrite <- app_assoc. apply Forall_app in Hj as [Hj1 Hj2]. apply Forall_app. split; [done|]. by constructor.
  - rewrite Hi, !fmap_app, !sumZ_app. simpl. lia.
  - rewrite Zlen_app. unfold Zlen at 2. simpl. lia.
  - revert Ho. unfold pending. simpl. rewrite Hb. simpl. intros Ho. etrans; [|exact Ho].
    apply Permutation_submseteq. rewrite !fmap_app, !concat_app. simpl. rewrite app_nil_r. solve_Permutation.
Qed.
(** What one flush does: it only releases the footprint of its job, it keeps
    the lake, and each of its settlements is right. *)
Lemma isolateRange_keeps fuel job lo hi p ev :
  (hi - lo <= fuel)%nat -> persisted (p_lake p) ev -> persisted (p_lake (isolateRange fuel job lo hi p)) ev.
Proof.
  intros Hf. revert Hf. apply (isolateRange_ind job (fun lo hi p p' =>
    persisted (p_lake p) ev -> persisted (p_lake p') ev)); simpl; clear - L; try done.
  - intros lo hi p l _ _ Hw. by eapply write_keeps.
  - intros lo hi p l err out _ _ Hw _. by eapply write_keeps.
  - intros lo mid hi p l err p1 p2 _ _ Hw H1 H2 Hp. apply H2, H1. by eapply write_keeps.
Qed.

Lemma justified_rightly job l tr s : job_ok job -> justified job l tr s -> rightly l s.
Proof.
  intros [Hd _ _ _] (i & ev & He & Hm & Hs).
  destruct (Forall2_lookup_l _ _ _ _ _ Hd He) as (m' & Hm' & Hdec). rewrite Hm in Hm'. injection Hm' as <-.
  destruct s as [m|m]; simpl in *; [by exists ev|]. right.
  destruct Hs as (l0 & l1 & err & Hw & Hp). exists ev, l0, l1, err. split; [done|]. split; [done|].
  destruct Hp as [?|[? _]]; auto.
Qed.

Lemma job_ok_wf job : job_ok job -> job_wf job.
Proof. intros [Hd _ _ _]. by eapply Forall2_length. Qed.

Lemma isolate_ok l job : job_ok job -> pass_ok job (isolate l job).
Proof.
  intros Hj. unfold isolate. apply isolateRange_ok; [by apply job_ok_wf | lia | lia |].
  split; simpl; [lia | lia | by intros _ m ?%elem_of_nil | constructor].
Qed.

Lemma flush_spec now s l job s' l' out :
  job_ok job -> flush now s l job = (s', l', out) ->
  (cfg s' = cfg s /\ buffer s' = buffer s /\ jobs s' = jobs s /\
   inflight s' = inflight s - j_footprint job) /\
  (forall ev, persisted l ev -> persisted l' ev) /\
  Forall (rightly l') out /\ (settled_msg <$> out) `sublist_of` j_msgs job.
Proof.
  intros Hj. unfold flush.
  assert (forall x, cfg (flushDone (j_footprint job) x) = cfg x /\
    buffer (flushDone (j_footprint job) x) = buffer x /\ jobs (flushDone (j_footprint job) x) = jobs x /\
    inflight (flushDone (j_footprint job) x) = inflight x - j_footprint job) as Hfd.
  { intros x. unfold flushDone. by destruct (_ <? _). }
  destruct (bw_WriteBundle l (j_events job)) as [l1 [e|]] eqn:Ew; intros [= <- <- <-].
  - set (s1 := if p_cleared _ then _ else _).
    assert (cfg s1 = cfg s /\ buffer s1 = buffer s /\ jobs s1 = jobs s /\ inflight s1 = inflight s)
      as (F1 & F2 & F3 & F4).
    { unfold s1, recordCommitFailure. repeat (split_match; try done). }
    destruct (Hfd s1) as (E1 & E2 & E3 & E4). rewrite E1, E2, E3, E4, F4.
    split; [done|]. split.
    + intros ev Hp. unfold isolate. apply isolateRange_keeps; [lia|]. simpl. by eapply write_keeps.
    + split.
      * eapply Forall_impl; [apply po_just; by apply isolate_ok|]. intros x. by apply justified_rightly.
      * unfold isolate. destruct (isolateRange_settled (length (j_events job)) job 0 (length (j_events job))
          (mkPass l1 false 0 0 [])) as (o & -> & Ho); [lia|]. simpl in *.
        by rewrite (job_ok_wf job Hj), slice_all in Ho.
  - destruct (Hfd (set_commitFailFirst 0 s)) as (-> & -> & -> & ->). simpl. split; [done|].
    split; [intros ev; by eapply write_keeps|]. split.
    + apply (Forall_impl (justified job l1 []));
        [|intros x; by apply justified_rightly].
      rewrite <- (slice_all (j_msgs job)). apply acked_slice_justified; [by apply job_ok_wf|].
      rewrite <- (job_ok_wf job Hj), slice_all. by eapply write_persists.
    + unfold ackAll, terminatePoison in *. rewrite <- list_fmap_compose, (list_fmap_ext _ id), list_fmap_id; [done|]. by intros.
Qed.
(** A message keeps the invariant: it is terminated, or it joins the buffer. *)
Lemma inv_message c now m s s' out pc run l tr rcv d :
  add now s m = (s', out) -> inv c (mkState s pc run l tr rcv d) ->
  inv c (mkState s' pc run l (tr ++ out) (rcv ++ [m]) d).
Proof.
  intros Ha [Hc Hbuf Hj Hi Hq Hs Ho]. simpl in *.
  apply add_cases in Ha as [(Hp & -> & ->)|(ev & b & Hdec & -> & -> & Hm & Hok & _)].
  - split; simpl; try done.
    + apply Forall_app. split; [done|]. constructor; [by left | constructor].
    + unfold pending in *. simpl in *. rewrite fmap_app. simpl.
      rewrite <- app_assoc, (Permutation_app_comm [m]), app_assoc. by apply submseteq_app.
  - rewrite app_nil_r. split; simpl; try done.
    + intros b' [= <-]. by apply Hok.
    + unfold pending in *. simpl in *. rewrite Hm.
      etrans; [apply Permutation_submseteq|apply (submseteq_app _ _ [m] [m] Ho); done].
      solve_Permutation.
Qed.

Lemma inv_take c job js s pc run l tr rcv d :
  jobs s = job :: js -> inv c (mkState s pc run l tr rcv d) ->
  inv c (mkState (set_jobs js s) pc (run ++ [job]) l tr rcv d).
Proof.
  intros Hjs [Hc Hbuf Hj Hi Hq Hs Ho]. simpl in *. rewrite Hjs in *.
  assert (job :: js ++ run ≡ₚ js ++ run ++ [job]) as Hp by solve_Permutation.
  split; simpl; try done.
  - by rewrite <- Hp.
  - rewrite Hi, !fmap_app, !sumZ_app, fmap_cons. simpl. lia.
  - rewrite Zlen_cons in Hq. lia.
  - etrans; [|exact Ho]. apply Permutation_submseteq. unfold pending. simpl. rewrite Hjs.
    rewrite !fmap_app, !concat_app, fmap_cons. simpl. rewrite app_nil_r. solve_Permutation.
Qed.

Lemma inv_flush c now job run1 run2 s s' pc l l' tr out rcv d :
  flush now s l job = (s', l', out) ->
  inv c (mkState s pc (run1 ++ job :: run2) l tr rcv d) ->
  inv c (mkState s' pc (run1 ++ run2) l' (tr ++ out) rcv d).
Proof.
  intros Hf [Hc Hbuf Hj Hi Hq Hs Ho]. simpl in *.
  assert (jobs s ++ run1 ++ job :: run2 ≡ₚ job :: jobs s ++ run1 ++ run2) as Hp by solve_Permutation.
  assert (job_ok job) as Hjob by (rewrite Hp in Hj; by apply Forall_cons in Hj as [? _]).
  destruct (flush_spec _ _ _ _ _ _ _ Hjob Hf) as ((E1 & E2 & E3 & E4) & Hl & Hr & Hsub).
  split; simpl; rewrite ?E1, ?E2, ?E3, ?E4; try done.
  - rewrite Hp in Hj. by apply Forall_cons in Hj as [_ ?].
  - rewrite Hi, !fmap_app, !sumZ_app, fmap_cons. simpl. lia.
  - apply Forall_app. split; [|done]. eapply Forall_impl; [exact Hs|]. intros x. by apply rightly_mono.
  - etrans; [|exact Ho]. rewrite fmap_app, <- app_assoc. apply submseteq_app; [done|].
    unfold pending. simpl. rewrite E2, E3, Hp. rewrite fmap_cons. simpl.
    rewrite (app_assoc _ (j_msgs job)), (Permutation_app_comm _ (j_msgs job)), <- app_assoc.
    apply submseteq_app; [by apply sublist_submseteq | done].
Qed.

Lemma inv_step c st st' : inv c st -> step st st' -> inv c st'.
Proof.
  intros Hi Hs. destruct Hs.
  - eapply inv_hands_off; [apply flushReady_hands_off|]. by eapply inv_message.
  - by eapply inv_hands_off; [apply flushReady_hands_off|].
  - by eapply inv_hands_off; [left|].
  - by eapply inv_hands_off; [apply handOff_hands_off|].
  - destruct Hi. by split.
  - by eapply inv_hands_off; [left|].
  - by eapply inv_hands_off; [left|].
  - destruct Hi. by split.
  - eapply (inv_hands_off _ _ _ AtSelect _ _ _ _ _ d); [apply flushReady_hands_off|]. destruct Hi. by split.
  - by eapply inv_take.
  - by eapply inv_flush.
Qed.

Lemma reachable_inv c l st : reachable c l st -> inv c st.
Proof. induction 1; [apply inv_init | by eapply inv_step]. Qed.
(** The memory bound: at its select the sink is under the ceiling; anywhere else
    it is over it by less than one message. *)
Definition ceiling (c : Config) : Z := MaxBufferedBytes (applyDefaults c).
Definition small_messages (F : Z) (st : state) : Prop :=
  forall m ev, m ∈ st_received st -> decoded ev m -> footprint_of ev m <= F.

Definition within (c : Config) (F : Z) (st : state) : Prop :=
  st_done st = false -> small_messages F st ->
  match st_pc st with
  | AtSelect => resident (st_sink st) < ceiling c
  | _ => resident (st_sink st) < ceiling c + F
  end.

Lemma hands_off_resident s s' : hands_off s s' -> resident s' = resident s /\ cfg s' = cfg s.
Proof. intros [->|(b & Hb & _ & ->)]; [done|]. by rewrite moved_resident. Qed.

Lemma job_footprint_nonneg job : job_ok job -> 0 <= j_footprint job.
Proof.
  intros [_ _ _ ->]. apply sumZ_nonneg. generalize (j_msgs job).
  induction (j_events job) as [|ev evs IH]; intros [|m ms]; simpl; try constructor; [|apply IH].
  unfold footprint_of, bufferedFootprint, bufferedMsgOverhead.
  pose proof (strlen_nonneg (jm_Data m)). pose proof (strlen_nonneg (Data ev)).
  pose proof (strlen_nonneg (DataBase64 ev)). lia.
Qed.

Lemma within_step c F st st' :
  0 < ceiling c -> 0 <= F ->
  inv c st -> within c F st -> step st st' -> within c F st'.
Proof.
  intros Hmax HF Hi Hw Hs. pose proof (f_equal MaxBufferedBytes (i_cfg _ _ Hi)) as Hcfg.
  change (MaxBufferedBytes (applyDefaults c)) with (ceiling c) in Hcfg. unfold within in *.
  destruct Hs as [now msg s s' out run l tr rcv d Ha|now s run l tr rcv d|s run l tr rcv d Hu
    |now s run l tr rcv d Hu|s run l tr rcv d Hfl|s run l tr rcv|s pc run l tr rcv d|e s run l tr rcv d He
    |now later t s run l tr rcv d|job js s pc run l tr rcv d Hj Hlen|now job r1 r2 s s' pc l l' tr out rcv d Hf];
    simpl in *; intros Hd Hm; try done.
  - destruct (hands_off_resident _ _ (flushReady_hands_off now false s' false)) as [-> _].
    specialize (Hw Hd ltac:(intros m ev Hin; apply Hm; simpl; apply elem_of_app; by left)).
    apply add_cases in Ha as [(_ & -> & _)|(ev & b & Hdec & _ & -> & _ & _ & Hfp)]; [lia|].
    assert (footprint_of ev msg <= F) by (apply Hm; [simpl; apply elem_of_app; right; by left | done]).
    unfold resident, bufBytes in *. simpl. rewrite Hfp. unfold bufBytes. lia.
  - destruct (hands_off_resident _ _ (flushReady_hands_off now false s false)) as [-> _]. auto.
  - unfold underCeiling in Hu. rewrite Hcfg in Hu. apply orb_true_iff in Hu as [Hu|Hu]; bool_to_prop; lia.
  - destruct (hands_off_resident _ _ (handOff_hands_off now s)) as [-> _]. auto.
  - apply Hw; auto.
  - specialize (Hw Hd Hm). unfold resident, bufBytes in *. simpl in *. lia.
  - destruct (hands_off_resident _ _ (flushReady_hands_off later t
      (set_drainDeadline (now + DrainTimeout (cfg s)) s) true)) as [-> _].
    specialize (Hw Hd Hm). unfold resident, bufBytes in *. simpl in *. lia.
  - specialize (Hw Hd Hm). unfold resident, bufBytes in *. simpl in *. done.
  - assert (job_ok job) as Hjob.
    { pose proof (i_jobs _ _ Hi) as Hj. simpl in Hj. rewrite !Forall_app, Forall_cons in Hj. tauto. }
    destruct (flush_spec _ _ _ _ _ _ _ Hjob Hf) as ((_ & E2 & _ & E4) & _).
    pose proof (job_footprint_nonneg job Hjob). specialize (Hw Hd Hm).
    unfold resident, bufBytes in *. rewrite E2, E4. destruct pc; lia.
Qed.

Lemma reachable_within c F l st :
  0 < ceiling c -> 0 <= F -> reachable c l st -> within c F st.
Proof.
  intros Hmax HF Hr. induction Hr as [|st st' Hr IH Hs].
  - intros _ _. simpl. done.
  - eapply within_step; eauto using reachable_inv.
Qed.
End Invariant.

(** ** Lemmas: a healthy writer and a poison row *)

Section Localize.
Context `{W : BundleWriter}.
(** The writer is up and rejects exactly the bundles that hold a poison row. *)
Variable poison : StoredEvent -> bool.
Record healthy : Prop := {
  h_ctx l : bw_ctxErr l = false;
  h_good l evs : existsb poison evs = false -> (bw_WriteBundle l evs).2 = None;
  h_bad l evs : existsb poison evs = true ->
    exists err, (bw_WriteBundle l evs).2 = Some err /\ errors_is err ErrPoisonRow = true
}.
Hypothesis Hh : healthy.

(** How every row of a range should be settled: poison terminated, the rest
    committed and acked. *)
Definition settle_row (ev : StoredEvent) (m : JMsg) : settlement := if poison ev then Termed m else Acked m.
Definition settle_rows (job : flushJob) (lo hi : nat) : list settlement :=
  zip_with settle_row (slice (j_events job) lo hi) (slice (j_msgs job) lo hi).

Variable job : flushJob.
Hypothesis Hwf : job_wf job.
#[local] Abbreviation n := (length (j_events job)).

Lemma settle_rows_split lo mid hi :
  (lo <= mid <= hi)%nat -> (hi <= n)%nat ->
  settle_rows job lo hi = settle_rows job lo mid ++ settle_rows job mid hi.
Proof.
  intros Hm Hn. unfold settle_rows. rewrite !(slice_split _ lo mid hi) by lia.
  apply zip_with_app. rewrite !length_slice; [done | rewrite <- Hwf; lia | lia].
Qed.

Lemma settle_rows_clean lo hi :
  (hi <= n)%nat -> existsb poison (slice (j_events job) lo hi) = false ->
  settle_rows job lo hi = Acked <$> slice (j_msgs job) lo hi.
Proof.
  intros Hn. unfold settle_rows.
  assert (length (slice (j_events job) lo hi) = length (slice (j_msgs job) lo hi)) as Hl
    by (rewrite !length_slice; [done | rewrite <- Hwf; lia | lia]).
  revert Hl. generalize (slice (j_msgs job) lo hi).
  induction (slice (j_events job) lo hi) as [|ev evs IH]; intros [|m ms]; simpl; try done.
  intros [= Hl] [Hp He]%orb_false_iff. unfold settle_row at 1. rewrite Hp. f_equal. by apply IH.
Qed.

(** A probe may run: something committed, or the limit is not reached. *)
Definition may_probe (p : pass) : Prop := 0 < p_committed p \/ (p_committed p = 0 /\ p_attempts p < isolateProbeLimit).

Lemma may_probe_test p : may_probe p -> (p_committed p =? 0) && (p_attempts p >=? isolateProbeLimit) = false.
Proof.
  intros Hm. destruct (Z.eqb_spec (p_committed p) 0); [|done]. simpl. rewrite Z.geb_leb.
  apply Z.leb_gt. destruct Hm; lia.
Qed.

(** A range without poison commits at once. *)
Lemma isolateRange_clean fuel lo hi p :
  (lo < hi <= n)%nat -> (hi - lo <= fuel)%nat -> may_probe p ->
  existsb poison (slice (j_events job) lo hi) = false ->
  let p' := isolateRange fuel job lo hi p in
  p_settled p' = p_settled p ++ settle_rows job lo hi /\ 0 < p_committed p'.
Proof.
  intros Hl Hf Hm Hp. destruct fuel as [|fuel]; [lia|]. simpl.
  destruct (Nat.leb_spec hi lo); [lia|]. rewrite (h_ctx Hh), (may_probe_test p Hm). simpl.
  pose proof (h_good Hh (p_lake p) _ Hp) as Hw. destruct (bw_WriteBundle _ _) as [l r]. simpl in Hw. subst r.
  simpl. rewrite settle_rows_clean by (done || lia). split; [done|]. destruct Hm; lia.
Qed.

(** A single poison row is terminated. *)
Lemma isolateRange_leaf fuel lo hi p :
  (hi - lo = 1)%nat -> (hi <= n)%nat -> (hi - lo <= fuel)%nat -> may_probe p ->
  existsb poison (slice (j_events job) lo hi) = true ->
  let p' := isolateRange fuel job lo hi p in
  p_settled p' = p_settled p ++ settle_rows job lo hi /\
  p_committed p' = p_committed p /\ p_attempts p' = p_attempts p + 1.
Proof.
  intros Hl Hn Hf Hm Hp. destruct fuel as [|fuel]; [lia|]. simpl.
  destruct (Nat.leb_spec hi lo); [lia|]. rewrite (h_ctx Hh), (may_probe_test p Hm). simpl.
  destruct (h_bad Hh (p_lake p) _ Hp) as (err & Hw & He).
  destruct (lookup_lt_is_Some_2 (j_events job) lo) as [ev Hev]; [lia|].
  destruct (lookup_lt_is_Some_2 (j_msgs job) lo) as [m Hm']; [rewrite <- Hwf; lia|].
  unfold settle_rows. rewrite (slice_single _ _ _ ev) in * by done. rewrite (slice_single _ _ _ m) by done.
  destruct (bw_WriteBundle _ _) as [l r]. simpl in Hw, Hp. subst r. rewrite Hl, Nat.eqb_refl, Hm'.
  rewrite He. simpl. unfold settle_row. rewrite orb_false_r in Hp. by rewrite Hp.
Qed.

(** Once something committed, every row of a range is settled. *)
Lemma isolateRange_alive fuel : forall lo hi p,
  (lo < hi <= n)%nat -> (hi - lo <= fuel)%nat -> 0 < p_committed p ->
  let p' := isolateRange fuel job lo hi p in
  p_settled p' = p_settled p ++ settle_rows job lo hi /\ 0 < p_committed p'.
Proof.
  induction fuel as [|fuel IH]; intros lo hi p Hl Hf Hc; [lia|].
  destruct (existsb poison (slice (j_events job) lo hi)) eqn:Hp;
    [|by apply isolateRange_clean; [..|left|]].
  destruct (Nat.eqb_spec (hi - lo) 1) as [H1|H1].
  { destruct (isolateRange_leaf (S fuel) lo hi p) as (E1 & E2 & _); try done; [lia|by left|].
    cbv zeta. by rewrite E1, E2. }
  pose proof (mid_bounds lo hi ltac:(lia) H1) as Hmid. cbn [isolateRange].
  destruct (Nat.leb_spec hi lo); [lia|].
  rewrite (h_ctx Hh), (may_probe_test p ltac:(by left)). simpl.
  destruct (h_bad Hh (p_lake p) _ Hp) as (err & Hw & He).
  destruct (bw_WriteBundle _ _) as [l r]. simpl in Hw. subst r.
  destruct (Nat.eqb_spec (hi - lo) 1); [done|].
  generalize dependent (lo + (hi - lo) / 2)%nat. intros mid Hmid.
  destruct (IH lo mid (mkPass l (p_cleared p) (p_committed p) (p_attempts p + 1) (p_settled p)))
    as [E1 C1]; [lia..|done|]. simpl in *.
  destruct (IH mid hi _ ltac:(lia) ltac:(lia) C1) as [E2 C2]. split; [|done].
  rewrite E2, E1, <- app_assoc, (settle_rows_split lo mid hi) by lia. done.
Qed.

(** One poison row, and enough probes left for the descent to it: the range of
    fewer than 2^(k+1) rows needs k + 1 of them, and one more to commit. *)
Variable bad : nat.
Hypothesis Hbad : forall i ev, j_events job !! i = Some ev -> poison ev = bool_decide (i = bad).

Lemma poison_in_slice lo hi : (lo <= bad < hi)%nat -> (hi <= n)%nat -> existsb poison (slice (j_events job) lo hi) = true.
Proof.
  intros Hb Hn. apply existsb_exists. destruct (lookup_lt_is_Some_2 (j_events job) bad) as [ev Hev]; [lia|].
  exists ev. split; [|rewrite (Hbad _ _ Hev); by apply bool_decide_eq_true].
  apply list_elem_of_In, list_elem_of_lookup. exists (bad - lo)%nat. unfold slice.
  rewrite lookup_take, lookup_drop. replace (lo + (bad - lo))%nat with bad by lia. by case_decide; [|lia].
Qed.

Lemma no_poison_in_slice lo hi : ~ (lo <= bad < hi)%nat -> existsb poison (slice (j_events job) lo hi) = false.
Proof.
  intros Hb. apply existsb_false_iff. intros ev (i & Hi & Hlh)%elem_of_slice.
  rewrite (Hbad _ _ Hi). apply bool_decide_eq_false. lia.
Qed.

Lemma isolateRange_descend k : forall fuel lo hi p,
  (lo <= bad < hi)%nat -> (hi <= n)%nat -> (hi - lo <= fuel)%nat -> (hi - lo <> 1)%nat ->
  (hi - lo < 2 ^ S k)%nat -> p_committed p = 0 -> p_attempts p + Z.of_nat k + 1 < isolateProbeLimit ->
  let p' := isolateRange fuel job lo hi p in
  p_settled p' = p_settled p ++ settle_rows job lo hi /\ 0 < p_committed p'.
Proof.
  induction k as [|k IH]; intros fuel lo hi p Hb Hn Hf H1 Hk Hc Ha; [simpl in Hk; lia|].
  destruct fuel as [|fuel]; [lia|].
  pose proof (mid_bounds lo hi ltac:(lia) H1) as Hmid.
  pose proof (Nat.Div0.div_lt_upper_bound (hi - lo) 2 (2 ^ S k) ltac:(simpl in *; lia)) as Hhalf.
  cbn [isolateRange]. destruct (Nat.leb_spec hi lo); [lia|].
  rewrite (h_ctx Hh), (may_probe_test p ltac:(right; lia)). simpl.
  destruct (h_bad Hh (p_lake p) _ (poison_in_slice lo hi ltac:(lia) Hn)) as (err & Hw & He).
  destruct (bw_WriteBundle _ _) as [l r]. simpl in Hw. subst r.
  destruct (Nat.eqb_spec (hi - lo) 1); [done|].
  remember (lo + (hi - lo) / 2)%nat as mid eqn:Emid.
  set (p0 := mkPass l (p_cleared p) (p_committed p) (p_attempts p + 1) (p_settled p)).
  assert (may_probe p0) as Hp0 by (right; simpl; lia).
  rewrite (settle_rows_split lo mid hi) by lia. rewrite app_assoc.
  destruct (decide (bad < mid)%nat) as [Hleft|Hright].
  - assert (p_settled (isolateRange fuel job lo mid p0) = p_settled p ++ settle_rows job lo mid /\
            may_probe (isolateRange fuel job lo mid p0)) as [E1 Hp1].
    { destruct (Nat.eqb_spec (mid - lo) 1) as [Hm1|Hm1].
      - destruct (isolateRange_leaf fuel lo mid p0) as (E & Ec & Ea);
          [done | lia | lia | done | apply poison_in_slice; lia |].
        split; [done|]. right. rewrite Ec, Ea. simpl. lia.
      - destruct (IH fuel lo mid p0) as [E Ec]; [lia..| done | simpl; lia |]. split; [done | by left]. }
    destruct (isolateRange_clean fuel mid hi (isolateRange fuel job lo mid p0)) as [E2 C2];
      [lia | lia | done | apply no_poison_in_slice; lia |]. by rewrite E2, E1.
  - destruct (isolateRange_clean fuel lo mid p0) as [E1 C1];
      [lia | lia | done | apply no_poison_in_slice; lia |].
    destruct (isolateRange_alive fuel mid hi (isolateRange fuel job lo mid p0)) as [E2 C2];
      [lia | lia | done |]. by rewrite E2, E1.
Qed.

(** A pass that has spent its probes does nothing more. *)
Lemma isolateRange_spent fuel lo hi p :
  p_committed p = 0 -> isolateProbeLimit <= p_attempts p -> isolateRange fuel job lo hi p = p.
Proof.
  intros Hc Ha. destruct fuel as [|fuel]; [done|]. simpl. destruct (_ || _); [done|].
  rewrite Hc. simpl. rewrite Z.geb_leb. by destruct (Z.leb_spec isolateProbeLimit (p_attempts p)); [|lia].
Qed.

(** The descent to a poison row near the start spends one probe per halving. *)
Lemma isolateRange_spends j : forall fuel hi p,
  (2 ^ j * S bad <= hi <= n)%nat -> (hi <= fuel)%nat ->
  p_committed p = 0 -> p_attempts p = isolateProbeLimit - Z.of_nat j ->
  let p' := isolateRange fuel job 0 hi p in
  p_settled p' = p_settled p /\ p_committed p' = 0 /\ p_attempts p' = isolateProbeLimit.
Proof.
  induction j as [|j IH]; intros fuel hi p Hhi Hf Hc Ha.
  { cbv zeta. rewrite isolateRange_spent by lia. split; [done|]. split; [done | lia]. }
  assert (1 <= 2 ^ j)%nat as Hj by (pose proof (Nat.pow_nonzero 2 j ltac:(lia)); lia).
  rewrite Nat.pow_succ_r' in Hhi. assert (2 <= hi)%nat by nia. destruct fuel as [|fuel]; [lia|].
  pose proof (mid_bounds 0 hi ltac:(lia) ltac:(lia)) as Hmid.
  assert (2 ^ j * S bad <= (hi - 0) / 2)%nat as Hhalf by (apply Nat.div_le_lower_bound; lia).
  cbn [isolateRange]. destruct (Nat.leb_spec hi 0); [lia|].
  rewrite (h_ctx Hh), (may_probe_test p ltac:(right; lia)). simpl orb. cbv iota.
  destruct (h_bad Hh (p_lake p) _ (poison_in_slice 0 hi ltac:(nia) ltac:(lia))) as (err & Hw & He).
  destruct (bw_WriteBundle _ _) as [l r]. simpl in Hw. subst r.
  destruct (Nat.eqb_spec (hi - 0) 1); [lia|].
  remember (0 + (hi - 0) / 2)%nat as mid eqn:Emid.
  destruct (IH fuel mid (mkPass l (p_cleared p) (p_committed p) (p_attempts p + 1) (p_settled p)))
    as (E1 & E2 & E3); [lia | lia | done | simpl; lia |].
  rewrite isolateRange_spent by (done || lia). done.
Qed.
End Localize.

(** ** The lake's writer behind the interface *)

Section LakeWriterInstance.
Context `{CloudEventLib} `{D : DuckDB} (table : string) (conns : list Z) (ctxDone : db -> bool).

(** The writer's round-robin counter with the database. *)
Definition lake_writer : BundleWriter := {|
  lake := Z * db;
  bw_WriteBundle s evs :=
    let '(w, d, e) := WriteBundle (mkWriter table conns s.1, s.2) evs in ((w_next w, d), e);
  bw_ctxErr s := ctxDone s.2
|}.

(** An event is persisted when its row is in the table. *)
#[export] Instance lake_writer_laws `{L : !DuckLaws D table} : BundleWriterLaws lake_writer.
Proof.
  refine {| persisted := fun (s : @lake lake_writer) ev =>
              exists row, fillRowArgs ev = Ok row /\ row ∈ committed s.2 |}.
  - intros [n d] evs [n' d']. cbn [bw_WriteBundle lake_writer fst snd]. destruct (WriteBundle (mkWriter table conns n, d) evs) as [[w d1] e] eqn:Ew.
    intros Hp. simplify_eq/=. apply (WriteBundle_spec (mkWriter table conns n)) in Ew as (_ & rows & Hr & Hc); [|done].
    rewrite Hc. clear - Hr. unfold bundle_rows in Hr.
    apply Forall_forall. intros ev (i & Hi)%list_elem_of_lookup.
    destruct (Forall2_lookup_l _ _ _ _ _ Hr Hi) as (row & Hrow & He). exists row. split; [done|].
    apply elem_of_app. right. by eapply list_elem_of_lookup_2.
  - intros [n d] evs [n' d'] r ev. cbn [bw_WriteBundle lake_writer fst snd]. destruct (WriteBundle (mkWriter table conns n, d) evs) as [[w d1] e] eqn:Ew.
    intros Hp (row & Hrow & Hin). simplify_eq/=. exists row. split; [done|].
    apply (WriteBundle_spec (mkWriter table conns n)) in Ew as [_ Hc]; [|done]. destruct r.
    + by rewrite Hc.
    + destruct Hc as (rows & _ & ->). apply elem_of_app. by left.
Defined.
End LakeWriterInstance.

(** ** Properties *)

Section SinkProperties.
Context `{CloudEventLib} `{NatsHeaderLib} `{W : BundleWriter} `{L : !BundleWriterLaws W}.

Lemma settled_rightly c l st s : reachable c l st -> s ∈ st_settled st -> rightly (st_lake st) s.
Proof. intros Hr%reachable_inv. by apply Forall_forall, (i_settled _ _ Hr). Qed.

(** C1: At-least-once: in every state the sink can reach, whatever the writer,
    the broker and the scheduler do, a message was acked only if the event it
    carries is durably in the lake. *)
Theorem sink_at_least_once c l st m :
  reachable c l st -> Acked m ∈ st_settled st ->
  exists ev, decoded ev m /\ persisted (st_lake st) ev.
Proof. intros Hr Hm. exact (settled_rightly _ _ _ _ Hr Hm). Qed.

(** C6: No silent loss: a message is terminated (dropped for good) only if it
    cannot be decoded, or its event failed to be written on its own, with the
    poison tag or at its tenth delivery or later. *)
Theorem sink_no_silent_drop c l st m :
  reachable c l st -> Termed m ∈ st_settled st ->
  is_ok (ParseMsg (jm_Headers m) (jm_Data m)) = false \/
  exists ev l0 l1 err, decoded ev m /\ bw_WriteBundle l0 [ev] = (l1, Some err) /\
    (errors_is err ErrPoisonRow = true \/ poisonRedeliveryThreshold <= redeliveryCount m).
Proof. intros Hr Hm. exact (settled_rightly _ _ _ _ Hr Hm). Qed.

(** C32: Each delivery is settled at most once, and never while it is still
    buffered, queued or being flushed. *)
Theorem sink_settles_once c l st :
  reachable c l st -> (settled_msg <$> st_settled st) ++ pending st ⊆+ st_received st.
Proof. intros Hr. by apply reachable_inv, i_once in Hr. Qed.

(** C10: Bounded memory: until shutdown, the bytes resident in the buffer, the
    queue and the workers are exactly what the sink counts, and exceed
    MaxBufferedBytes by less than one message however long the writer stalls; the
    queue never holds more than Workers*8 bundles. *)
Theorem sink_memory_bounded c F l st :
  0 < ceiling c -> 0 <= F -> small_messages F st -> reachable c l st -> st_done st = false ->
  bufBytes (st_sink st) + sumZ (j_footprint <$> jobs (st_sink st) ++ st_running st) < ceiling c + F /\
  Zlen (jobs (st_sink st)) <= Z.max 0 (Workers (applyDefaults c) * 8).
Proof.
  intros Hmax HF Hm Hr Hd. pose proof (reachable_inv _ _ _ Hr) as [Hc _ _ Hi Hq _ _].
  pose proof (reachable_within c F l st Hmax HF Hr Hd Hm) as Hw. rewrite <- Hi. rewrite Hc in Hq.
  split; [|done]. unfold resident in Hw. destruct (st_pc st); lia.
Qed.

(** An outage never destroys data: when an isolate pass committed nothing,
    however often its messages were redelivered, the only ones it terminates are
    those the writer tagged as poison, and it gives up after isolateProbeLimit
    writes. *)
Theorem isolate_outage l job :
  job_ok job -> p_committed (isolate l job) = 0 ->
  p_attempts (isolate l job) <= isolateProbeLimit /\
  forall m, Termed m ∈ p_settled (isolate l job) ->
    exists ev l0 l1 err, decoded ev m /\ bw_WriteBundle l0 [ev] = (l1, Some err) /\
      errors_is err ErrPoisonRow = true.
Proof.
  intros Hj Hc. split.
  - revert Hc. unfold isolate. eapply isolateRange_attempts; simpl; unfold isolateProbeLimit; lia.
  - intros m Hm. pose proof (po_just _ _ (isolate_ok l job Hj)) as Hs. rewrite Forall_forall in Hs.
    destruct (Hs _ Hm) as (i & ev & He & Hmi & l0 & l1 & err & Hw & Hp). simpl in Hmi.
    destruct (Forall2_lookup_l _ _ _ _ _ (bo_decoded _ _ _ _ Hj) He) as (m' & Hm' & Hdec).
    rewrite Hmi in Hm'. injection Hm' as <-. exists ev, l0, l1, err. split; [done|]. split; [done|].
    destruct Hp as [?|(_ & m' & Hm')]; [done|]. by apply (po_none _ _ (isolate_ok l job Hj) Hc) in Hm'.
Qed.
End SinkProperties.

(** When every row is settled, what is not poison is stored. *)
Lemma isolate_stored `{W : BundleWriter} `{L : !BundleWriterLaws W} poison (job : flushJob) l i ev :
  job_wf job -> p_settled (isolate l job) = zip_with (settle_row poison) (j_events job) (j_msgs job) ->
  j_events job !! i = Some ev -> poison ev = false -> persisted (p_lake (isolate l job)) ev.
Proof.
  intros Hwf Hs Hev Hp. unfold isolate in *. set (p := mkPass l false 0 0 []) in *.
  destruct (isolateRange_stores (length (j_events job)) job 0 (length (j_events job)) p Hwf ltac:(lia) ltac:(lia)) as (_ & out & E & _ & Hf).
  rewrite Hs in E. simpl in E. subst out. rewrite length_zip_with, slice_all in Hf. specialize (Hf ltac:(rewrite Hwf; lia)).
  destruct (lookup_lt_is_Some_2 (j_msgs job) i) as [m Hm]; [rewrite <- Hwf; by eapply lookup_lt_Some|].
  destruct (Forall2_lookup_l _ _ _ _ _ Hf Hev) as (x & Hx & Ha). rewrite lookup_zip_with, Hev, Hm in Hx. simpl in Hx.
  injection Hx as <-. unfold settle_row, ack_stored in Ha. by rewrite Hp in Ha.
Qed.

(** C14: A poison row is localised: with a writer that is up and rejects exactly
    the bundles that hold the poison row, isolating a bundle of fewer than 128
    rows terminates that row and acks every other one, wherever it is, and every
    acked row is in the lake. *)
Theorem isolate_localizes_poison `{W : BundleWriter} `{L : !BundleWriterLaws W} poison (job : flushJob) bad l :
  healthy poison -> job_wf job ->
  (forall i ev, j_events job !! i = Some ev -> poison ev = bool_decide (i = bad)) ->
  (bad < length (j_events job) < 128)%nat ->
  p_settled (isolate l job) = zip_with (settle_row poison) (j_events job) (j_msgs job) /\
  (forall i ev, j_events job !! i = Some ev -> i <> bad -> persisted (p_lake (isolate l job)) ev).
Proof.
  intros Hh Hwf Hbad Hn.
  enough (Hs : p_settled (isolate l job) = zip_with (settle_row poison) (j_events job) (j_msgs job)).
  { split; [exact Hs|]. intros i ev Hev Hi. eapply isolate_stored; [done|done|exact Hev|]. rewrite (Hbad _ _ Hev). by apply bool_decide_eq_false. }
  unfold isolate. set (p := mkPass l false 0 0 []).
  assert (settle_rows poison job 0 (length (j_events job)) =
          zip_with (settle_row poison) (j_events job) (j_msgs job)) as <-.
  { unfold settle_rows. rewrite slice_all. by rewrite Hwf, slice_all. }
  destruct (Nat.eqb_spec (length (j_events job)) 1) as [H1|H1].
  - destruct (isolateRange_leaf poison Hh job Hwf (length (j_events job)) 0 (length (j_events job)) p)
      as [E _]; [lia | lia | lia | by right | |exact E].
    apply (poison_in_slice poison job bad Hbad); lia.
  - destruct (isolateRange_descend poison Hh job Hwf bad Hbad 6 (length (j_events job)) 0
      (length (j_events job)) p) as [E _]; [lia | lia | lia | lia | simpl; lia | done | simpl; unfold isolateProbeLimit; lia | exact E].
Qed.

(** C26: The probe limit also counts the failing writes of the descent to a poison
    row: in a bundle of n rows whose poison row is among the first n/256, with a
    writer that is up and rejects only that row, the probes are spent before a
    range without the row is tried; nothing is committed, acked or terminated, and
    the next delivery meets the same bundle. *)
Theorem leading_poison_wedges_large_bundle `{W : BundleWriter} poison (job : flushJob) bad l :
  healthy poison ->
  (forall i ev, j_events job !! i = Some ev -> poison ev = bool_decide (i = bad)) ->
  (256 * S bad <= length (j_events job))%nat ->
  p_settled (isolate l job) = [] /\ p_committed (isolate l job) = 0.
Proof.
  intros Hh Hbad Hn. unfold isolate.
  destruct (isolateRange_spends poison Hh job bad Hbad 8 (length (j_events job)) (length (j_events job))
    (mkPass l false 0 0 [])) as (E1 & E2 & _); [simpl Nat.pow; lia | lia | done | done | done].
Qed.

(** ** Instances for the witnesses *)

(** A writer that is up and rejects bundles with an event of id "bad". *)
Definition toy_poison (ev : StoredEvent) : bool := ID ev =?s "bad".
Definition toy_writer : BundleWriter := {|
  lake := list StoredEvent;
  bw_WriteBundle l evs :=
    if existsb toy_poison evs then (l, Some (sentinel_err ErrPoisonRow ": row rejected")) else (l ++ evs, None);
  bw_ctxErr l := false
|}.

Definition toy_event (id : string) : StoredEvent := mkStored (mkRaw (set_ID id zeroHeader) "" "") "" "".
Definition toy_msg (i : nat) : JMsg := mkJMsg (Z.of_nat i) ∅ "" (Ok 1).

(** [n] rows, the one at [bad] being poison. *)
Definition toy_job (n bad : nat) : flushJob :=
  mkJob ((fun i => toy_event (if Nat.eqb i bad then "bad" else "ok")) <$> seq 0 n) (toy_msg <$> seq 0 n) 0 0.

Lemma toy_healthy : @healthy toy_writer toy_poison.
Proof.
  split; [done| |].
  - intros l evs He. simpl. by rewrite He.
  - intros l evs He. simpl. rewrite He. by eexists.
Defined.

Lemma leading_poison_wedges_large_bundle_witness :
  p_settled (@isolate toy_writer [] (toy_job 256 0)) = [] /\
  p_committed (@isolate toy_writer [] (toy_job 256 0)) = 0.
Proof.
  refine (@leading_poison_wedges_large_bundle toy_writer toy_poison (toy_job 256 0) 0 [] toy_healthy _ _).
  - intros i ev Hi. unfold toy_job in Hi. cbn [j_events] in Hi.
    apply list_lookup_fmap_Some in Hi as (k & -> & Hk). apply lookup_seq in Hk as [-> _].
    destruct i; reflexivity.
  - vm_compute. lia.
Defined.

(** A run: one message is received, queued, taken and committed. *)
Definition run_cfg : Config := mkConfig 1 0 0 0 0 0 0 0 0 0 "" 0 0.
Definition run_msg : JMsg :=
  mkJMsg 1 (msg_Header (@buildMsg sample_lib map_headers 4 sample_stored "local-1|42")) "local-1|42" (Ok 1).
Definition junk_msg : JMsg := mkJMsg 2 ∅ "junk" (Ok 1).

#[export] Instance toy_laws : BundleWriterLaws toy_writer.
Proof.
  refine {| persisted := fun (l : @lake toy_writer) ev => ev ∈ (l : list StoredEvent) |}.
  - intros l evs l'. simpl. destruct (existsb _ _); [done|]. intros [= <-].
    apply Forall_forall. intros ev Hev. apply elem_of_app. by right.
  - intros l evs l' r ev. simpl. destruct (existsb _ _); intros [= <- _]; [done|].
    intros Hev. apply elem_of_app. by left.
Defined.

Lemma isolate_localizes_poison_witness :
  p_settled (@isolate toy_writer [] (toy_job 5 1)) =
    [Acked (toy_msg 0); Termed (toy_msg 1); Acked (toy_msg 2); Acked (toy_msg 3); Acked (toy_msg 4)] /\
  (forall i ev, j_events (toy_job 5 1) !! i = Some ev -> i <> 1%nat ->
     @persisted toy_writer toy_laws (p_lake (@isolate toy_writer [] (toy_job 5 1))) ev).
Proof.
  refine (@isolate_localizes_poison toy_writer toy_laws toy_poison (toy_job 5 1) 1 [] toy_healthy _ _ _).
  - reflexivity.
  - intros i ev Hi. do 5 (destruct i as [|i]; [injection Hi as <-; reflexivity|]). done.
  - simpl. lia.
Defined.

Definition run_s1 : Sink := (@add sample_lib map_headers 0 (New run_cfg) run_msg).1.
Definition run_s2 : Sink := flushReady 0 false run_s1 false.
Definition run_job : flushJob :=
  mkJob [sample_stored] [run_msg] (strlen "local-1|42") (bufferedFootprint sample_stored (strlen "local-1|42")).
Definition run_s3 : Sink := set_jobs [] run_s2.
Definition run_s4 : Sink := (@flush toy_writer 0 run_s3 [] run_job).1.1.
Definition run_state : @state toy_writer :=
  @mkState toy_writer run_s4 InBackpressure [] [sample_stored] [Acked run_msg] [run_msg] false.
Definition run_s5 : Sink := flushReady 0 false run_s4 false.
Definition junk_state : @state toy_writer :=
  @mkState toy_writer run_s5 InBackpressure [] [sample_stored] [Acked run_msg; Termed junk_msg]
    [run_msg; junk_msg] false.

Lemma run_reachable : @reachable sample_lib map_headers toy_writer run_cfg [] run_state.
Proof.
  eapply reach_step; [eapply reach_step; [eapply reach_step; [apply reach_init|]|]|].
  - apply (@step_message sample_lib map_headers toy_writer 0 run_msg (New run_cfg) run_s1 []).
    vm_compute. reflexivity.
  - apply (@step_take sample_lib map_headers toy_writer run_job [] run_s2); [vm_compute; reflexivity | done].
  - apply (@step_flush sample_lib map_headers toy_writer 0 run_job [] [] run_s3 run_s4 InBackpressure
             [] [sample_stored] [] [Acked run_msg]). vm_compute. reflexivity.
Defined.

Lemma junk_reachable : @reachable sample_lib map_headers toy_writer run_cfg [] junk_state.
Proof.
  eapply reach_step; [eapply reach_step; [apply run_reachable|]|].
  - apply step_under. vm_compute. reflexivity.
  - apply (@step_message sample_lib map_headers toy_writer 0 junk_msg run_s4 run_s4 [Termed junk_msg]).
    vm_compute. reflexivity.
Defined.

Lemma sink_at_least_once_witness :
  exists ev, @decoded sample_lib map_headers ev run_msg /\ @persisted toy_writer toy_laws [sample_stored] ev.
Proof.
  apply (@sink_at_least_once sample_lib map_headers toy_writer toy_laws run_cfg [] run_state run_msg
           run_reachable). by left.
Defined.

Lemma sink_no_silent_drop_witness :
  is_ok (@ParseMsg sample_lib map_headers (jm_Headers junk_msg) (jm_Data junk_msg)) = false \/
  exists ev l0 l1 err, @decoded sample_lib map_headers ev junk_msg /\
    @bw_WriteBundle toy_writer l0 [ev] = (l1, Some err) /\
    (errors_is err ErrPoisonRow = true \/ poisonRedeliveryThreshold <= redeliveryCount junk_msg).
Proof.
  apply (@sink_no_silent_drop sample_lib map_headers toy_writer toy_laws run_cfg [] junk_state junk_msg
           junk_reachable). simpl. right. by left.
Defined.

Lemma sink_settles_once_witness : [run_msg; junk_msg] ⊆+ [run_msg; junk_msg].
Proof.
  exact (@sink_settles_once sample_lib map_headers toy_writer toy_laws run_cfg [] junk_state junk_reachable).
Defined.

Lemma sink_memory_bounded_witness : bufBytes run_s5 + 0 < ceiling run_cfg + 1000.
Proof.
  refine (proj1 (@sink_memory_bounded sample_lib map_headers toy_writer toy_laws run_cfg 1000 [] junk_state
            _ _ _ junk_reachable _)).
  - vm_compute. reflexivity.
  - done.
  - intros m ev Hm Hd. simpl in Hm.
    apply elem_of_cons in Hm as [->|Hm]; [|apply elem_of_cons in Hm as [->|Hm%elem_of_nil]; [|done]].
    + vm_compute in Hd. injection Hd as <-. vm_compute. discriminate.
    + vm_compute in Hd. discriminate.
  - reflexivity.
Defined.

(** A job of one poison row. *)
Definition bad_stored : StoredEvent := mkStored (mkRaw (set_ID "bad" sample_header) "42" "") "" "".
Definition bad_lib : CloudEventLib := {|
  TypeStatus := ""; TypeFingerprint := ""; TypeEvents := ""; TypeSignals := ""; TypeRawStatus := "";
  TypeAttestation := ""; TypeAttestationTombstone := ""; HeaderKey h := ID h;
  MarshalJSON r := Ok (ID r);
  UnmarshalJSON b := Ok (Raw bad_stored);
  MarshalHeader h := Ok ""; DecodeERC721DID s := Err (ENew ""); DecodeLegacyNFTDID s := Err (ENew "");
  DIDString d := ""; DecodeEthrDID s := Err (ENew ""); BytesForSignature r := ""; ExtrasJSON h := None
|}.
Definition bad_job : flushJob := mkJob [bad_stored] [junk_msg] (strlen "junk") (bufferedFootprint bad_stored 4).

Lemma isolate_outage_witness :
  exists ev l0 l1 err, @decoded bad_lib map_headers ev junk_msg /\
    @bw_WriteBundle toy_writer l0 [ev] = (l1, Some err) /\ errors_is err ErrPoisonRow = true.
Proof.
  refine (proj2 (@isolate_outage bad_lib map_headers toy_writer toy_laws [] bad_job _ _) junk_msg _).
  - split; [constructor; [vm_compute; reflexivity | constructor] | done | reflexivity | vm_compute; reflexivity].
  - vm_compute. reflexivity.
  - vm_compute. by left.
Defined.
