(* ===== verification/SinkLive.v ===== *)
(** * Package sink: progress

    What the step relation of Sink guarantees to happen: backpressure never waits for a
    wake-up that cannot come, and the workers drain the queue in a bounded number of
    steps, whatever the writer does, acking everything when the writer commits. *)

From S2P Require Import Prelude GoStd CloudEvent Stream Publisher LakeWriter Sink.

Section Progress.
Context `{CloudEventLib} `{NatsHeaderLib} `{W : BundleWriter} `{L : !BundleWriterLaws W}.

(** ** Backpressure *)

(** Bundles handed to the workers and not yet through. *)
Definition unfinished (st : state) : list flushJob := jobs (st_sink st) ++ st_running st.

(** A waiting Run has a token to wake it, or a bundle whose end will give one. *)
Definition wakeable (st : state) : Prop :=
  st_pc st = Waiting -> 0 < flushed (st_sink st) \/ unfinished st <> [].

(** A flush leaves the tokens as flushDone does. *)
Lemma flush_flushed now s l job s' l' out :
  flush now s l job = (s', l', out) ->
  flushed s' = if flushed s <? Workers (cfg s) then flushed s + 1 else flushed s.
Proof.
  intros Hf. assert (forall x, flushed x = flushed s -> cfg x = cfg s ->
    flushed (flushDone (j_footprint job) x) = if flushed s <? Workers (cfg s) then flushed s + 1 else flushed s) as Hd.
  { intros x Hx Hc. unfold flushDone. simpl. rewrite Hc, Hx. destruct (_ <? _); simpl; lia. }
  revert Hf. unfold flush. destruct (bw_WriteBundle l (j_events job)) as [l1 [e|]]; intros [= <- <- <-]; apply Hd;
    unfold recordCommitFailure; repeat (split_match; try done); done.
Qed.

Lemma enqueue_flushed now t s b block : flushed (enqueue now t s b block).1 = flushed s.
Proof. unfold enqueue. by destruct (negb _). Qed.
Lemma flushReady_flushed now t s force : flushed (flushReady now t s force) = flushed s.
Proof. unfold flushReady. repeat (split_match; try done). apply enqueue_flushed. Qed.
Lemma handOff_flushed now s : flushed (handOff now s) = flushed s.
Proof. unfold handOff. split_match; [apply enqueue_flushed|done]. Qed.
Lemma add_flushed now s m s' out : add now s m = (s', out) -> flushed s' = flushed s.
Proof. unfold add. destruct (ParseMsg _ _); by intros [= <- _]. Qed.

Lemma flushed_nonneg c l st : reachable c l st -> 0 <= flushed (st_sink st).
Proof.
  induction 1 as [|st st' _ IH Hstep]; [done|].
  inversion Hstep; subst; simpl in *; rewrite ?flushReady_flushed, ?handOff_flushed; simpl; try lia.
  - match goal with Ha : add _ _ _ = _ |- _ => by rewrite (add_flushed _ _ _ _ _ Ha) end.
  - match goal with Hf : flush _ _ _ _ = _ |- _ => rewrite (flush_flushed _ _ _ _ _ _ _ Hf) end. destruct (_ <? _); lia.
Qed.

(** Over the ceiling, after the hand-off, some bundle is unfinished. *)
Lemma handOff_unfinished c now s run l tr rcv d :
  1 <= Workers (applyDefaults c) -> inv c (mkState s InBackpressure run l tr rcv d) -> underCeiling s = false ->
  jobs (handOff now s) ++ run <> [].
Proof.
  intros Hw [Hc _ _ Hi _ _ _] Hu. simpl in *. unfold underCeiling, resident, bufBytes in Hu.
  apply orb_false_iff in Hu as [Hpos Hover]. bool_to_prop. unfold handOff. destruct (buffer s) as [b|].
  - unfold enqueue. rewrite Hc. simpl. destruct (Zlen (jobs s) <? _) eqn:E; simpl.
    + intros [[_ He]%app_eq_nil _]%app_eq_nil. discriminate He.
    + bool_to_prop. destruct (jobs s); [unfold Zlen in E; simpl in E; lia|done].
  - intros [Ej Er]%app_eq_nil. rewrite Ej, Er in Hi. simpl in Hi. lia.
Qed.

Lemma wakeable_reachable c l st :
  1 <= Workers (applyDefaults c) -> reachable c l st -> wakeable st.
Proof.
  intros Hw Hr. pose proof Hr as Hr0. induction Hr as [|st st' Hr IH Hstep]; [by intros ?|].
  specialize (IH Hr). pose proof (reachable_inv _ _ _ Hr) as Hinv. pose proof (flushed_nonneg _ _ _ Hr) as Hz.
  inversion Hstep; subst; unfold wakeable, unfinished in *; simpl in IH, Hz |- *; try done.
  - intros _. right. eapply handOff_unfinished; [exact Hw|exact Hinv|done].
  - intros Hpc. destruct (IH Hpc) as [?|Hn]; [by left|right]. by destruct (run ++ [job]) eqn:E; [destruct run|destruct js].
  - intros Hpc. left. match goal with Hf : flush _ _ _ _ = _ |- _ => rewrite (flush_flushed _ _ _ _ _ _ _ Hf) end. pose proof (i_cfg _ _ Hinv) as Hc. simpl in Hc. rewrite Hc.
    destruct (Z.ltb_spec (flushed s) (Workers (applyDefaults c))); lia.
Qed.

(** ** Draining *)

(** The steps of the workers: taking a bundle, and flushing one. *)
Inductive work : state -> state -> Prop :=
| work_take job js s pc run l tr rcv d :
    jobs s = job :: js -> Zlen run < Workers (cfg s) ->
    work (mkState s pc run l tr rcv d) (mkState (set_jobs js s) pc (run ++ [job]) l tr rcv d)
| work_flush now job run1 run2 s s' pc l l' tr out rcv d :
    flush now s l job = (s', l', out) ->
    work (mkState s pc (run1 ++ job :: run2) l tr rcv d) (mkState s' pc (run1 ++ run2) l' (tr ++ out) rcv d).

Lemma work_is_step st st' : work st st' -> step st st'.
Proof. destruct 1; [by eapply step_take|by eapply step_flush]. Qed.

Lemma flush_frame now s l job s' l' out :
  flush now s l job = (s', l', out) -> cfg s' = cfg s /\ jobs s' = jobs s.
Proof.
  unfold flush, flushDone, recordCommitFailure. destruct (bw_WriteBundle l (j_events job)) as [l1 [e|]];
    intros [= <- _ _]; repeat (split_match; try done).
Qed.

(** The worker steps left: two per queued bundle, one per running one. *)
Definition load (st : state) : nat := (2 * length (jobs (st_sink st)) + length (st_running st))%nat.

Lemma work_load st st' : work st st' -> load st = S (load st').
Proof.
  destruct 1 as [job js s pc run l tr rcv d Hj _|now job run1 run2 s s' pc l l' tr out rcv d Hf]; unfold load; simpl.
  - rewrite Hj, length_app. simpl. lia.
  - destruct (flush_frame _ _ _ _ _ _ _ Hf) as [_ ->]. rewrite !length_app. simpl. lia.
Qed.

Lemma work_possible st :
  1 <= Workers (cfg (st_sink st)) -> unfinished st = [] \/ exists st', work st st'.
Proof.
  destruct st as [s pc run l tr rcv d]. unfold unfinished. simpl. intros Hw. destruct run as [|job run].
  - destruct (jobs s) as [|job js] eqn:Ej; [by left|right]. eexists. by eapply work_take; [|unfold Zlen; simpl; lia].
  - right. destruct (flush 0 s l job) as [[s' l'] out] eqn:Ef. eexists. by apply (work_flush 0 job [] run).
Qed.

(** A writer that commits: a worker step acks what it finishes. *)
Lemma work_acks st st' m :
  (forall l evs, (bw_WriteBundle l evs).2 = None) -> work st st' ->
  Acked m ∈ st_settled st \/ m ∈ concat (j_msgs <$> unfinished st) ->
  Acked m ∈ st_settled st' \/ m ∈ concat (j_msgs <$> unfinished st').
Proof.
  intros Hok. destruct 1 as [job js s pc run l tr rcv d Hj _|now job run1 run2 s s' pc l l' tr out rcv d Hf];
    unfold unfinished; simpl.
  - rewrite Hj, !fmap_app, !concat_app. simpl. rewrite app_nil_r, !elem_of_app. tauto.
  - destruct (flush_frame _ _ _ _ _ _ _ Hf) as [_ ->]. unfold flush in Hf. specialize (Hok l (j_events job)).
    destruct (bw_WriteBundle l (j_events job)) as [l1 [e|]]; [done|]. injection Hf as _ _ <-.
    rewrite !fmap_app, !concat_app, fmap_cons. simpl. rewrite !elem_of_app.
    pose proof (list_elem_of_fmap_2 Acked (j_msgs job) m). tauto.
Qed.
End Progress.

(** ** Properties *)

Section ProgressProperties.
Context `{CloudEventLib} `{NatsHeaderLib} `{W : BundleWriter} `{L : !BundleWriterLaws W}.

(** C21: Backpressure cannot deadlock: in every reachable state in which Run waits for a
    worker, a wake-up token is there already or a bundle is queued or running, whose
    end puts one. *)
Theorem backpressure_no_deadlock c l st :
  1 <= Workers (applyDefaults c) -> reachable c l st -> st_pc st = Waiting ->
  0 < flushed (st_sink st) \/
  (unfinished st <> [] /\ forall now run1 job run2, st_running st = run1 ++ job :: run2 ->
     0 < flushed (flush now (st_sink st) (st_lake st) job).1.1).
Proof.
  intros Hw Hr Hpc. destruct (wakeable_reachable c l st Hw Hr Hpc) as [?|Hu]; [by left|right]. split; [done|].
  intros now run1 job run2 _. destruct (flush _ _ _ job) as [[s' l'] out] eqn:Ef. simpl.
  rewrite (flush_flushed _ _ _ _ _ _ _ Ef), (i_cfg _ _ (reachable_inv _ _ _ Hr)).
  pose proof (flushed_nonneg _ _ _ Hr). destruct (Z.ltb_spec (flushed (st_sink st)) (Workers (applyDefaults c))); lia.
Qed.

(** C22: The workers drain. From any reachable state, whatever the writer does, the
    workers make at most two steps per queued bundle and one per running bundle, and
    they can go on until none is left; if the writer commits, all messages of those
    bundles are acked by then. *)
Theorem drain_completes c l st n st' :
  1 <= Workers (applyDefaults c) -> reachable c l st -> nsteps work n st st' ->
  (n + load st' = load st)%nat /\
  (unfinished st' = [] \/ exists st'', work st' st'') /\
  ((forall l evs, (bw_WriteBundle l evs).2 = None) -> unfinished st' = [] ->
   Forall (fun m => Acked m ∈ st_settled st') (concat (j_msgs <$> unfinished st))).
Proof.
  intros Hw Hr Hs. assert (reachable c l st') as Hr'.
  { clear Hw. induction Hs as [|n st1 st2 st3 H1 _ IH]; [done|]. apply IH. eapply reach_step; [done|]. by apply work_is_step. }
  split_and!.
  - clear -Hs. induction Hs as [|n st1 st2 st3 H1%work_load _ IH]; [done|]. lia.
  - apply work_possible. by rewrite (i_cfg _ _ (reachable_inv _ _ _ Hr')).
  - intros Hok Hd. apply Forall_forall. intros m Hm.
    assert (Acked m ∈ st_settled st' \/ m ∈ concat (j_msgs <$> unfinished st')) as [?|Hu]; [|done|by rewrite Hd in Hu; apply elem_of_nil in Hu].
    clear -Hs Hok Hm L. assert (Acked m ∈ st_settled st \/ m ∈ concat (j_msgs <$> unfinished st)) as Hi by by right. clear Hm.
    induction Hs as [|n st1 st2 st3 H1 _ IH]; [done|]. apply IH. by eapply work_acks.
Qed.
End ProgressProperties.

(** ** Witnesses *)

(** A writer that always commits, and a sink that holds one byte. *)
Definition ok_writer : BundleWriter := {|
  lake := list StoredEvent; bw_WriteBundle l evs := (l ++ evs, None); bw_ctxErr l := false |}.
#[export] Instance ok_laws : BundleWriterLaws ok_writer.
Proof.
  refine {| persisted := fun (l : @lake ok_writer) ev => ev ∈ (l : list StoredEvent) |}.
  - intros l evs l' [= <-]. apply Forall_forall. intros ev Hev. apply elem_of_app. by right.
  - intros l evs l' r ev [= <- _] Hev. apply elem_of_app. by left.
Defined.
Definition tight_cfg : Config := mkConfig 100 0 1 0 0 0 0 0 0 0 "" 0 0.

Definition full_s1 : Sink := (@add sample_lib map_headers 0 (New tight_cfg) run_msg).1.
Definition full_s2 : Sink := flushReady 0 false full_s1 false.
Definition full_s3 : Sink := handOff 0 full_s2.
Definition full_state : @state ok_writer := @mkState ok_writer full_s3 Waiting [] [] [] [run_msg] false.
Definition done_s : Sink := (@flush ok_writer 0 (set_jobs [] full_s3) [] run_job).1.1.
Definition done_state : @state ok_writer :=
  @mkState ok_writer done_s Waiting [] [sample_stored] [Acked run_msg] [run_msg] false.

Lemma full_reachable : @reachable sample_lib map_headers ok_writer tight_cfg [] full_state.
Proof.
  eapply reach_step; [eapply reach_step; [apply reach_init|]|].
  - apply (@step_message sample_lib map_headers ok_writer 0 run_msg (New tight_cfg) full_s1 []).
    vm_compute. reflexivity.
  - apply (@step_over sample_lib map_headers ok_writer 0 full_s2). vm_compute. reflexivity.
Defined.

Lemma full_works : nsteps (@work ok_writer) 2 full_state done_state.
Proof.
  eapply nsteps_l; [|eapply nsteps_l; [|apply nsteps_O]].
  - apply (@work_take ok_writer run_job [] full_s3); [vm_compute; reflexivity|done].
  - apply (@work_flush ok_writer 0 run_job [] [] (set_jobs [] full_s3) done_s Waiting [] [sample_stored] [] [Acked run_msg]).
    vm_compute. reflexivity.
Defined.

Lemma backpressure_no_deadlock_witness : unfinished full_state <> [] /\ flushed full_s3 = 0.
Proof.
  destruct (@backpressure_no_deadlock sample_lib map_headers ok_writer ok_laws tight_cfg [] full_state
    ltac:(vm_compute; congruence) full_reachable eq_refl) as [Ht|[Hu _]]; [discriminate Ht|].
  split; [exact Hu|vm_compute; reflexivity].
Defined.

Lemma drain_completes_witness : load full_state = 2%nat /\ Forall (fun m => Acked m ∈ st_settled done_state) [run_msg].
Proof.
  destruct (@drain_completes sample_lib map_headers ok_writer ok_laws tight_cfg [] full_state 2 done_state
    ltac:(vm_compute; congruence) full_reachable full_works) as (Hl & _ & Ha).
  split; [exact (eq_sym Hl)|]. apply Ha; [done|]. vm_compute. reflexivity.
Defined.
