(* ===== verification/SinkWatch.v ===== *)
(** * Package sink: when a sink gives its writer up

    recordCommitFailure, the reset of the streak and the fatal error of Run, over the
    whole life of a sink: a run is watched by the flushes it made, and the sink that ends
    with the fatal error has a reason in them. *)

From S2P Require Import Prelude GoStd CloudEvent Stream Publisher LakeWriter Sink.

Section Watch.
Context `{CloudEventLib} `{NatsHeaderLib} `{BundleWriter}.
Variables (c : Config) (l0 : lake).

(** A flush as a worker began it. *)
Record flushed_at := mkFlushed { fl_now : Z; fl_sink : Sink; fl_lake : lake; fl_job : flushJob }.
Definition write_failed (f : flushed_at) : Prop := (bw_WriteBundle (fl_lake f) (j_events (fl_job f))).2 <> None.

(** Neither the bundle nor any range of it was committed. *)
Definition committed_nothing (f : flushed_at) : Prop :=
  write_failed f /\
  p_cleared (isolate (bw_WriteBundle (fl_lake f) (j_events (fl_job f))).1 (fl_job f)) = false.

(** A run of the sink with the flushes it made so far. *)
Inductive watched : state -> list flushed_at -> Prop :=
| watch_init : watched (init c l0) []
| watch_flush now job run1 run2 s s' pc l l' tr out rcv d h :
    watched (mkState s pc (run1 ++ job :: run2) l tr rcv d) h -> flush now s l job = (s', l', out) ->
    watched (mkState s' pc (run1 ++ run2) l' (tr ++ out) rcv d) (h ++ [mkFlushed now s l job])
| watch_step st st' h :
    watched st h -> step st st' -> cfg (st_sink st') = cfg (st_sink st) ->
    commitFailFirst (st_sink st') = commitFailFirst (st_sink st) ->
    (fatal (st_sink st') = fatal (st_sink st) /\ (forall e, st_pc st' = Exited e -> st_pc st = Exited e) \/
     fatal (st_sink st') = None /\ fatal (st_sink st) <> None) ->
    watched st' h.

(** A streak of flushes that committed nothing, and a failed write the whole window
    after its first one. *)
Definition gave_up (h : list flushed_at) : Prop :=
  exists pre first streak last post, h = pre ++ first :: streak ++ last :: post /\
    Forall committed_nothing (first :: streak) /\ write_failed last /\
    CommitFailureWindow (applyDefaults c) <= fl_now last - fl_now first.

(** The streak the sink remembers. *)
Definition streak_since (t : Z) (h : list flushed_at) : Prop :=
  exists pre first streak, h = pre ++ first :: streak /\ Forall committed_nothing (first :: streak) /\ fl_now first = t.

(** ** Lemmas *)

Lemma gave_up_snoc h f : gave_up h -> gave_up (h ++ [f]).
Proof.
  intros (pre & first & streak & last & post & -> & Hs & Hl & Hw). exists pre, first, streak, last, (post ++ [f]).
  split_and!; [|done..]. by rewrite <- !app_assoc; simpl; rewrite <- !app_assoc.
Qed.

Lemma streak_since_snoc t h f : streak_since t h -> committed_nothing f -> streak_since t (h ++ [f]).
Proof.
  intros (pre & first & streak & -> & Hs & Ht) Hf. exists pre, first, (streak ++ [f]).
  split_and!; [by rewrite <- app_assoc| |done]. rewrite app_comm_cons. apply Forall_app. by rewrite Forall_singleton.
Qed.

Lemma streak_since_new h f : committed_nothing f -> streak_since (fl_now f) (h ++ [f]).
Proof. intros Hf. exists h, f, []. by rewrite Forall_singleton. Qed.

Lemma recordCommitFailure_watch now s :
  let s1 := recordCommitFailure now s in
  cfg s1 = cfg s /\ commitFailFirst s1 = (if commitFailFirst s =? 0 then now else commitFailFirst s) /\
  (fatal s1 = fatal s \/ commitFailFirst s <> 0 /\ CommitFailureWindow (cfg s) <= now - commitFailFirst s).
Proof.
  unfold recordCommitFailure. destruct (commitFailFirst s =? 0) eqn:E0; simpl; [by auto|].
  destruct (_ >=? _) eqn:Eg; [|by auto]. destruct (fatal s) eqn:Ef; [by auto|]. simpl. bool_to_prop.
  split_and!; [done..|]. right. split; [done|lia].
Qed.

Lemma flushDone_watch fp s :
  let s1 := flushDone fp s in cfg s1 = cfg s /\ commitFailFirst s1 = commitFailFirst s /\ fatal s1 = fatal s.
Proof. unfold flushDone. simpl. by destruct (_ <? _). Qed.

(** What a flush does to the watch. *)
Lemma flush_watch now s l job s' l' out :
  flush now s l job = (s', l', out) ->
  let f := mkFlushed now s l job in
  cfg s' = cfg s /\
  (commitFailFirst s' = 0 \/
   committed_nothing f /\ commitFailFirst s' = if commitFailFirst s =? 0 then now else commitFailFirst s) /\
  (fatal s' = fatal s \/
   write_failed f /\ commitFailFirst s <> 0 /\ CommitFailureWindow (cfg s) <= now - commitFailFirst s).
Proof.
  unfold flush, committed_nothing, write_failed. simpl.
  destruct (bw_WriteBundle l (j_events job)) as [l1 [e|]]; simpl; intros [= <- _ _].
  - pose proof (recordCommitFailure_watch now s) as (Hc & Hf & Hx). set (s1 := recordCommitFailure now s) in *.
    match goal with |- context [flushDone ?fp ?x] => destruct (flushDone_watch fp x) as (-> & -> & ->) end.
    destruct (p_cleared _); simpl; rewrite Hc.
    + split_and!; [done|by left|]. destruct Hx as [?|[? ?]]; [by left|by right].
    + split_and!; [done|by right|]. destruct Hx as [?|[? ?]]; [by left|by right].
  - match goal with |- context [flushDone ?fp ?x] => destruct (flushDone_watch fp x) as (-> & -> & ->) end. simpl. by auto.
Qed.

Record watch_inv (st : state) (h : list flushed_at) : Prop := mkWatchInv {
  wi_cfg : cfg (st_sink st) = applyDefaults c;
  wi_streak : commitFailFirst (st_sink st) <> 0 -> streak_since (commitFailFirst (st_sink st)) h;
  wi_fatal : fatal (st_sink st) <> None -> gave_up h;
  wi_exited e : st_pc st = Exited e -> gave_up h
}.

Lemma watched_inv st h : watched st h -> watch_inv st h.
Proof.
  induction 1 as [|now job run1 run2 s s' pc l l' tr out rcv d h _ IH Hf|st st' h _ IH _ Hc Hfirst Hfat].
  { by split. }
  - destruct IH as [Hc Hst Hfa Hex]. simpl in *. destruct (flush_watch _ _ _ _ _ _ _ Hf) as (Hc' & Hfirst & Hfat).
    split; simpl.
    + by rewrite Hc'.
    + intros Hne. destruct Hfirst as [?|[Hn ->]]; [done|]. destruct (commitFailFirst s =? 0) eqn:E0; bool_to_prop.
      * by apply (streak_since_new h).
      * by apply streak_since_snoc; [apply Hst|].
    + destruct Hfat as [->|(Hw & Hne & Hwin)]; [intros Hx; by apply gave_up_snoc, Hfa|]. intros _.
      destruct (Hst Hne) as (pre & first & streak & -> & Hs & Ht).
      exists pre, first, streak, (mkFlushed now s l job), []. rewrite <- app_assoc. split_and!; [done..|].
      cbn [fl_now]. rewrite Ht. by rewrite Hc in Hwin.
    + intros e He. by eapply gave_up_snoc, Hex.
  - destruct IH as [Hc0 Hst Hfa Hex]. split.
    + by rewrite Hc.
    + by rewrite Hfirst.
    + destruct Hfat as [[-> _]|[-> _]]; done.
    + intros e He. destruct Hfat as [[_ Hx]|[_ Hx]]; [by eapply Hex, Hx|by apply Hfa].
Qed.

(** Every run can be watched. *)
Lemma enqueue_watch now t s b block s' ok :
  enqueue now t s b block = (s', ok) -> cfg s' = cfg s /\ commitFailFirst s' = commitFailFirst s /\ fatal s' = fatal s.
Proof. unfold enqueue. destruct (negb _); by intros [= <- _]. Qed.
Lemma flushReady_watch now t s force :
  let s' := flushReady now t s force in cfg s' = cfg s /\ commitFailFirst s' = commitFailFirst s /\ fatal s' = fatal s.
Proof. unfold flushReady. repeat (split_match; try done); simpl; by apply (enqueue_watch _ _ _ _ _ _ _ (surjective_pairing _)). Qed.
Lemma handOff_watch now s :
  let s' := handOff now s in cfg s' = cfg s /\ commitFailFirst s' = commitFailFirst s /\ fatal s' = fatal s.
Proof. unfold handOff. split_match; [|done]. by apply (enqueue_watch _ _ _ _ _ _ _ (surjective_pairing _)). Qed.
Lemma add_watch now s m s' out :
  add now s m = (s', out) -> cfg s' = cfg s /\ commitFailFirst s' = commitFailFirst s /\ fatal s' = fatal s.
Proof. unfold add. destruct (ParseMsg _ _); by intros [= <- _]. Qed.

Lemma reachable_watched st : reachable c l0 st -> exists h, watched st h.
Proof.
  induction 1 as [|st st' _ [h IH] Hstep]; [eexists; apply watch_init|].
  assert (forall s s' pc pc' run run' l l' tr tr' rcv rcv' d d',
    st = mkState s pc run l tr rcv d -> st' = mkState s' pc' run' l' tr' rcv' d' ->
    cfg s' = cfg s /\ commitFailFirst s' = commitFailFirst s /\ fatal s' = fatal s ->
    (forall e, pc' = Exited e -> pc = Exited e) -> exists h', watched st' h') as Hkeep.
  { intros * -> -> (Hc & Hf & Hx) Hpc. exists h. eapply watch_step; [exact IH|exact Hstep|done..|by left]. }
  destruct Hstep; try (eapply Hkeep; [reflexivity|reflexivity|by simpl|by simpl]).
  - eapply Hkeep; [reflexivity|reflexivity| |done]. match goal with Ha : add _ _ _ = _ |- _ => destruct (add_watch _ _ _ _ _ Ha) as (<- & <- & <-) end.
    apply flushReady_watch.
  - eapply Hkeep; [reflexivity|reflexivity|apply flushReady_watch|done].
  - eapply Hkeep; [reflexivity|reflexivity|apply handOff_watch|done].
  - exists h. eapply watch_step; [exact IH|by apply step_fatal|done..|]. right. simpl. split; [done|]. congruence.
  - eapply Hkeep; [reflexivity|reflexivity| |done].
    match goal with |- context [flushReady ?a ?b ?x ?f] => destruct (flushReady_watch a b x f) as (Ha & Hb & Hc) end. by rewrite Ha, Hb, Hc.
  - eexists. by eapply watch_flush.
Qed.

Lemma exited_gave_up st e :
  reachable c l0 st -> st_pc st = Exited e -> exists h, watched st h /\ gave_up h.
Proof. intros [h Hh]%reachable_watched He. exists h. split; [done|]. by eapply wi_exited; [apply watched_inv|]. Qed.

(** ** Properties *)

(** A sink gives its writer up late. If its Run ends with the fatal error, some of
    its flushes form a streak in which nothing at all was committed, neither a bundle nor
    a range of one, and a further write failed CommitFailureWindow or more after the
    first of them. *)
Theorem sink_gives_up_late st e :
  reachable c l0 st -> st_pc st = Exited e -> exists h, watched st h /\ gave_up h.
Proof. apply exited_gave_up. Qed.
End Watch.

(** The bundle is one row, which the writer rejects as poison. *)
Definition poison_bundle (poison : StoredEvent -> bool) (job : flushJob) (ev : StoredEvent) (m : JMsg) : Prop :=
  j_events job = [ev] /\ j_msgs job = [m] /\ poison ev = true.

(** A bundle that is one poison row is terminated, and counts as a failure. *)
Lemma flush_poison_row `{W : BundleWriter} poison now s l job ev m s' l' out :
  healthy poison -> poison_bundle poison job ev m -> flush now s l job = (s', l', out) ->
  out = [Termed m] /\ s' = flushDone (j_footprint job) (recordCommitFailure now s).
Proof.
  intros [Hup _ Hbad] (He & Hm & Hp).
  assert (Hw : forall l1, exists l2 e, bw_WriteBundle l1 [ev] = (l2, Some e) /\ errors_is e ErrPoisonRow = true).
  { intros l1. destruct (Hbad l1 [ev]) as (e & Hw & Hi); [simpl; by rewrite Hp|].
    destruct (bw_WriteBundle l1 [ev]) as [l2 r]. simpl in Hw. subst. by eexists _, _. }
  unfold flush, isolate. rewrite He. destruct (Hw l) as (l2 & e1 & -> & _). cbn [length isolateRange p_lake].
  rewrite Hup. destruct (Hw l2) as (l3 & e2 & Hw2 & Hi). simpl. rewrite He.
  change (slice [ev] 0 1) with [ev]. rewrite Hw2, Hm. simpl. rewrite Hi. simpl.
  by intros [= <- _ <-].
Qed.

(** Two poison rows on a quiet partition restart the pod. With a writer that is up
    and commits every bundle of good rows, let a sink without a failure streak flush two
    bundles, each of one row the writer rejects as poison, the window or more apart and
    with no commit in between: both rows are terminated as they should be, and the second
    flush posts the fatal error, although nothing is wrong with the writer. *)
Theorem poison_only_bundles_restart `{W : BundleWriter} poison now1 now2 s l job1 job2 ev1 ev2 m1 m2 :
  healthy poison -> commitFailFirst s = 0 -> fatal s = None -> now1 <> 0 ->
  CommitFailureWindow (cfg s) <= now2 - now1 ->
  poison_bundle poison job1 ev1 m1 -> poison_bundle poison job2 ev2 m2 ->
  let '(s1, l1, out1) := flush now1 s l job1 in
  let '(s2, l2, out2) := flush now2 s1 l1 job2 in
  out1 = [Termed m1] /\ out2 = [Termed m2] /\ fatal s2 <> None.
Proof.
  intros Hh H0 Hf Hn Hwin Hb1 Hb2.
  destruct (flush now1 s l job1) as [[s1 l1] out1] eqn:E1. destruct (flush_poison_row _ _ _ _ _ _ _ _ _ _ Hh Hb1 E1) as [-> ->].
  destruct (flush now2 _ l1 job2) as [[s2 l2] out2] eqn:E2. destruct (flush_poison_row _ _ _ _ _ _ _ _ _ _ Hh Hb2 E2) as [-> ->].
  split_and!; [done..|]. destruct (flushDone_watch (j_footprint job2) (recordCommitFailure now2 (flushDone (j_footprint job1) (recordCommitFailure now1 s)))) as (_ & _ & ->).
  set (s1 := flushDone _ _). destruct (flushDone_watch (j_footprint job1) (recordCommitFailure now1 s)) as (Hc1 & Hf1 & Hx1).
  fold s1 in Hc1, Hf1, Hx1. destruct (recordCommitFailure_watch now1 s) as (Hc & Hfirst & _). rewrite H0 in Hfirst. simpl in Hfirst.
  unfold recordCommitFailure. rewrite Hf1, Hfirst, Hc1, Hc.
  replace (now1 =? 0) with false by (symmetry; by apply Z.eqb_neq). replace (now2 - now1 >=? CommitFailureWindow (cfg s)) with true by (symmetry; apply Z.geb_le; lia).
  by destruct (fatal s1) as [e|] eqn:Ef; [rewrite Ef|].
Qed.

(** ** Witnesses *)

Lemma poison_only_bundles_restart_witness :
  fatal (@flush toy_writer (1 + 10 * Minute) (@flush toy_writer 1 (New run_cfg) [] bad_job).1.1 [] bad_job).1.1 <> None.
Proof.
  pose proof (@poison_only_bundles_restart toy_writer toy_poison 1 (1 + 10 * Minute) (New run_cfg) [] bad_job bad_job
    bad_stored bad_stored junk_msg junk_msg toy_healthy eq_refl eq_refl ltac:(lia) ltac:(vm_compute; discriminate)
    (conj eq_refl (conj eq_refl eq_refl)) (conj eq_refl (conj eq_refl eq_refl))) as Hp.
  destruct Hp as (_ & _ & Hf). exact Hf.
Defined.

(** The same two rows, from their delivery to the end of Run. *)
Definition w_add (s : Sink) : Sink := flushReady 0 false (@add bad_lib map_headers 0 s junk_msg).1 false.
Definition w_flush (now : Z) (s : Sink) : Sink := (@flush toy_writer now (set_jobs [] s) [] bad_job).1.1.
Definition w_round (now : Z) (s : Sink) : Sink := w_flush now (w_add s).

Lemma w_round_reachable now s tr rcv :
  @reachable bad_lib map_headers toy_writer run_cfg [] (@mkState toy_writer s AtSelect [] [] tr rcv false) ->
  jobs (w_add s) = [bad_job] -> 0 < Workers (cfg (w_add s)) -> underCeiling (w_round now s) = true ->
  (@add bad_lib map_headers 0 s junk_msg).2 = [] ->
  (@flush toy_writer now (set_jobs [] (w_add s)) [] bad_job).1.2 = [] ->
  exists tr', @reachable bad_lib map_headers toy_writer run_cfg []
    (@mkState toy_writer (w_round now s) AtSelect [] [] tr' (rcv ++ [junk_msg]) false).
Proof.
  intros Hr Hj Hw Hu Ha Hl. eexists. eapply reach_step; [eapply reach_step; [eapply reach_step; [eapply reach_step; [exact Hr|]|]|]|].
  - eapply (@step_message bad_lib map_headers toy_writer 0 junk_msg s). apply surjective_pairing.
  - by apply (@step_take bad_lib map_headers toy_writer bad_job []).
  - apply (@step_flush bad_lib map_headers toy_writer now bad_job [] []).
    rewrite <- Hl. unfold w_round, w_flush. rewrite (surjective_pairing (flush now _ _ _)) at 1. rewrite (surjective_pairing (flush now _ _ _).1) at 1. reflexivity.
  - by apply step_under.
Qed.

Lemma w_exit s tr rcv e :
  @reachable bad_lib map_headers toy_writer run_cfg [] (@mkState toy_writer s AtSelect [] [] tr rcv false) ->
  fatal s = Some e -> exists st, @reachable bad_lib map_headers toy_writer run_cfg [] st /\ st_pc st = Exited e.
Proof. intros Hr He. eexists. split; [eapply reach_step; [exact Hr|by apply step_fatal]|done]. Qed.

Lemma w_poison_run : exists st e, @reachable bad_lib map_headers toy_writer run_cfg [] st /\ st_pc st = Exited e.
Proof.
  destruct (w_round_reachable 1 (New run_cfg) [] [] (reach_init _ _)) as [tr1 Hr1]; try (vm_compute; reflexivity).
  destruct (w_round_reachable (1 + 10 * Minute) _ _ _ Hr1) as [tr2 Hr2]; try (vm_compute; reflexivity).
  assert (exists e, fatal (w_round (1 + 10 * Minute) (w_round 1 (New run_cfg))) = Some e) as [e He] by (vm_compute; by eexists).
  destruct (w_exit _ _ _ _ Hr2 He) as (st & Hst). by exists st, e.
Defined.

Lemma sink_gives_up_late_witness :
  exists st h, @watched bad_lib map_headers toy_writer run_cfg [] st h /\ @gave_up toy_writer run_cfg h.
Proof.
  destruct w_poison_run as (st & e & Hr & Hpc).
  destruct (@sink_gives_up_late bad_lib map_headers toy_writer run_cfg [] st e Hr Hpc) as (h & Hh & Hg).
  exists st, h. split; [exact Hh|exact Hg].
Defined.
