(* ===== verification/Pipeline.v ===== *)
(** * The whole path: from a request to a row of the lake

    The components composed: the connection server in front of the handler
    ([connectionChain]), the node behind it ([node_deps]: converter, splitter and
    publisher), the WAL, and the sink with the lake's writer ([lake_writer]) reading
    it. The proofs only use what the components' files prove of them. *)

From S2P Require Import Prelude GoStd CloudEvent Stream Publisher Blob Convert Attest Handler Server LakeWriter Sink.

(** A delivery of a WAL message: its headers and its data, wherever it is in the
    stream and however often it was delivered. *)
Definition delivers (msg : Msg) (m : JMsg) : Prop := jm_Headers m = msg_Header msg /\ jm_Data m = msg_Data msg.

Section Lake.
Context `{CloudEventLib} `{L : NatsHeaderLib} `{!NatsHeaderLaws L} `{D : DuckDB}.
Variables (table : string) (conns : list Z) (ctxDone : db -> bool).
Context `{!DuckLaws D table}.

Abbreviation writer := (lake_writer table conns ctxDone).

(** What a settled delivery of the message of [s] says about the lake: acked, a row
    of the table reads back as the event; terminated, the writer refused the
    event on its own, as poison or at the tenth delivery or later. *)
Definition settled_right (st : @state writer) (s : StoredEvent) (m : JMsg) : Prop :=
  (Acked m ∈ @st_settled writer st ->
     exists row, row ∈ committed (snd (@st_lake writer st)) /\ read_row row = Some (event_view s)) /\
  (Termed m ∈ @st_settled writer st ->
     exists l0 l1 err, @bw_WriteBundle writer l0 [s] = (l1, Some err) /\
       (errors_is err ErrPoisonRow = true \/ poisonRedeliveryThreshold <= redeliveryCount m)).

Lemma delivered_settled c l st partitions (s : StoredEvent) body m :
  @reachable _ _ writer c l st -> UnmarshalJSON body = Ok (Raw s) ->
  delivers (buildMsg partitions s body) m -> settled_right st s m.
Proof.
  intros Hr Hu [Hh Hd].
  assert (ParseMsg (jm_Headers m) (jm_Data m) = Ok s) as Hp by (rewrite Hh, Hd; by apply ParseMsg_buildMsg).
  split; intros Hm; pose proof (settled_rightly (L := lake_writer_laws table conns ctxDone) _ _ _ _ Hr Hm) as Hs; simpl in Hs; unfold decoded in Hs; rewrite Hp in Hs.
  - destruct Hs as (ev & [= <-] & row & Hrow & Hin). exists row. split; [done|]. by apply read_fillRowArgs.
  - destruct Hs as [?|(ev & l0 & l1 & err & [= <-] & Hw & He)]; [done|]. by exists l0, l1, err.
Qed.
End Lake.

(** What the splitter made of a converted event: the header is kept, and the
    payload is in the event as it came or, above the threshold, was put under the
    event's key. *)
Definition payload_split `{ObjectStore} (sp : Splitter) (event : RawEvent) (s : StoredEvent) : Prop :=
  Hdr s = Hdr event /\ VoidsID s = "" /\
  if dataPayloadLen event <=? threshold sp then Raw s = event /\ DataIndexKey s = ""
  else Data s = "" /\ DataBase64 s = "" /\
       exists raw st st', decodePayload event = Ok raw /\ PutObject st (DataIndexKey s) raw = (st', None).

Lemma MaybeSplit_payload `{ObjectStore} sp now uuid st event st' s :
  MaybeSplit sp now uuid st event = (st', Ok s) -> payload_split sp event (set_VoidsID "" s).
Proof.
  unfold MaybeSplit, payload_split. destruct (_ <=? _); [by intros [= <- <-]|].
  destruct (decodePayload event) as [raw|e] eqn:Ed; [|done].
  destruct (PutObject st _ raw) as [st1 [e|]] eqn:Ep; [done|]. intros [= <- <-].
  split_and!; [done..|]. by exists raw, st, st1.
Qed.

(** ** The path *)

Section Path.
Context `{CloudEventLib} `{EthLib} `{ModuleLib} `{EthCrypto} `{L : NatsHeaderLib} `{!NatsHeaderLaws L}
  `{J : JetStreamPublish} `{!JetStreamLaws J} `{ObjectStore} `{RateLib} `{D : DuckDB} `{!DuckLaws D table}.
Variables (partitions : Z) (splitter : Splitter) (skew : Z) (validate : bool).
Variables (rangeOrder : gmap string bucket -> list string) (srv : server) (conns : list Z) (ctxDone : db -> bool).

Abbreviation deps := (node_deps partitions splitter skew).
Abbreviation lakeWriter := (lake_writer table conns ctxDone).

(** What became of a converted event: it was dropped for its VIN, or its message is
    in the WAL and whatever the sink settles of it is right. *)
Definition arrives (w : node) (st : @state lakeWriter) (event : RawEvent) : Prop :=
  (validate = true /\ exists e, Validate event = Some e /\ errors_is e ErrInvalidVIN = true) \/
  (exists s body, payload_split splitter event s /\ MarshalJSON s = Ok body /\
     stream_has (n_wal w) (buildMsg partitions s body) /\
     (UnmarshalJSON body = Ok (Raw s) -> forall m, delivers (buildMsg partitions s body) m ->
        settled_right table conns ctxDone st s m)).

(** C3: The whole path keeps what was accepted. When the connection listener answers
    200, the client presented a verified certificate, the payload was converted
    under its CommonName, and every converted event (fingerprints with an invalid VIN
    aside) is in the WAL with its header and its payload or the key of the put that
    stored it; and in every state of a sink that reads the WAL, a delivery of that
    message is acked only if a row of the lake reads back as the event, and
    terminated only if the writer refused that event alone. *)
Theorem accepted_event_reaches_lake now lim w r lim' w' a c l st :
  connectionChain rangeOrder now srv (business (@Connection _ _ deps validate)) (lim, w) r = ((lim', w'), Some a) ->
  status a = StatusOK -> @reachable _ _ lakeWriter c l st ->
  exists source body w1 events,
    verifiedLeaf r = Some source /\ limited (srv_maxBody srv) (hr_body r) = Ok body /\
    @deps_Convert deps w source body = (w1, Ok events) /\ Forall (arrives w' st) events.
Proof.
  intros Hrun Hok Hr. destruct (connection_answered _ _ _ _ _ _ _ _ _ _ Hrun Hok) as (source & Hs & _ & Hc).
  destruct (Connection_accepted (P := node_publisher partitions splitter skew) validate w _ w' a Hc Hok)
    as (source' & body & w1 & events & fates & Hsrc & Hb & Hcv & Hf & Hd). simpl in Hsrc, Hb. injection Hsrc as <-.
  exists source, body, w1, events. do 3 (split; [done|]).
  apply Forall_forall. intros event (i & Hi)%list_elem_of_lookup.
  destruct (Forall2_lookup_l _ _ _ _ _ Hf Hi) as (f & Hfi & Hfate).
  rewrite Forall_forall in Hd. apply list_elem_of_lookup_2, Hd in Hfi. destruct Hfi as [->|(s & -> & body' & Hm & Hw)].
  - left. inversion Hfate; subst. eauto.
  - right. exists s, body'. inversion Hfate as [| | |w0 w2 s0 Hk Hsp]; subst.
    split; [|split; [done|split; [done|]]].
    + simpl in Hsp. destruct (MaybeSplit splitter _ _ _ event) as [st0 r0] eqn:Es. injection Hsp as _ ->.
      by eapply MaybeSplit_payload.
    + intros Hu m Hdel. by eapply delivered_settled.
Qed.
End Path.

(** ** A run for the witness *)

(** A codec that reads back the one event of the run. *)
Definition path_lib : CloudEventLib := {|
  TypeStatus := "dimo.status"; TypeFingerprint := "dimo.fingerprint"; TypeEvents := "dimo.events";
  TypeSignals := "dimo.signals"; TypeRawStatus := "dimo.raw.status";
  TypeAttestation := "dimo.attestation"; TypeAttestationTombstone := "dimo.tombstone";
  HeaderKey h := ID h;
  MarshalJSON r := Ok (ID r +:+ "|" +:+ Data r);
  UnmarshalJSON b := if b =?s "id-1|payload" then Ok sample_converted else Err (ENew "invalid JSON");
  MarshalHeader h := Ok (ID h);
  DecodeERC721DID := @DecodeERC721DID sample_lib; DecodeLegacyNFTDID := @DecodeLegacyNFTDID sample_lib;
  DIDString := @DIDString sample_lib; DecodeEthrDID := @DecodeEthrDID sample_lib;
  BytesForSignature := @BytesForSignature sample_lib; ExtrasJSON h := None
|}.
Definition path_splitter : Splitter := mkSplitter 100 "blobs/".
Definition path_node : Deps :=
  @node_deps path_lib sample_eth sample_modules sample_crypto map_headers list_js map_store 4 path_splitter 300.
Definition path_request : httpRequest :=
  mkHttp "POST" "10.0.0.1:5555" (Some [["0xAA"; "root"]]) "" ("payload", None) None.
Definition path_run :=
  @connectionChain tokenBuckets _ keysOf 0 tinyServer (business (@Connection path_lib sample_modules path_node false))
    (@newRemoteLimiter tokenBuckets 1 2, boot_node) path_request.
Definition path_answer : response := default (http_Error "" 0) path_run.2.

Definition path_stored : StoredEvent := mkStored sample_converted "" "".
Definition path_wal_msg : Msg := @buildMsg path_lib map_headers 4 path_stored "id-1|payload".
Definition path_msg : JMsg := mkJMsg 1 (msg_Header path_wal_msg) (msg_Data path_wal_msg) (Ok 1).

(** The sink receives, queues and commits it. *)
Definition path_writer : BundleWriter := @lake_writer path_lib mem_duck "raw_events" [0] (fun _ => false).
Definition path_s1 : Sink := (@add path_lib map_headers 0 (New run_cfg) path_msg).1.
Definition path_s2 : Sink := flushReady 0 false path_s1 false.
Definition path_job : flushJob :=
  mkJob [path_stored] [path_msg] (strlen "id-1|payload") (bufferedFootprint path_stored (strlen "id-1|payload")).
Definition path_flush := @flush path_writer 0 (set_jobs [] path_s2) (0, mem0 1) path_job.
Definition path_state : @state path_writer :=
  @mkState path_writer path_flush.1.1 InBackpressure [] path_flush.1.2 path_flush.2 [path_msg] false.

Lemma path_reachable : @reachable path_lib map_headers path_writer run_cfg (0, mem0 1) path_state.
Proof.
  eapply reach_step; [eapply reach_step; [eapply reach_step; [apply reach_init|]|]|].
  - apply (@step_message path_lib map_headers path_writer 0 path_msg (New run_cfg) path_s1 []).
    vm_compute. reflexivity.
  - apply (@step_take path_lib map_headers path_writer path_job [] path_s2); [vm_compute; reflexivity | done].
  - apply (@step_flush path_lib map_headers path_writer 0 path_job [] [] (set_jobs [] path_s2) path_flush.1.1 InBackpressure
             (0, mem0 1) path_flush.1.2 [] path_flush.2). vm_compute. reflexivity.
Defined.

Lemma path_answered : path_run = (path_run.1.1, path_run.1.2, Some path_answer).
Proof.
  assert (status path_answer = StatusOK) as Ha by (vm_compute; reflexivity).
  unfold path_answer in *. by destruct path_run as [[l w] [a|]].
Qed.

(** The device's event is accepted and acked, and the lake has its row; the commit
    conflict of the first attempt is retried. *)
Lemma accepted_event_reaches_lake_witness :
  status path_answer = StatusOK /\ path_flush.2 = [Acked path_msg] /\
  exists row, row ∈ m_rows path_flush.1.2.2 /\ read_row row = Some (event_view path_stored).
Proof.
  split; [vm_compute; reflexivity|]. split; [vm_compute; reflexivity|].
  destruct (@accepted_event_reaches_lake path_lib sample_eth sample_modules sample_crypto map_headers map_headers_laws
    list_js list_js_laws map_store tokenBuckets mem_duck "raw_events" mem_duck_laws 4 path_splitter 300 false
    keysOf tinyServer [0] (fun _ => false) 0 (@newRemoteLimiter tokenBuckets 1 2) boot_node path_request
    path_run.1.1 path_run.1.2 path_answer run_cfg (0, mem0 1) path_state
    path_answered ltac:(vm_compute; reflexivity) path_reachable)
    as (source & body & w1 & events & Hs & Hb & Hc & Ha).
  injection Hs as <-. injection Hb as <-. apply (f_equal snd) in Hc. vm_compute in Hc. injection Hc as <-.
  apply Forall_cons in Ha as [[[Hv _]|(s & body & Hp & Hm & _ & Hd)] _]; [done|].
  assert (s = path_stored) as -> by (destruct s, Hp as (_ & Hv & Hr & Hk); simpl in *; by subst).
  injection Hm as <-. apply (Hd eq_refl path_msg); [done|]. by left.
Defined.
