(* ===== verification/Maintain.v ===== *)
(** * Package lake, maintenance: compaction and snapshot expiry

    internal/lake/maintain.go and the queries of internal/lake/consumer.go. The
    catalog tables the queries read (snapshots, consumer progress) are data
    ([catalog]), a query is the relational function its SQL text denotes, and it
    may fail ([q_err]). DuckLake's maintenance CALLs are statements ([stmt]) run
    by a parameter ([MaintEnv]). Epochs are exact times, where the code goes
    through float64. *)

From S2P Require Import Prelude GoStd Float LakeWriter.

(** ** Configuration *)

(** MemoryLimit is not a field: what it parses to is the argument memBudgetBytes of the operations. *)
Record MaintConfig := mkMaint {
  Interval : Z; SnapshotKeep : Z; ConsumerStaleness : Z; OrphanRetention : Z; FileCleanupGrace : Z;
  MergeMaxFilesPerCall : Z; RewriteDeleteThreshold : float
}.

Definition defaultFileCleanupGrace : Z := 30 * Minute.
Definition defaultRewriteDeleteThreshold : float := Eval vm_compute in round64 1 2.

Definition applyDefaults (c : MaintConfig) : MaintConfig :=
  mkMaint (or_default (Interval c) (15 * Minute)) (or_default (SnapshotKeep c) (72 * Hour))
    (or_default (ConsumerStaleness c) Hour) (or_default (OrphanRetention c) (7 * 24 * Hour))
    (or_default (FileCleanupGrace c) defaultFileCleanupGrace) (MergeMaxFilesPerCall c)
    (if isZero (RewriteDeleteThreshold c) then defaultRewriteDeleteThreshold else RewriteDeleteThreshold c).

Definition maxConsecutiveCycleFailures : Z := 4.
Definition mergeRampStartFiles : Z := 32.
Definition mergeMinFilesPerCall : Z := 1.
Definition mergeMaxFilesHardCeiling : Z := 1000.
Definition mergeMaxFilesFallback : Z := 256.

(** int64(d.Seconds()) *)
Definition secs (d : Z) : Z := Z.quot d Second.

(** ** The catalog *)

Record snapshot := mkSnap { snapshot_id : Z; snapshot_time : Z }.
Record progress := mkProgress { consumer : string; cursor : Z; updated_at : Z }.
Record catalog := mkCatalog { snapshots : list snapshot; consumers : list progress }.

Inductive query := QFloor | QRetention | QFloorBound | QStale | QUnconsumed.

(** SELECT MIN(f): NULL on no rows. *)
Definition sql_min (l : list Z) : option Z :=
  match l with [] => None | x :: l' => Some (foldr Z.min x l') end.

(** updated_at > now() - INTERVAL staleness *)
Definition is_live (now staleness : Z) (p : progress) : bool := now - secs staleness * Second <? updated_at p.

Section Queries.
Variables (q_err : query -> option error) (now : Z) (cat : catalog).

(** ConsumerFloor: the lowest cursor of the live consumers, if there is one. *)
Definition ConsumerFloor (staleness : Z) : result (option Z) :=
  match q_err QFloor with
  | Some e => Err (EWrap "consumer floor: " e "")
  | None => Ok (sql_min (cursor <$> List.filter (is_live now staleness) (consumers cat)))
  end.

(** StaleConsumers *)
Definition StaleConsumers (staleness : Z) : result (list progress) :=
  match q_err QStale with
  | Some e => Err (EWrap "stale consumers: " e "")
  | None => Ok (List.filter (fun p => updated_at p <=? now - secs staleness * Second) (consumers cat))
  end.

(** UnconsumedExpiringCount *)
Definition UnconsumedExpiringCount (cur cutoff : Z) : result Z :=
  match q_err QUnconsumed with
  | Some e => Err (EWrap "unconsumed expiring count: " e "")
  | None => Ok (Zlen (List.filter (fun s => (cur <? snapshot_id s) && (snapshot_time s <? cutoff))
                        (snapshots cat)))
  end.

Variable cfg : MaintConfig.

(** expireCutoff: the cutoff, the floor snapshot, and whether the floor binds. *)
Definition expireCutoff : result (Z * Z * bool) :=
  let retention := now - secs (SnapshotKeep cfg) * Second in
  match ConsumerFloor (ConsumerStaleness cfg) with
  | Err e => Err e
  | Ok None =>
      match q_err QRetention with
      | Some e => Err (EWrap "expire retention epoch: " e "")
      | None => Ok (retention, 0, false)
      end
  | Ok (Some floor) =>
      match q_err QFloorBound with
      | Some e => Err (EWrap "expire floor bound: " e "")
      | None =>
          match sql_min (snapshot_time <$> List.filter (fun s => floor <? snapshot_id s) (snapshots cat)) with
          | None => Ok (retention, floor, false)
          | Some bound => if bound >=? retention then Ok (retention, floor, false) else Ok (bound, floor, true)
          end
      end
  end.

(** reportConsumerHealth: the stale gauge (when it was read) and, per stale
    consumer, the snapshots it loses in this cycle. *)
Definition reportConsumerHealth : option Z * list (string * Z) :=
  if ConsumerStaleness cfg <=? 0 then (None, [])
  else match StaleConsumers (ConsumerStaleness cfg) with
       | Err _ => (None, [])
       | Ok stale =>
           if Zlen stale =? 0 then (Some 0, [])
           else match expireCutoff with
                | Err _ => (Some (Zlen stale), [])
                | Ok (cutoff, _, _) =>
                    (Some (Zlen stale),
                     omap (fun c => match UnconsumedExpiringCount (cursor c) cutoff with
                                    | Ok lost => if 0 <? lost then Some (consumer c, lost) else None
                                    | Err _ => None
                                    end) stale)
                end
       end.
End Queries.

(** ** Statements and the cycle *)

Inductive stmt :=
| FlushInlinedData
| RewriteDataFiles (threshold : float)
| MergeAdjacentFiles (max_compacted_files : Z)
| ExpireSnapshots (older_than : Z)
| CleanupAll
| CleanupOldFiles (older_than_secs : Z)
| DeleteOrphanedFiles (older_than_secs : Z).

(** What the maintainer runs against: the state of the lake and of the context.
    [m_exec] runs a CALL (the flag: inside an explicit transaction) and counts
    its rows; [m_avg] is the largest average file size, 0 when unknown. *)
Class MaintEnv := {
  menv : Type;
  m_ctxErr : menv -> option error;
  m_now : menv -> Z;
  m_catalog : menv -> catalog;
  m_qerr : menv -> query -> option error;
  m_avg : menv -> Z;
  m_reassert : menv -> menv * option error;
  m_exec : menv -> bool -> stmt -> menv * result Z;
  m_wait : menv -> Z -> menv * option error;
  m_budget_spent : menv -> bool
}.

Definition isOutOfMemory (err : error) : bool :=
  let msg := ToLower (error_text err) in Contains msg "out of memory" || Contains msg "could not allocate".

Section Cycle.
Context `{MaintEnv}.
Variables (cfg : MaintConfig) (memBudgetBytes : Z).

(** mergeCeiling; mergeMemoryBudgetFraction is one half. The budget is an int64 cut from
    a float64 (parseByteSize), so float64(m.memBudgetBytes) and half of it are exact. *)
Definition mergeCeiling (e : menv) : Z :=
  if 0 <? MergeMaxFilesPerCall cfg then Z.min (MergeMaxFilesPerCall cfg) mergeMaxFilesHardCeiling
  else if memBudgetBytes <=? 0 then mergeMaxFilesFallback
  else let avg := m_avg e in
       if avg <=? 0 then mergeMaxFilesFallback
       else let derived := Z.quot (Z.quot memBudgetBytes 2) avg in
            Z.min (Z.max derived mergeMinFilesPerCall) mergeMaxFilesHardCeiling.

(** One attempt of a CALL inside a retry loop: the row count is kept aside. *)
Definition exec_step (txn : bool) (st : stmt) (s : menv * Z) : menv * Z * option error :=
  match m_exec s.1 txn st with
  | (e, Ok n) => (e, n, None)
  | (e, Err err) => (e, 0, Some err)
  end.
Definition wait_step (s : menv * Z) (t : Z) : menv * Z * option error :=
  let '(e, err) := m_wait s.1 t in (e, s.2, err).

(** runStep / runStepWith: retried up to three times. *)
Definition runStepWith (e : menv) (txn : bool) (st : stmt) : menv * result Z :=
  match retryCatalog (exec_step txn st) wait_step (e, 0) with
  | (e', n, None) => (e', Ok n)
  | (e', _, Some err) => (e', Err err)
  end.

(** runBoundedMerge: the loop, with the caps of the sub-calls it made. The fuel
    bounds the number of rounds looked at; None: still running. *)
Fixpoint mergeLoop (fuel : nat) (e : menv) (ceiling ramp subCalls : Z) (caps : list Z)
    : menv * Z * list Z * option (Z * option error) :=
  match fuel with
  | O => (e, ramp, caps, None)
  | S fuel' =>
      match m_ctxErr e with
      | Some err => (e, ramp, caps, Some (subCalls, Some err))
      | None =>
          if m_budget_spent e then (e, ramp, caps, Some (subCalls, None))
          else
            let filesCap := Z.min (Z.max ramp mergeMinFilesPerCall) ceiling in
            let caps := caps ++ [filesCap] in
            match retryCatalogIf (exec_step false (MergeAdjacentFiles filesCap))
                    (fun err => negb (isOutOfMemory err)) wait_step (e, 0) with
            | (e', _, Some err) =>
                if isOutOfMemory err
                then (e', Z.max (Z.quot filesCap 2) mergeMinFilesPerCall, caps, Some (subCalls, None))
                else (e', ramp, caps, Some (subCalls, Some err))
            | (e', n, None) =>
                if n =? 0 then (e', ramp, caps, Some (subCalls, None))
                else mergeLoop fuel' e' ceiling (Z.min (filesCap * 2) ceiling) (subCalls + 1) caps
            end
      end
  end.

Definition runBoundedMerge (fuel : nat) (e : menv) (mergeRamp : Z) :=
  let ceiling := mergeCeiling e in mergeLoop fuel e ceiling (Z.min mergeRamp ceiling) 0 [].

(** expireSQL: the CALL with its cutoff frozen. *)
Definition expireSQL (e : menv) : result stmt :=
  match expireCutoff (m_qerr e) (m_now e) (m_catalog e) cfg with
  | Ok (cutoff, _, _) => Ok (ExpireSnapshots cutoff)
  | Err err => Err err
  end.

(** recordErr: the first error of the cycle, with the name of its step. *)
Definition recordErr (firstErr : option error) (name : string) (err : option error) : option error :=
  match firstErr, err with
  | None, Some e => Some (EWrap (name +:+ ": ") e "")
  | _, _ => firstErr
  end.

Definition err_of {A} (r : result A) : option error := match r with Ok _ => None | Err e => Some e end.

(** The steps after the merge, in order. *)
Definition postSteps (expire : result stmt) : list (string * stmt) :=
  (match expire with Ok st => [("expire_snapshots", st)] | Err _ => [] end) ++
  [("cleanup_old_files",
    if FileCleanupGrace cfg >=? 0 then CleanupOldFiles (secs (FileCleanupGrace cfg)) else CleanupAll)] ++
  (if OrphanRetention cfg >=? 0
   then [("delete_orphaned_files", DeleteOrphanedFiles (secs (OrphanRetention cfg)))] else []).

Fixpoint runPost (e : menv) (steps : list (string * stmt)) (firstErr : option error) (log : list stmt)
    : menv * list stmt * option error :=
  match steps with
  | [] => (e, log, firstErr)
  | (name, st) :: steps' =>
      match m_ctxErr e with
      | Some err => (e, log, Some err)
      | None =>
          let '(e', r) := runStepWith e false st in
          runPost e' steps' (recordErr firstErr name (err_of r)) (log ++ [st])
      end
  end.

(** Cycle: the state, the ramp, the statements run (merges by their caps), and
    the returned error; None when the merge loop is still running. *)
Definition Cycle (fuel : nat) (e : menv) (ramp : Z) : option (menv * Z * list stmt * option error) :=
  let '(e1, reErr) := retryCatalog m_reassert m_wait e in
  let firstErr := recordErr None "reassert_layout" reErr in
  let expire := expireSQL e1 in
  let firstErr := recordErr firstErr "expire_snapshots" (err_of expire) in
  match m_ctxErr e1 with
  | Some err => Some (e1, ramp, [], Some err)
  | None =>
      let '(e2, r) := runStepWith e1 false FlushInlinedData in
      let firstErr := recordErr firstErr "flush_inlined_data" (err_of r) in
      let log := [FlushInlinedData] in
      let cont e3 firstErr log :=
        match m_ctxErr e3 with
        | Some _ => 
            let '(e5, log', err) := runPost e3 (postSteps expire) firstErr log in
            Some (e5, ramp, log', err)
        | None =>
            match runBoundedMerge fuel e3 ramp with
            | (_, _, _, None) => None
            | (e4, ramp', caps, Some (_, mergeErr)) =>
                let firstErr := recordErr firstErr "merge_adjacent_files" mergeErr in
                let '(e5, log', err) :=
                  runPost e4 (postSteps expire) firstErr (log ++ (MergeAdjacentFiles <$> caps)) in
                Some (e5, ramp', log', err)
            end
        end in
      if nonNegative (RewriteDeleteThreshold cfg) then
        match m_ctxErr e2 with
        | Some err => Some (e2, ramp, log, Some err)
        | None =>
            let st := RewriteDataFiles (RewriteDeleteThreshold cfg) in
            let '(e3, r) := runStepWith e2 true st in
            cont e3 (recordErr firstErr "rewrite_data_files" (err_of r)) (log ++ [st])
        end
      else cont e2 firstErr log
  end.
End Cycle.

(** Run: over the results of successive cycles (None: success) until it returns;
    the flag of a cycle says that ctx was done while waiting for the next tick. *)
Fixpoint Run (consecutiveFailures : Z) (cycles : list (option error * bool)) : option (option error) :=
  match cycles with
  | [] => None
  | (res, done) :: rest =>
      let continue n := if done then Some None else Run n rest in
      match res with
      | None => continue 0
      | Some err =>
          if errors_is err ctxCanceled then Some None
          else
            let n := consecutiveFailures + 1 in
            if n >=? maxConsecutiveCycleFailures
            then Some (Some (EWrap ("maintenance wedged after " +:+ fmt_d n +:+ " consecutive cycle failures: ") err ""))
            else continue n
      end
  end.

(** ** Lemmas: expiry *)

Lemma foldr_min_le x l y : y = x \/ y ∈ l -> foldr Z.min x l <= y.
Proof.
  induction l as [|z l IH]; simpl.
  - intros [->|?%elem_of_nil]; [lia | done].
  - intros [->|[->|Hy]%elem_of_cons]; [specialize (IH (or_introl eq_refl)); lia | lia | specialize (IH (or_intror Hy)); lia].
Qed.

Lemma sql_min_le l m y : sql_min l = Some m -> y ∈ l -> m <= y.
Proof.
  destruct l as [|x l]; [done|]. intros [= <-] Hy. apply foldr_min_le. by apply elem_of_cons in Hy.
Qed.

Lemma sql_min_None l : sql_min l = None -> l = [].
Proof. by destruct l. Qed.

Lemma elem_of_filter_b {A} (f : A -> bool) l x : x ∈ List.filter f l <-> x ∈ l /\ f x = true.
Proof. rewrite !list_elem_of_In. apply List.filter_In. Qed.

Lemma elem_of_fmap_filter {A} (f : A -> bool) (g : A -> Z) l x :
  x ∈ l -> f x = true -> g x ∈ g <$> List.filter f l.
Proof. intros Hx Hf. apply list_elem_of_fmap. exists x. split; [done|]. by apply elem_of_filter_b. Qed.

(** The snapshots a live consumer has not consumed yet. *)
Definition unconsumed (now staleness : Z) (cat : catalog) (s : snapshot) : Prop :=
  s ∈ snapshots cat /\
  exists p, p ∈ consumers cat /\ is_live now staleness p = true /\ cursor p < snapshot_id s.

(** ducklake_expire_snapshots: what an expiry with this cutoff removes. *)
Definition expired (cutoff : Z) (s : snapshot) : Prop := snapshot_time s < cutoff.

Lemma expireCutoff_safe q_err now cat cfg cutoff floor binding :
  expireCutoff q_err now cat cfg = Ok (cutoff, floor, binding) ->
  cutoff <= now - secs (SnapshotKeep cfg) * Second /\
  forall s, unconsumed now (ConsumerStaleness cfg) cat s -> ~ expired cutoff s.
Proof.
  unfold expireCutoff, ConsumerFloor. destruct (q_err QFloor); [done|].
  destruct (sql_min (cursor <$> _)) as [fl|] eqn:Ef.
  - destruct (q_err QFloorBound); [done|].
    destruct (sql_min (snapshot_time <$> _)) as [bound|] eqn:Eb.
    + assert (forall s, unconsumed now (ConsumerStaleness cfg) cat s -> bound <= snapshot_time s) as Hb.
      { intros s [Hs (p & Hp & Hl & Hc)]. apply (sql_min_le _ _ _ Eb).
        apply elem_of_fmap_filter; [done|]. apply Z.ltb_lt.
        pose proof (sql_min_le _ _ _ Ef (elem_of_fmap_filter _ cursor _ p Hp Hl)). lia. }
      destruct (bound >=? _) eqn:Eg; bool_to_prop; intros [= <- _ _].
      * split; [lia|]. intros s Hs%Hb. unfold expired. lia.
      * split; [lia|]. intros s Hs%Hb. unfold expired. lia.
    + intros [= <- _ _]. split; [lia|]. intros s [Hs (p & Hp & Hl & Hc)].
      apply sql_min_None in Eb.
      pose proof (sql_min_le _ _ _ Ef (elem_of_fmap_filter _ cursor _ p Hp Hl)).
      assert (snapshot_time s ∈ snapshot_time <$> List.filter (fun s => fl <? snapshot_id s) (snapshots cat)) as Hin
        by (apply elem_of_fmap_filter; [done | apply Z.ltb_lt; lia]).
      rewrite Eb in Hin. by apply elem_of_nil in Hin.
  - destruct (q_err QRetention); [done|]. intros [= <- _ _]. split; [lia|].
    intros s [Hs (p & Hp & Hl & Hc)]. apply sql_min_None in Ef.
    pose proof (elem_of_fmap_filter _ cursor _ p Hp Hl) as Hin. rewrite Ef in Hin. by apply elem_of_nil in Hin.
Qed.

(** ** Lemmas: the cycle *)

Section CycleLemmas.
Context `{MaintEnv}.
Variables (cfg : MaintConfig) (mem : Z).

Lemma runPost_log steps : forall e firstErr log e' log' err,
  runPost e steps firstErr log = (e', log', err) ->
  exists k, log' = log ++ (snd <$> take k steps).
Proof.
  induction steps as [|[name st] steps IH]; intros e firstErr log e' log' err; simpl.
  { intros [= _ <- _]. exists 0%nat. by rewrite app_nil_r. }
  destruct (m_ctxErr e); [intros [= _ <- _]; exists 0%nat; by rewrite app_nil_r|].
  destruct (runStepWith e false st) as [e1 r]. intros (k & ->)%IH. exists (S k).
  by rewrite <- app_assoc.
Qed.

(** A cycle runs the flush, the rewrite (unless disabled), the merges, and then
    a prefix of the post steps, in this order. *)
Lemma Cycle_log fuel e ramp e' ramp' log err :
  Cycle cfg mem fuel e ramp = Some (e', ramp', log, err) ->
  exists pre caps k,
    (pre = [] \/ pre = [FlushInlinedData] \/
     pre = [FlushInlinedData; RewriteDataFiles (RewriteDeleteThreshold cfg)]) /\
    log = pre ++ (MergeAdjacentFiles <$> caps) ++
          (snd <$> take k (postSteps cfg (expireSQL cfg (retryCatalog m_reassert m_wait e).1))).
Proof.
  unfold Cycle. destruct (retryCatalog m_reassert m_wait e) as [e1 reErr]. simpl.
  set (post := postSteps cfg _).
  destruct (m_ctxErr e1).
  { intros [= _ _ <- _]. exists [], [], 0%nat. split; [by left | done]. }
  destruct (runStepWith e1 false FlushInlinedData) as [e2 r].
  assert (forall e3 fe pre,
    match m_ctxErr e3 with
    | Some _ => let '(e5, log', err) := runPost e3 post fe pre in Some (e5, ramp, log', err)
    | None =>
        match runBoundedMerge cfg mem fuel e3 ramp with
        | (_, _, _, None) => None
        | (e4, ramp', caps, Some (_, mergeErr)) =>
            let '(e5, log', err) := runPost e4 post (recordErr fe "merge_adjacent_files" mergeErr)
              (pre ++ (MergeAdjacentFiles <$> caps)) in Some (e5, ramp', log', err)
        end
    end = Some (e', ramp', log, err) ->
    exists caps k, log = pre ++ (MergeAdjacentFiles <$> caps) ++ (snd <$> take k post)) as Hcont.
  { intros e3 fe pre. destruct (m_ctxErr e3).
    - destruct (runPost e3 post fe pre) as [[e5 log'] er] eqn:Ep. intros [= _ _ <- _].
      apply runPost_log in Ep as [k ->]. by exists [], k.
    - destruct (runBoundedMerge cfg mem fuel e3 ramp) as [[[e4 rp] caps] [[n me]|]]; [|done].
      destruct (runPost e4 post _ _) as [[e5 log'] er] eqn:Ep. intros [= _ _ <- _].
      apply runPost_log in Ep as [k ->]. exists caps, k. by rewrite <- app_assoc. }
  destruct (nonNegative (RewriteDeleteThreshold cfg)).
  - destruct (m_ctxErr e2).
    { intros [= _ _ <- _]. exists [FlushInlinedData], [], 0%nat. split; [right; by left | done]. }
    destruct (runStepWith e2 true _) as [e3 r3]. intros (caps & k & ->)%Hcont.
    exists [FlushInlinedData; RewriteDataFiles (RewriteDeleteThreshold cfg)], caps, k. split; [by right; right | done].
  - intros (caps & k & ->)%Hcont. exists [FlushInlinedData], caps, k. split; [right; by left | done].
Qed.

(** The merge loop keeps its caps and its ramp between one and the ceiling. *)
Lemma mergeLoop_caps fuel : forall e ceiling ramp n caps e' ramp' caps' r,
  1 <= ceiling -> ramp <= ceiling ->
  Forall (fun c => 1 <= c <= ceiling) caps ->
  mergeLoop fuel e ceiling ramp n caps = (e', ramp', caps', r) ->
  Forall (fun c => 1 <= c <= ceiling) caps' /\ ramp' <= ceiling /\ (1 <= ramp -> 1 <= ramp').
Proof.
  induction fuel as [|fuel IH]; intros e ceiling ramp n caps e' ramp' caps' r Hc Hr Hf; simpl.
  { by intros [= _ <- <- _]. }
  destruct (m_ctxErr e); [by intros [= _ <- <- _]|].
  destruct (m_budget_spent e); [by intros [= _ <- <- _]|].
  set (cap := Z.min _ _). assert (1 <= cap <= ceiling) as Hcap by (unfold cap, mergeMinFilesPerCall; lia).
  assert (Forall (fun c => 1 <= c <= ceiling) (caps ++ [cap])) as Hf'
    by (apply Forall_app; split; [done | by constructor]).
  destruct (retryCatalogIf _ _ _ _) as [[e1 n1] [err|]].
  - destruct (isOutOfMemory err); intros [= _ <- <- _]; [|done].
    split; [done|]. unfold mergeMinFilesPerCall. pose proof (Z.quot_le_upper_bound cap 2 cap ltac:(lia) ltac:(lia)). lia.
  - destruct (n1 =? 0); [by intros [= _ <- <- _]|].
    intros (? & ? & Hge)%IH; [|lia|lia|done]. split; [done|]. split; [done|]. intros _. apply Hge. lia.
Qed.

Lemma mergeCeiling_range e : 1 <= mergeCeiling cfg mem e <= mergeMaxFilesHardCeiling.
Proof.
  unfold mergeCeiling, mergeMaxFilesHardCeiling, mergeMaxFilesFallback, mergeMinFilesPerCall.
  repeat (split_match; bool_to_prop; try lia).
Qed.
(** Every statement of a cycle, with the condition it runs under. *)
Lemma Cycle_stmt fuel e ramp e' ramp' log err st :
  Cycle cfg mem fuel e ramp = Some (e', ramp', log, err) -> st ∈ log ->
  st = FlushInlinedData \/ st = RewriteDataFiles (RewriteDeleteThreshold cfg) \/
  (exists cap, st = MergeAdjacentFiles cap) \/
  expireSQL cfg (retryCatalog m_reassert m_wait e).1 = Ok st \/
  (st = CleanupAll /\ FileCleanupGrace cfg < 0) \/
  (st = CleanupOldFiles (secs (FileCleanupGrace cfg)) /\ 0 <= FileCleanupGrace cfg) \/
  (st = DeleteOrphanedFiles (secs (OrphanRetention cfg)) /\ 0 <= OrphanRetention cfg).
Proof.
  intros Hc Hin. destruct (Cycle_log _ _ _ _ _ _ _ Hc) as (pre & caps & k & Hpre & ->).
  apply elem_of_app in Hin as [Hin|[Hin|Hin]%elem_of_app].
  - destruct Hpre as [->|[->| ->]]; repeat (apply elem_of_cons in Hin as [Hin|Hin]; [auto|]);
      by apply elem_of_nil in Hin.
  - apply list_elem_of_fmap in Hin as (cap & -> & _). eauto.
  - apply list_elem_of_fmap in Hin as ([nm st'] & -> & Hin). simpl.
    apply elem_of_take in Hin as (i & Hi & _). apply list_elem_of_lookup_2 in Hi.
    unfold postSteps in Hi. apply elem_of_app in Hi as [Hi|[Hi|Hi]%elem_of_app].
    + destruct (expireSQL cfg _) as [x|]; [|by apply elem_of_nil in Hi].
      apply list_elem_of_singleton in Hi. simplify_eq. auto.
    + apply list_elem_of_singleton in Hi.
      destruct (FileCleanupGrace cfg >=? 0) eqn:E; bool_to_prop; simplify_eq; auto 9.
    + destruct (OrphanRetention cfg >=? 0) eqn:E; [|by apply elem_of_nil in Hi].
      apply list_elem_of_singleton in Hi. bool_to_prop. simplify_eq. auto 9.
Qed.
End CycleLemmas.

(** ** Properties *)

Section MaintainProperties.
Context `{MaintEnv}.

(** C7: Expiry never overtakes a live consumer: the cutoff a cycle expires with
    is fixed before the merges run, is no later than now minus SnapshotKeep, and
    removes no snapshot that a consumer which reported within ConsumerStaleness
    has still to read. *)
Theorem Cycle_expiry_safe cfg mem fuel e ramp e' ramp' log err c :
  Cycle cfg mem fuel e ramp = Some (e', ramp', log, err) -> ExpireSnapshots c ∈ log ->
  let e1 := (retryCatalog m_reassert m_wait e).1 in
  c <= m_now e1 - secs (SnapshotKeep cfg) * Second /\
  forall s, unconsumed (m_now e1) (ConsumerStaleness cfg) (m_catalog e1) s -> ~ expired c s.
Proof.
  intros Hc Hin. cbv zeta.
  destruct (Cycle_stmt _ _ _ _ _ _ _ _ _ _ Hc Hin) as [?|[?|[[? ?]|[Hex|[[? _]|[[? _]|[? _]]]]]]]; try done.
  unfold expireSQL in Hex. destruct (expireCutoff _ _ _ cfg) as [[[cut fl] b]|] eqn:Ec; [|done].
  injection Hex as ->. by eapply expireCutoff_safe.
Qed.

(** Bytes are deleted only as configured: a cycle deletes orphaned files only
    when OrphanRetention is not negative (the post-restore guard), and cleans up
    superseded files without their grace only when FileCleanupGrace is
    negative. *)
Theorem Cycle_deletion_guarded cfg mem fuel e ramp e' ramp' log err :
  Cycle cfg mem fuel e ramp = Some (e', ramp', log, err) ->
  (forall n, DeleteOrphanedFiles n ∈ log -> 0 <= OrphanRetention cfg /\ n = secs (OrphanRetention cfg)) /\
  (CleanupAll ∈ log -> FileCleanupGrace cfg < 0) /\
  (forall n, CleanupOldFiles n ∈ log -> n = secs (FileCleanupGrace cfg)).
Proof.
  intros Hc.
  assert (forall st, expireSQL cfg (retryCatalog m_reassert m_wait e).1 = Ok st -> exists c, st = ExpireSnapshots c) as Hex.
  { intros st. unfold expireSQL. destruct (expireCutoff _ _ _ cfg) as [[[cut fl] b]|]; [|done].
    intros [= <-]. eauto. }
  split; [|split].
  - intros n Hin. destruct (Cycle_stmt _ _ _ _ _ _ _ _ _ _ Hc Hin)
      as [?|[?|[[? ?]|[[? ?]%Hex|[[? _]|[[? _]|[? ?]]]]]]]; try done. split; congruence.
  - intros Hin. destruct (Cycle_stmt _ _ _ _ _ _ _ _ _ _ Hc Hin)
      as [?|[?|[[? ?]|[[? ?]%Hex|[[? ?]|[[? _]|[? _]]]]]]]; done.
  - intros n Hin. destruct (Cycle_stmt _ _ _ _ _ _ _ _ _ _ Hc Hin)
      as [?|[?|[[? ?]|[[? ?]%Hex|[[? _]|[[? _]|[? _]]]]]]]; try done. congruence.
Qed.

(** A merge sub-call stays within its ceiling and, when the ceiling is derived from
    the memory limit, a cap of more than one file times the average file size is at
    most half the memory limit. *)
Lemma merge_caps_bounded cfg mem fuel e ramp e' ramp' caps r :
  1 <= ramp -> runBoundedMerge cfg mem fuel e ramp = (e', ramp', caps, r) ->
  mergeCeiling cfg mem e <= mergeMaxFilesHardCeiling /\
  1 <= ramp' <= mergeCeiling cfg mem e /\
  Forall (fun c => 1 <= c <= mergeCeiling cfg mem e /\
    (MergeMaxFilesPerCall cfg <= 0 -> 0 < mem -> 0 < m_avg e -> 1 < c -> c * m_avg e <= mem / 2)) caps.
Proof.
  intros Hr Hm. pose proof (mergeCeiling_range cfg mem e) as Hc. unfold runBoundedMerge in Hm.
  apply mergeLoop_caps in Hm as (Hf & Hle & Hge); [|lia|lia|constructor].
  split; [lia|]. split; [lia|]. eapply Forall_impl; [exact Hf|]. simpl. intros c Hcap. split; [done|].
  intros Hp Hmem Havg H1. assert (c <= Z.quot (Z.quot mem 2) (m_avg e)) as Hd.
  { revert Hcap. unfold mergeCeiling, mergeMinFilesPerCall.
    destruct (Z.ltb_spec 0 (MergeMaxFilesPerCall cfg)); [lia|]. destruct (Z.leb_spec mem 0); [lia|].
    destruct (Z.leb_spec (m_avg e) 0); [lia|]. lia. }
  rewrite !Z.quot_div_nonneg in Hd by (try apply Z.quot_pos; lia).
  pose proof (Z.mul_div_le (mem / 2) (m_avg e) Havg). nia.
Qed.
End MaintainProperties.

(** A cycle that failed for another reason than cancellation. *)
Definition failed_cycle (c : option error * bool) : Prop :=
  exists e, c.1 = Some e /\ errors_is e ctxCanceled = false.

Lemma Run_strikes_gen cycles : forall n e,
  0 <= n < 4 -> Run n cycles = Some (Some e) ->
  exists pre strikes post, cycles = pre ++ strikes ++ post /\ Forall failed_cycle strikes /\
    (Zlen strikes = 4 \/ (pre = [] /\ Zlen strikes = 4 - n)).
Proof.
  induction cycles as [|[[err|] dn] cycles IH]; intros n e Hn; simpl; [done| |].
  - destruct (errors_is err ctxCanceled) eqn:Ec; [done|].
    assert (failed_cycle (Some err, dn)) as Hfc by (by exists err).
    destruct (n + 1 >=? maxConsecutiveCycleFailures) eqn:E; unfold maxConsecutiveCycleFailures in E; bool_to_prop.
    + intros _. exists [], [(Some err, dn)], cycles. split; [done|]. split; [by constructor|].
      right. split; [done|]. unfold Zlen. simpl. lia.
    + destruct dn; [done|]. intros (pre & st & post & -> & Hf & Hl)%IH; [|lia].
      destruct Hl as [Hl|[-> Hl]].
      * exists ((Some err, false) :: pre), st, post. auto.
      * exists [], ((Some err, false) :: st), post. split; [done|]. split; [by constructor|].
        right. split; [done|]. rewrite Zlen_cons. lia.
  - destruct dn; [done|]. intros (pre & st & post & -> & Hf & Hl)%IH; [|lia].
    exists ((None, false) :: pre), st, post. split; [done|]. split; [done|]. left. destruct Hl as [?|[_ ?]]; lia.
Qed.

Lemma Run_strikes cycles e :
  Run 0 cycles = Some (Some e) ->
  exists pre strikes post, cycles = pre ++ strikes ++ post /\ Zlen strikes = maxConsecutiveCycleFailures /\
    Forall failed_cycle strikes.
Proof.
  intros (pre & st & post & -> & Hf & Hl)%Run_strikes_gen; [|lia]. exists pre, st, post.
  split; [done|]. split; [|done]. unfold maxConsecutiveCycleFailures. destruct Hl as [?|[_ ?]]; lia.
Qed.

(** Run ends with nil only on its context. *)
Lemma Run_nil cycles : forall n,
  Run n cycles = Some None ->
  exists c, c ∈ cycles /\ (c.2 = true \/ exists e, c.1 = Some e /\ errors_is e ctxCanceled = true).
Proof.
  induction cycles as [|c cycles IH]; intros n; simpl; [done|].
  assert (forall m, (if c.2 then Some None else Run m cycles) = Some None ->
    exists c', c' ∈ c :: cycles /\ (c'.2 = true \/ exists e, c'.1 = Some e /\ errors_is e ctxCanceled = true)) as Hgo.
  { intros m. destruct c.2 eqn:Ed; [intros _; exists c; split; [set_solver|by left]|].
    intros (c' & Hin & Hc)%IH. exists c'. split; [set_solver|done]. }
  destruct c as [[err|] dn]; simpl in *; [|apply Hgo].
  destruct (errors_is err ctxCanceled) eqn:Ec; [intros _; exists (Some err, dn); split; [set_solver|right; by exists err]|].
  destruct (_ >=? _); [done|apply Hgo].
Qed.

(** Run ends with nil after a cycle that the context ended. *)
Lemma Run_canceled n cycles c e :
  Run n cycles = None -> c.1 = Some e -> errors_is e ctxCanceled = true -> Run n (cycles ++ [c]) = Some None.
Proof.
  intros Hr Hc He. revert n Hr. induction cycles as [|[[err|] dn] cycles IH]; intros n; simpl.
  - destruct c as [res dn]. simpl in Hc. rewrite Hc, He. done.
  - destruct (errors_is err ctxCanceled); [done|]. destruct (_ >=? _); [done|]. destruct dn; [done|apply IH].
  - destruct dn; [done|apply IH].
Qed.

(** A cycle whose context is done after the re-assert returns ctx.Err() and issues no
    statement of its own. *)
Lemma Cycle_done `{MaintEnv} cfg mem fuel e ramp err :
  m_ctxErr (retryCatalog m_reassert m_wait e).1 = Some err ->
  Cycle cfg mem fuel e ramp = Some ((retryCatalog m_reassert m_wait e).1, ramp, [], Some err).
Proof. unfold Cycle. destruct (retryCatalog m_reassert m_wait e) as [e1 reErr]. simpl. by intros ->. Qed.

(** The maintainer gives up (and restarts its pod) only after four cycles
    failed in a row for another reason than shutdown; one success resets the
    count. *)
Theorem Run_four_strikes cycles e :
  Run 0 cycles = Some (Some e) ->
  exists pre strikes post, cycles = pre ++ strikes ++ post /\ Zlen strikes = maxConsecutiveCycleFailures /\
    Forall failed_cycle strikes.
Proof. apply Run_strikes. Qed.

(** What bounds a cycle: the work left, be it files to merge or time of the
    budget, never grows, and a sub-call that merged something takes some of it or
    finds the budget spent. *)
Class MergeProgress (M : MaintEnv) := {
  work_left : menv -> nat;
  reassert_left e : (work_left (m_reassert e).1 <= work_left e)%nat;
  wait_left e t : (work_left (m_wait e t).1 <= work_left e)%nat;
  exec_left e txn st : (work_left (m_exec e txn st).1 <= work_left e)%nat;
  merge_left e c e' n : m_exec e false (MergeAdjacentFiles c) = (e', Ok n) -> n <> 0 ->
    (work_left e' < work_left e)%nat \/ m_budget_spent e' = true
}.

Section Termination.
Context {M : MaintEnv} {P : MergeProgress M}.

(** A retried statement leaves no more work than it found, and ended with an
    attempt on a state that had no more either. *)
Lemma retried_left shouldRetry txn st e e' n err :
  retryCatalogIf (exec_step txn st) shouldRetry wait_step (e, 0) = (e', n, err) ->
  (work_left e' <= work_left e)%nat /\
  (err = None -> exists e0, (work_left e0 <= work_left e)%nat /\ m_exec e0 txn st = (e', Ok n)).
Proof.
  intros Hr.
  pose proof (retryLoop_keeps (exec_step txn st) shouldRetry wait_step
    (fun s => (work_left s.1 <= work_left e)%nat) 3 0 (e, 0)) as Hk.
  change (retryLoop (exec_step txn st) shouldRetry wait_step 3 0 (e, 0)) with
    (retryCatalogIf (exec_step txn st) shouldRetry wait_step (e, 0)) in Hk. rewrite Hr in Hk.
  assert (Hstep : forall s s' x, (work_left s.1 <= work_left e)%nat -> exec_step txn st s = (s', x) ->
    (work_left s'.1 <= work_left e)%nat /\ (x = None -> m_exec s.1 txn st = (s'.1, Ok s'.2))).
  { intros s s' x Hs. unfold exec_step. pose proof (exec_left s.1 txn st) as Hl.
    destruct (m_exec s.1 txn st) as [e1 [m|er]] eqn:Em; simpl in Hl; intros [= <- <-]; simpl; (split; [lia|done]). }
  destruct err as [er|]; simpl in Hk.
  - split; [|done]. apply Hk; [by intros s s' x Hs Hx; apply (Hstep s s' (Some x))| |lia].
    intros s t s' x Hs. unfold wait_step. pose proof (wait_left s.1 t). destruct (m_wait s.1 t) as [e1 er1]. intros [= <- _]. simpl in *. lia.
  - destruct Hk as (s0 & Hs0 & Hx); [by intros s s' x Hs Hx; apply (Hstep s s' (Some x))| |lia|].
    + intros s t s' x Hs. unfold wait_step. pose proof (wait_left s.1 t). destruct (m_wait s.1 t) as [e1 er1]. intros [= <- _]. simpl in *. lia.
    + destruct (Hstep _ _ _ Hs0 Hx) as [Hl Hok]. simpl in *. split; [done|]. intros _. exists s0.1. split; [done|]. by apply Hok.
Qed.

Lemma mergeLoop_returns fuel e ceiling ramp n caps :
  (1 <= fuel)%nat -> m_budget_spent e = true \/ (work_left e + 2 <= fuel)%nat ->
  exists e' ramp' caps' r, mergeLoop fuel e ceiling ramp n caps = (e', ramp', caps', Some r).
Proof.
  revert e ramp n caps. induction fuel as [|fuel IH]; intros e ramp n caps Hf Hw; [lia|]. simpl.
  destruct (m_ctxErr e); [eauto|]. destruct (m_budget_spent e) eqn:Eb; [eauto|]. destruct Hw as [?|Hw]; [done|].
  destruct (retryCatalogIf _ _ _ _) as [[e1 k] [er|]] eqn:Er; [destruct (isOutOfMemory er); eauto|].
  destruct (k =? 0) eqn:Ek; [eauto|]. bool_to_prop.
  apply retried_left in Er as [_ Hok]. destruct (Hok eq_refl) as (e0 & H0 & Hm).
  apply IH; [lia|]. destruct (merge_left _ _ _ _ Hm Ek) as [?|?]; [right; lia|by left].
Qed.

Lemma runStepWith_left e txn st : (work_left (runStepWith e txn st).1 <= work_left e)%nat.
Proof.
  unfold runStepWith, retryCatalog. destruct (retryCatalogIf _ _ _ _) as [[e1 k] err] eqn:Er.
  apply retried_left in Er as [Hl _]. by destruct err.
Qed.

Lemma reassert_retried_left e : (work_left (retryCatalog m_reassert m_wait e).1 <= work_left e)%nat.
Proof.
  pose proof (retryLoop_keeps m_reassert (fun _ => true) m_wait (fun s => (work_left s <= work_left e)%nat) 3 0 e) as Hk.
  assert (Hre : forall s s' x, (work_left s <= work_left e)%nat -> m_reassert s = (s', x) -> (work_left s' <= work_left e)%nat).
  { intros s s' x Hs Hx. pose proof (reassert_left s) as Hl. rewrite Hx in Hl. simpl in Hl. lia. }
  change (retryCatalog m_reassert m_wait e) with (retryLoop m_reassert (fun _ => true) m_wait 3 0 e).
  destruct (retryLoop _ _ _ _ _ _) as [e1 [er|]]; simpl.
  - apply Hk; [eauto| |lia]. intros s t s' x Hs Hx. pose proof (wait_left s t) as Hl. rewrite Hx in Hl. simpl in Hl. lia.
  - destruct Hk as (s0 & Hs0 & Hx); [eauto| |lia|by eapply Hre].
    intros s t s' x Hs Hx. pose proof (wait_left s t) as Hl. rewrite Hx in Hl. simpl in Hl. lia.
Qed.

(** The end of a cycle from state [e]: merges that return, and the steps after
    them. *)
Ltac cycle_tail e :=
  destruct (m_ctxErr e);
  [ destruct (runPost _ _ _ _) as [[? ?] ?]; eauto
  | match goal with H : forall e3, _ -> exists _, _ |- _ => destruct (H e ltac:(lia)) as (? & ? & ? & [? ?] & ->) end;
    destruct (runPost _ _ _ _) as [[? ?] ?]; eauto ].

(** C40: A maintenance cycle comes to an end. When the work left to the merge loop
    (files to merge or budget) shrinks with every sub-call that merges something,
    the cycle returns, and a round of the loop per unit of work and two more are
    enough. *)
Theorem Cycle_returns cfg mem fuel e ramp :
  (work_left e + 2 <= fuel)%nat -> exists res, Cycle cfg mem fuel e ramp = Some res.
Proof.
  intros Hf. unfold Cycle. pose proof (reassert_retried_left e) as H1.
  destruct (retryCatalog m_reassert m_wait e) as [e1 reErr]; simpl in H1. destruct (m_ctxErr e1); [eauto|].
  pose proof (runStepWith_left e1 false FlushInlinedData) as H2.
  destruct (runStepWith e1 false FlushInlinedData) as [e2 r]; simpl in H2.
  assert (Hmerge : forall e3, (work_left e3 <= work_left e)%nat -> exists e' ramp' caps x,
    runBoundedMerge cfg mem fuel e3 ramp = (e', ramp', caps, Some x)).
  { intros e3 H3. apply mergeLoop_returns; [lia|]. right. lia. }
  cbv zeta. destruct (nonNegative _).
  - destruct (m_ctxErr e2); [eauto|]. pose proof (runStepWith_left e2 true (RewriteDataFiles (RewriteDeleteThreshold cfg))) as H3.
    destruct (runStepWith e2 true _) as [e3 r3]; simpl in H3. cycle_tail e3.
  - cycle_tail e2.
Qed.
End Termination.

(** The documentation of ConsumerStaleness says zero disables the floor; a zero
    never reaches the maintainer, it becomes one hour. *)
Example zero_staleness_is_one_hour c :
  ConsumerStaleness c = 0 -> ConsumerStaleness (applyDefaults c) = Hour.
Proof. intros Hc. simpl. unfold or_default. by rewrite Hc. Qed.

(** ** Instances for the witnesses *)

(** A lake at hour 100 with a snapshot per hour, a live consumer at snapshot 10
    and a dead one at 2; every CALL merges one file until three were run. *)
Definition sample_catalog : catalog :=
  mkCatalog [mkSnap 5 (5 * Hour); mkSnap 11 (11 * Hour); mkSnap 60 (60 * Hour)]
    [mkProgress "dq" 10 (100 * Hour - Minute); mkProgress "old" 2 (20 * Hour)].

Definition sample_maint : MaintEnv := {|
  menv := nat;
  m_ctxErr _ := None;
  m_now _ := 100 * Hour;
  m_catalog _ := sample_catalog;
  m_qerr _ _ := None;
  m_avg _ := 1000;
  m_reassert n := (n, None);
  m_exec n _ st := (S n, Ok (match st with MergeAdjacentFiles _ => if (n <? 4)%nat then 1 else 0 | _ => 0 end));
  m_wait n _ := (n, None);
  m_budget_spent _ := false
|}.

Definition sample_maint_cfg : MaintConfig := applyDefaults (mkMaint 0 0 0 0 0 0 fzero).
Definition sample_log : list stmt :=
  [FlushInlinedData; RewriteDataFiles defaultRewriteDeleteThreshold; MergeAdjacentFiles 32; MergeAdjacentFiles 50; MergeAdjacentFiles 50;
   ExpireSnapshots (11 * Hour); CleanupOldFiles 1800; DeleteOrphanedFiles 604800].

Lemma Cycle_expiry_safe_witness : 11 * Hour <= 100 * Hour - secs (72 * Hour) * Second.
Proof.
  refine (proj1 (@Cycle_expiry_safe sample_maint sample_maint_cfg 100000 10 0%nat 32 8%nat 50 sample_log None
            (11 * Hour) _ _)).
  - vm_compute. reflexivity.
  - unfold sample_log. do 5 right. by left.
Defined.

Lemma Cycle_deletion_guarded_witness : 1800 = secs (FileCleanupGrace sample_maint_cfg).
Proof.
  refine (proj2 (proj2 (@Cycle_deletion_guarded sample_maint sample_maint_cfg 100000 10 0%nat 32 8%nat 50
            sample_log None _)) 1800 _).
  - vm_compute. reflexivity.
  - unfold sample_log. do 6 right. by left.
Defined.


#[export] Instance sample_progress : MergeProgress sample_maint.
Proof.
  refine {| work_left := (fun n => 4 - n)%nat : @menv sample_maint -> nat |}; simpl; try (intros; lia).
  intros e c e' n [= <- <-] Hn. destruct (Nat.ltb_spec e 4); [left; lia|done].
Defined.

Lemma Cycle_returns_witness : exists res, @Cycle sample_maint sample_maint_cfg 100000 6 0%nat 32 = Some res.
Proof. apply (@Cycle_returns sample_maint sample_progress sample_maint_cfg 100000 6 0%nat 32). simpl. lia. Defined.

Definition bad_cycle : option error * bool := (Some (ENew "catalog unreachable"), false).

Lemma Run_four_strikes_witness :
  exists pre strikes post,
    [bad_cycle; (None, false); bad_cycle; bad_cycle; bad_cycle; bad_cycle] = pre ++ strikes ++ post /\
    Zlen strikes = maxConsecutiveCycleFailures /\ Forall failed_cycle strikes.
Proof.
  refine (@Run_four_strikes [bad_cycle; (None, false); bad_cycle; bad_cycle; bad_cycle; bad_cycle] _ _).
  vm_compute. reflexivity.
Defined.
