(* ===== verification/MaintSQL.v ===== *)
(** * Package lake, maintenance on database/sql

    The lower half of internal/lake/maintain.go: the text of the maintenance CALLs,
    how a CALL is run and its rows drained (execCount, execCountTxn), what the
    maintainer reads for its ceiling and gauges, the memory limit it parses, and the
    epochs, which are float64 values here. [sql_maint] is the environment Maintain's
    cycle runs in, made of these. *)

From S2P Require Import Prelude GoStd Float LakeWriter Maintain.

(** ** float64 *)

(** Correctly rounded division of positive integers below 2^53, the result being
    at least one: 53 bits of it. *)
Definition f64_div (n d : Z) : f64 :=
  let k := 52 - Z.log2 (n / d) in mkF64 (nearest (n * 2 ^ k) d) (- k).

(** x >= y, for exponents of at most zero. *)
Definition f64_geb (x y : f64) : bool := f_man x * 2 ^ (- f_exp y) >=? f_man y * 2 ^ (- f_exp x).

(** %f: six decimals, rounded exactly; not negative, exponent at most zero. *)
Definition micros_of (x : f64) : Z := nearest (f_man x * 1000000) (2 ^ (- f_exp x)).
Definition fmt_f (x : f64) : string :=
  fmt_d (micros_of x / 1000000) +:+ "." +:+ fmt_0d 6 (micros_of x mod 1000000).

(** epoch(t) of a timestamp of t microseconds. *)
Definition epoch (t : Z) : f64 := f64_div t 1000000.

(** ** parseByteSize *)

Section ByteSize.
(** What int64(v) is when v is out of range (the language leaves it to the
    implementation). *)
Variable outOfRange : float -> Z.

(** int64(v * 2^k): multiplying by a power of two is exact, the conversion
    truncates. *)
Definition to_int64 (v : float) (k : Z) : Z :=
  match v with
  | Fin x =>
      let t := if 0 <=? f_exp x + k then f_man x * 2 ^ (f_exp x + k) else Z.quot (f_man x) (2 ^ (- (f_exp x + k))) in
      if (- 2 ^ 63 <=? t) && (t <? 2 ^ 63) then t else outOfRange v
  | _ => outOfRange v
  end.

(** The suffixes, longest first, with the exponent of their factor. *)
Definition units : list (string * Z) :=
  [("tib", 40); ("gib", 30); ("mib", 20); ("kib", 10); ("tb", 40); ("gb", 30); ("mb", 20); ("kb", 10); ("b", 0)].

Definition TrimSuffix (s p : string) : string :=
  if HasSuffix s p then String.substring 0 (String.length s - String.length p) s else s.

Fixpoint splitUnit (us : list (string * Z)) (lower : string) : string * Z :=
  match us with
  | [] => (lower, 0)
  | (suffix, k) :: us' =>
      if HasSuffix lower suffix then (TrimSpace (TrimSuffix lower suffix), k) else splitUnit us' lower
  end.

Definition parseByteSize (s : string) : Z :=
  let s := TrimSpace s in
  if s =?s "" then 0
  else
    let '(num, k) := splitUnit units (ToLower s) in
    match ParseFloat num with
    | Err _ => 0
    | Ok v => if negative v then 0 else to_int64 v k
    end.
End ByteSize.

(** ** The CALLs as text *)

(** A cutoff is a time in nanoseconds; the catalog keeps microseconds. *)
Definition stmtSQL (st : stmt) : string :=
  match st with
  | FlushInlinedData => "CALL ducklake_flush_inlined_data('lake')"
  | RewriteDataFiles t => "CALL ducklake_rewrite_data_files('lake', delete_threshold => " +:+ fmt_g t +:+ ")"
  | MergeAdjacentFiles n => "CALL ducklake_merge_adjacent_files('lake', max_compacted_files => " +:+ fmt_d n +:+ ")"
  | ExpireSnapshots cutoff =>
      "CALL ducklake_expire_snapshots('lake', older_than => to_timestamp(" +:+ fmt_f (epoch (cutoff / 1000)) +:+ "))"
  | CleanupAll => "CALL ducklake_cleanup_old_files('lake', cleanup_all => true)"
  | CleanupOldFiles s =>
      "CALL ducklake_cleanup_old_files('lake', older_than => now() - INTERVAL '" +:+ fmt_d s +:+ " seconds')"
  | DeleteOrphanedFiles s =>
      "CALL ducklake_delete_orphaned_files('lake', older_than => now() - INTERVAL '" +:+ fmt_d s +:+ " seconds')"
  end.

(** ** Running a CALL *)

(** database/sql as it is used: a query gives the number of rows Next finds and what
    rows.Err() says at the end; [rows_Close] closes them; the tx calls are those
    of a sql.Tx. *)
Class SqlDB := {
  sdb : Type;
  db_Query : sdb -> string -> sdb * result (Z * option error);
  rows_Close : sdb -> sdb;
  tx_Begin : sdb -> sdb * option error;
  tx_Query : sdb -> string -> sdb * result (Z * option error);
  tx_Commit : sdb -> sdb * option error;
  tx_Rollback : sdb -> sdb
}.

Section Exec.
Context `{SqlDB}.

(** The rows drained and closed: their number, or rows.Err(). *)
Definition drained (r : sdb * result (Z * option error)) : sdb * result Z :=
  match r with
  | (d, Err e) => (d, Err e)
  | (d, Ok (n, None)) => (rows_Close d, Ok n)
  | (d, Ok (_, Some e)) => (rows_Close d, Err e)
  end.
Definition execCount (d : sdb) (q : string) : sdb * result Z := drained (db_Query d q).
Definition drainCount (d : sdb) (q : string) : sdb * result Z := drained (tx_Query d q).

(** The deferred Rollback after a Commit is a no-op of database/sql, so it is run
    only on the other exit. *)
Definition execCountTxn (d : sdb) (q : string) : sdb * result Z :=
  match tx_Begin d with
  | (d1, Some e) => (d1, Err e)
  | (d1, None) =>
      match drainCount d1 q with
      | (d2, Err e) => (tx_Rollback d2, Err e)
      | (d2, Ok n) =>
          match tx_Commit d2 with
          | (d3, Some e) => (d3, Err e)
          | (d3, None) => (d3, Ok n)
          end
      end
  end.
End Exec.

(** ** What the maintainer reads *)

(** A row of ducklake_table_info: table, file_count, file_size_bytes. *)
Record tableInfo := mkTable { t_name : string; t_files : Z; t_bytes : Z }.

(** maxAvgFileBytes: max(file_size_bytes / file_count) over the tables with files,
    cut to an integer; 0 when there is none or the read fails. *)
Definition maxAvgFileBytes (info : result (list tableInfo)) : Z :=
  match info with
  | Err _ => 0
  | Ok ts => foldr Z.max 0 ((fun t => t_bytes t / t_files t) <$> List.filter (fun t => 0 <? t_files t) ts)
  end.

(** The gauges a cycle leaves behind; an average is the pair it divides. *)
Record gauges := mkGauges {
  g_oldestAge : option Z; g_files : gmap string Z; g_avg : gmap string (Z * Z)
}.

(** recordOldestSnapshotAge *)
Definition recordOldestSnapshotAge (err : option error) (now : Z) (cat : catalog) (g : gauges) : gauges :=
  match err with
  | Some _ => g
  | None => match sql_min (snapshot_time <$> snapshots cat) with
            | None => g
            | Some t => mkGauges (Some (now - t)) (g_files g) (g_avg g)
            end
  end.

(** recordDataFileCounts: the rows as they scan, until one fails. *)
Fixpoint recordRows (rows : list (result tableInfo)) (g : gauges) : gauges :=
  match rows with
  | [] => g
  | Err _ :: _ => g
  | Ok t :: rows' =>
      recordRows rows'
        (mkGauges (g_oldestAge g) (<[t_name t := t_files t]> (g_files g))
           (<[t_name t := if 0 <? t_files t then (t_bytes t, t_files t) else (0, 1)]> (g_avg g)))
  end.
Definition recordDataFileCounts (rows : result (list (result tableInfo))) (g : gauges) : gauges :=
  match rows with Err _ => g | Ok rs => recordRows rs g end.

(** ** The maintainer on a session *)

(** What else the cycle looks at: the context, the clock, the queries of the
    catalog, the layout repair, pauses and the merge budget. *)
Class MaintSession := {
  ms_db :: SqlDB;
  ms_ctxErr : sdb -> option error;
  ms_now : sdb -> Z;
  ms_catalog : sdb -> catalog;
  ms_qerr : sdb -> query -> option error;
  ms_tables : sdb -> result (list tableInfo);
  ms_reassert : sdb -> sdb * option error;
  ms_wait : sdb -> Z -> sdb * option error;
  ms_budget_spent : sdb -> bool
}.

Definition sql_maint `{MaintSession} : MaintEnv := {|
  menv := sdb; m_ctxErr := ms_ctxErr; m_now := ms_now; m_catalog := ms_catalog; m_qerr := ms_qerr;
  m_avg d := maxAvgFileBytes (ms_tables d);
  m_reassert := ms_reassert;
  m_exec d txn st := if txn then execCountTxn d (stmtSQL st) else execCount d (stmtSQL st);
  m_wait := ms_wait; m_budget_spent := ms_budget_spent
|}.

(** NewMaintainer: the configuration with its defaults, the ramp, and the budget. *)
Definition NewMaintainer (outOfRange : float -> Z) (cfg : MaintConfig) (memoryLimit : string) : MaintConfig * Z * Z :=
  (applyDefaults cfg, mergeRampStartFiles, parseByteSize outOfRange memoryLimit).

(** ** Lemmas: rounding *)

(** The range of times: from one second after the epoch to 2^33 seconds after it. *)
Definition in_range (t : Z) : Prop := 1000000 <= t < 2 ^ 33 * 1000000.

(** A double of an in-range time is at most half a millionth of 2^-k off, k >= 20. *)
Lemma epoch_error t :
  in_range t -> exists k, f_exp (epoch t) = - k /\ 2 ^ 20 <= 2 ^ k /\
    - 500000 <= f_man (epoch t) * 1000000 - t * 2 ^ k <= 500000.
Proof.
  intros [Hlo Hhi]. unfold epoch, f64_div. cbn [f_exp f_man]. set (q := t / 1000000).
  assert (1 <= q < 2 ^ 33) as Hq.
  { split; [apply Z.div_le_lower_bound; lia|apply Z.div_lt_upper_bound; lia]. }
  assert (0 <= Z.log2 q <= 32) as Hl.
  { split; [apply Z.log2_nonneg|]. apply Z.lt_succ_r, Z.log2_lt_pow2; lia. }
  exists (52 - Z.log2 q). split; [done|]. split; [apply Z.pow_le_mono_r; lia|].
  pose proof (nearest_error (t * 2 ^ (52 - Z.log2 q)) 1000000 ltac:(lia)). lia.
Qed.

Lemma micros_epoch t : in_range t -> micros_of (epoch t) = t.
Proof.
  intros (k & He & Hk & Herr)%epoch_error. unfold micros_of. rewrite He, Z.opp_involutive.
  apply nearest_unique. change (2 ^ 20) with 1048576 in Hk. lia.
Qed.

Lemma epoch_gap t1 t2 :
  in_range t1 -> in_range t2 -> t1 < t2 -> f64_geb (epoch t1) (epoch t2) = false /\ f64_geb (epoch t2) (epoch t1) = true.
Proof.
  intros (k1 & He1 & Hk1 & H1)%epoch_error (k2 & He2 & Hk2 & H2)%epoch_error Hlt.
  unfold f64_geb. rewrite He1, He2, !Z.opp_involutive. change (2 ^ 20) with 1048576 in *.
  assert (f_man (epoch t1) * 2 ^ k2 < f_man (epoch t2) * 2 ^ k1) as Hm; [|split; lia].
  set (a := 2 ^ k1) in *. set (b := 2 ^ k2) in *.
  assert (500000 * (a + b) < a * b) by nia.
  assert (f_man (epoch t1) * 1000000 * b <= (t1 * a + 500000) * b) by nia.
  assert ((t2 * b - 500000) * a <= f_man (epoch t2) * 1000000 * a) by nia.
  assert (a * b * (t1 + 1) <= a * b * t2) by nia. nia.
Qed.

Lemma epoch_compare t1 t2 : in_range t1 -> in_range t2 -> f64_geb (epoch t1) (epoch t2) = (t1 >=? t2).
Proof.
  intros H1 H2. destruct (Z.lt_trichotomy t1 t2) as [Hlt|[->|Hlt]].
  - destruct (epoch_gap _ _ H1 H2 Hlt) as [-> _]. lia.
  - unfold f64_geb. lia.
  - destruct (epoch_gap _ _ H2 H1 Hlt) as [_ ->]. lia.
Qed.

(** ** Lemmas: sizes as text *)

Lemma trimRight_id s : str_forall (fun c => negb (is_space c)) s = true -> trimRight s = s.
Proof.
  induction s as [|c s IH]; [done|]. cbn [str_forall trimRight]. intros [Hc Hs]%andb_true_iff. rewrite (IH Hs).
  destruct s; [|done]. by destruct (is_space c).
Qed.
Lemma TrimSpace_id s : str_forall (fun c => negb (is_space c)) s = true -> TrimSpace s = s.
Proof.
  intros Hs. unfold TrimSpace. assert (trimLeft s = s) as ->; [|by apply trimRight_id].
  destruct s as [|c s]; [done|]. cbn [str_forall trimLeft] in *. apply andb_true_iff in Hs as [Hc _]. by destruct (is_space c).
Qed.

Lemma digit_not_space c : is_digit c = true -> negb (is_space c) = true.
Proof. by destruct c as [[] [] [] [] [] [] [] []]. Qed.
Lemma space_lower c : is_space (lower_byte c) = is_space c.
Proof. by destruct c as [[] [] [] [] [] [] [] []]. Qed.

Lemma ToLower_app s t : ToLower (s +:+ t) = ToLower s +:+ ToLower t.
Proof. induction s as [|c s IH]; [done|]. rewrite string_app_cons. cbn [ToLower]. by rewrite string_app_cons, IH. Qed.
Lemma ToLower_digits s : str_forall is_digit s = true -> ToLower s = s.
Proof.
  induction s as [|c s IH]; [done|]. cbn [str_forall ToLower]. intros [Hc Hs]%andb_true_iff.
  by rewrite (digit_lower c Hc), (IH Hs).
Qed.
Lemma ToLower_no_space s :
  str_forall (fun c => negb (is_space c)) (ToLower s) = true -> str_forall (fun c => negb (is_space c)) s = true.
Proof.
  induction s as [|c s IH]; [done|]. cbn [str_forall ToLower]. rewrite space_lower.
  intros [Hc Hs]%andb_true_iff. by rewrite Hc, (IH Hs).
Qed.

(** A suffix no longer than the unit is one of the unit; a longer one that holds no
    digit is none of a number with that unit. *)
Lemma HasSuffix_unit d su p : (String.length p <= String.length su)%nat -> HasSuffix (d +:+ su) p = HasSuffix su p.
Proof.
  intros Hl. unfold HasSuffix. rewrite string_length_app, <- Nat.add_sub_assoc, substring_shift by done.
  f_equal. destruct (Nat.leb_spec (String.length p) (String.length su)); [apply Nat.leb_le; lia|lia].
Qed.

Lemma HasSuffix_split s p : HasSuffix s p = true -> exists y, s = y +:+ p.
Proof.
  unfold HasSuffix. intros [Hl Hs%String.eqb_eq]%andb_true_iff. apply Nat.leb_le in Hl.
  exists (String.substring 0 (String.length s - String.length p) s). rewrite <- Hs at 2.
  remember (String.length s - String.length p)%nat as i eqn:Ei.
  assert (String.length p = String.length s - i)%nat as -> by lia. assert (i <= String.length s)%nat by lia. clear.
  revert i. induction s as [|c s IH]; intros [|i]; [done|done| |].
  - simpl String.substring at 1. rewrite string_app_nil_l, Nat.sub_0_r. symmetry. apply substring_all.
  - simpl. by rewrite string_app_cons, <- IH.
Qed.

Lemma digits_then d su y p :
  str_forall is_digit d = true -> d +:+ su = y +:+ p -> (String.length su < String.length p)%nat ->
  exists c p', p = String c p' /\ is_digit c = true.
Proof.
  revert d. induction y as [|a y IH]; intros [|c d]; rewrite ?string_app_nil_l, ?string_app_cons.
  - intros _ -> ?. lia.
  - intros [Hc _]%andb_true_iff <- _. eauto.
  - intros _ -> Hl. simpl in Hl. rewrite string_length_app in Hl. lia.
  - intros [_ Hd]%andb_true_iff [= -> He] Hl. by eapply IH.
Qed.

Lemma HasSuffix_number d su c p :
  str_forall is_digit d = true -> is_digit c = false -> (String.length su < String.length (String c p))%nat ->
  HasSuffix (d +:+ su) (String c p) = false.
Proof.
  intros Hd Hc Hl. destruct (HasSuffix (d +:+ su) (String c p)) eqn:E; [|done].
  apply HasSuffix_split in E as [y Hy]. destruct (digits_then d su y _ Hd Hy Hl) as (c' & p' & [= <- _] & ?). congruence.
Qed.

Lemma TrimSuffix_unit d su : HasSuffix su su = true -> TrimSuffix (d +:+ su) su = d.
Proof.
  intros Hs. unfold TrimSuffix. rewrite HasSuffix_unit, Hs by done.
  rewrite string_length_app, Nat.add_sub. apply substring_app_l.
Qed.

Ltac eval_suffixes :=
  repeat match goal with
  | |- context [HasSuffix ?a ?b] => let v := eval vm_compute in (HasSuffix a b) in change (HasSuffix a b) with v
  end; cbv iota.

Lemma splitUnit_number d su k :
  str_forall is_digit d = true -> (su, k) ∈ ("", 0) :: units -> splitUnit units (d +:+ su) = (d, k).
Proof.
  intros Hd Hu. pose proof (str_forall_impl _ _ d digit_not_space Hd) as Hns. unfold units in *.
  repeat (apply elem_of_cons in Hu as [[= -> ->]|Hu]; [
    cbn [splitUnit];
    repeat (first [rewrite HasSuffix_number by (done || (simpl; lia)) | rewrite HasSuffix_unit by (simpl; lia)]);
    eval_suffixes; rewrite ?TrimSuffix_unit, ?string_app_nil_r by done; by rewrite ?TrimSpace_id by done |]).
  by apply elem_of_nil in Hu.
Qed.

Lemma fmt_d_digits n : 0 <= n -> str_forall is_digit (fmt_d n) = true.
Proof. intros Hn. unfold fmt_d. destruct (Z.ltb_spec n 0); [lia|]. apply dec_digits. Qed.
Lemma fmt_d_nonempty n u : 0 <= n -> fmt_d n +:+ u <> "".
Proof.
  intros Hn. unfold fmt_d. destruct (Z.ltb_spec n 0); [lia|]. destruct (dec (Z.to_N n)) eqn:E; [|done].
  pose proof (parse_dec_dec (Z.to_N n)) as Hp. rewrite E in Hp. injection Hp as Hp. by rewrite <- Hp in E.
Qed.

(** ** What database/sql promises of a transaction *)

(** [calls] are the committed CALLs, [pending] those of the open transaction; rows
    have to be closed before the commit. *)
Class TxLaws (D : SqlDB) := {
  calls : sdb -> list string;
  pending : sdb -> list string;
  rows_open : sdb -> bool;
  begin_calls d d' r : tx_Begin d = (d', r) -> calls d' = calls d /\ (r = None -> pending d' = []);
  query_ok d q d' r : tx_Query d q = (d', Ok r) -> calls d' = calls d /\ pending d' = pending d ++ [q];
  query_fails d q d' e : tx_Query d q = (d', Err e) -> calls d' = calls d;
  close_calls d : calls (rows_Close d) = calls d /\ pending (rows_Close d) = pending d /\ rows_open (rows_Close d) = false;
  commit_done d d' : rows_open d = false -> tx_Commit d = (d', None) -> calls d' = calls d ++ pending d;
  commit_err d d' e : tx_Commit d = (d', Some e) -> calls d' = calls d;
  rollback_calls d : calls (tx_Rollback d) = calls d
}.

(** ** Properties *)

(** The rewrite runs in a transaction of its own, whole or not at all: execCountTxn
    returns a count only when its one CALL was committed, after its rows were drained
    and closed, and an error only when nothing was. *)
Theorem execCountTxn_atomic `{D : SqlDB} `{L : !TxLaws D} d q d' r :
  execCountTxn d q = (d', r) ->
  calls d' = match r with Ok _ => calls d ++ [q] | Err _ => calls d end.
Proof.
  unfold execCountTxn, drainCount, drained. destruct (tx_Begin d) as [d1 [e|]] eqn:Eb; apply begin_calls in Eb as [Hc Hp].
  { by intros [= <- <-]. }
  specialize (Hp eq_refl). destruct (tx_Query d1 q) as [d2 [[n [e|]]|e]] eqn:Eq.
  - apply query_ok in Eq as [Hc2 _]. destruct (close_calls d2) as (Hc3 & _).
    intros [= <- <-]. rewrite rollback_calls. congruence.
  - apply query_ok in Eq as [Hc2 Hp2]. destruct (close_calls d2) as (Hc3 & Hp3 & Ho).
    destruct (tx_Commit (rows_Close d2)) as [d3 [e|]] eqn:Ec; intros [= <- <-].
    + apply commit_err in Ec. congruence.
    + apply commit_done in Ec; [|done]. rewrite Ec, Hc3, Hp3, Hc2, Hp2, Hp, Hc. done.
  - apply query_fails in Eq. intros [= <- <-]. rewrite rollback_calls. congruence.
Qed.

(** Going through float64 does not move the expiry cutoff. For times up to the year
    2242, the CALL carries the exact microsecond of the cutoff, and comparing two
    epochs as doubles decides as comparing the times: what is expired is what
    was decided on. *)
Theorem cutoff_survives_float64 cutoff t1 t2 :
  in_range (cutoff / 1000) -> in_range t1 -> in_range t2 ->
  stmtSQL (ExpireSnapshots cutoff) =
    "CALL ducklake_expire_snapshots('lake', older_than => to_timestamp(" +:+
    (fmt_d (cutoff / 1000 / 1000000) +:+ "." +:+ fmt_0d 6 ((cutoff / 1000) mod 1000000)) +:+ "))" /\
  f64_geb (epoch t1) (epoch t2) = (t1 >=? t2).
Proof.
  intros Hc H1 H2. split; [|by apply epoch_compare]. cbn [stmtSQL]. unfold fmt_f. by rewrite (micros_epoch _ Hc).
Qed.

(** A float64 that is an integer, times a power of two. *)
Lemma to_int64_int outOfRange n k x :
  0 <= n -> 0 <= k -> n * 2 ^ k < 2 ^ 63 -> -52 <= f_exp x <= 0 -> f_man x = n * 2 ^ (- f_exp x) ->
  to_int64 outOfRange (Fin x) k = n * 2 ^ k.
Proof.
  intros Hn Hk Hlt He Hx. unfold to_int64. rewrite Hx. set (q := f_exp x) in *.
  assert (0 < 2 ^ k) by (apply Z.pow_pos_nonneg; lia).
  assert ((if 0 <=? q + k then n * 2 ^ (- q) * 2 ^ (q + k) else Z.quot (n * 2 ^ (- q)) (2 ^ (- (q + k)))) = n * 2 ^ k) as ->.
  { destruct (Z.leb_spec 0 (q + k)) as [Hqk|Hqk].
    - rewrite <- Z.mul_assoc, <- Z.pow_add_r by lia. do 2 f_equal. lia.
    - replace (n * 2 ^ (- q)) with (n * 2 ^ k * 2 ^ (- (q + k))) by (rewrite <- Z.mul_assoc, <- Z.pow_add_r by lia; do 2 f_equal; lia).
      apply Z.quot_mul. apply Z.pow_nonzero; lia. }
  replace (- 2 ^ 63 <=? n * 2 ^ k) with true by (symmetry; apply Z.leb_le; nia).
  by replace (n * 2 ^ k <? 2 ^ 63) with true by (symmetry; by apply Z.ltb_lt).
Qed.

(** The memory limit is read as DuckDB means it: a decimal number below 2^53 with
    any of the suffixes, in any letter case, is that many bytes times the power of
    1024 of the suffix. *)
Theorem parseByteSize_reads outOfRange n u k :
  0 <= n < 2 ^ 53 -> (ToLower u, k) ∈ ("", 0) :: units -> n * 2 ^ k < 2 ^ 63 ->
  parseByteSize outOfRange (fmt_d n +:+ u) = n * 2 ^ k.
Proof.
  intros Hn Hu Hlt. pose proof (fmt_d_digits n ltac:(lia)) as Hd. unfold parseByteSize.
  assert (str_forall (fun c => negb (is_space c)) (ToLower u) = true) as Hs.
  { unfold units in Hu. repeat (apply elem_of_cons in Hu as [[= -> _]|Hu]; [done|]). by apply elem_of_nil in Hu. }
  assert (0 <= k) as Hk.
  { unfold units in Hu. repeat (apply elem_of_cons in Hu as [[= _ ->]|Hu]; [lia|]). by apply elem_of_nil in Hu. }
  apply ToLower_no_space in Hs. rewrite TrimSpace_id.
  2: { by rewrite str_forall_app, (str_forall_impl _ _ _ digit_not_space Hd), Hs. }
  destruct (String.eqb_spec (fmt_d n +:+ u) "") as [E|_]; [by apply fmt_d_nonempty in E; [|lia]|].
  rewrite ToLower_app, (ToLower_digits _ Hd), (splitUnit_number _ _ _ Hd Hu).
  destruct (ParseFloat_int n Hn) as (x & -> & Hm & He & Hx). simpl negative.
  destruct (Z.ltb_spec (f_man x) 0); [lia|]. apply to_int64_int; [lia|done..].
Qed.

Lemma maxAvg_table ts t : t ∈ ts -> 0 < t_files t -> t_bytes t / t_files t <= maxAvgFileBytes (Ok ts).
Proof.
  intros Ht Hf. apply foldr_max_ge, list_elem_of_fmap. exists t. split; [done|].
  apply elem_of_filter_b. split; [done|]. by apply Z.ltb_lt.
Qed.

(** The average file size of a table, in whole bytes. *)
Definition avgFileBytes (t : tableInfo) : Z := t_bytes t / t_files t.

(** No average to go by: the read failed, or no table has files of a byte or more. *)
Definition noFileSizes (info : result (list tableInfo)) : Prop :=
  forall ts, info = Ok ts -> forall t, t ∈ ts -> 0 < t_files t -> avgFileBytes t <= 0.

(** What a sub-call may ask for: the operator's number; else, without a memory limit or
    file sizes, 256 files; else one file, or as many as together are, of every table, at
    most half the limit. *)
Definition capFits (pinned mem : Z) (info : result (list tableInfo)) (c : Z) : Prop :=
  (0 < pinned -> c <= pinned) /\
  (pinned <= 0 -> mem <= 0 \/ noFileSizes info -> c <= 256) /\
  (pinned <= 0 -> 0 < mem -> ~ noFileSizes info -> c = 1 \/
     exists ts, info = Ok ts /\ forall t, t ∈ ts -> 0 < t_files t -> c * avgFileBytes t <= mem / 2).

(** The merge passes of a process: each starts on some state of the lake with the ramp
    the last one left. *)
Inductive mergePasses `{S : MaintSession} (cfg : MaintConfig) (mem : Z) : Z -> list (sdb * list Z) -> Z -> Prop :=
| passes_nil ramp : mergePasses cfg mem ramp [] ramp
| passes_cons fuel d d' ramp ramp1 caps r rest ramp' :
    runBoundedMerge (H := sql_maint) cfg mem fuel d ramp = (d', ramp1, caps, r) ->
    mergePasses cfg mem ramp1 rest ramp' -> mergePasses cfg mem ramp ((d, caps) :: rest) ramp'.

Lemma maxAvg_none info : noFileSizes info -> maxAvgFileBytes info <= 0.
Proof.
  intros Hn. destruct info as [ts|e]; simpl; [|lia]. specialize (Hn ts eq_refl). unfold avgFileBytes in Hn.
  induction ts as [|t ts IH]; simpl; [lia|]. assert (foldr Z.max 0 ((fun t => t_bytes t / t_files t) <$> List.filter (fun t => 0 <? t_files t) ts) <= 0).
  { apply IH. intros t' Ht'. apply Hn. by right. }
  destruct (Z.ltb_spec 0 (t_files t)) as [Hf|]; simpl; [|done]. apply Z.max_lub; [|done]. exact (Hn t ltac:(by left) Hf).
Qed.

Lemma maxAvg_some info : ~ noFileSizes info -> 0 < maxAvgFileBytes info.
Proof.
  intros Hn. apply Z.nle_gt. intros Hm. apply Hn. intros ts -> t Ht Hf.
  pose proof (maxAvg_table ts t Ht Hf). unfold avgFileBytes. lia.
Qed.

Lemma pass_fits `{S : MaintSession} cfg mem fuel d ramp d' ramp' caps r :
  1 <= ramp -> runBoundedMerge (H := sql_maint) cfg mem fuel d ramp = (d', ramp', caps, r) ->
  1 <= ramp' <= mergeMaxFilesHardCeiling /\
  Forall (fun c => 1 <= c <= mergeMaxFilesHardCeiling /\ capFits (MergeMaxFilesPerCall cfg) mem (ms_tables d) c) caps.
Proof.
  intros Hr Hm. apply (merge_caps_bounded (H := sql_maint)) in Hm as (Hc & Hr' & Hf); [|done].
  split; [lia|]. eapply Forall_impl; [exact Hf|]. intros c [Hcap Hmem]. split; [lia|].
  unfold mergeCeiling in Hcap. cbn [m_avg sql_maint] in *. split_and!.
  - intros Hp. destruct (Z.ltb_spec 0 (MergeMaxFilesPerCall cfg)); lia.
  - intros Hp Hno. destruct (Z.ltb_spec 0 (MergeMaxFilesPerCall cfg)); [lia|]. unfold mergeMaxFilesFallback in Hcap.
    destruct (Z.leb_spec mem 0); [lia|]. destruct Hno as [?|Hno%maxAvg_none]; [lia|].
    destruct (Z.leb_spec (maxAvgFileBytes (ms_tables d)) 0); lia.
  - intros Hp H0 Hsome%maxAvg_some. destruct (Z.eqb_spec c 1) as [|Hne]; [by left|right].
    specialize (Hmem Hp H0 Hsome ltac:(lia)). destruct (ms_tables d) as [ts|e]; [|simpl in Hsome; lia].
    exists ts. split; [done|]. intros t Ht Htf. pose proof (maxAvg_table ts t Ht Htf). unfold avgFileBytes. nia.
Qed.

(** C25: Merging keeps its size. In every merge pass of a process (the ramp carried from
    one to the next), each sub-call asks for one to a thousand files. It asks for at most
    what an operator pinned; without that, when the memory limit is not set or cannot be
    read, or the file sizes are not known, for at most 256; otherwise for one file, or for
    so few that, of every table, so many files of average size (in whole bytes) are
    together at most half of DUCKDB_MEMORY_LIMIT. *)
Theorem merge_fits_memory `{S : MaintSession} outOfRange cfg memoryLimit passes ramp' :
  let '(cfg', ramp, mem) := NewMaintainer outOfRange cfg memoryLimit in
  mergePasses cfg' mem ramp passes ramp' ->
  1 <= ramp' <= mergeMaxFilesHardCeiling /\
  Forall (fun p : sdb * list Z => Forall (fun c => 1 <= c <= mergeMaxFilesHardCeiling /\
    capFits (MergeMaxFilesPerCall cfg) mem (ms_tables p.1) c) p.2) passes.
Proof.
  simpl. change (MergeMaxFilesPerCall cfg) with (MergeMaxFilesPerCall (applyDefaults cfg)).
  set (mem := parseByteSize _ _). intros Hp.
  assert (Hr : 1 <= mergeRampStartFiles <= mergeMaxFilesHardCeiling) by (by vm_compute).
  revert Hr Hp. generalize mergeRampStartFiles. intros ramp Hr Hp.
  induction Hp as [ramp|fuel d d' ramp ramp1 caps r rest ramp' Hm _ IH]; [by split; [|constructor]|].
  apply pass_fits in Hm as [Hr1 Hf]; [|lia]. destruct (IH Hr1) as [Hr' Hrest]. split; [done|]. by constructor.
Qed.

(** ** Instances and witnesses *)

(** A database in memory: the CALLs run, those of the open transaction, whether rows
    are open, and how many more merges find work. *)
Record memSql := mkMemSql { k_calls : list string; k_pending : list string; k_rows : bool; k_left : nat }.
Definition memSqlDB : SqlDB := {|
  sdb := memSql;
  db_Query d q := (mkMemSql (k_calls d ++ [q]) (k_pending d) true (k_left d - 1), Ok (Z.of_nat (k_left d), None));
  rows_Close d := mkMemSql (k_calls d) (k_pending d) false (k_left d);
  tx_Begin d := (mkMemSql (k_calls d) [] (k_rows d) (k_left d), None);
  tx_Query d q := (mkMemSql (k_calls d) (k_pending d ++ [q]) true (k_left d), Ok (1, None));
  tx_Commit d :=
    if k_rows d then (d, Some (ENew "result set still open"))
    else (mkMemSql (k_calls d ++ k_pending d) [] false (k_left d), None);
  tx_Rollback d := mkMemSql (k_calls d) [] (k_rows d) (k_left d)
|}.
#[global] Instance memSqlDB_laws : TxLaws memSqlDB.
Proof.
  refine {| calls := k_calls : @sdb memSqlDB -> _; pending := k_pending : @sdb memSqlDB -> _;
            rows_open := k_rows : @sdb memSqlDB -> _ |}; simpl; try done.
  - by intros d d' r [= <- <-].
  - by intros d q d' r [= <- <-].
  - intros d d' ->. by intros [= <-].
  - intros d d' e. destruct (k_rows d); [by intros [= <- _]|done].
Defined.

Definition memSession : MaintSession := {|
  ms_db := memSqlDB;
  ms_ctxErr _ := None; ms_now _ := 0; ms_catalog _ := mkCatalog [] []; ms_qerr _ _ := None;
  ms_tables _ := Ok [mkTable "raw_events" 10 80000; mkTable "signals" 0 0];
  ms_reassert d := (d, None); ms_wait d _ := (d, None); ms_budget_spent _ := false
|}.

Lemma execCountTxn_atomic_witness :
  @execCountTxn memSqlDB (mkMemSql ["a"] [] false 0) (stmtSQL (RewriteDataFiles defaultRewriteDeleteThreshold)) =
    (mkMemSql ["a"; "CALL ducklake_rewrite_data_files('lake', delete_threshold => 0.5)"] [] false 0, Ok 1) /\
  @calls memSqlDB _ (mkMemSql ["a"; "CALL ducklake_rewrite_data_files('lake', delete_threshold => 0.5)"] [] false 0) =
    ["a"] ++ [stmtSQL (RewriteDataFiles defaultRewriteDeleteThreshold)].
Proof.
  split; [vm_compute; reflexivity|].
  exact (@execCountTxn_atomic memSqlDB _ (mkMemSql ["a"] [] false 0) (stmtSQL (RewriteDataFiles defaultRewriteDeleteThreshold)) _ (Ok 1)
    ltac:(vm_compute; reflexivity)).
Defined.

Lemma cutoff_survives_float64_witness :
  stmtSQL (ExpireSnapshots 1700000000123457000) =
    "CALL ducklake_expire_snapshots('lake', older_than => to_timestamp(1700000000.123457))" /\
  f64_geb (epoch 1700000000123457) (epoch 1700000000123458) = false.
Proof.
  destruct (cutoff_survives_float64 1700000000123457000 1700000000123457 1700000000123458) as [H1 H2];
    [split; vm_compute; congruence..|].
  split; [rewrite H1|rewrite H2]; vm_compute; reflexivity.
Defined.

Lemma parseByteSize_reads_witness : parseByteSize (fun _ => 0) "2GiB" = 2147483648.
Proof.
  change "2GiB" with (fmt_d 2 +:+ "GiB").
  rewrite (parseByteSize_reads (fun _ => 0) 2 "GiB" 30); [reflexivity|lia| |lia].
  apply (bool_decide_unpack _). by vm_compute.
Defined.

(** A limit of 512 KiB over files of 8000 bytes gives a ceiling of 32 files. *)
Definition mergeRun := runBoundedMerge (H := @sql_maint memSession) (mkMaint 0 0 0 0 0 0 fzero) 524288 5
  (mkMemSql [] [] false 2) mergeRampStartFiles.
Lemma merge_fits_memory_witness :
  mergeRun.1.2 = [32; 32; 32] /\
  Forall (fun c => 1 <= c <= 1000 /\ capFits 0 524288 (@ms_tables memSession (mkMemSql [] [] false 2)) c) mergeRun.1.2.
Proof.
  split; [vm_compute; reflexivity|].
  destruct (@merge_fits_memory memSession (fun _ => 0) (mkMaint 0 0 0 0 0 0 fzero) "512KiB"
    [(mkMemSql [] [] false 2, mergeRun.1.2)] mergeRun.1.1.2) as [_ Hf].
  { apply (@passes_cons memSession (applyDefaults (mkMaint 0 0 0 0 0 0 fzero)) (parseByteSize (fun _ => 0) "512KiB") 5
      (mkMemSql [] [] false 2) mergeRun.1.1.1 mergeRampStartFiles mergeRun.1.1.2 mergeRun.1.2 mergeRun.2 [] mergeRun.1.1.2);
      [vm_compute; reflexivity|apply (@passes_nil memSession)]. }
  apply Forall_cons in Hf as [Hf _]. cbn [fst snd] in Hf.
  replace (parseByteSize (fun _ => 0) "512KiB") with 524288 in Hf by (vm_compute; reflexivity). exact Hf.
Defined.
