(* ===== verification/Progress.v ===== *)
(** * Package lake, consumer progress: reporting a cursor

    RecordConsumerProgress of internal/lake/consumer.go: the upsert a downstream
    consumer makes, as the transaction the code runs. The catalog database is a
    parameter ([ProgressDB]); [ProgressLaws] is what a transaction of it promises. *)

From S2P Require Import Prelude GoStd LakeWriter Maintain.

(** The statements of the upsert; INSERT stamps now(). *)
Inductive pstmt := PBegin | PDelete (c : string) | PInsert (c : string) (id : Z) | PCommit | PRollback.

Class ProgressDB := {
  pdb : Type;
  p_conn : pdb -> pdb * option error;
  p_close : pdb -> pdb;
  p_exec : pdb -> bool -> pstmt -> pdb * option error
}.

Section Record.
Context `{ProgressDB}.

(** ROLLBACK without cancellation, its error ignored. *)
Definition rollback (d : pdb) : pdb := (p_exec d false PRollback).1.

Definition RecordConsumerProgress (d : pdb) (c : string) (snapshotID : Z) : pdb * option error :=
  match p_conn d with
  | (d1, Some e) => (d1, Some e)
  | (d1, None) =>
      let '(d', err) :=
        match p_exec d1 true PBegin with
        | (d2, Some e) => (d2, Some e)
        | (d2, None) =>
            match p_exec d2 true (PDelete c) with
            | (d3, Some e) => (rollback d3, Some (EWrap "consumer progress delete: " e ""))
            | (d3, None) =>
                match p_exec d3 true (PInsert c snapshotID) with
                | (d4, Some e) => (rollback d4, Some (EWrap "consumer progress insert: " e ""))
                | (d4, None) =>
                    match p_exec d4 true PCommit with
                    | (d5, Some e) => (rollback d5, Some (EWrap "consumer progress commit: " e ""))
                    | (d5, None) => (d5, None)
                    end
                end
            end
        end in
      (p_close d', err)
  end.
End Record.

(** The table, the rows the open transaction sees, and the database's clock. *)
Class ProgressLaws (D : ProgressDB) := {
  ptable : pdb -> list progress;
  pview : pdb -> list progress;
  pnow : pdb -> Z;
  p_conn_keeps d : ptable (p_conn d).1 = ptable d;
  p_close_keeps d : ptable (p_close d) = ptable d;
  p_exec_keeps d b st : st <> PCommit -> ptable (p_exec d b st).1 = ptable d;
  p_begin d d' : p_exec d true PBegin = (d', None) -> pview d' = ptable d;
  p_delete d d' c : p_exec d true (PDelete c) = (d', None) ->
    pview d' = List.filter (fun r => negb (consumer r =?s c)) (pview d);
  p_insert d d' c id : p_exec d true (PInsert c id) = (d', None) ->
    pview d' = pview d ++ [mkProgress c id (pnow d)];
  p_commit d d' : p_exec d true PCommit = (d', None) -> ptable d' = pview d;
  p_commit_fails d d' e : p_exec d true PCommit = (d', Some e) -> ptable d' = ptable d
}.

Section RecordProperties.
Context {D : ProgressDB} {L : ProgressLaws D}.

Lemma rollback_keeps_table d : ptable (rollback d) = ptable d.
Proof. apply p_exec_keeps. discriminate. Qed.

Lemma sql_min_member x l : x ∈ l -> exists f, sql_min l = Some f /\ f <= x.
Proof.
  intros Hx. destruct (sql_min l) as [f|] eqn:E; [|apply sql_min_None in E as ->; by apply not_elem_of_nil in Hx].
  exists f. split; [done|]. by eapply sql_min_le.
Qed.

(** The table after a report: as it was, or with the one row of the consumer replaced. *)
Lemma RecordConsumerProgress_rows d c id d' err :
  RecordConsumerProgress d c id = (d', err) ->
  match err with
  | Some _ => ptable d' = ptable d
  | None => exists t, ptable d' = List.filter (fun r => negb (consumer r =?s c)) (ptable d) ++ [mkProgress c id t]
  end.
Proof.
  unfold RecordConsumerProgress. pose proof (p_conn_keeps d) as H1. destruct (p_conn d) as [d1 [e|]]; simpl in H1.
  { by intros [= <- <-]. }
  pose proof (p_exec_keeps d1 true PBegin ltac:(discriminate)) as H2.
  destruct (p_exec d1 true PBegin) as [d2 [e|]] eqn:E2; simpl in H2; [intros [= <- <-]; rewrite p_close_keeps; congruence|].
  pose proof (p_exec_keeps d2 true (PDelete c) ltac:(discriminate)) as H3.
  destruct (p_exec d2 true (PDelete c)) as [d3 [e|]] eqn:E3; simpl in H3;
    [intros [= <- <-]; rewrite p_close_keeps, rollback_keeps_table; congruence|].
  pose proof (p_exec_keeps d3 true (PInsert c id) ltac:(discriminate)) as H4.
  destruct (p_exec d3 true (PInsert c id)) as [d4 [e|]] eqn:E4; simpl in H4;
    [intros [= <- <-]; rewrite p_close_keeps, rollback_keeps_table; congruence|].
  destruct (p_exec d4 true PCommit) as [d5 [e|]] eqn:E5.
  { intros [= <- <-]. rewrite p_close_keeps, rollback_keeps_table, (p_commit_fails _ _ _ E5). congruence. }
  intros [= <- <-]. exists (pnow d3).
  rewrite p_close_keeps, (p_commit _ _ E5), (p_insert _ _ _ _ E4), (p_delete _ _ _ E3), (p_begin _ _ E2). congruence.
Qed.

(** Reporting progress is an atomic upsert that holds the expiry floor. On an
    error the table is as it was; on nil the consumer has exactly one row, the new
    one, and the rows of the others are untouched; and as long as that row is live,
    the floor the maintainer computes from the table is at most its cursor. *)
Theorem RecordConsumerProgress_upserts d c id d' err :
  RecordConsumerProgress d c id = (d', err) ->
  match err with
  | Some _ => ptable d' = ptable d
  | None => exists t, ptable d' = List.filter (fun r => negb (consumer r =?s c)) (ptable d) ++ [mkProgress c id t] /\
      forall q_err now snaps staleness, q_err QFloor = None -> is_live now staleness (mkProgress c id t) = true ->
        exists f, ConsumerFloor q_err now (mkCatalog snaps (ptable d')) staleness = Ok (Some f) /\ f <= id
  end.
Proof.
  intros Hr%RecordConsumerProgress_rows. destruct err; [done|]. destruct Hr as (t & Ht). exists t.
  split; [done|]. intros q_err now snaps staleness Hq Hlive. unfold ConsumerFloor. rewrite Hq, Ht. simpl.
  destruct (sql_min_member id (cursor <$> List.filter (is_live now staleness)
    (List.filter (fun r => negb (consumer r =?s c)) (ptable d) ++ [mkProgress c id t]))) as (f & -> & Hf); [|eauto].
  rewrite List.filter_app. simpl. rewrite Hlive, fmap_app. set_solver.
Qed.
End RecordProperties.

(** ** Witness *)

Record memProgress := mkMemProgress { mp_table : list progress; mp_view : list progress }.
Definition memProgressDB : ProgressDB := {|
  pdb := memProgress;
  p_conn d := (d, None); p_close d := d;
  p_exec d _ st :=
    (match st with
     | PBegin => mkMemProgress (mp_table d) (mp_table d)
     | PDelete c => mkMemProgress (mp_table d) (List.filter (fun r => negb (consumer r =?s c)) (mp_view d))
     | PInsert c id => mkMemProgress (mp_table d) (mp_view d ++ [mkProgress c id 1000])
     | PCommit => mkMemProgress (mp_view d) []
     | PRollback => mkMemProgress (mp_table d) []
     end, None) |}.

#[global] Instance memProgress_laws : ProgressLaws memProgressDB.
Proof.
  refine {| ptable := mp_table : @pdb memProgressDB -> _; pview := mp_view : @pdb memProgressDB -> _;
            pnow := (fun _ => 1000) : @pdb memProgressDB -> Z |}; simpl; try done.
  - by intros d _ [].
  - by intros d d' [= <-].
  - by intros d d' c [= <-].
  - by intros d d' c id [= <-].
  - by intros d d' [= <-].
Defined.

Lemma RecordConsumerProgress_upserts_witness :
  exists t, [mkProgress "b" 3 5; mkProgress "a" 9 1000] = [mkProgress "b" 3 5] ++ [mkProgress "a" 9 t].
Proof.
  destruct (@RecordConsumerProgress_upserts memProgressDB memProgress_laws
    (mkMemProgress [mkProgress "a" 7 4; mkProgress "b" 3 5] []) "a" 9
    (mkMemProgress [mkProgress "b" 3 5; mkProgress "a" 9 1000] []) None ltac:(vm_compute; reflexivity)) as (t & Ht & _).
  exists t. exact Ht.
Defined.
