(* ===== verification/Feed.v ===== *)
(** * The change feed: consumers of the lake against snapshot expiry

    A downstream consumer reads the snapshots after its cursor and reports how far it is
    (RecordConsumerProgress); the sinks commit snapshots; a maintainer resolves the
    cutoff of its cycle, works for up to hours, and then expires. Here they run
    interleaved on one catalog: what a consumer that keeps reporting has still to read
    stays, and what another loses is reported. *)

From S2P Require Import Prelude GoStd Float LakeWriter Maintain Progress.

(** The table after a report: DELETE and INSERT of one transaction. *)
Definition upsert (c : string) (k now : Z) (rows : list progress) : list progress :=
  List.filter (fun r => negb (consumer r =?s c)) rows ++ [mkProgress c k now].

(** ** The two queries of expireCutoff

    The floor is read first, the horizon and the time of the first snapshot after the
    floor in a second query; the catalog moves on in between. *)

Definition cutoffFrom (q_err : query -> option error) (now : Z) (cat : catalog) (cfg : MaintConfig) (floor : option Z)
    : result (Z * Z * bool) :=
  let retention := now - secs (SnapshotKeep cfg) * Second in
  match floor with
  | None =>
      match q_err QRetention with
      | Some e => Err (EWrap "expire retention epoch: " e "")
      | None => Ok (retention, 0, false)
      end
  | Some f =>
      match q_err QFloorBound with
      | Some e => Err (EWrap "expire floor bound: " e "")
      | None =>
          match sql_min (snapshot_time <$> List.filter (fun s => f <? snapshot_id s) (snapshots cat)) with
          | None => Ok (retention, f, false)
          | Some bound => if bound >=? retention then Ok (retention, f, false) else Ok (bound, f, true)
          end
      end
  end.

Lemma expireCutoff_stages q_err now cat cfg :
  expireCutoff q_err now cat cfg =
    match ConsumerFloor q_err now cat (ConsumerStaleness cfg) with
    | Err e => Err e
    | Ok floor => cutoffFrom q_err now cat cfg floor
    end.
Proof. unfold expireCutoff. by destruct (ConsumerFloor _ _ _ _) as [[f|]|e]. Qed.

(** ** The system *)

(** The catalog, every snapshot ever committed, the clock; of the cycles that run, the
    floors read and the cutoffs resolved; and the consumers that lapsed: those a floor
    was read without, or that joined a feed with a gap. *)
Record feed := mkFeed {
  f_cat : catalog; f_history : list snapshot; f_now : Z; f_floors : list (option Z); f_cutoffs : list Z;
  f_lapsed : list string
}.

#[export] Instance snapshot_eq_dec : EqDecision snapshot.
Proof. solve_decision. Defined.

(** A floor that holds for a cursor. *)
Definition floor_below (k : Z) (floor : option Z) : bool := match floor with Some f => f <=? k | None => false end.

(** Everything after [k] is there, and no running cycle is about to remove it. *)
Definition complete_after (k : Z) (st : feed) : bool :=
  forallb (floor_below k) (f_floors st) &&
  forallb (fun s => negb (k <? snapshot_id s) ||
                    (bool_decide (s ∈ snapshots (f_cat st)) && forallb (fun q => q <=? snapshot_time s) (f_cutoffs st)))
    (f_history st).

Section Feed.
Variable cfg : MaintConfig.

Inductive fstep : feed -> feed -> Prop :=
| f_tick now' cat hist now fs qs lapsed :
    now <= now' -> fstep (mkFeed cat hist now fs qs lapsed) (mkFeed cat hist now' fs qs lapsed)
(* a sink or a backfill commits *)
| f_commit id cat hist now fs qs lapsed :
    fstep (mkFeed cat hist now fs qs lapsed)
          (mkFeed (mkCatalog (snapshots cat ++ [mkSnap id now]) (consumers cat)) (hist ++ [mkSnap id now]) now fs qs lapsed)
(* a consumer reports that it has processed up to [k] *)
| f_advance r k cat hist now fs qs lapsed :
    r ∈ consumers cat -> cursor r <= k ->
    fstep (mkFeed cat hist now fs qs lapsed)
          (mkFeed (mkCatalog (snapshots cat) (upsert (consumer r) k now (consumers cat))) hist now fs qs lapsed)
(* a consumer starts, or starts over, at [k] *)
| f_join c k cat hist now fs qs lapsed :
    fstep (mkFeed cat hist now fs qs lapsed)
          (mkFeed (mkCatalog (snapshots cat) (upsert c k now (consumers cat))) hist now fs qs
             (if complete_after k (mkFeed cat hist now fs qs lapsed)
              then List.filter (fun x => negb (x =?s c)) lapsed else c :: lapsed))
(* a cycle reads the floor *)
| f_floor q_err floor cat hist now fs qs lapsed :
    ConsumerFloor q_err now cat (ConsumerStaleness cfg) = Ok floor ->
    fstep (mkFeed cat hist now fs qs lapsed)
          (mkFeed cat hist now (floor :: fs) qs
             ((consumer <$> List.filter (fun r => negb (is_live now (ConsumerStaleness cfg) r)) (consumers cat)) ++ lapsed))
(* and resolves its cutoff *)
| f_freeze q_err floor cutoff f binding cat hist now fs qs lapsed :
    floor ∈ fs -> cutoffFrom q_err now cat cfg floor = Ok (cutoff, f, binding) ->
    fstep (mkFeed cat hist now fs qs lapsed) (mkFeed cat hist now fs (cutoff :: qs) lapsed)
(* the expiry CALL of a running cycle, complete or cut short *)
| f_expire q kept cat hist now fs qs lapsed :
    q ∈ qs -> kept ⊆ snapshots cat -> (forall s, s ∈ snapshots cat -> ~ expired q s -> s ∈ kept) ->
    fstep (mkFeed cat hist now fs qs lapsed) (mkFeed (mkCatalog kept (consumers cat)) hist now fs qs lapsed)
(* cycles end *)
| f_end fs' qs' cat hist now fs qs lapsed :
    fs' ⊆ fs -> qs' ⊆ qs -> fstep (mkFeed cat hist now fs qs lapsed) (mkFeed cat hist now fs' qs' lapsed).

(** A lake whose catalog is complete, without consumers. *)
Inductive freach : feed -> Prop :=
| f_init snaps now : Forall (fun s => snapshot_time s <= now) snaps -> freach (mkFeed (mkCatalog snaps []) snaps now [] [] [])
| f_next st st' : freach st -> fstep st st' -> freach st'.

(** ** Lemmas *)

(** What a consumer at [k] relies on. *)
Definition served (st : feed) (k : Z) : Prop :=
  Forall (fun fl => floor_below k fl = true) (f_floors st) /\
  forall s, s ∈ f_history st -> k < snapshot_id s ->
    s ∈ snapshots (f_cat st) /\ Forall (fun q => q <= snapshot_time s) (f_cutoffs st).

Record feed_inv (st : feed) : Prop := mkFeedInv {
  inv_cutoffs : Forall (fun q => q <= f_now st) (f_cutoffs st);
  inv_served r : r ∈ consumers (f_cat st) -> consumer r ∉ f_lapsed st -> served st (cursor r)
}.

Lemma complete_after_served k st : complete_after k st = true <-> served st k.
Proof.
  unfold complete_after, served. rewrite andb_true_iff, !forallb_forall, Forall_forall.
  setoid_rewrite <- list_elem_of_In. f_equiv. split; intros Hc s Hs.
  - intros Hk. specialize (Hc s Hs). replace (k <? snapshot_id s) with true in Hc by (symmetry; by apply Z.ltb_lt).
    simpl in Hc. apply andb_true_iff in Hc as [H1%bool_decide_eq_true H2]. split; [done|].
    rewrite forallb_forall in H2. apply Forall_forall. intros q Hq%list_elem_of_In. by apply Z.leb_le, H2.
  - destruct (k <? snapshot_id s) eqn:E; [|done]. apply Z.ltb_lt in E. destruct (Hc s Hs E) as [H1 H2]. simpl.
    apply andb_true_iff. split; [by apply bool_decide_eq_true|]. apply forallb_forall.
    intros q Hq%list_elem_of_In. rewrite Forall_forall in H2. by apply Z.leb_le, H2.
Qed.

Lemma served_mono st k k' : k <= k' -> served st k -> served st k'.
Proof.
  intros Hk [Hf Hs]. split; [|intros s Hh Hlt; apply Hs; [done|lia]]. eapply Forall_impl; [exact Hf|].
  intros [f|]; simpl; [|done]. rewrite !Z.leb_le. lia.
Qed.

Lemma upsert_elem c k now rows r :
  r ∈ upsert c k now rows <-> (r ∈ rows /\ consumer r <> c) \/ r = mkProgress c k now.
Proof.
  unfold upsert. rewrite elem_of_app, elem_of_filter_b, list_elem_of_singleton, negb_true_iff, String.eqb_neq. done.
Qed.

Hypothesis keeps : 0 <= secs (SnapshotKeep cfg).

Lemma cutoffFrom_past q_err now cat floor cutoff f b :
  cutoffFrom q_err now cat cfg floor = Ok (cutoff, f, b) -> cutoff <= now.
Proof.
  assert (0 < Second) by done. unfold cutoffFrom. destruct floor as [fl|].
  - destruct (q_err QFloorBound); [done|]. destruct (sql_min _) as [bound|]; [|intros [= <- _ _]; nia].
    destruct (bound >=? _) eqn:E; bool_to_prop; intros [= <- _ _]; nia.
  - destruct (q_err QRetention); [done|]. intros [= <- _ _]. nia.
Qed.

(** A cutoff resolved from a floor spares what is after a cursor the floor holds for. *)
Lemma cutoffFrom_spares q_err now cat floor cutoff f b k s :
  cutoffFrom q_err now cat cfg floor = Ok (cutoff, f, b) -> floor_below k floor = true ->
  s ∈ snapshots cat -> k < snapshot_id s -> cutoff <= snapshot_time s.
Proof.
  intros Hc Hf Hs Hk. destruct floor as [fl|]; [|done]. simpl in Hf. apply Z.leb_le in Hf. unfold cutoffFrom in Hc.
  destruct (q_err QFloorBound); [done|].
  assert (snapshot_time s ∈ snapshot_time <$> List.filter (fun s => fl <? snapshot_id s) (snapshots cat)) as Hin
    by (apply elem_of_fmap_filter; [done|apply Z.ltb_lt; lia]).
  destruct (sql_min _) as [bound|] eqn:Eb; [|apply sql_min_None in Eb; rewrite Eb in Hin; by apply elem_of_nil in Hin].
  pose proof (sql_min_le _ _ _ Eb Hin). destruct (bound >=? _) eqn:E; bool_to_prop; injection Hc as <- _ _; lia.
Qed.

Lemma ConsumerFloor_live q_err now cat floor r :
  ConsumerFloor q_err now cat (ConsumerStaleness cfg) = Ok floor -> r ∈ consumers cat ->
  is_live now (ConsumerStaleness cfg) r = true -> floor_below (cursor r) floor = true.
Proof.
  unfold ConsumerFloor. destruct (q_err QFloor); [done|]. intros [= <-] Hr Hl.
  pose proof (elem_of_fmap_filter _ cursor _ r Hr Hl) as Hin.
  destruct (sql_min _) as [f|] eqn:Ef; [|apply sql_min_None in Ef; rewrite Ef in Hin; by apply elem_of_nil in Hin].
  apply Z.leb_le. by eapply sql_min_le.
Qed.

Lemma fstep_inv st st' : feed_inv st -> fstep st st' -> feed_inv st'.
Proof.
  intros [Hq Hv] Hs. destruct Hs as [now' cat hist now fs qs lapsed Hn|id cat hist now fs qs lapsed|r k cat hist now fs qs lapsed Hr Hk|
    c k cat hist now fs qs lapsed|q_err floor cat hist now fs qs lapsed Hf|q_err floor cutoff f b cat hist now fs qs lapsed Hin Hc|
    q kept cat hist now fs qs lapsed Hin Hsub Hkeep|fs' qs' cat hist now fs qs lapsed Hf' Hq']; simpl in *; split; simpl; try done.
  - eapply Forall_impl; [exact Hq|]. simpl. lia.
  - intros r Hr Hl. destruct (Hv r Hr Hl) as [Hf Hs]. split; [done|]. simpl. intros s Hh Hlt.
    apply elem_of_app in Hh as [Hh| ->%list_elem_of_singleton].
    + destruct (Hs s Hh Hlt). split; [set_solver|done].
    + split; [set_solver|done].
  - intros r' [[Hr' _]| ->]%upsert_elem Hl; [by apply Hv|]. apply (served_mono _ (cursor r)); [done|]. by apply Hv.
  - intros r' Hr' Hl. apply upsert_elem in Hr' as [[Hr' Hne]| ->].
    + apply Hv; [done|]. destruct (complete_after _ _); [|set_solver]. contradict Hl. apply elem_of_filter_b. split; [done|].
      by apply negb_true_iff, String.eqb_neq.
    + destruct (complete_after _ _) eqn:E; [by apply complete_after_served in E|set_solver].
  - intros r Hr Hl. rewrite not_elem_of_app in Hl. destruct Hl as [Hlive Hl]. destruct (Hv r Hr Hl) as [Hfs Hs].
    split; [|done]. simpl. constructor; [|done]. eapply ConsumerFloor_live; [done|done|].
    destruct (is_live _ _ r) eqn:E; [done|]. contradict Hlive. apply list_elem_of_fmap. exists r. split; [done|].
    apply elem_of_filter_b. by rewrite E.
  - constructor; [|done]. by eapply cutoffFrom_past.
  - intros r Hr Hl. destruct (Hv r Hr Hl) as [Hfs Hs]. split; [done|]. simpl in *. intros s Hh Hlt. destruct (Hs s Hh Hlt) as [H1 H2].
    split; [done|]. constructor; [|done]. rewrite Forall_forall in Hfs. by eapply cutoffFrom_spares; [done|apply Hfs|..].
  - intros r Hr Hl. destruct (Hv r Hr Hl) as [Hfs Hs]. split; [done|]. simpl in *. intros s Hh Hlt. destruct (Hs s Hh Hlt) as [H1 H2].
    split; [|done]. apply Hkeep; [done|]. rewrite Forall_forall in H2. unfold expired. specialize (H2 q Hin). lia.
  - rewrite Forall_forall in Hq. apply Forall_forall. intros q Hqq. apply Hq. set_solver.
  - intros r Hr Hl. destruct (Hv r Hr Hl) as [Hfs Hs]. split; simpl in *.
    + rewrite Forall_forall in Hfs. apply Forall_forall. intros fl Hfl. apply Hfs. set_solver.
    + intros s Hh Hlt. destruct (Hs s Hh Hlt) as [H1 H2]. split; [done|]. rewrite Forall_forall in H2.
      apply Forall_forall. intros q Hqq. apply H2. set_solver.
Qed.

Lemma freach_inv st : freach st -> feed_inv st.
Proof. induction 1 as [snaps now Hs|st st' _ IH Hs]; [split; simpl; [done|by intros r ?%elem_of_nil]|by eapply fstep_inv]. Qed.
End Feed.

(** ** Properties *)

(** C8: A consumer that keeps reporting never loses a change. In any interleaving of
    commits, reports, joining consumers and maintenance cycles, whose floor, cutoff and
    expiry happen at different times, every snapshot after the cursor of a consumer
    is still there, unless a cycle read its floor while that consumer's report was
    older than ConsumerStaleness, or the consumer started with a gap. *)
Theorem live_consumer_keeps_feed cfg st r s :
  0 <= secs (SnapshotKeep cfg) -> freach cfg st ->
  r ∈ consumers (f_cat st) -> consumer r ∉ f_lapsed st ->
  s ∈ f_history st -> cursor r < snapshot_id s -> s ∈ snapshots (f_cat st).
Proof. intros Hk Hr Hc Hl Hh Hlt. destruct (freach_inv cfg Hk st Hr) as [_ Hv]. by apply (Hv r). Qed.

(** What a consumer loses is reported. Whatever the cutoff of a cycle takes from behind
    any consumer's cursor, the health report on the same catalog names that
    consumer with the number of snapshots it loses; a consumer with a live report
    loses none. *)
Theorem loss_is_reported q_err now cat cfg r cutoff floor binding :
  (forall q, q_err q = None) -> 0 < ConsumerStaleness cfg -> r ∈ consumers cat ->
  expireCutoff q_err now cat cfg = Ok (cutoff, floor, binding) ->
  let lost := List.filter (fun s => (cursor r <? snapshot_id s) && (snapshot_time s <? cutoff)) (snapshots cat) in
  lost <> [] ->
  is_live now (ConsumerStaleness cfg) r = false /\ (consumer r, Zlen lost) ∈ (reportConsumerHealth q_err now cat cfg).2.
Proof.
  intros Hq Hst Hr Hc lost Hlost.
  assert (is_live now (ConsumerStaleness cfg) r = false) as Hdead.
  { apply not_true_is_false. intros Hl. destruct (expireCutoff_safe _ _ _ _ _ _ _ Hc) as [_ Hs]. apply Hlost.
    destruct lost as [|s l] eqn:E; [done|]. exfalso. assert (s ∈ lost) as Hin by (rewrite E; by left).
    apply elem_of_filter_b in Hin as [Hin Hb]. bool_to_prop. apply (Hs s); [|done]. split; [done|]. by exists r. }
  split; [done|]. unfold reportConsumerHealth. replace (ConsumerStaleness cfg <=? 0) with false by (symmetry; by apply Z.leb_gt).
  unfold StaleConsumers. rewrite Hq. cbn iota.
  set (stale := List.filter _ (consumers cat)). assert (r ∈ stale) as Hin.
  { apply elem_of_filter_b. split; [done|]. unfold is_live in Hdead. bool_to_prop. by apply Z.leb_le. }
  destruct (Zlen stale =? 0) eqn:E; [destruct stale; [by apply elem_of_nil in Hin|done]|].
  rewrite Hc. simpl. apply list_elem_of_omap. exists r. split; [done|]. unfold UnconsumedExpiringCount. rewrite Hq. fold lost.
  destruct lost as [|s l]; [done|]. by rewrite Zlen_cons; pose proof (Zlen_nonneg l); destruct (Z.ltb_spec 0 (1 + Zlen l)); [|lia].
Qed.

(** A report that returned nil is the [f_advance] or [f_join] of its consumer. *)
Lemma RecordConsumerProgress_upsert `{D : ProgressDB} `{L : !ProgressLaws D} d c k d' :
  RecordConsumerProgress d c k = (d', None) -> exists t, ptable d' = upsert c k t (ptable d).
Proof. apply (RecordConsumerProgress_rows d c k d' None). Qed.

(** ** A run, for the witnesses *)

(** Retention of zero, so that only the floor holds expiry back. *)
Definition feedConfig : MaintConfig := mkMaint 0 0 Hour 0 0 0 fzero.
Definition twoSnapshots : list snapshot := [mkSnap 1 10; mkSnap 2 20].
Definition oneReader : catalog := mkCatalog twoSnapshots [mkProgress "dq" 1 100].
Definition afterExpiry : feed :=
  mkFeed (mkCatalog [mkSnap 2 20] (consumers oneReader)) twoSnapshots 100 [Some 1] [20] [].

Lemma afterExpiry_reached : freach feedConfig afterExpiry.
Proof.
  eapply f_next; [eapply f_next; [eapply f_next; [eapply f_next; [apply (f_init feedConfig twoSnapshots 100)|]|]|]|].
  - repeat constructor; simpl; lia.
  - apply (f_join feedConfig "dq" 1).
  - apply (f_floor feedConfig (fun _ => None) (Some 1)). reflexivity.
  - apply (f_freeze feedConfig (fun _ => None) (Some 1) 20 1 true); [by left|reflexivity].
  - apply (f_expire feedConfig 20 [mkSnap 2 20]); [by left|simpl; set_solver|].
    simpl. intros s [->|[->|?%elem_of_nil]%elem_of_cons]%elem_of_cons; [|by left|done]. unfold expired. simpl. lia.
Defined.

Lemma live_consumer_keeps_feed_witness : mkSnap 1 10 ∉ snapshots (f_cat afterExpiry) /\ mkSnap 2 20 ∈ snapshots (f_cat afterExpiry).
Proof.
  split; [simpl; set_solver|].
  apply (live_consumer_keeps_feed feedConfig afterExpiry (mkProgress "dq" 1 100) (mkSnap 2 20)).
  - vm_compute. discriminate.
  - exact afterExpiry_reached.
  - by left.
  - simpl. set_solver.
  - right. by left.
  - simpl. lia.
Defined.

(** A reader that went quiet a day ago. *)
Definition quietReader : catalog := mkCatalog twoSnapshots [mkProgress "dq" 0 (100 - 24 * Hour)].
Lemma loss_is_reported_witness : ("dq", 2) ∈ (reportConsumerHealth (fun _ => None) 100 quietReader feedConfig).2.
Proof.
  exact (proj2 (loss_is_reported (fun _ => None) 100 quietReader feedConfig (mkProgress "dq" 0 (100 - 24 * Hour)) 100 0 false
    (fun _ => eq_refl) ltac:(vm_compute; reflexivity) ltac:(by left) ltac:(vm_compute; reflexivity) ltac:(vm_compute; discriminate))).
Defined.
