(* ===== verification/Decode.v ===== *)
(** * Package decodestream: the bridge that republishes decoded signals

    internal/decodestream/decodestream.go and location.go. Model-garage's decoders
    and the JSON packing of signals are parameters ([DecodeLib]); the sort is
    Go's unstable slices.SortFunc, a parameter with its contract ([SortLaws]). A
    float64 is NaN, an infinity or a rational. The order in which a map is ranged
    over is the one of map_to_list, which nothing below depends on. *)

From S2P Require Import Prelude GoStd Sha256 CloudEvent Stream Publisher Convert Sink.
From Stdlib Require Import QArith.
#[local] Open Scope Z_scope.

(** ** vss.Signal and vss.Event *)

Inductive f64 := NaN | Inf (neg : bool) | Fin (q : Q).

Record Location := mkLocation { Latitude : f64; Longitude : f64; HDOP : f64 }.
Definition zeroLocation : Location := mkLocation (Fin 0) (Fin 0) (Fin 0).

Record Signal := mkSignal {
  s_header : CloudEventHeader; s_Timestamp : Z; s_Name : string; s_ValueNumber : f64;
  s_ValueLocation : Location; s_CloudEventID : string
}.
Definition set_Name (n : string) (s : Signal) : Signal :=
  mkSignal (s_header s) (s_Timestamp s) n (s_ValueNumber s) (s_ValueLocation s) (s_CloudEventID s).

Record Event := mkEvent { e_Name : string; e_Body : string }.

Definition SignalsStreamName : string := "DIMO_SIGNALS".
Definition EventsStreamName : string := "DIMO_EVENTS".
Definition signalSubjectPrefix : string := "dimo.signals".
Definition eventSubjectPrefix : string := "dimo.events".
Definition pruneSignalName : string := "___prune".
Definition pruneSignal : Signal := mkSignal zeroHeader 0 pruneSignalName (Fin 0) zeroLocation "".
Definition maxLatLongDur : Z := 500 * Millisecond.
Definition fieldCurrentLocationLatitude : string := "currentLocationLatitude".
Definition fieldCurrentLocationLongitude : string := "currentLocationLongitude".
Definition fieldDIMOAftermarketHDOP : string := "dimoAftermarketHDOP".

(** What a decoder returned: its output, and an error with, when it is a
    ConversionError, what was decoded nevertheless. *)
Record conversion (A : Type) := mkConversion { c_out : list A; c_err : option (error * option (list A)) }.
Arguments mkConversion {A} _ _.
Arguments c_out {A} _.
Arguments c_err {A} _.

Class DecodeLib := {
  ConvertToSignals : string -> RawEvent -> conversion Signal;
  ConvertToEvents : string -> RawEvent -> conversion Event;
  MarshalSignals : CloudEventHeader -> list Signal -> result string;
  MarshalEvents : CloudEventHeader -> list Event -> result string;
  FieldCurrentLocationCoordinates : string;
  SortSignals : list Signal -> list Signal
}.

(** (timestamp, name) order. *)
Definition sig_le (a b : Signal) : Prop :=
  s_Timestamp a < s_Timestamp b \/
  (s_Timestamp a = s_Timestamp b /\ String.le (s_Name a) (s_Name b)).

(** slices.SortFunc: a sorted permutation, equal elements in any order. *)
Class SortLaws (D : DecodeLib) : Prop := {
  sort_perm l : SortSignals l ≡ₚ l;
  sort_sorted l : StronglySorted sig_le (SortSignals l)
}.

(** ** location.go *)

Definition Qle_b (a b : Q) : bool := Qle_bool a b.

Definition validLatLon (lat lon : f64) : bool :=
  match lat, lon with
  | Fin a, Fin b =>
      if Qeq_bool a 0 && Qeq_bool b 0 then false
      else Qle_b (-90 # 1) a && Qle_b a (90 # 1) && Qle_b (-180 # 1) b && Qle_b b (180 # 1)
  | _, _ => false
  end.

(** coordinateStore; an index of -1 is None. *)
Record coordinateStore := mkStore {
  lastLat : option nat; lastLon : option nat; lastHDOP : option nat; lastTime : Z;
  cs_signals : list Signal; created : list Signal; cs_errs : list error
}.

Definition newCoordinateStore (signals : list Signal) : coordinateStore :=
  mkStore None None None zeroTime signals [] [].

(** c.signals[i] *)
Definition sig_at (l : list Signal) (i : nat) : Signal := nth i l pruneSignal.

(** c.signals[i].Data.Name = pruneSignalName *)
Definition prune_at (i : option nat) (l : list Signal) : list Signal :=
  match i with None => l | Some i => alter (set_Name pruneSignalName) i l end.

Definition mismatch (text : string) : error := sentinel_err errLatLongMismatch text.

Definition opt_sig (l : list Signal) (i : option nat) : option Signal := sig_at l <$> i.

Section Coordinates.
Context `{DecodeLib}.

(** The header template of a new location: from the active triple. *)
Definition template (c : coordinateStore) : Signal :=
  match lastLat c, lastLon c, lastHDOP c with
  | Some i, _, _ => sig_at (cs_signals c) i
  | None, Some i, _ => sig_at (cs_signals c) i
  | None, None, Some i => sig_at (cs_signals c) i
  | None, None, None => sig_at (cs_signals c) 0
  end.

Definition tryCreateLocation (c : coordinateStore) : coordinateStore :=
  let sigs := cs_signals c in
  let tmpl := template c in
  (* the pair: signals, errors, and the location to create *)
  let '(sigs1, errs, latlon) :=
    match lastLat c, lastLon c with
    | Some la, Some lo =>
        let lat := s_ValueNumber (sig_at sigs la) in
        let lon := s_ValueNumber (sig_at sigs lo) in
        let sigs' := prune_at (Some lo) (prune_at (Some la) sigs) in
        if negb (validLatLon lat lon)
        then (sigs', cs_errs c ++ [mismatch ": invalid coordinate"], None)
        else (sigs', cs_errs c, Some (lat, lon))
    | Some la, None => (prune_at (Some la) sigs, cs_errs c ++ [mismatch ": unpaired latitude"], None)
    | None, Some lo => (prune_at (Some lo) sigs, cs_errs c ++ [mismatch ": unpaired longitude"], None)
    | None, None => (sigs, cs_errs c, None)
    end in
  let hdop := match lastHDOP c with Some h => s_ValueNumber (sig_at sigs1 h) | None => Fin 0 end in
  let sigs2 := prune_at (lastHDOP c) sigs1 in
  let created' :=
    match latlon with
    | Some (lat, lon) =>
        created c ++ [mkSignal (s_header tmpl) (lastTime c) FieldCurrentLocationCoordinates (Fin 0)
                        (mkLocation lat lon hdop) (s_CloudEventID tmpl)]
    | None => created c
    end in
  mkStore None None None zeroTime sigs2 created' errs.

Definition set_lat i c := mkStore (Some i) (lastLon c) (lastHDOP c) (lastTime c) (cs_signals c) (created c) (cs_errs c).
Definition set_lon i c := mkStore (lastLat c) (Some i) (lastHDOP c) (lastTime c) (cs_signals c) (created c) (cs_errs c).
Definition set_hdop i c := mkStore (lastLat c) (lastLon c) (Some i) (lastTime c) (cs_signals c) (created c) (cs_errs c).
Definition start_time (t : Z) (c : coordinateStore) : coordinateStore :=
  if IsZero (lastTime c)
  then mkStore (lastLat c) (lastLon c) (lastHDOP c) t (cs_signals c) (created c) (cs_errs c) else c.

Definition is_some {A} (o : option A) : bool := match o with Some _ => true | None => false end.

Definition processSignal (c : coordinateStore) (index : nat) : coordinateStore :=
  let sig := sig_at (cs_signals c) index in
  let c := if negb (IsZero (lastTime c)) && (s_Timestamp sig - lastTime c >=? maxLatLongDur)
           then tryCreateLocation c else c in
  if s_Name sig =?s fieldCurrentLocationLatitude then
    start_time (s_Timestamp sig) (set_lat index (if is_some (lastLat c) then tryCreateLocation c else c))
  else if s_Name sig =?s fieldCurrentLocationLongitude then
    start_time (s_Timestamp sig) (set_lon index (if is_some (lastLon c) then tryCreateLocation c else c))
  else if s_Name sig =?s fieldDIMOAftermarketHDOP then
    start_time (s_Timestamp sig) (set_hdop index (if is_some (lastHDOP c) then tryCreateLocation c else c))
  else c.

Definition dropPruned (signals : list Signal) : list Signal :=
  List.filter (fun s => negb (s_Name s =?s pruneSignalName)) signals.

(** handleCoordinates = newCoordinateStore + processSignals. *)
Definition handleCoordinates (signals : list Signal) : list Signal * list error :=
  if Zlen signals =? 0 then (signals, [])
  else
    let sorted := SortSignals signals in
    let c := tryCreateLocation
               (fold_left processSignal (seq 0 (length sorted)) (newCoordinateStore sorted)) in
    (dropPruned (cs_signals c) ++ created c, cs_errs c).

(** ** decodestream.go: pruning *)

Definition signalEqual (a b : Signal) : bool :=
  (s_Name a =?s s_Name b) && (s_Timestamp a =? s_Timestamp b).

(** One pass over the sorted slice: a future signal is pruned with an error, one
    equal to its successor is pruned. *)
Fixpoint pruneLoop (skew now : Z) (signals : list Signal) (errs : option error)
    : list Signal * option error :=
  match signals with
  | [] => ([], errs)
  | s :: rest =>
      if IsFutureTimestamp skew now (s_Timestamp s)
      then
        let '(rest', errs') := pruneLoop skew now rest
          (errors_join errs (Some (sentinel_err errFutureTimestamp
            (", signal '" +:+ s_Name s +:+ "' has a future timestamp")))) in
        (pruneSignal :: rest', errs')
      else
        let dup := match rest with n :: _ => signalEqual s n | [] => false end in
        let '(rest', errs') := pruneLoop skew now rest errs in
        ((if dup then pruneSignal else s) :: rest', errs')
  end.

Definition pruneFutureAndDuplicateSignals (skew now : Z) (signals : list Signal)
    : list Signal * option error :=
  let '(l, errs) := pruneLoop skew now (SortSignals signals) None in (dropPruned l, errs).
End Coordinates.

(** ** decodestream.go: grouping, publishing, acknowledging *)

(** subjectSanitizer.Replace, byte by byte. *)
Definition unsafe_byte (c : Ascii.ascii) : bool :=
  let v := byte_val c in
  (v =? 32) || (v =? 46) || (v =? 42) || (v =? 62) || (v =? 9) || (v =? 10) || (v =? 13).
Fixpoint replaceUnsafe (s : string) : string :=
  match s with
  | "" => ""
  | String c s' => String (if unsafe_byte c then chr "_" else c) (replaceUnsafe s')
  end.
Definition sanitize (s : string) : string := if s =?s "" then "_" else replaceUnsafe s.

(** byName[name] = append(byName[name], x) over a slice. *)
Definition groupBy {A} (name : A -> string) (l : list A) : gmap string (list A) :=
  fold_left (fun m x => <[name x := default [] (m !! name x) ++ [x]]> m) l ∅.
Definition groupSignalsByName (signals : list Signal) : gmap string (list Signal) := groupBy s_Name signals.

(** dedupID: the first 16 bytes of the digest, in hex. *)
Definition dedupID (baseKey name : string) : string :=
  hex_EncodeToString (take 16 (Sha256.Sum256 (baseKey +:+ "|" +:+ name))).

Definition decodedHeader (rawEvent : RawEvent) (ceType : string) : CloudEventHeader :=
  mkHeader (ID rawEvent) (Source rawEvent) (Producer rawEvent) (Subject rawEvent) (SpecVersion rawEvent)
    (Time rawEvent) ceType "" "" (DataVersion rawEvent) "" [].

(** Config of the bridge. *)
Record BridgeConfig := mkBridge {
  bc_ChainID : Z; bc_VehicleNFTAddress : string; bc_Replicas : Z; bc_StreamPartitions : Z;
  bc_SignalsMaxBytes : Z; bc_EventsMaxBytes : Z
}.
Definition defaultSignalsMaxBytes : Z := Z.shiftl 100 30.
Definition defaultEventsMaxBytes : Z := Z.shiftl 10 30.

Definition NewBridge (c : BridgeConfig) : BridgeConfig :=
  mkBridge (bc_ChainID c) (bc_VehicleNFTAddress c)
    (if bc_Replicas c =? 0 then 1 else bc_Replicas c) (bc_StreamPartitions c)
    (if bc_SignalsMaxBytes c =? 0 then defaultSignalsMaxBytes else bc_SignalsMaxBytes c)
    (if bc_EventsMaxBytes c =? 0 then defaultEventsMaxBytes else bc_EventsMaxBytes c).

(** What finish told JetStream. *)
Inductive verdict := VAck (m : JMsg) | VNak (m : JMsg).

Section Bridge.
Context `{CloudEventLib} `{NatsHeaderLib} `{JetStreamPublish} `{DecodeLib}.
Variables (cfg : BridgeConfig) (skew now : Z).

Definition isVehicleSignalMessage (rawEvent : RawEvent) : bool :=
  match DecodeERC721DID (Subject rawEvent) with
  | Err _ => false
  | Ok did => (ChainID did =? bc_ChainID cfg) && (ContractAddress did =?s bc_VehicleNFTAddress cfg)
  end.

Definition publishJSONAsync (js : wal) (subject : string) (data : result string) (dedup : string)
    : wal * result future :=
  match data with
  | Err e => (js, Err (EWrap ("marshaling decoded payload for " +:+ subject +:+ ": ") e ""))
  | Ok body =>
      match PublishMsgAsync js (mkMsg subject body {[ MsgIdHdr := [dedup] ]}) with
      | (js', Err e) => (js', Err (EWrap ("publishing to " +:+ subject +:+ ": ") e ""))
      | (js', Ok fut) => (js', Ok fut)
      end
  end.

(** The loop over the groups: futures and joined submit errors. *)
Fixpoint submitGroups {A} (js : wal) (prefix baseKey : string) (pack : list A -> result string)
    (groups : list (string * list A)) (futures : list future) (pubErrs : option error)
    : wal * list future * option error :=
  match groups with
  | [] => (js, futures, pubErrs)
  | (name, group) :: rest =>
      match publishJSONAsync js (prefix +:+ "." +:+ sanitize name) (pack group) (dedupID baseKey name) with
      | (js', Err e) => submitGroups js' prefix baseKey pack rest futures (errors_join pubErrs (Some e))
      | (js', Ok fut) => submitGroups js' prefix baseKey pack rest (futures ++ [fut]) pubErrs
      end
  end.

(** The decoder's output, or what it salvaged. *)
Definition salvage {A} (c : conversion A) : list A :=
  match c_err c with
  | Some (_, Some decoded) => decoded
  | _ => c_out c
  end.

Definition submitSignals (js : wal) (rawEvent : RawEvent) : wal * list future * option error :=
  let signals := salvage (ConvertToSignals (Source rawEvent) rawEvent) in
  if Zlen signals =? 0 then (js, [], None)
  else
    let '(signals, _) := pruneFutureAndDuplicateSignals skew now signals in
    let '(signals, _) := handleCoordinates signals in
    if Zlen signals =? 0 then (js, [], None)
    else
      submitGroups js signalSubjectPrefix (HeaderKey rawEvent)
        (MarshalSignals (decodedHeader rawEvent TypeSignals))
        (map_to_list (groupSignalsByName signals)) [] None.

Definition submitEvents (js : wal) (rawEvent : RawEvent) : wal * list future * option error :=
  let events := salvage (ConvertToEvents (Source rawEvent) rawEvent) in
  if Zlen events =? 0 then (js, [], None)
  else
    submitGroups js eventSubjectPrefix (HeaderKey rawEvent)
      (MarshalEvents (decodedHeader rawEvent TypeEvents))
      (map_to_list (groupBy e_Name events)) [] None.

(** msgOutcome *)
Record msgOutcome := mkOutcome { o_msg : JMsg; o_futures : list future; o_submitErr : option error }.

Definition decodeAndSubmit (js : wal) (msg : JMsg) : wal * msgOutcome :=
  match ParseMsg (jm_Headers msg) (jm_Data msg) with
  | Err _ => (js, mkOutcome msg [] None)
  | Ok event =>
      if CEType event =?s TypeStatus then
        if isVehicleSignalMessage event then
          let '(js', futs, e) := submitSignals js event in (js', mkOutcome msg futs e)
        else (js, mkOutcome msg [] None)
      else if CEType event =?s TypeEvents then
        let '(js', futs, e) := submitEvents js event in (js', mkOutcome msg futs e)
      else (js, mkOutcome msg [] None)
  end.

(** awaitFutures: the end of the context ends the wait. *)
Fixpoint awaitFutures (js : wal) (futures : list future) (errs : option error) : wal * option error :=
  match futures with
  | [] => (js, errs)
  | fut :: rest =>
      match AwaitFuture js fut with
      | (js', AckOk) => awaitFutures js' rest errs
      | (js', AckErr e) => awaitFutures js' rest (errors_join errs (Some (EWrap "async publish: " e "")))
      | (js', AckCtxDone e) => (js', Some e)
      end
  end.

Definition finish (js : wal) (o : msgOutcome) : wal * verdict :=
  let '(js', awaitErr) := awaitFutures js (o_futures o) None in
  match errors_join (o_submitErr o) awaitErr with
  | Some _ => (js', VNak (o_msg o))
  | None => (js', VAck (o_msg o))
  end.

Fixpoint submitBatch (js : wal) (msgs : list JMsg) : wal * list msgOutcome :=
  match msgs with
  | [] => (js, [])
  | m :: msgs' =>
      let '(js1, o) := decodeAndSubmit js m in
      let '(js2, os) := submitBatch js1 msgs' in (js2, o :: os)
  end.
Fixpoint finishBatch (js : wal) (os : list msgOutcome) : wal * list verdict :=
  match os with
  | [] => (js, [])
  | o :: os' =>
      let '(js1, v) := finish js o in
      let '(js2, vs) := finishBatch js1 os' in (js2, v :: vs)
  end.

Definition handleBatch (js : wal) (msgs : list JMsg) : wal * list verdict :=
  let '(js1, outcomes) := submitBatch js msgs in finishBatch js1 outcomes.
End Bridge.

(** ** Lemmas: coordinates *)

Section CoordinateLemmas.
Context `{D : DecodeLib}.

Definition is_coord (s : Signal) : bool :=
  (s_Name s =?s fieldCurrentLocationLatitude) || (s_Name s =?s fieldCurrentLocationLongitude) ||
  (s_Name s =?s fieldDIMOAftermarketHDOP).

Definition active (c : coordinateStore) (i : nat) : Prop :=
  lastLat c = Some i \/ lastLon c = Some i \/ lastHDOP c = Some i.

#[export] Instance active_dec c i : Decision (active c i).
Proof. unfold active. apply _. Defined.

Lemma prune_at_lookup o l i :
  prune_at o l !! i = (if decide (o = Some i) then set_Name pruneSignalName else id) <$> l !! i.
Proof.
  destruct o as [j|]; simpl; [|by destruct (l !! i)].
  destruct (decide (j = i)) as [->|Hne].
  - rewrite list_lookup_alter_eq. by rewrite decide_True.
  - rewrite list_lookup_alter_ne by done. rewrite decide_False by congruence. by destruct (l !! i).
Qed.

(** tryCreateLocation renames exactly the active signals and deactivates them. *)
Lemma tryCreate_lookup c i :
  cs_signals (tryCreateLocation c) !! i =
    (if decide (active c i) then set_Name pruneSignalName else id) <$> cs_signals c !! i.
Proof.
  assert (cs_signals (tryCreateLocation c) =
    prune_at (lastHDOP c) (prune_at (lastLon c) (prune_at (lastLat c) (cs_signals c)))) as ->.
  { unfold tryCreateLocation. destruct (lastLat c), (lastLon c); simpl; try done. by destruct (negb _). }
  rewrite !prune_at_lookup. unfold active.
  destruct (cs_signals c !! i) as [s|]; simpl; [|done].
  repeat case_decide; simpl; try done; tauto.
Qed.

Lemma tryCreate_inactive c i : ~ active (tryCreateLocation c) i.
Proof.
  assert (lastLat (tryCreateLocation c) = None /\ lastLon (tryCreateLocation c) = None /\
          lastHDOP (tryCreateLocation c) = None) as (E1 & E2 & E3).
  { unfold tryCreateLocation. destruct (lastLat c), (lastLon c); simpl; try done. by destruct (negb _). }
  unfold active. rewrite E1, E2, E3. intros [?|[?|?]]; done.
Qed.

(** The store after the first [k] signals of [input]: every coordinate seen is
    pruned or active, everything else is as it was. *)
Record store_inv (input : list Signal) (k : nat) (c : coordinateStore) : Prop := {
  si_len : length (cs_signals c) = length input;
  si_lat i : lastLat c = Some i -> exists s, input !! i = Some s /\ s_Name s = fieldCurrentLocationLatitude;
  si_lon i : lastLon c = Some i -> exists s, input !! i = Some s /\ s_Name s = fieldCurrentLocationLongitude;
  si_hdop i : lastHDOP c = Some i -> exists s, input !! i = Some s /\ s_Name s = fieldDIMOAftermarketHDOP;
  si_active i : active c i -> (i < k)%nat /\ cs_signals c !! i = input !! i;
  si_rest i s : input !! i = Some s -> ~ active c i ->
    cs_signals c !! i = Some (if decide ((i < k)%nat /\ is_coord s = true) then set_Name pruneSignalName s else s)
}.

Lemma sig_at_lookup l i s : l !! i = Some s -> sig_at l i = s.
Proof. unfold sig_at. intros Hs. by apply nth_lookup_Some. Qed.

Lemma lat_is_coord s : s_Name s = fieldCurrentLocationLatitude -> is_coord s = true.
Proof. intros E. unfold is_coord. by rewrite E. Qed.
Lemma lon_is_coord s : s_Name s = fieldCurrentLocationLongitude -> is_coord s = true.
Proof. intros E. unfold is_coord. by rewrite E. Qed.
Lemma hdop_is_coord s : s_Name s = fieldDIMOAftermarketHDOP -> is_coord s = true.
Proof. intros E. unfold is_coord. by rewrite E. Qed.

Lemma active_is_coord input k c i s :
  store_inv input k c -> active c i -> input !! i = Some s -> is_coord s = true.
Proof.
  intros Hi Ha Hs. destruct Ha as [Ha|[Ha|Ha]].
  - destruct (si_lat _ _ _ Hi i Ha) as (s' & Hs' & Hn). simplify_eq. by apply lat_is_coord.
  - destruct (si_lon _ _ _ Hi i Ha) as (s' & Hs' & Hn). simplify_eq. by apply lon_is_coord.
  - destruct (si_hdop _ _ _ Hi i Ha) as (s' & Hs' & Hn). simplify_eq. by apply hdop_is_coord.
Qed.

Lemma tryCreate_inv input k c : store_inv input k c -> store_inv input k (tryCreateLocation c).
Proof.
  intros Hi. pose proof (tryCreate_inactive c) as Hn. split.
  - rewrite <- (si_len _ _ _ Hi). unfold tryCreateLocation.
    destruct (lastLat c), (lastLon c), (lastHDOP c); simpl; try destruct (negb _); simpl;
      rewrite ?length_alter; done.
  - intros i Hl. destruct (Hn i). by left.
  - intros i Hl. destruct (Hn i). by right; left.
  - intros i Hl. destruct (Hn i). by right; right.
  - intros i Ha. by destruct (Hn i).
  - intros i s Hs _. rewrite tryCreate_lookup. destruct (decide (active c i)) as [Ha|Ha].
    + destruct (si_active _ _ _ Hi i Ha) as [Hk ->]. rewrite Hs. simpl.
      rewrite decide_True; [done|]. split; [done|]. by eapply active_is_coord.
    + by rewrite (si_rest _ _ _ Hi i s Hs Ha).
Qed.

(** A coordinate that becomes active at [k]. *)
Lemma activate_inv input k c c' s :
  store_inv input k c -> input !! k = Some s -> is_coord s = true ->
  cs_signals c' = cs_signals c ->
  (forall i, active c' i <-> active c i \/ i = k) ->
  (forall i, lastLat c' = Some i -> lastLat c = Some i \/ (i = k /\ s_Name s = fieldCurrentLocationLatitude)) ->
  (forall i, lastLon c' = Some i -> lastLon c = Some i \/ (i = k /\ s_Name s = fieldCurrentLocationLongitude)) ->
  (forall i, lastHDOP c' = Some i -> lastHDOP c = Some i \/ (i = k /\ s_Name s = fieldDIMOAftermarketHDOP)) ->
  store_inv input (S k) c'.
Proof.
  intros Hi Hs Hc Es Ha H1 H2 H3.
  assert (~ active c k) as Hnk by (intros Hk; apply (si_active _ _ _ Hi) in Hk as [? _]; lia).
  assert (cs_signals c !! k = Some s) as Hk.
  { rewrite (si_rest _ _ _ Hi k s Hs Hnk). by rewrite decide_False by lia. }
  split; rewrite ?Es.
  - apply (si_len _ _ _ Hi).
  - intros i [Hl|[-> Hn]]%H1; [by apply (si_lat _ _ _ Hi) | eauto].
  - intros i [Hl|[-> Hn]]%H2; [by apply (si_lon _ _ _ Hi) | eauto].
  - intros i [Hl|[-> Hn]]%H3; [by apply (si_hdop _ _ _ Hi) | eauto].
  - intros i [Hai| ->]%Ha; [apply (si_active _ _ _ Hi) in Hai as [? ?]; split; [lia | done]|].
    split; [lia | by rewrite Hk, Hs].
  - intros i x Hx Hna. rewrite Ha in Hna.
    rewrite (si_rest _ _ _ Hi i x Hx) by tauto. f_equal.
    assert (i <> k) by tauto. apply decide_ext. split; intros [? ?]; split; try done; lia.
Qed.

Lemma other_inv input k c s :
  store_inv input k c -> input !! k = Some s -> is_coord s = false -> store_inv input (S k) c.
Proof.
  intros Hi Hs Hc. split; try apply Hi.
  - intros i Ha. apply (si_active _ _ _ Hi) in Ha as [? ?]. split; [lia | done].
  - intros i x Hx Hna. rewrite (si_rest _ _ _ Hi i x Hx Hna). f_equal.
    destruct (decide (i = k)) as [->|Hne].
    + simplify_eq. rewrite !decide_False; [done | by intros [_ ?]; congruence | by intros [_ ?]; congruence].
    + apply decide_ext. split; intros [? ?]; split; try done; lia.
Qed.

Lemma start_time_inv input k t c : store_inv input k c -> store_inv input k (start_time t c).
Proof. intros Hi. unfold start_time. destruct (IsZero _); [|done]. split; apply Hi. Qed.

(** The next signal is still as it was. *)
Lemma next_signal input k c s : store_inv input k c -> input !! k = Some s -> sig_at (cs_signals c) k = s.
Proof.
  intros Hi Hs. apply sig_at_lookup. rewrite (si_rest _ _ _ Hi k s Hs); [by rewrite decide_False by lia|].
  intros Ha. apply (si_active _ _ _ Hi) in Ha as [? _]. lia.
Qed.

Lemma processSignal_inv input k c :
  (k < length input)%nat -> store_inv input k c -> store_inv input (S k) (processSignal c k).
Proof.
  intros Hk Hi. destruct (lookup_lt_is_Some_2 input k Hk) as [s Hs].
  assert (sig_at (cs_signals c) k = s) as Hsig by (by eapply next_signal).
  unfold processSignal. rewrite Hsig. set (c1 := if _ && _ then _ else c).
  assert (store_inv input k c1) as Hi1 by (unfold c1; destruct (_ && _); [by apply tryCreate_inv | done]).
  clearbody c1. clear Hi Hsig c. pose proof (tryCreate_inactive c1) as Hni.
  assert (forall o : option nat, store_inv input k (if is_some o then tryCreateLocation c1 else c1)) as Hi2
    by (intros o; destruct (is_some o); [by apply tryCreate_inv | done]).
  destruct (String.eqb_spec (s_Name s) fieldCurrentLocationLatitude) as [En|N1];
    [|destruct (String.eqb_spec (s_Name s) fieldCurrentLocationLongitude) as [En|N2];
      [|destruct (String.eqb_spec (s_Name s) fieldDIMOAftermarketHDOP) as [En|N3]]].
  - apply start_time_inv.
    assert (lastLat (if is_some (lastLat c1) then tryCreateLocation c1 else c1) = None) as Hno.
    { destruct (lastLat c1) as [i|] eqn:E; simpl; [|done].
      destruct (lastLat (tryCreateLocation c1)) as [j|] eqn:E'; [|done]. destruct (Hni j). by left. }
    eapply (activate_inv _ _ _ _ s (Hi2 (lastLat c1)) Hs (lat_is_coord _ En)); try done.
    + intros i. unfold active. rewrite Hno. simpl. split; [intros [[= ->]|[?|?]] | intros [[?|[?|?]]| ->]]; auto; done.
    + intros i [= <-]. by right.
    + by left.
    + by left.
  - apply start_time_inv.
    assert (lastLon (if is_some (lastLon c1) then tryCreateLocation c1 else c1) = None) as Hno.
    { destruct (lastLon c1) as [i|] eqn:E; simpl; [|done].
      destruct (lastLon (tryCreateLocation c1)) as [j|] eqn:E'; [|done]. destruct (Hni j). by right; left. }
    eapply (activate_inv _ _ _ _ s (Hi2 (lastLon c1)) Hs (lon_is_coord _ En)); try done.
    + intros i. unfold active. rewrite Hno. simpl. split; [intros [?|[[= ->]|?]] | intros [[?|[?|?]]| ->]]; auto; done.
    + by left.
    + intros i [= <-]. by right.
    + by left.
  - apply start_time_inv.
    assert (lastHDOP (if is_some (lastHDOP c1) then tryCreateLocation c1 else c1) = None) as Hno.
    { destruct (lastHDOP c1) as [i|] eqn:E; simpl; [|done].
      destruct (lastHDOP (tryCreateLocation c1)) as [j|] eqn:E'; [|done]. destruct (Hni j). by right; right. }
    eapply (activate_inv _ _ _ _ s (Hi2 (lastHDOP c1)) Hs (hdop_is_coord _ En)); try done.
    + intros i. unfold active. rewrite Hno. simpl. split; [intros [?|[?|[= ->]]] | intros [[?|[?|?]]| ->]]; auto; done.
    + by left.
    + by left.
    + intros i [= <-]. by right.
  - eapply other_inv; [done..|]. unfold is_coord.
    apply String.eqb_neq in N1, N2, N3. by rewrite N1, N2, N3.
Qed.

Lemma new_store_inv input : store_inv input 0 (newCoordinateStore input).
Proof.
  split; simpl; try done. by intros i [?|[?|?]].
Qed.

Lemma fold_process_inv input n c :
  (n <= length input)%nat -> store_inv input 0 c -> store_inv input n (fold_left processSignal (seq 0 n) c).
Proof.
  induction n as [|n IH]; intros Hn Hc; [done|].
  rewrite seq_S, fold_left_app. simpl. apply processSignal_inv; [lia|]. apply IH; [lia | done].
Qed.

(** What remains of the input after the coordinates were consumed. *)
Definition keeps (s : Signal) : bool := negb (is_coord s) && negb (s_Name s =?s pruneSignalName).

Lemma dropPruned_store input c :
  store_inv input (length input) c -> (forall i, ~ active c i) ->
  dropPruned (cs_signals c) = List.filter keeps input.
Proof.
  intros Hi Hna.
  assert (Forall2 (fun s s' => s' = if is_coord s then set_Name pruneSignalName s else s) input (cs_signals c)) as Hf.
  { apply Forall2_same_length_lookup_2; [symmetry; apply Hi|]. intros i s s' Hs Hs'.
    rewrite (si_rest _ _ _ Hi i s Hs (Hna i)) in Hs'. injection Hs' as <-.
    apply lookup_lt_Some in Hs. destruct (is_coord s); [rewrite decide_True by done | rewrite decide_False by (by intros [_ ?])]; done. }
  clear Hi Hna. induction Hf as [|s s' input cs -> Hf IH]; [done|]. simpl. unfold keeps at 1.
  destruct (is_coord s); simpl; [apply IH|]. destruct (negb _); by rewrite IH.
Qed.
End CoordinateLemmas.

(** ** Lemmas: pruning *)

Section PruneLemmas.
Variables (skew now : Z).

Definition is_future (s : Signal) : bool := IsFutureTimestamp skew now (s_Timestamp s).
Definition dup_of_next (s : Signal) (rest : list Signal) : bool :=
  match rest with n :: _ => signalEqual s n | [] => false end.

(** The reference: what the pass keeps of a sorted slice. *)
Fixpoint kept (l : list Signal) : list Signal :=
  match l with
  | [] => []
  | s :: rest =>
      if is_future s || dup_of_next s rest || (s_Name s =?s pruneSignalName) then kept rest else s :: kept rest
  end.

Lemma dropPruned_pruneLoop l errs : dropPruned (pruneLoop skew now l errs).1 = kept l.
Proof.
  revert errs. induction l as [|s rest IH]; intros errs; simpl; [done|]. unfold is_future at 1.
  destruct (IsFutureTimestamp skew now (s_Timestamp s)); simpl.
  - set (e := errors_join _ _). specialize (IH e). by destruct (pruneLoop skew now rest e).
  - specialize (IH errs). destruct (pruneLoop skew now rest errs) as [r e']. simpl in *.
    change (match rest with [] => false | n :: _ => signalEqual s n end) with (dup_of_next s rest).
    destruct (dup_of_next s rest); simpl; [done|]. destruct (s_Name s =?s pruneSignalName); simpl; by rewrite IH.
Qed.

Lemma kept_sublist l : kept l `sublist_of` l.
Proof.
  induction l as [|s rest IH]; simpl; [done|]. destruct (_ || _); [by apply sublist_cons | by constructor].
Qed.

Lemma kept_not_future l : Forall (fun s => is_future s = false) (kept l).
Proof.
  induction l as [|s rest IH]; simpl; [constructor|]. destruct (is_future s) eqn:E; simpl; [done|].
  destruct (_ || _); [done | by constructor].
Qed.

(** The strict order: (timestamp, name) differ. *)
Definition sig_lt (a b : Signal) : Prop := sig_le a b /\ signalEqual a b = false.

Lemma signalEqual_key a b : signalEqual a b = true <-> s_Name a = s_Name b /\ s_Timestamp a = s_Timestamp b.
Proof. unfold signalEqual. rewrite andb_true_iff, String.eqb_eq, Z.eqb_eq. done. Qed.

Lemma sig_le_antisym a b : sig_le a b -> sig_le b a -> signalEqual a b = true.
Proof.
  intros [?|[Ht Hn]] [?|[Ht' Hn']]; try lia. apply signalEqual_key. split; [|done].
  by apply (anti_symm String.le).
Qed.

Lemma sig_le_key a b c : signalEqual b c = true -> sig_le a b -> sig_le a c.
Proof. intros [En Et]%signalEqual_key. unfold sig_le. by rewrite En, Et. Qed.

Lemma kept_sorted l : StronglySorted sig_le l -> StronglySorted sig_lt (kept l).
Proof.
  induction 1 as [|s rest Hrest IH Hall]; simpl; [constructor|].
  destruct (is_future s || dup_of_next s rest) eqn:E; [done|]. destruct (_ =?s _); [done|]. simpl.
  apply orb_false_iff in E as [_ Ed]. constructor; [done|].
  rewrite Forall_forall in Hall. apply Forall_forall. intros x Hx.
  assert (x ∈ rest) as Hin by (eapply elem_of_sublist; [exact Hx | apply kept_sublist]).
  split; [by apply Hall|]. destruct (signalEqual s x) eqn:Es; [|done]. exfalso.
  destruct rest as [|n rest']; [by apply elem_of_nil in Hin|]. simpl in Ed.
  apply elem_of_cons in Hin as [->|Hin]; [congruence|].
  inversion_clear Hrest as [|? ? _ Hn]. rewrite Forall_forall in Hn.
  assert (sig_le n s) as Hns.
  { eapply sig_le_key; [|by apply Hn]. apply signalEqual_key. by apply signalEqual_key in Es as [? ?]. }
  rewrite (sig_le_antisym s n) in Ed; [done| |done]. apply Hall. by left.
Qed.

Lemma kept_complete l s :
  s ∈ l -> is_future s = false -> s_Name s <> pruneSignalName ->
  exists s', s' ∈ kept l /\ signalEqual s s' = true.
Proof.
  induction l as [|x rest IH]; [by intros ?%elem_of_nil|]. intros Hin Hf Hn. simpl.
  apply elem_of_cons in Hin as [->|Hin].
  - rewrite Hf. simpl. apply String.eqb_neq in Hn as Hn'. rewrite Hn', orb_false_r.
    destruct (dup_of_next x rest) eqn:Ed.
    + destruct rest as [|n rest']; [done|]. simpl in Ed. apply signalEqual_key in Ed as [E1 E2].
      clear IH. assert (exists s', s' ∈ kept (n :: rest') /\ signalEqual x s' = true) as ?; [|done].
      revert n E1 E2. induction rest' as [|n' rest' IH]; intros n E1 E2; simpl.
      * assert (is_future n = false) as -> by (unfold is_future in *; by rewrite <- E2).
        rewrite <- E1, Hn'. simpl. exists n. split; [by left | by apply signalEqual_key].
      * assert (is_future n = false) as -> by (unfold is_future in *; by rewrite <- E2).
        rewrite <- E1, Hn'. simpl. rewrite orb_false_r. destruct (signalEqual n n') eqn:En.
        -- apply signalEqual_key in En as [? ?]. apply IH; congruence.
        -- exists n. split; [by left | by apply signalEqual_key].
    + exists x. split; [by left | by apply signalEqual_key].
  - destruct (IH Hin Hf Hn) as (s' & Hs' & He). exists s'. split; [|done].
    destruct (_ || _); [done | by right].
Qed.
End PruneLemmas.

(** ** Lemmas: grouping and subjects *)

Lemma groupBy_fold {A} (name : A -> string) (l : list A) : forall (m : gmap string (list A)) n,
  fold_left (fun m x => <[name x := default [] (m !! name x) ++ [x]]> m) l m !! n =
  match List.filter (fun x => name x =?s n) l with
  | [] => m !! n
  | g => Some (default [] (m !! n) ++ g)
  end.
Proof.
  induction l as [|x l IH]; intros m n; simpl; [done|]. rewrite IH.
  destruct (String.eqb_spec (name x) n) as [<-|Hne].
  - rewrite lookup_insert_eq. destruct (List.filter _ l); simpl; [done|]. by rewrite <- app_assoc.
  - by rewrite lookup_insert_ne.
Qed.

(** The group of a name: its elements, in order; no empty groups. *)
Lemma groupBy_lookup {A} (name : A -> string) (l : list A) n :
  groupBy name l !! n =
  match List.filter (fun x => name x =?s n) l with [] => None | g => Some g end.
Proof. unfold groupBy. rewrite groupBy_fold, lookup_empty. by destruct (List.filter _ l). Qed.

Lemma unsafe_replaced c : unsafe_byte (if unsafe_byte c then chr "_" else c) = false.
Proof. by destruct (unsafe_byte c) eqn:E. Qed.

Lemma replaceUnsafe_safe s : str_forall (fun c => negb (unsafe_byte c)) (replaceUnsafe s) = true.
Proof. induction s as [|c s IH]; simpl; [done|]. by rewrite unsafe_replaced, IH. Qed.

(** A sanitized name is one non-empty subject token. *)
Lemma sanitize_token s :
  sanitize s <> "" /\ str_forall (fun c => negb (unsafe_byte c)) (sanitize s) = true.
Proof.
  unfold sanitize. destruct (String.eqb_spec s "") as [->|Hne]; [done|].
  split; [by destruct s | apply replaceUnsafe_safe].
Qed.

(** ** What the decoded streams promise *)

(** The decoded streams drop their oldest messages at their limits and drop a message
    whose Nats-Msg-Id they have seen within the duplicate window. So what an ack gives is
    that the message was stored, then or before, itself or under its id ([taken]); it may
    have been dropped since. A future stands for the message it was returned for. *)
Class DecodedStreamLaws (J : JetStreamPublish) := {
  sent_msg : future -> Msg;
  taken : wal -> Msg -> Prop;
  submit_sent js m js' f : PublishMsgAsync js m = (js', Ok f) -> sent_msg f = m;
  ack_taken js f js' : AwaitFuture js f = (js', AckOk) -> taken js' (sent_msg f);
  submit_keeps_taken js m m' : taken js m' -> taken (PublishMsgAsync js m).1 m';
  await_keeps_taken js f m' : taken js m' -> taken (AwaitFuture js f).1 m'
}.

(** ** Lemmas: a batch *)

Section BatchLemmas.
Context `{CloudEventLib} `{NatsHeaderLib} `{J : JetStreamPublish} `{D : DecodeLib} `{L : !DecodedStreamLaws J}.
Variables (cfg : BridgeConfig) (skew now : Z).

Definition publication : Type := string * result string * string.

(** The publications of grouped elements. *)
Definition group_pubs {A} (prefix key : string) (pack : list A -> result string)
    (groups : list (string * list A)) : list publication :=
  (fun g => (prefix +:+ "." +:+ sanitize g.1, pack g.2, dedupID key g.1)) <$> groups.

Definition decoded_signals (raw : RawEvent) : list Signal :=
  let signals := salvage (ConvertToSignals (Source raw) raw) in
  if Zlen signals =? 0 then []
  else (handleCoordinates (pruneFutureAndDuplicateSignals skew now signals).1).1.

(** What the bridge must publish for a message: one packed message per name. *)
Definition publications (msg : JMsg) : list publication :=
  match ParseMsg (jm_Headers msg) (jm_Data msg) with
  | Err _ => []
  | Ok event =>
      if CEType event =?s TypeStatus then
        if isVehicleSignalMessage cfg event then
          group_pubs signalSubjectPrefix (HeaderKey event) (MarshalSignals (decodedHeader event TypeSignals))
            (map_to_list (groupSignalsByName (decoded_signals event)))
        else []
      else if CEType event =?s TypeEvents then
        group_pubs eventSubjectPrefix (HeaderKey event) (MarshalEvents (decodedHeader event TypeEvents))
          (map_to_list (groupBy e_Name (salvage (ConvertToEvents (Source event) event))))
      else []
  end.

(** The future of a publication, and the publication in the stream. *)
Definition pub_msg (p : publication) (body : string) : Msg := mkMsg p.1.1 body {[ MsgIdHdr := [p.2] ]}.
Definition carries_pub (p : publication) (f : future) : Prop :=
  exists body, p.1.2 = Ok body /\ sent_msg f = pub_msg p body.
Definition published (js : wal) (p : publication) : Prop :=
  exists body, p.1.2 = Ok body /\ taken js (pub_msg p body).

Lemma errors_join_Some_r a e : errors_join a (Some e) <> None.
Proof. by destruct a. Qed.

Lemma submitGroups_ok {A} prefix key (pack : list A -> result string) groups : forall js futs errs js' futs',
  submitGroups js prefix key pack groups futs errs = (js', futs', None) ->
  errs = None /\ exists fs, futs' = futs ++ fs /\ Forall2 carries_pub (group_pubs prefix key pack groups) fs.
Proof.
  induction groups as [|[name g] groups IH]; intros js futs errs js' futs'; simpl.
  { intros [= _ <- ->]. split; [done|]. exists []. rewrite app_nil_r. by split; [|constructor]. }
  unfold publishJSONAsync. destruct (pack g) as [body|e] eqn:Ep.
  - destruct (PublishMsgAsync js _) as [js1 [fut|e]] eqn:Epub.
    + intros (-> & fs & -> & Hf)%IH. split; [done|]. exists (fut :: fs). rewrite <- app_assoc.
      split; [done|]. constructor; [|done]. exists body. split; [done|]. by eapply submit_sent.
    + intros (He & _)%IH. by apply errors_join_Some_r in He.
  - intros (He & _)%IH. by apply errors_join_Some_r in He.
Qed.

Lemma Zlen_nil {A} (l : list A) : (Zlen l =? 0) = true -> l = [].
Proof. intros Hl%Z.eqb_eq. unfold Zlen in Hl. destruct l; simpl in Hl; [done | lia]. Qed.

Lemma decodeAndSubmit_ok js msg js' o :
  decodeAndSubmit cfg skew now js msg = (js', o) ->
  o_msg o = msg /\ (o_submitErr o = None -> Forall2 carries_pub (publications msg) (o_futures o)).
Proof.
  unfold decodeAndSubmit, publications. destruct (ParseMsg _ _) as [ev|e]; [|intros [= _ <-]; by split; [|constructor]].
  destruct (CEType ev =?s TypeStatus).
  - destruct (isVehicleSignalMessage cfg ev); [|intros [= _ <-]; by split; [|constructor]].
    unfold submitSignals, decoded_signals. set (l := salvage _).
    destruct (Zlen l =? 0); [intros [= _ <-]; by split; [|constructor]|].
    destruct (pruneFutureAndDuplicateSignals skew now l) as [l1 e1]. simpl.
    destruct (handleCoordinates l1) as [l2 e2]. simpl.
    destruct (Zlen l2 =? 0) eqn:E2.
    { intros [= _ <-]. split; [done|]. intros _. apply Zlen_nil in E2 as ->. constructor. }
    destruct (submitGroups _ _ _ _ _ [] None) as [[js1 fs] er] eqn:Es. intros [= _ <-]. split; [done|].
    simpl. intros ->. by apply submitGroups_ok in Es as (_ & fs' & -> & Hf).
  - destruct (CEType ev =?s TypeEvents); [|intros [= _ <-]; by split; [|constructor]].
    unfold submitEvents. set (l := salvage _).
    destruct (Zlen l =? 0) eqn:E2.
    { intros [= _ <-]. split; [done|]. intros _. apply Zlen_nil in E2 as ->. constructor. }
    destruct (submitGroups _ _ _ _ _ [] None) as [[js1 fs] er] eqn:Es. intros [= _ <-]. split; [done|].
    simpl. intros ->. by apply submitGroups_ok in Es as (_ & fs' & -> & Hf).
Qed.

Lemma awaitFutures_keeps futs : forall js errs m,
  taken js m -> taken (awaitFutures js futs errs).1 m.
Proof.
  induction futs as [|f futs IH]; intros js errs m Hm; simpl; [done|].
  pose proof (await_keeps_taken js f m Hm) as Hk. destruct (AwaitFuture js f) as [js1 []]; simpl in *; auto.
Qed.

Lemma awaitFutures_ok futs : forall js errs js',
  awaitFutures js futs errs = (js', None) ->
  errs = None /\ Forall (fun f => taken js' (sent_msg f)) futs.
Proof.
  induction futs as [|f futs IH]; intros js errs js'; simpl; [by intros [= _ ->]|].
  destruct (AwaitFuture js f) as [js1 o] eqn:Ea. destruct o; [| |done].
  - intros Hw. destruct (IH _ _ _ Hw) as [-> Hf]. split; [done|]. constructor; [|done].
    pose proof (awaitFutures_keeps futs js1 None (sent_msg f) (ack_taken _ _ _ Ea)) as Hk.
    by rewrite Hw in Hk.
  - intros [He _]%IH. by apply errors_join_Some_r in He.
Qed.

Lemma finish_ok js o js' v :
  finish js o = (js', v) ->
  (forall m, taken js m -> taken js' m) /\
  ((v = VNak (o_msg o)) \/
   (v = VAck (o_msg o) /\ o_submitErr o = None /\ Forall (fun f => taken js' (sent_msg f)) (o_futures o))).
Proof.
  unfold finish. destruct (awaitFutures js (o_futures o) None) as [js1 err] eqn:Ea.
  assert (forall m, taken js m -> taken js1 m) as Hk.
  { intros m Hm. pose proof (awaitFutures_keeps (o_futures o) js None m Hm) as Hk. by rewrite Ea in Hk. }
  destruct (errors_join (o_submitErr o) err) eqn:Ej; intros [= <- <-]; (split; [done|]); [by left | right].
  apply errors_join_None in Ej as [-> ->]. apply awaitFutures_ok in Ea as [_ Hf]. done.
Qed.

(** The verdict of one message in the final stream. *)
Definition verdict_ok (js : wal) (m : JMsg) (v : verdict) : Prop :=
  v = VNak m \/ (v = VAck m /\ Forall (published js) (publications m)).

Lemma finishBatch_ok os : forall js js' vs,
  finishBatch js os = (js', vs) ->
  (forall m, taken js m -> taken js' m) /\
  Forall2 (fun o v => v = VNak (o_msg o) \/ (v = VAck (o_msg o) /\ o_submitErr o = None /\
             Forall (fun f => taken js' (sent_msg f)) (o_futures o))) os vs.
Proof.
  induction os as [|o os IH]; intros js js' vs; simpl; [intros [= <- <-]; by split; [|constructor]|].
  destruct (finish js o) as [js1 v] eqn:Ef. destruct (finishBatch js1 os) as [js2 vs'] eqn:Eb.
  intros [= <- <-]. destruct (finish_ok _ _ _ _ Ef) as [Hk1 Hv]. destruct (IH _ _ _ Eb) as [Hk2 Hvs].
  split; [auto|]. constructor; [|done].
  destruct Hv as [?|(? & ? & Hf)]; [by left | right]. split; [done|]. split; [done|].
  eapply Forall_impl; [exact Hf|]. auto.
Qed.

Lemma submitBatch_ok msgs : forall js js' os,
  submitBatch cfg skew now js msgs = (js', os) ->
  Forall2 (fun m o => o_msg o = m /\
    (o_submitErr o = None -> Forall2 carries_pub (publications m) (o_futures o))) msgs os.
Proof.
  induction msgs as [|m msgs IH]; intros js js' os; simpl; [intros [= _ <-]; constructor|].
  destruct (decodeAndSubmit cfg skew now js m) as [js1 o] eqn:Ed.
  destruct (submitBatch cfg skew now js1 msgs) as [js2 os'] eqn:Eb. intros [= _ <-].
  constructor; [by eapply decodeAndSubmit_ok | by eapply IH].
Qed.

Lemma carries_published js ps fs :
  Forall2 carries_pub ps fs -> Forall (fun f => taken js (sent_msg f)) fs -> Forall (published js) ps.
Proof.
  induction 1 as [|p f ps fs (body & Hb & Hf) _ IH]; [constructor|].
  intros [Hs Hfs]%Forall_cons. constructor; [|auto]. exists body. split; [done|]. by rewrite <- Hf.
Qed.

Lemma handleBatch_ok js msgs js' vs :
  handleBatch cfg skew now js msgs = (js', vs) -> Forall2 (verdict_ok js') msgs vs.
Proof.
  unfold handleBatch. destruct (submitBatch cfg skew now js msgs) as [js1 os] eqn:Es. intros Hf.
  apply submitBatch_ok in Es. apply finishBatch_ok in Hf as [_ Hf].
  revert vs Hf. induction Es as [|m o msgs os [Hm Hc] _ IH]; intros vs Hf.
  - inversion Hf. constructor.
  - inversion_clear Hf as [|? v ? vs' Hv Hvs]. constructor; [|auto]. rewrite Hm in Hv.
    destruct Hv as [?|(? & Hn & Hfs)]; [by left | right]. split; [done|].
    eapply carries_published; [by apply Hc | done].
Qed.
End BatchLemmas.

(** ** Properties *)

(** Pruning keeps, of the decoded signals, exactly one per name and
    timestamp, in strict time order, none of them in the future beyond the
    allowed skew; no other signal is lost. *)
Theorem prune_spec `{D : DecodeLib} `{!SortLaws D} skew now signals :
  let out := (pruneFutureAndDuplicateSignals skew now signals).1 in
  StronglySorted sig_lt out /\ Forall (fun s => s ∈ signals /\ s_Timestamp s <= now + skew) out /\
  forall s, s ∈ signals -> s_Timestamp s <= now + skew -> s_Name s <> pruneSignalName ->
    exists s', s' ∈ out /\ signalEqual s s' = true.
Proof.
  cbv zeta. unfold pruneFutureAndDuplicateSignals.
  pose proof (dropPruned_pruneLoop skew now (SortSignals signals) None) as Hk.
  destruct (pruneLoop skew now (SortSignals signals) None) as [l errs]. simpl in *. rewrite Hk.
  split; [apply kept_sorted, sort_sorted|]. split.
  - pose proof (kept_not_future skew now (SortSignals signals)) as Hf. rewrite Forall_forall in Hf.
    apply Forall_forall. intros s Hs. split.
    + rewrite <- (sort_perm signals). eapply elem_of_sublist; [exact Hs | apply kept_sublist].
    + specialize (Hf s Hs). unfold is_future, IsFutureTimestamp in Hf. bool_to_prop. lia.
  - intros s Hs Ht Hn. apply kept_complete; [by rewrite sort_perm| |done].
    unfold is_future, IsFutureTimestamp. apply Z.ltb_ge. lia.
Qed.

(** The bridge acks a raw message only when the decoded streams have taken every
    message it decodes to (one per signal or event name, under its deduplication
    id); a message with a failed publish is nak'd for redelivery. *)
Theorem handleBatch_acks `{CloudEventLib} `{NatsHeaderLib} `{J : JetStreamPublish} `{D : DecodeLib}
    `{L : !DecodedStreamLaws J} cfg skew now js msgs js' vs :
  handleBatch cfg skew now js msgs = (js', vs) ->
  Forall2 (fun m v => v = VNak m \/
    (v = VAck m /\ Forall (published js') (publications cfg skew now m))) msgs vs.
Proof. intros Hb. apply handleBatch_ok in Hb. exact Hb. Qed.

(** ** Instances for the witnesses *)

#[export] Instance sig_le_dec : RelDecision sig_le.
Proof. intros a b. unfold sig_le. apply _. Defined.
#[export] Instance sig_le_total : Total sig_le.
Proof.
  intros a b. unfold sig_le. destruct (Z.lt_total (s_Timestamp a) (s_Timestamp b)) as [?|[E|?]]; auto.
  destruct (total String.le (s_Name a) (s_Name b)); auto.
Qed.
#[export] Instance sig_le_trans : Transitive sig_le.
Proof.
  intros a b c [?|[? ?]] [?|[? ?]]; unfold sig_le; try (left; lia). right. split; [lia|]. by etrans.
Qed.

(** A decoder of latitude/longitude pairs. *)
Definition sample_signal (t : Z) (name : string) (v : Q) : Signal :=
  mkSignal zeroHeader t name (Fin v) zeroLocation "".
Definition sample_signals : list Signal :=
  [sample_signal 7 "speed" 50; sample_signal 5 fieldCurrentLocationLatitude 48;
   sample_signal 6 fieldCurrentLocationLongitude 11; sample_signal 7 "speed" 51].

Definition sample_decoder : DecodeLib := {|
  ConvertToSignals src raw := mkConversion sample_signals None;
  ConvertToEvents src raw := mkConversion [] None;
  MarshalSignals h l := Ok (Join (s_Name <$> l) ",");
  MarshalEvents h l := Ok (Join (e_Name <$> l) ",");
  FieldCurrentLocationCoordinates := "currentLocationCoordinates";
  SortSignals := merge_sort sig_le
|}.
#[export] Instance sample_sort : SortLaws sample_decoder.
Proof. split; intros l; [apply merge_sort_Permutation | apply StronglySorted_merge_sort; apply _]. Qed.

Definition bridge_cfg : BridgeConfig :=
  mkBridge 137 (TrimPrefix (Subject sample_header) "did:erc721:") 1 4 0 0.
Definition bridge_msg : JMsg :=
  mkJMsg 1 (msg_Header (@buildMsg sample_lib map_headers 4 sample_stored "local-1|42")) "local-1|42" (Ok 1).

Lemma prune_spec_witness :
  StronglySorted sig_lt (@pruneFutureAndDuplicateSignals sample_decoder 300 9 sample_signals).1.
Proof. exact (proj1 (@prune_spec sample_decoder sample_sort 300 9 sample_signals)). Defined.

(** A broker with one decoded stream that keeps its last message and remembers the ids of
    all. *)
Definition msg_id (m : Msg) : list string := default [] (msg_Header m !! MsgIdHdr).
Record decodedStream := mkDecoded { d_stored : list Msg; d_kept : list Msg }.
Definition seen_id (st : decodedStream) (m : Msg) : bool := existsb (fun m' => bool_decide (msg_id m' = msg_id m)) (d_stored st).
Definition decoded_js : JetStreamPublish := {|
  wal := decodedStream;
  future := Msg;
  PublishMsgAsync st m := (if seen_id st m then st else mkDecoded (d_stored st ++ [m]) [m], Ok m);
  AwaitFuture st m := (st, if seen_id st m then AckOk else AckErr (ENew "no stream"))
|}.
#[export] Instance decoded_js_laws : DecodedStreamLaws decoded_js.
Proof.
  refine {| sent_msg := fun f : @future decoded_js => (f : Msg);
            taken := fun (st : @wal decoded_js) m => seen_id st m = true |}.
  - by intros st m st' f [= _ <-].
  - intros st f st'. simpl. destruct (seen_id st f) eqn:E; [|done]. by intros [= <-].
  - intros st m m' Hm. simpl. destruct (seen_id st m); [done|]. unfold seen_id in *. simpl. by rewrite existsb_app, Hm.
  - by intros st f m' Hm.
Defined.

Definition bridge_run : decodedStream * list verdict :=
  @handleBatch sample_lib map_headers decoded_js sample_decoder bridge_cfg 300 9 (mkDecoded [] []) [bridge_msg].

Lemma handleBatch_acks_witness :
  Forall2 (fun m v => v = VNak m \/ (v = VAck m /\
      Forall (@published decoded_js decoded_js_laws bridge_run.1)
        (@publications sample_lib map_headers sample_decoder bridge_cfg 300 9 m)))
    [bridge_msg] bridge_run.2.
Proof.
  apply (@handleBatch_acks sample_lib map_headers decoded_js sample_decoder decoded_js_laws bridge_cfg 300 9
           (mkDecoded [] [] : @wal decoded_js) [bridge_msg] bridge_run.1 bridge_run.2).
  vm_compute. reflexivity.
Defined.
