(* ===== verification/Coordinates.v ===== *)
(** * Package decodestream: the locations made of coordinates

    internal/decodestream/location.go against a reference that knows no indices and no
    renaming: the coordinates in time order are cut into triples ([triples]), and a triple
    with a usable position gives one location ([locations]). *)

From S2P Require Import Prelude GoStd Sha256 CloudEvent Stream Publisher Convert Sink Decode.
From Stdlib Require Import QArith.
#[local] Open Scope Z_scope.

Section Locations.
Context `{D : DecodeLib}.

(** ** The reference *)

(** The reference: the coordinates in time order, cut into triples. One joins the triple
    under construction unless the triple has one of its name already or began 500 ms or
    more before it (a triple begins at its first coordinate with a timestamp). *)
Definition named (name : string) (g : list Signal) : option Signal := List.find (fun s => s_Name s =?s name) g.
Definition triple_start (g : list Signal) : Z :=
  match List.find (fun s => negb (IsZero (s_Timestamp s))) g with Some s => s_Timestamp s | None => zeroTime end.
Definition joins (g : list Signal) (s : Signal) : bool :=
  negb (is_some (named (s_Name s) g)) &&
  (IsZero (triple_start g) || (s_Timestamp s - triple_start g <? 500 * Millisecond)).
Definition regroup (acc : list (list Signal) * list Signal) (s : Signal) : list (list Signal) * list Signal :=
  if negb (is_coord s) then acc
  else if joins acc.2 s then (acc.1, acc.2 ++ [s]) else (acc.1 ++ [acc.2], [s]).
Definition triples (l : list Signal) : list (list Signal) :=
  let '(done, cur) := fold_left regroup l ([], []) in done ++ [cur].

(** A WGS-84 position other than the null island. *)
Definition usable (lat lon : f64) : Prop :=
  exists a b : Q, lat = Fin a /\ lon = Fin b /\ (-90 <= a <= 90)%Q /\ (-180 <= b <= 180)%Q /\ ~ (a == 0 /\ b == 0)%Q.

Lemma validLatLon_usable lat lon : validLatLon lat lon = true <-> usable lat lon.
Proof.
  unfold validLatLon, usable, Qle_b. split.
  - destruct lat as [|n|a], lon as [|n'|b]; try done. destruct (Qeq_bool a 0 && Qeq_bool b 0) eqn:E0; [done|].
    rewrite !andb_true_iff, !Qle_bool_iff. intros [[[? ?] ?] ?]. exists a, b. split_and!; try done.
    intros [Ha%Qeq_bool_iff Hb%Qeq_bool_iff]. by rewrite Ha, Hb in E0.
  - intros (a & b & -> & -> & [? ?] & [? ?] & Hn). destruct (Qeq_bool a 0 && Qeq_bool b 0) eqn:E0.
    + apply andb_true_iff in E0 as [Ha%Qeq_bool_iff Hb%Qeq_bool_iff]. by destruct Hn.
    + by rewrite !andb_true_iff, !Qle_bool_iff.
Qed.

(** The location of a triple with a latitude and a longitude: under the header of the
    latitude, at the start of the triple, with the HDOP if there is one. *)
Definition locationOf (g : list Signal) (la lo : Signal) : Signal :=
  mkSignal (s_header la) (triple_start g) FieldCurrentLocationCoordinates (Fin 0)
    (mkLocation (s_ValueNumber la) (s_ValueNumber lo)
       (match named fieldDIMOAftermarketHDOP g with Some h => s_ValueNumber h | None => Fin 0 end))
    (s_CloudEventID la).

(** The locations of a list of triples: one for each with a usable position. *)
Inductive locations : list (list Signal) -> list Signal -> Prop :=
| locations_nil : locations [] []
| locations_make g gs la lo out :
    named fieldCurrentLocationLatitude g = Some la -> named fieldCurrentLocationLongitude g = Some lo ->
    usable (s_ValueNumber la) (s_ValueNumber lo) -> locations gs out -> locations (g :: gs) (locationOf g la lo :: out)
| locations_skip g gs out :
    (forall la lo, named fieldCurrentLocationLatitude g = Some la -> named fieldCurrentLocationLongitude g = Some lo ->
       ~ usable (s_ValueNumber la) (s_ValueNumber lo)) ->
    locations gs out -> locations (g :: gs) out.

Lemma locations_app gs gs' out out' : locations gs out -> locations gs' out' -> locations (gs ++ gs') (out ++ out').
Proof.
  induction 1 as [|g gs la lo out H1 H2 H3 H4 IH|g gs out Hn H4 IH]; intros Hg; simpl; [done| |].
  - apply locations_make; auto.
  - apply locations_skip; auto.
Qed.

Lemma locations_drop_nil gs out : locations (gs ++ [[]]) out -> locations gs out.
Proof.
  revert out. induction gs as [|g gs IH]; intros out Hl; simpl in *; inversion Hl; subst; try done.
  - apply locations_make; auto.
  - apply locations_skip; auto.
Qed.

(** ** The store against the reference *)

Definition lookup_in (input : list Signal) (i : nat) : option Signal := input !! i.

(** The store holds the triple [cur] under construction and has made the locations of
    the triples [done]. *)
Record holds (input : list Signal) (c : coordinateStore) (done : list (list Signal)) (cur : list Signal) : Prop := {
  h_lat : lastLat c ≫= lookup_in input = named fieldCurrentLocationLatitude cur;
  h_lon : lastLon c ≫= lookup_in input = named fieldCurrentLocationLongitude cur;
  h_hdop : lastHDOP c ≫= lookup_in input = named fieldDIMOAftermarketHDOP cur;
  h_time : lastTime c = triple_start cur;
  h_created : locations done (created c)
}.

Lemma held_active input k c i (o : option nat) : store_inv input k c -> o = Some i -> active c i ->
  exists s, o ≫= lookup_in input = Some s /\ sig_at (cs_signals c) i = s.
Proof.
  intros Hi -> Ha. destruct (si_active _ _ _ Hi i Ha) as [_ E]. unfold lookup_in. simpl.
  destruct (input !! i) as [s|] eqn:Es.
  - exists s. split; [done|]. apply sig_at_lookup. congruence.
  - destruct Ha as [Ha|[Ha|Ha]]; [destruct (si_lat _ _ _ Hi i Ha) as (? & ? & _)|destruct (si_lon _ _ _ Hi i Ha) as (? & ? & _)
      |destruct (si_hdop _ _ _ Hi i Ha) as (? & ? & _)]; congruence.
Qed.

(** Renaming a signal leaves its value. *)
Lemma prune_value o l i : s_ValueNumber (sig_at (prune_at o l) i) = s_ValueNumber (sig_at l i).
Proof.
  destruct o as [j|]; [|done]. simpl. unfold sig_at. rewrite !nth_lookup. destruct (decide (j = i)) as [->|Hne].
  - rewrite list_lookup_alter_eq. by destruct (l !! i).
  - by rewrite list_lookup_alter_ne.
Qed.

Lemma holds_pick input k c (o : option nat) name cur :
  store_inv input k c -> (forall i, o = Some i -> active c i) -> o ≫= lookup_in input = named name cur ->
  match o with
  | Some i => named name cur = Some (sig_at (cs_signals c) i)
  | None => named name cur = None
  end.
Proof.
  intros Hi Ha Hn. destruct o as [i|]; [|done].
  destruct (held_active input k c i (Some i) Hi eq_refl (Ha i eq_refl)) as (s & Hs & <-). by rewrite <- Hn.
Qed.

(** Closing the triple makes its location, if it has one. *)
Lemma tryCreate_holds input k c done cur :
  store_inv input k c -> holds input c done cur -> holds input (tryCreateLocation c) (done ++ [cur]) [].
Proof.
  intros Hi [Ha Ho Hh Ht Hc].
  apply (holds_pick input k c) in Ha; [|done|intros i E; by left].
  apply (holds_pick input k c) in Ho; [|done|intros i E; by right; left].
  apply (holds_pick input k c) in Hh; [|done|intros i E; by right; right].
  assert (locations [cur] (drop (length (created c)) (created (tryCreateLocation c))) /\
          created (tryCreateLocation c) = created c ++ drop (length (created c)) (created (tryCreateLocation c))) as [Hl He].
  { unfold tryCreateLocation. destruct (lastLat c) as [la|] eqn:Ela, (lastLon c) as [lo|] eqn:Elo; cbn zeta beta iota;
      [destruct (negb _) eqn:Ev|..]; simpl.
    1,3,4,5: rewrite drop_all, app_nil_r; (split; [|done]); (apply locations_skip; [|constructor]).
    - rewrite Ha, Ho. intros ? ? [= <-] [= <-] Hu%validLatLon_usable. by rewrite Hu in Ev.
    - rewrite Ho. done.
    - rewrite Ha. done.
    - rewrite Ha. done.
    - rewrite drop_app_length. split; [|done]. apply negb_false_iff, validLatLon_usable in Ev.
      match goal with |- locations _ [?x] => replace x with (locationOf cur (sig_at (cs_signals c) la) (sig_at (cs_signals c) lo)) end.
      + apply locations_make; [done..|constructor].
      + unfold locationOf, template. rewrite Ela, <- Ht. f_equal. f_equal.
        destruct (lastHDOP c) as [h|]; rewrite Hh; [|done]. symmetry.
        exact (eq_trans (prune_value (Some lo) _ h) (prune_value (Some la) _ h)). }
  pose proof (tryCreate_inactive c) as Hna. split.
  - destruct (lastLat (tryCreateLocation c)) as [i|] eqn:E; [|done]. destruct (Hna i). by left.
  - destruct (lastLon (tryCreateLocation c)) as [i|] eqn:E; [|done]. destruct (Hna i). by right; left.
  - destruct (lastHDOP (tryCreateLocation c)) as [i|] eqn:E; [|done]. destruct (Hna i). by right; right.
  - unfold tryCreateLocation. destruct (lastLat c), (lastLon c); simpl; try done. by destruct (negb _).
  - rewrite He. by apply locations_app.
Qed.

Lemma named_snoc name g s :
  named name (g ++ [s]) = match named name g with Some x => Some x | None => if s_Name s =?s name then Some s else None end.
Proof. unfold named. induction g as [|x g IH]; simpl; [done|]. by destruct (s_Name x =?s name). Qed.
Lemma start_snoc g s :
  triple_start (g ++ [s]) = if IsZero (triple_start g) then s_Timestamp s else triple_start g.
Proof.
  unfold triple_start. induction g as [|x g IH]; simpl.
  - unfold IsZero. destruct (Z.eqb_spec (s_Timestamp s) zeroTime); simpl; [by rewrite e|done].
  - destruct (IsZero (s_Timestamp x)) eqn:E; simpl; [exact IH|]. by rewrite E.
Qed.

(** The three kinds of coordinate, and the field of the store each is kept in. *)
Inductive slot := SLat | SLon | SHDOP.
Definition slot_eqb (j k : slot) : bool := match j, k with SLat, SLat | SLon, SLon | SHDOP, SHDOP => true | _, _ => false end.
Definition slot_name (k : slot) : string :=
  match k with SLat => fieldCurrentLocationLatitude | SLon => fieldCurrentLocationLongitude | SHDOP => fieldDIMOAftermarketHDOP end.
Definition slot_get (k : slot) (c : coordinateStore) : option nat :=
  match k with SLat => lastLat c | SLon => lastLon c | SHDOP => lastHDOP c end.
Definition slot_set (k : slot) (i : nat) (c : coordinateStore) : coordinateStore :=
  match k with SLat => set_lat i c | SLon => set_lon i c | SHDOP => set_hdop i c end.

Lemma holds_slot input c done cur k : holds input c done cur -> slot_get k c ≫= lookup_in input = named (slot_name k) cur.
Proof. intros [H1 H2 H3 _ _]. by destruct k. Qed.

(** A coordinate that joins the triple. *)
Lemma set_holds input c done cur k i s :
  holds input c done cur -> input !! i = Some s -> s_Name s = slot_name k -> named (slot_name k) cur = None ->
  holds input (start_time (s_Timestamp s) (slot_set k i c)) done (cur ++ [s]).
Proof.
  intros [H1 H2 H3 Ht Hc] Hs Hn Hno.
  assert (forall j, named (slot_name j) (cur ++ [s]) =
            if slot_eqb j k then Some s else named (slot_name j) cur) as Hj.
  { intros j. rewrite named_snoc, Hn. destruct j, k; cbn [slot_eqb slot_name] in *; rewrite ?Hno; try done;
    match goal with |- context [named ?n cur] => destruct (named n cur) end; done. }
  pose proof (Hj SLat) as J1. pose proof (Hj SLon) as J2. pose proof (Hj SHDOP) as J3. simpl in J1, J2, J3. clear Hj Hn Hno.
  unfold start_time. assert (lastTime (slot_set k i c) = lastTime c) as -> by (by destruct k).
  split; rewrite ?J1, ?J2, ?J3, ?start_snoc, <- ?Ht.
  1-3: by destruct k, (IsZero (lastTime c)); simpl; unfold lookup_in in *; rewrite ?Hs; simpl.
  - destruct (IsZero (lastTime c)); simpl; [done|by destruct k].
  - destruct (IsZero (lastTime c)), k; exact Hc.
Qed.

(** The reference after some signals, and the store: in step, or the store has already
    closed the triple, which none of the signals to come would have joined. *)
Definition in_step (input : list Signal) (k : nat) (c : coordinateStore) (acc : list (list Signal) * list Signal) : Prop :=
  holds input c acc.1 acc.2 \/
  (holds input c (acc.1 ++ [acc.2]) [] /\ IsZero (triple_start acc.2) = false /\
   forall i s, (k <= i)%nat -> input !! i = Some s -> triple_start acc.2 + 500 * Millisecond <= s_Timestamp s).

Lemma sorted_later (input : list Signal) : StronglySorted sig_le input -> forall i j a b,
  (i <= j)%nat -> input !! i = Some a -> input !! j = Some b -> s_Timestamp a <= s_Timestamp b.
Proof.
  induction 1 as [|x l _ IH Hx]; intros [|i] [|j] a b Hij Ha Hb; simpl in *; simplify_eq; try lia.
  - rewrite Forall_forall in Hx. destruct (Hx b) as [?|[? _]]; [by eapply list_elem_of_lookup_2|lia|lia].
  - eapply (IH i j); [lia|done|done].
Qed.

Lemma holds_inactive input c done : holds input c done [] -> forall k, slot_get k c ≫= lookup_in input = None.
Proof. intros Hh k. by rewrite (holds_slot _ _ _ _ k Hh). Qed.

(** A coordinate of kind [k] at place [i], after the test for the gap. *)
Lemma slot_step input i c acc k s :
  store_inv input i c -> in_step input i c acc -> input !! i = Some s -> s_Name s = slot_name k ->
  IsZero (lastTime c) || (s_Timestamp s - lastTime c <? 500 * Millisecond) = true ->
  in_step input (S i) (start_time (s_Timestamp s) (slot_set k i (if is_some (slot_get k c) then tryCreateLocation c else c)))
    (regroup acc s).
Proof.
  intros Hi Hst Hs Hn Hgap. left. destruct acc as [dn cur]. unfold regroup.
  assert (is_coord s = true) as -> by (destruct k; auto using lat_is_coord, lon_is_coord, hdop_is_coord). simpl negb. cbv iota.
  destruct Hst as [Hh|(Hh & Hz & Hlate)]; simpl in *.
  - assert (joins cur s = negb (is_some (slot_get k c))) as ->.
    { unfold joins. rewrite <- (h_time _ _ _ _ Hh), Hgap, andb_true_r, Hn, <- (holds_slot _ _ _ _ k Hh). f_equal.
      destruct (slot_get k c) as [j|] eqn:Ek; [|done].
      destruct (held_active input i c j (Some j) Hi eq_refl) as (s' & -> & _); [destruct k; unfold active; auto|done]. }
    destruct (is_some (slot_get k c)) eqn:Ek; simpl.
    + apply (set_holds input _ (dn ++ [cur]) [] k i s); [by eapply tryCreate_holds|done..].
    + apply set_holds; [done..|]. rewrite <- (holds_slot _ _ _ _ k Hh). by destruct (slot_get k c).
  - assert (joins cur s = false) as ->.
    { unfold joins. rewrite Hz. apply andb_false_iff. right. apply Z.ltb_ge. pose proof (Hlate i s (le_n _) Hs). lia. }
    assert (is_some (slot_get k c) = false) as ->.
    { destruct (slot_get k c) as [j|] eqn:Ek; [|done]. pose proof (holds_inactive _ _ _ Hh k) as Hno. rewrite Ek in Hno.
      destruct (held_active input i c j (Some j) Hi eq_refl) as (s' & E & _); [destruct k; unfold active; auto|congruence]. }
    by apply (set_holds input _ (dn ++ [cur]) [] k i s).
Qed.

Lemma in_step_later input i c acc : in_step input i c acc -> in_step input (S i) c acc.
Proof.
  intros [Hh|(Hh & Hz & Hl)]; [by left|right]. split_and!; [done|done|]. intros j s Hj. apply Hl. lia.
Qed.

(** The test for the gap closes a triple no later signal can join. *)
Lemma gap_step input i c acc s :
  StronglySorted sig_le input -> store_inv input i c -> in_step input i c acc -> input !! i = Some s ->
  let fires := negb (IsZero (lastTime c)) && (s_Timestamp s - lastTime c >=? maxLatLongDur) in
  let c' := if fires then tryCreateLocation c else c in
  store_inv input i c' /\ in_step input i c' acc /\
  IsZero (lastTime c') || (s_Timestamp s - lastTime c' <? 500 * Millisecond) = true.
Proof.
  intros Hso Hi Hst Hs fires. subst fires. destruct (negb _ && _) eqn:Hf; cbv zeta iota.
  - apply andb_true_iff in Hf as [Hz Hg]. apply negb_true_iff in Hz. apply Z.geb_le in Hg. change maxLatLongDur with (500 * Millisecond) in Hg.
    destruct Hst as [Hh|(Hh & _)]; [|by rewrite (h_time _ _ _ _ Hh) in Hz].
    split; [by apply tryCreate_inv|]. pose proof (tryCreate_holds _ _ _ _ _ Hi Hh) as Hh'.
    rewrite (h_time _ _ _ _ Hh'). split; [|done]. right. rewrite (h_time _ _ _ _ Hh) in *. split_and!; [done|done|].
    intros j x Hj Hx. pose proof (sorted_later _ Hso i j s x Hj Hs Hx). lia.
  - split_and!; [done|done|]. destruct (IsZero (lastTime c)) eqn:Ez; [done|]. simpl in *.
    change maxLatLongDur with (500 * Millisecond) in Hf. rewrite Z.geb_leb in Hf. apply Z.leb_gt in Hf. by apply Z.ltb_lt.
Qed.

Lemma processSignal_step input i c acc s :
  StronglySorted sig_le input -> store_inv input i c -> in_step input i c acc -> input !! i = Some s ->
  in_step input (S i) (processSignal c i) (regroup acc s).
Proof.
  intros Hso Hi Hst Hs.
  assert (sig_at (cs_signals c) i = s) as Hsig by (by eapply next_signal).
  destruct (gap_step _ _ _ _ _ Hso Hi Hst Hs) as (Hi' & Hst' & Hgap). unfold processSignal. rewrite Hsig. cbv zeta in *.
  set (c1 := if negb _ && _ then _ else c) in *. clearbody c1.
  destruct (String.eqb_spec (s_Name s) fieldCurrentLocationLatitude) as [En|N1];
    [exact (slot_step input i c1 acc SLat s Hi' Hst' Hs En Hgap)|].
  destruct (String.eqb_spec (s_Name s) fieldCurrentLocationLongitude) as [En|N2];
    [exact (slot_step input i c1 acc SLon s Hi' Hst' Hs En Hgap)|].
  destruct (String.eqb_spec (s_Name s) fieldDIMOAftermarketHDOP) as [En|N3];
    [exact (slot_step input i c1 acc SHDOP s Hi' Hst' Hs En Hgap)|].
  unfold regroup, is_coord. apply String.eqb_neq in N1, N2, N3. rewrite N1, N2, N3. simpl. by apply in_step_later.
Qed.

Lemma fold_in_step input n :
  StronglySorted sig_le input -> (n <= length input)%nat ->
  let c := fold_left processSignal (seq 0 n) (newCoordinateStore input) in
  store_inv input n c /\ in_step input n c (fold_left regroup (take n input) ([], [])).
Proof.
  intros Hso. induction n as [|n IH]; intros Hn; cbv zeta.
  { split; [apply new_store_inv|]. left. split; try done. constructor. }
  destruct (IH ltac:(lia)) as [Hi Hst]. destruct (lookup_lt_is_Some_2 input n ltac:(lia)) as [s Hs].
  split; [apply fold_process_inv; [lia|apply new_store_inv]|].
  rewrite seq_S, fold_left_app, (take_S_r _ _ _ Hs), fold_left_app. by apply processSignal_step.
Qed.

(** ** What the triples are *)

Lemma triples_acc l : forall acc,
  let '(dn, cur) := fold_left regroup l acc in concat dn ++ cur = concat acc.1 ++ acc.2 ++ List.filter is_coord l.
Proof.
  induction l as [|s l IH]; intros [dn cur]; simpl; [by rewrite app_nil_r|]. specialize (IH (regroup (dn, cur) s)).
  destruct (fold_left regroup l _) as [dn' cur']. rewrite IH. unfold regroup. destruct (is_coord s); simpl; [|done].
  destruct (joins cur s); simpl; [by rewrite <- (app_assoc cur)|]. rewrite concat_app. simpl. by rewrite app_nil_r, <- !app_assoc.
Qed.

(** A triple that begins at no time has no coordinate with a timestamp. *)
Lemma start_nonzero g x : x ∈ g -> s_Timestamp x <> zeroTime -> IsZero (triple_start g) <> true.
Proof.
  unfold triple_start, IsZero. intros Hx Hnz. destruct (List.find _ g) as [y|] eqn:Ef.
  - apply List.find_some in Ef as [_ Hy]. apply negb_true_iff in Hy. congruence.
  - apply list_elem_of_In in Hx. pose proof (find_none _ _ Ef x Hx) as Hy. simpl in Hy. apply negb_false_iff, Z.eqb_eq in Hy. done.
Qed.

(** One of a name, and all that have a timestamp within half a second of its start. *)
Definition is_triple (g : list Signal) : Prop :=
  NoDup (s_Name <$> g) /\ (forall s, s ∈ g -> s_Timestamp s <> zeroTime -> s_Timestamp s < triple_start g + 500 * Millisecond).

Lemma named_None name g : named name g = None -> name ∉ s_Name <$> g.
Proof.
  unfold named. intros Hf (s & -> & Hin)%list_elem_of_fmap. apply list_elem_of_In in Hin.
  pose proof (find_none _ _ Hf s Hin) as E. simpl in E. by rewrite String.eqb_refl in E.
Qed.

Lemma joins_triple g s : is_triple g -> joins g s = true -> is_triple (g ++ [s]).
Proof.
  intros [Hnd Ht] [Hn Hg]%andb_true_iff. destruct (named _ g) eqn:En; [done|]. apply named_None in En. split.
  - rewrite fmap_app. apply NoDup_app. split_and!; [done| |apply NoDup_singleton]. intros x Hx ->%list_elem_of_singleton. done.
  - intros x Hx Hnz. rewrite start_snoc. apply elem_of_app in Hx as [Hx| ->%list_elem_of_singleton].
    + destruct (IsZero (triple_start g)) eqn:Ez; [|by apply Ht]. by destruct (start_nonzero g x Hx Hnz).
    + destruct (IsZero (triple_start g)) eqn:Ez; [unfold Millisecond; lia|]. simpl in Hg. apply Z.ltb_lt in Hg. lia.
Qed.

Lemma single_triple s : is_triple [s].
Proof.
  split; [apply NoDup_singleton|]. intros x ->%list_elem_of_singleton Hnz. unfold triple_start. simpl. unfold IsZero.
  destruct (Z.eqb_spec (s_Timestamp s) zeroTime); [done|]. simpl. unfold Millisecond. lia.
Qed.

Lemma triples_are_triples l : forall acc, Forall is_triple acc.1 -> is_triple acc.2 ->
  let '(dn, cur) := fold_left regroup l acc in Forall is_triple dn /\ is_triple cur.
Proof.
  induction l as [|s l IH]; intros [dn cur] Hd Hc; simpl in *; [done|]. apply IH; unfold regroup; destruct (is_coord s); simpl; try done;
    destruct (joins cur s) eqn:Ej; simpl; try done.
  - apply Forall_app. split; [done|by apply Forall_singleton].
  - by apply joins_triple.
  - apply single_triple.
Qed.

Lemma triples_spec l : concat (triples l) = List.filter is_coord l /\ Forall is_triple (triples l).
Proof.
  unfold triples. pose proof (triples_acc l ([], [])) as Hc.
  pose proof (triples_are_triples l ([], []) (Forall_nil_2 _)) as Ht. destruct (fold_left regroup l ([], [])) as [dn cur].
  destruct Ht as [Hd Hcur]; [split; [constructor|by intros ? ?%elem_of_nil]|].
  rewrite concat_app. simpl in *. rewrite app_nil_r. split; [exact Hc|]. apply Forall_app. split; [done|by apply Forall_singleton].
Qed.
End Locations.

(** ** Properties *)

(** C33: Merging coordinates. Of the signals in time order, every latitude, longitude and
    HDOP is consumed and every other signal is kept. The coordinates are cut into triples
    (at most one of each kind, all within 500 ms of the first), and each triple with a
    latitude and a longitude in [-90, 90] and [-180, 180], finite and not both zero, gives
    exactly one location with these values, the HDOP of the triple, its start time and the
    header of its latitude; no other triple gives one. *)
Theorem handleCoordinates_spec `{D : DecodeLib} `{!SortLaws D} signals :
  let sorted := SortSignals signals in
  exists added,
    (handleCoordinates signals).1 = List.filter keeps sorted ++ added /\
    locations (triples sorted) added /\
    concat (triples sorted) = List.filter is_coord sorted /\ Forall is_triple (triples sorted).
Proof.
  cbv zeta. set (input := SortSignals signals). destruct (triples_spec input) as [Hcat Htr].
  enough (exists added, (handleCoordinates signals).1 = List.filter keeps input ++ added /\ locations (triples input) added) as (a & ? & ?)
    by (by exists a).
  unfold handleCoordinates. destruct (Zlen signals =? 0) eqn:E.
  { apply Zlen_nil in E as ->. exists []. pose proof (sort_perm (SortLaws := _) []) as Hp.
    apply Permutation_nil_r in Hp. subst input. rewrite Hp. split; [done|]. apply locations_skip; [done|constructor]. }
  fold input. destruct (fold_in_step input (length input) (sort_sorted signals) (le_n _)) as [Hi Hst].
  rewrite firstn_all in Hst. set (c := fold_left processSignal _ _) in *. clearbody c.
  assert (store_inv input (length input) (tryCreateLocation c)) as Hi' by (by apply tryCreate_inv).
  exists (created (tryCreateLocation c)). split; [simpl; f_equal; apply dropPruned_store; [done|apply tryCreate_inactive]|].
  unfold triples. destruct (fold_left regroup input _) as [dn cur].
  destruct Hst as [Hh|(Hh & _)]; simpl in Hh; pose proof (h_created _ _ _ _ (tryCreate_holds _ _ _ _ _ Hi Hh)) as Hl; [done|].
  by apply locations_drop_nil in Hl.
Qed.

(** ** Witness *)

Lemma handleCoordinates_spec_witness :
  exists added,
    (@handleCoordinates sample_decoder sample_signals).1 =
      [sample_signal 7 "speed" 50; sample_signal 7 "speed" 51] ++ added /\
    @locations sample_decoder
      [[sample_signal 5 fieldCurrentLocationLatitude 48; sample_signal 6 fieldCurrentLocationLongitude 11]] added.
Proof.
  destruct (@handleCoordinates_spec sample_decoder sample_sort sample_signals) as (added & He & Hl & _).
  exists added. split; [exact He|exact Hl].
Defined.
