(* ===== verification/Fetch.v ===== *)
(** * Fetch loops: how the consumers read the WAL

    fetchLoop of internal/sink/sink.go, and EnsureStreams, Run and runPartition of
    internal/decodestream/decodestream.go. A loop is a function of the rounds it
    goes through: what the context, the fetch and the pauses gave in each; it ends
    with a value or is still running when the rounds are used up. *)

From S2P Require Import Prelude GoStd Sha256 CloudEvent Stream Publisher Convert LakeWriter Sink Decode.

Definition maxConsecutiveFetchErrs : Z := 30.
Definition maxDecodeFetchRetries : Z := 30.

(** One turn: ctx.Err() at the top, the fetch, ctx.Err() if the context was done
    during the back-off, and the same for the hand-over of a batch with the number of
    messages handed over before. *)
Record fetchRound := mkRound {
  fr_top : option error; fr_fetch : result (list JMsg); fr_wait : option error; fr_send : option (nat * error)
}.

(** An error of Fetch that only says that the time was up. *)
Definition transient_fetch (e : error) : bool := errors_is e ctxCanceled || errors_is e ctxDeadlineExceeded.

(** ** The sink *)

(** What was sent to Run, and the value posted on done. *)
Fixpoint fetchLoop (consecutiveErrs : Z) (rounds : list fetchRound) : list JMsg * option error :=
  match rounds with
  | [] => ([], None)
  | r :: rounds' =>
      match fr_top r with
      | Some e => ([], Some e)
      | None =>
          match fr_fetch r with
          | Err e =>
              if transient_fetch e then fetchLoop consecutiveErrs rounds'
              else
                let n := consecutiveErrs + 1 in
                if n >=? maxConsecutiveFetchErrs
                then ([], Some (EWrap ("sink fetch failed " +:+ fmt_d n +:+ "x consecutively: ") e ""))
                else match fr_wait r with
                     | Some ce => ([], Some ce)
                     | None => fetchLoop n rounds'
                     end
          | Ok batch =>
              match fr_send r with
              | Some (sent, ce) => (take sent batch, Some ce)
              | None => let '(out, res) := fetchLoop 0 rounds' in (batch ++ out, res)
              end
          end
      end
  end.

(** What Run makes of the posted value. *)
Definition fetchResult (fetchErr : error) : option error :=
  if errors_is fetchErr ctxCanceled then None else Some (EWrap "sink fetch loop: " fetchErr "").

(** pollWALPending: what the select received turn by turn (ctx.Done, or a tick and what
    Consumer.Info answered), and the backlog gauge it leaves. *)
Definition walPendingPollInterval : Z := 15 * Second.
Inductive pollEvent := PollDone | PollTick (info : result Z).
Fixpoint pollWALPending (turns : list pollEvent) (gauge : option Z) : option Z :=
  match turns with
  | [] | PollDone :: _ => gauge
  | PollTick (Err _) :: turns' => pollWALPending turns' gauge
  | PollTick (Ok n) :: turns' => pollWALPending turns' (Some n)
  end.

(** ** The decode bridge *)

Definition consumerName : string := "decodestream".

Definition decodedStreams (cfg : BridgeConfig) : list StreamConfig :=
  [mkStreamConfig SignalsStreamName "DIMO vehicle signal telemetry" [signalSubjectPrefix +:+ ".>"]
     FileStorage LimitsPolicy (bc_Replicas cfg) (24 * Hour) (bc_SignalsMaxBytes cfg) 0 DiscardOld;
   mkStreamConfig EventsStreamName "DIMO vehicle events" [eventSubjectPrefix +:+ ".>"]
     FileStorage LimitsPolicy (bc_Replicas cfg) (24 * Hour) (bc_EventsMaxBytes cfg) 0 DiscardOld].

(** Bridge.EnsureStreams *)
Section BridgeStreams.
Context `{JetStreamAdmin}.
Fixpoint createStreams (js : broker) (scs : list StreamConfig) : broker * option error :=
  match scs with
  | [] => (js, None)
  | sc :: scs' =>
      match CreateOrUpdateStream js sc with
      | (js', Some e) => (js', Some (EWrap ("creating " +:+ sc_Name sc +:+ " stream: ") e ""))
      | (js', None) => createStreams js' scs'
      end
  end.
Definition EnsureDecodedStreams (js : broker) (cfg : BridgeConfig) : broker * option error :=
  createStreams js (decodedStreams cfg).
End BridgeStreams.

(** The consumer of partition [i] of [n]: stream, durable name, filters. *)
Definition bridgeConsumer `{CloudEventLib} (i n : Z) : string * string * list string :=
  (StreamNameFor i n, if 1 <? n then consumerName +:+ "-p" +:+ fmt_0d 3 i else consumerName,
   [SubjectFilterForType TypeStatus; SubjectFilterForType TypeEvents]).
Definition bridgeAckWait : Z := Minute.
Definition bridgeMaxDeliver : Z := 100.
Definition bridgeBackOff : list Z := [15 * Second; Minute; 5 * Minute].

(** Run: the partitions it starts a goroutine for. *)
Definition bridgePartitions (cfg : BridgeConfig) : list Z :=
  let n := if bc_StreamPartitions cfg <=? 0 then 1 else bc_StreamPartitions cfg in
  Z.of_nat <$> seq 0 (Z.to_nat n).

(** The loop of runPartition, with [handle] for handleBatch: a done context is a
    clean end. *)
Fixpoint partitionLoop {S V : Type} (handle : S -> list JMsg -> S * list V) (consecutiveErrs : Z) (s : S)
    (rounds : list fetchRound) : S * list V * option (option error) :=
  match rounds with
  | [] => (s, [], None)
  | r :: rounds' =>
      match fr_top r with
      | Some _ => (s, [], Some None)
      | None =>
          match fr_fetch r with
          | Err e =>
              if transient_fetch e then partitionLoop handle consecutiveErrs s rounds'
              else
                let n := consecutiveErrs + 1 in
                if n >=? maxDecodeFetchRetries
                then (s, [], Some (Some (EWrap ("fetching raw messages failed " +:+ fmt_d n +:+ "x consecutively: ") e "")))
                else match fr_wait r with
                     | Some _ => (s, [], Some None)
                     | None => partitionLoop handle n s rounds'
                     end
          | Ok batch =>
              let '(s', vs) := handle s batch in
              let '(s'', vs', res) := partitionLoop handle 0 s' rounds' in
              (s'', vs ++ vs', res)
          end
      end
  end.

(** ** Lemmas *)

Definition batch_of (r : fetchRound) : option (list JMsg) := match fr_fetch r with Ok b => Some b | Err _ => None end.
Definition failed (r : fetchRound) : bool := match fr_fetch r with Err e => negb (transient_fetch e) | Ok _ => false end.
Definition strikes (rounds : list fetchRound) : Z := Zlen (List.filter failed rounds).

(** The loop was stopped by its context with [e]. *)
Definition stopped (rounds : list fetchRound) (e : error) : Prop :=
  exists r, r ∈ rounds /\ (fr_top r = Some e \/ fr_wait r = Some e \/ exists k, fr_send r = Some (k, e)).

Lemma strikes_cons r rounds : strikes (r :: rounds) = (if failed r then 1 else 0) + strikes rounds.
Proof. unfold strikes. simpl. destruct (failed r); [by rewrite Zlen_cons|lia]. Qed.

Lemma stopped_cons r rounds e : stopped rounds e -> stopped (r :: rounds) e.
Proof. intros (r' & Hin & H). exists r'. split; [set_solver|done]. Qed.

Lemma fetchLoop_strikes n rounds out e :
  n < maxConsecutiveFetchErrs -> fetchLoop n rounds = (out, Some e) ->
  stopped rounds e \/
  exists pre run post, rounds = pre ++ run ++ post /\ Forall (fun r => batch_of r = None) run /\
    (strikes run = maxConsecutiveFetchErrs \/ pre = [] /\ strikes run = maxConsecutiveFetchErrs - n).
Proof.
  revert n out. induction rounds as [|r rounds IH]; intros n out Hn; [done|]. cbn [fetchLoop].
  destruct (fr_top r) as [te|] eqn:Et; [intros [= _ <-]; left; exists r; split; [set_solver|auto]|].
  destruct (fr_fetch r) as [batch|fe] eqn:Ef.
  - destruct (fr_send r) as [[k ce]|] eqn:Es; [intros [= _ <-]; left; exists r; split; [set_solver|eauto]|].
    destruct (fetchLoop 0 rounds) as [out' res] eqn:El. intros [= _ ->].
    destruct (IH 0 out' ltac:(unfold maxConsecutiveFetchErrs; lia) El) as [?|(pre & run & post & -> & Hf & Hc)].
    + left. by apply stopped_cons.
    + right. exists (r :: pre), run, post. split_and!; [done..|]. left. destruct Hc as [?|[_ ?]]; lia.
  - assert (Hb : batch_of r = None) by (unfold batch_of; by rewrite Ef).
    assert (Hext : forall m, n <= m -> strikes [r] = m - n -> m < maxConsecutiveFetchErrs -> fetchLoop m rounds = (out, Some e) ->
      stopped (r :: rounds) e \/ exists pre run post, r :: rounds = pre ++ run ++ post /\ Forall (fun r => batch_of r = None) run /\
        (strikes run = maxConsecutiveFetchErrs \/ pre = [] /\ strikes run = maxConsecutiveFetchErrs - n)).
    { intros m Hnm Hs Hm [?|(pre & run & post & -> & Hf & Hc)]%IH; [left; by apply stopped_cons| |done].
      right. destruct Hc as [Hc|[-> Hc]].
      - exists (r :: pre), run, post. auto.
      - exists [], (r :: run), post. split_and!; [done|by constructor|]. right. split; [done|].
        rewrite strikes_cons. rewrite strikes_cons in Hs. unfold strikes at 1 in Hs. change (Zlen _) with 0 in Hs. lia. }
    assert (Hs : strikes [r] = if transient_fetch fe then 0 else 1).
    { rewrite strikes_cons. unfold failed, strikes. rewrite Ef. by destruct (transient_fetch fe). }
    destruct (transient_fetch fe); [apply Hext; lia|]. destruct (_ >=? maxConsecutiveFetchErrs) eqn:Em; bool_to_prop.
    + intros [= _ <-]. right. exists [], [r], rounds. split_and!; [done|by repeat constructor|]. right. split; [done|lia].
    + destruct (fr_wait r) as [we|] eqn:Ew; [intros [= _ <-]; left; exists r; split; [set_solver|auto]|]. apply Hext; lia.
Qed.

(** The loop's last word is the context's error, or the thirtieth failure, which no
    context error is. *)
Lemma fetchLoop_canceled n rounds out e :
  fetchLoop n rounds = (out, Some e) -> errors_is e ctxCanceled = true -> stopped rounds e.
Proof.
  revert n out. induction rounds as [|r rounds IH]; intros n out; [done|]. cbn [fetchLoop].
  destruct (fr_top r) as [te|] eqn:Et; [intros [= _ <-] _; exists r; split; [set_solver|auto]|].
  destruct (fr_fetch r) as [batch|fe] eqn:Ef.
  - destruct (fr_send r) as [[k ce]|] eqn:Es; [intros [= _ <-] _; exists r; split; [set_solver|eauto]|].
    destruct (fetchLoop 0 rounds) as [out' res] eqn:El. intros [= _ ->] Hc. by eapply stopped_cons, IH.
  - destruct (transient_fetch fe) eqn:Et'; [intros Hl Hc; by eapply stopped_cons, IH|].
    destruct (_ >=? maxConsecutiveFetchErrs).
    + intros [= _ <-]. simpl. apply orb_false_iff in Et' as [-> _]. done.
    + destruct (fr_wait r) as [we|] eqn:Ew; [intros [= _ <-] _; exists r; split; [set_solver|auto]|].
      intros Hl Hc. by eapply stopped_cons, IH.
Qed.

Lemma partitionLoop_strikes {S V : Type} (handle : S -> list JMsg -> S * list V) n s rounds s' vs e :
  n < maxDecodeFetchRetries -> partitionLoop handle n s rounds = (s', vs, Some (Some e)) ->
  exists pre run post, rounds = pre ++ run ++ post /\ Forall (fun r => batch_of r = None) run /\
    (strikes run = maxDecodeFetchRetries \/ pre = [] /\ strikes run = maxDecodeFetchRetries - n).
Proof.
  revert n s s' vs. induction rounds as [|r rounds IH]; intros n s s' vs Hn; [done|]. cbn [partitionLoop].
  destruct (fr_top r); [done|]. destruct (fr_fetch r) as [batch|fe] eqn:Ef.
  - destruct (handle s batch) as [s1 vs1]. destruct (partitionLoop handle 0 s1 rounds) as [[s2 vs2] res] eqn:El.
    intros [= _ _ ->]. apply IH in El as (pre & rn & post & -> & Hf & Hc); [|by unfold maxDecodeFetchRetries].
    exists (r :: pre), rn, post. split_and!; [done..|]. left. destruct Hc as [?|[_ ?]]; lia.
  - assert (Hb : batch_of r = None) by (unfold batch_of; by rewrite Ef).
    assert (Hs : forall l, strikes (r :: l) = (if transient_fetch fe then 0 else 1) + strikes l).
    { intros l. rewrite strikes_cons. unfold failed. rewrite Ef. by destruct (transient_fetch fe). }
    assert (Hext : forall m, m = (n + if transient_fetch fe then 0 else 1) -> m < maxDecodeFetchRetries ->
      partitionLoop handle m s rounds = (s', vs, Some (Some e)) ->
      exists pre rn post, r :: rounds = pre ++ rn ++ post /\ Forall (fun r => batch_of r = None) rn /\
        (strikes rn = maxDecodeFetchRetries \/ pre = [] /\ strikes rn = maxDecodeFetchRetries - n)).
    { intros m Hm Hlt (pre & rn & post & -> & Hf & [Hc|[-> Hc]])%IH; [| |done].
      - exists (r :: pre), rn, post. auto.
      - exists [], (r :: rn), post. split_and!; [done|by constructor|]. right. split; [done|]. rewrite Hs. lia. }
    destruct (transient_fetch fe); [apply Hext; lia|]. destruct (_ >=? maxDecodeFetchRetries) eqn:Em; bool_to_prop.
    + intros _. exists [], [r], rounds. split_and!; [done|by repeat constructor|]. right. split; [done|]. rewrite Hs. change (strikes []) with 0. lia.
    + destruct (fr_wait r); [done|]. apply Hext; lia.
Qed.

Lemma partitionLoop_nil {S V : Type} (handle : S -> list JMsg -> S * list V) n s rounds s' vs :
  partitionLoop handle n s rounds = (s', vs, Some None) -> exists e, stopped rounds e.
Proof.
  revert n s s' vs. induction rounds as [|r rounds IH]; intros n s s' vs; [done|]. cbn [partitionLoop].
  assert (Hc : (exists e, stopped rounds e) -> exists e, stopped (r :: rounds) e).
  { intros [e He]. exists e. by apply stopped_cons. }
  destruct (fr_top r) as [te|] eqn:Et; [intros _; exists te, r; split; [set_solver|auto]|].
  destruct (fr_fetch r) as [batch|fe].
  - destruct (handle s batch) as [s1 vs1]. destruct (partitionLoop handle 0 s1 rounds) as [[s2 vs2] res] eqn:El.
    intros [= _ _ ->]. by eapply Hc, IH.
  - destruct (transient_fetch fe); [intros Hl; by eapply Hc, IH|]. destruct (_ >=? _); [done|].
    destruct (fr_wait r) as [we|] eqn:Ew; [intros _; exists we, r; split; [set_solver|auto]|]. intros Hl. by eapply Hc, IH.
Qed.

(** A loop that comes to its top under a done context ends there. *)
Lemma fetchLoop_top n rounds r e :
  (fetchLoop n rounds).2 = None -> fr_top r = Some e -> (fetchLoop n (rounds ++ [r])).2 = Some e.
Proof.
  intros Hl Hr. revert n Hl. induction rounds as [|q rounds IH]; intros n; cbn [fetchLoop app]; [by rewrite Hr|].
  destruct (fr_top q); [done|]. destruct (fr_fetch q) as [batch|fe].
  - destruct (fr_send q) as [[k ce]|]; [done|]. specialize (IH 0).
    destruct (fetchLoop 0 rounds), (fetchLoop 0 (rounds ++ [r])). exact IH.
  - destruct (transient_fetch fe); [apply IH|]. destruct (_ >=? _); [done|]. destruct (fr_wait q); [done|apply IH].
Qed.

Lemma partitionLoop_top {S V : Type} (handle : S -> list JMsg -> S * list V) n s rounds r e :
  (partitionLoop handle n s rounds).2 = None -> fr_top r = Some e -> (partitionLoop handle n s (rounds ++ [r])).2 = Some None.
Proof.
  intros Hl Hr. revert n s Hl. induction rounds as [|q rounds IH]; intros n s; cbn [partitionLoop app]; [by rewrite Hr|].
  destruct (fr_top q); [done|]. destruct (fr_fetch q) as [batch|fe].
  - destruct (handle s batch) as [s1 vs1]. specialize (IH 0 s1).
    destruct (partitionLoop handle 0 s1 rounds) as [[? ?] ?], (partitionLoop handle 0 s1 (rounds ++ [r])) as [[? ?] ?]. exact IH.
  - destruct (transient_fetch fe); [apply IH|]. destruct (_ >=? _); [done|]. destruct (fr_wait q); [done|apply IH].
Qed.

(** ** Properties *)

(** The fetch loop loses and reorders nothing and gives up late. What it
    hands to the sink is the batches it fetched, in order, up to the point where it
    stopped; and it stops only when the context is done or after thirty failing
    fetches without a successful one in between. *)
Theorem fetchLoop_sound rounds out res :
  fetchLoop 0 rounds = (out, res) ->
  out `prefix_of` concat (omap batch_of rounds) /\
  match res with
  | None => out = concat (omap batch_of rounds)
  | Some e => stopped rounds e \/
      exists pre run post, rounds = pre ++ run ++ post /\ Forall (fun r => batch_of r = None) run /\
        strikes run = maxConsecutiveFetchErrs
  end.
Proof.
  intros Hrun. split.
  - revert out res Hrun. generalize 0. induction rounds as [|r rounds IH]; intros n out res; cbn [fetchLoop]; [by intros [= <- _]|].
    change (omap batch_of (r :: rounds)) with (match batch_of r with Some b => b :: omap batch_of rounds | None => omap batch_of rounds end).
    unfold batch_of at 1. destruct (fr_top r); [intros [= <- _]; apply prefix_nil|]. destruct (fr_fetch r) as [batch|fe].
    + destruct (fr_send r) as [[k ce]|].
      * intros [= <- _]. apply prefix_app_r, prefix_take.
      * destruct (fetchLoop 0 rounds) as [out' res'] eqn:El. intros [= <- _]. simpl. by eapply prefix_app, IH.
    + destruct (transient_fetch fe); [apply IH|]. destruct (_ >=? _); [intros [= <- _]; apply prefix_nil|].
      destruct (fr_wait r); [intros [= <- _]; apply prefix_nil|apply IH].
  - destruct res as [e|].
    + apply fetchLoop_strikes in Hrun as [?|(pre & run & post & -> & Hf & Hc)]; [by left| |done].
      right. exists pre, run, post. split_and!; [done..|]. destruct Hc as [?|[_ ?]]; lia.
    + revert out Hrun. generalize 0. induction rounds as [|r rounds IH]; intros n out; cbn [fetchLoop]; [by intros [= <-]|].
      change (omap batch_of (r :: rounds)) with (match batch_of r with Some b => b :: omap batch_of rounds | None => omap batch_of rounds end).
      unfold batch_of at 1. destruct (fr_top r); [done|]. destruct (fr_fetch r) as [batch|fe].
      * destruct (fr_send r) as [[k ce]|]; [done|]. destruct (fetchLoop 0 rounds) as [out' res'] eqn:El.
        intros [= <- ->]. simpl. f_equal. by eapply IH.
      * destruct (transient_fetch fe); [apply IH|]. destruct (_ >=? _); [done|]. destruct (fr_wait r); [done|apply IH].
Qed.

Definition goodRound (l : list JMsg) : fetchRound := mkRound None (Ok l) None None.
Definition badRound : fetchRound := mkRound None (Err (ENew "nats: no responders")) None None.
Definition twoMsgs : list JMsg := [mkJMsg 1 ∅ "a" (Ok 1); mkJMsg 2 ∅ "b" (Ok 1)].

Lemma fetchLoop_sound_witness :
  (fetchLoop 0 (badRound :: goodRound twoMsgs :: replicate 30 badRound)).1 = twoMsgs /\
  exists e, (fetchLoop 0 (badRound :: goodRound twoMsgs :: replicate 30 badRound)).2 = Some e.
Proof.
  destruct (fetchLoop_sound (badRound :: goodRound twoMsgs :: replicate 30 badRound)
    twoMsgs (Some (EWrap "sink fetch failed 30x consecutively: " (ENew "nats: no responders") "")) ltac:(reflexivity)) as [Hp _].
  split; [reflexivity|]. eexists. reflexivity.
Defined.
