(* ===== verification/Relay.v ===== *)
(** * Package decodestream: the bridge over any schedule

    internal/decodestream/decodestream.go: the partitions of the bridge, interleaved message
    by message on one broker, with other publishers, deliveries that are lost, batches cut
    short by a crash, acks that do not arrive, redeliveries, and the delivery limit of the
    consumer ([xstep], [xreach]). A partition submits each message of a batch as the batch
    hands it over ([decodeAndSubmit]) and settles them afterwards ([finish]); the sequential
    handleBatch is one such run ([handleBatch_run]). *)

From S2P Require Import Prelude GoStd CloudEvent Stream Publisher Convert Sink Decode Fetch.

(** ** The system *)

(** A raw message accepted by the stream and selected by the consumer's filters, with the
    time it was accepted at, the number of its deliveries and whether an ack of it has
    arrived. *)
Record rawEntry := mkEntry {
  r_Headers : gmap string (list string); r_Data : string; r_at : Z; r_deliveries : Z; r_acked : bool
}.

(** The server hands the message out once more; an ack of it arrives. *)
Definition redelivered (e : rawEntry) : rawEntry := mkEntry (r_Headers e) (r_Data e) (r_at e) (r_deliveries e + 1) (r_acked e).
Definition settled (e : rawEntry) : rawEntry := mkEntry (r_Headers e) (r_Data e) (r_at e) (r_deliveries e) true.

(** The delivery of the entry at a position (stream sequences start at 1), and the position
    a delivery came from. *)
Definition deliveryOf (pos : nat) (e : rawEntry) : JMsg :=
  mkJMsg (Z.of_nat (S pos)) (r_Headers e) (r_Data e) (Ok (r_deliveries e + 1)).
Definition posOf (m : JMsg) : nat := Nat.pred (Z.to_nat (jm_seq m)).

(** Entries the consumer still delivers: not acked, below the delivery limit. *)
Definition deliverable (e : rawEntry) : bool := negb (r_acked e) && (r_deliveries e <? bridgeMaxDeliver).

Section Relay.
Context `{CloudEventLib} `{NatsHeaderLib} `{J : JetStreamPublish} `{D : DecodeLib}.
Variables (cfg : BridgeConfig) (skew : Z).

(** Where a partition is: between batches, in the first loop of handleBatch, or in the
    second. An outcome is kept with the clock reading its message was decoded at. *)
Inductive xpc := XFetch | XSubmit (sent : list (Z * msgOutcome)) | XFinish (todo : list (Z * msgOutcome)).

(** The broker with the decoded streams, the raw messages, the partitions, the clock, and
    for every delivery that was decoded its position and the reading of the clock then. *)
Record relay := mkRelay { x_js : wal; x_raw : list rawEntry; x_parts : list xpc; x_now : Z; x_decoded : list (nat * Z) }.

Inductive xstep : relay -> relay -> Prop :=
| x_tick now' js raw ps now dec :
    now <= now' -> xstep (mkRelay js raw ps now dec) (mkRelay js raw ps now' dec)
| x_accept hs data js raw ps now dec :
    xstep (mkRelay js raw ps now dec) (mkRelay js (raw ++ [mkEntry hs data now 0 false]) ps now dec)
| x_publish m js raw ps now dec :
    xstep (mkRelay js raw ps now dec) (mkRelay (PublishMsgAsync js m).1 raw ps now dec)
| x_lost pos e js raw ps now dec :
    raw !! pos = Some e -> deliverable e = true ->
    xstep (mkRelay js raw ps now dec) (mkRelay js (alter redelivered pos raw) ps now dec)
| x_fetch i js raw ps now dec :
    ps !! i = Some XFetch ->
    xstep (mkRelay js raw ps now dec) (mkRelay js raw (<[i := XSubmit []]> ps) now dec)
| x_submit i sent pos e js js' o raw ps now dec :
    ps !! i = Some (XSubmit sent) -> raw !! pos = Some e -> deliverable e = true ->
    decodeAndSubmit cfg skew now js (deliveryOf pos e) = (js', o) ->
    xstep (mkRelay js raw ps now dec)
          (mkRelay js' (alter redelivered pos raw) (<[i := XSubmit (sent ++ [(now, o)])]> ps) now (dec ++ [(pos, now)]))
| x_submitted i sent js raw ps now dec :
    ps !! i = Some (XSubmit sent) ->
    xstep (mkRelay js raw ps now dec) (mkRelay js raw (<[i := XFinish sent]> ps) now dec)
| x_ack i t o todo js js' m raw ps now dec :
    ps !! i = Some (XFinish ((t, o) :: todo)) -> finish js o = (js', VAck m) ->
    xstep (mkRelay js raw ps now dec) (mkRelay js' (alter settled (posOf m) raw) (<[i := XFinish todo]> ps) now dec)
| x_settle_lost i t o todo js js' v raw ps now dec :
    ps !! i = Some (XFinish ((t, o) :: todo)) -> finish js o = (js', v) ->
    xstep (mkRelay js raw ps now dec) (mkRelay js' raw (<[i := XFinish todo]> ps) now dec)
| x_done i js raw ps now dec :
    ps !! i = Some (XFinish []) ->
    xstep (mkRelay js raw ps now dec) (mkRelay js raw (<[i := XFetch]> ps) now dec)
| x_crash i js raw ps now dec :
    xstep (mkRelay js raw ps now dec) (mkRelay js raw (<[i := XFetch]> ps) now dec).

Inductive xreach : relay -> Prop :=
| x_init js n now : xreach (mkRelay js [] (replicate n XFetch) now [])
| x_next st st' : xreach st -> xstep st st' -> xreach st'.

(** ** Lemmas: the invariant *)

Context `{L : !DecodedStreamLaws J}.

Lemma publishJSONAsync_keeps js subject data dedup m :
  taken js m -> taken (publishJSONAsync js subject data dedup).1 m.
Proof.
  intros Hm. unfold publishJSONAsync. destruct data as [body|e]; [|done].
  match goal with |- context [PublishMsgAsync js ?x] => pose proof (submit_keeps_taken js x m Hm) as Hk; by destruct (PublishMsgAsync js x) as [js' []] end.
Qed.

Lemma submitGroups_keeps {A} prefix key (pack : list A -> result string) groups : forall js futs errs m,
  taken js m -> taken (submitGroups js prefix key pack groups futs errs).1.1 m.
Proof.
  induction groups as [|[name g] groups IH]; intros js futs errs m Hm; simpl; [done|].
  match goal with |- context [publishJSONAsync js ?a ?b ?c] =>
    pose proof (publishJSONAsync_keeps js a b c m Hm) as Hk; destruct (publishJSONAsync js a b c) as [js' []] end; by apply IH.
Qed.

Lemma decodeAndSubmit_keeps now js msg m : taken js m -> taken (decodeAndSubmit cfg skew now js msg).1 m.
Proof.
  intros Hm. unfold decodeAndSubmit. destruct (ParseMsg _ _) as [ev|]; [|done].
  destruct (CEType ev =?s TypeStatus); [destruct (isVehicleSignalMessage cfg ev); [|done]|destruct (CEType ev =?s TypeEvents); [|done]].
  - unfold submitSignals. destruct (Zlen _ =? 0); [done|]. destruct (pruneFutureAndDuplicateSignals _ _ _) as [l1 e1].
    destruct (handleCoordinates l1) as [l2 e2]. destruct (Zlen l2 =? 0); [done|].
    match goal with |- context [submitGroups js ?a ?b ?c ?d ?e ?f] =>
      pose proof (submitGroups_keeps a b c d js e f m Hm) as Hk; by destruct (submitGroups js a b c d e f) as [[js' fs] er] end.
  - unfold submitEvents. destruct (Zlen _ =? 0); [done|].
    match goal with |- context [submitGroups js ?a ?b ?c ?d ?e ?f] =>
      pose proof (submitGroups_keeps a b c d js e f m Hm) as Hk; by destruct (submitGroups js a b c d e f) as [[js' fs] er] end.
Qed.

(** Everything the raw message at [pos] decoded to in one of its deliveries, at the time
    the clock showed then, has been taken by the decoded streams. *)
Definition relayed (st : relay) (pos : nat) (e : rawEntry) : Prop :=
  exists t, (pos, t) ∈ x_decoded st /\ r_at e <= t <= x_now st /\
    Forall (published (x_js st)) (publications cfg skew t (deliveryOf pos e)).

(** The content of an entry never changes. *)
Definition same_content (e e' : rawEntry) : Prop := r_Headers e = r_Headers e' /\ r_Data e = r_Data e' /\ r_at e = r_at e'.

Lemma publications_content t m pos e :
  jm_Headers m = r_Headers e -> jm_Data m = r_Data e ->
  publications cfg skew t m = publications cfg skew t (deliveryOf pos e).
Proof. intros Hh Hd. unfold publications, deliveryOf. cbn [jm_Headers jm_Data]. by rewrite Hh, Hd. Qed.

(** An outcome in flight comes from an entry of the stream, decoded at its time, and when
    its submissions all succeeded it has a future for every publication. *)
Definition outcome_ok (raw : list rawEntry) (now : Z) (dec : list (nat * Z)) (no : Z * msgOutcome) : Prop :=
  (exists e, raw !! posOf (o_msg no.2) = Some e /\ jm_Headers (o_msg no.2) = r_Headers e /\ jm_Data (o_msg no.2) = r_Data e /\
     r_at e <= no.1 <= now /\ (posOf (o_msg no.2), no.1) ∈ dec) /\
  (o_submitErr no.2 = None -> Forall2 carries_pub (publications cfg skew no.1 (o_msg no.2)) (o_futures no.2)).
Definition part_ok (raw : list rawEntry) (now : Z) (dec : list (nat * Z)) (p : xpc) : Prop :=
  match p with XFetch => True | XSubmit l | XFinish l => Forall (outcome_ok raw now dec) l end.

Record relay_inv (st : relay) : Prop := {
  xi_raw pos e : x_raw st !! pos = Some e ->
    0 <= r_deliveries e <= bridgeMaxDeliver /\ r_at e <= x_now st /\ (r_acked e = true -> relayed st pos e);
  xi_parts : Forall (part_ok (x_raw st) (x_now st) (x_decoded st)) (x_parts st)
}.

(** The stream grows, its entries keep their content; nothing taken, decoded or past is
    forgotten. *)
Record grows (st st' : relay) : Prop := {
  g_raw pos e : x_raw st !! pos = Some e -> exists e', x_raw st' !! pos = Some e' /\ same_content e e';
  g_js m : taken (x_js st) m -> taken (x_js st') m;
  g_now : x_now st <= x_now st';
  g_dec x : x ∈ x_decoded st -> x ∈ x_decoded st'
}.

Lemma raw_alter (f : rawEntry -> rawEntry) (pos : nat) (raw : list rawEntry) (p : nat) e :
  (forall e, same_content e (f e)) -> raw !! p = Some e -> exists e', alter f pos raw !! p = Some e' /\ same_content e e'.
Proof.
  intros Hf He. destruct (decide (pos = p)) as [->|Hne].
  - exists (f e). rewrite list_lookup_alter_eq, He. done.
  - exists e. rewrite list_lookup_alter_ne by done. done.
Qed.

Lemma raw_alter_inv (f : rawEntry -> rawEntry) (pos : nat) (raw : list rawEntry) (p : nat) e' :
  alter f pos raw !! p = Some e' -> raw !! p = Some e' \/ exists e, p = pos /\ raw !! p = Some e /\ e' = f e.
Proof.
  destruct (decide (pos = p)) as [->|Hne].
  - rewrite list_lookup_alter_eq. intros (e & He & ->)%fmap_Some. eauto.
  - rewrite list_lookup_alter_ne by done. auto.
Qed.

Lemma grows_relayed st st' pos e e' : grows st st' -> same_content e e' -> relayed st pos e -> relayed st' pos e'.
Proof.
  intros [_ Hj Hn Hd] (Eh & Ed & Ea) (t & Ht & Hb & Hp). exists t. split_and!; [auto|lia|lia|].
  rewrite <- (publications_content t (deliveryOf pos e) pos e') by done.
  eapply Forall_impl; [exact Hp|]. intros x (body & Hx & Hs). exists body. auto.
Qed.

Lemma grows_part st st' p :
  grows st st' -> part_ok (x_raw st) (x_now st) (x_decoded st) p -> part_ok (x_raw st') (x_now st') (x_decoded st') p.
Proof.
  intros [Hr _ Hn Hd].
  assert (forall no, outcome_ok (x_raw st) (x_now st) (x_decoded st) no -> outcome_ok (x_raw st') (x_now st') (x_decoded st') no) as Ho.
  { intros no [(e & He & Hh & Hdt & Hb & Hin) Hc]. split; [|exact Hc].
    destruct (Hr _ _ He) as (e' & He' & Eh & Ed & Ea). exists e'. split_and!; [done|congruence|congruence|lia|lia|auto]. }
  destruct p as [|l|l]; simpl; [done| |]; intros Hl; (eapply Forall_impl; [exact Hl|exact Ho]).
Qed.

Lemma grows_parts st st' ps :
  grows st st' -> Forall (part_ok (x_raw st) (x_now st) (x_decoded st)) ps ->
  Forall (part_ok (x_raw st') (x_now st') (x_decoded st')) ps.
Proof. intros Hg Hf. eapply Forall_impl; [exact Hf|]. intros p. by apply grows_part. Qed.

(** A step that leaves the entries' counters alone. *)
Lemma grows_inv st st' :
  grows st st' -> (forall pos e', x_raw st' !! pos = Some e' -> x_raw st !! pos = Some e' \/
    (0 <= r_deliveries e' <= bridgeMaxDeliver /\ r_at e' <= x_now st' /\ (r_acked e' = true -> relayed st' pos e'))) ->
  Forall (part_ok (x_raw st') (x_now st') (x_decoded st')) (x_parts st') -> relay_inv st -> relay_inv st'.
Proof.
  intros Hg Hraw Hps [Hr _]. split; [|done]. intros pos e' He'. destruct (Hraw pos e' He') as [He|?]; [|done].
  destruct (Hr _ _ He) as (Hb & Ha & Hk). split_and!; [lia|lia| |]; [pose proof (g_now _ _ Hg); lia|].
  intros Hack. eapply grows_relayed; [done| |by apply Hk]. done.
Qed.

Lemma part_at raw now dec ps i p : Forall (part_ok raw now dec) ps -> ps !! i = Some p -> part_ok raw now dec p.
Proof. rewrite Forall_lookup. eauto. Qed.

Lemma posOf_deliveryOf pos e : posOf (deliveryOf pos e) = pos.
Proof. unfold posOf, deliveryOf. cbn [jm_seq]. by rewrite Nat2Z.id. Qed.

Lemma redelivered_ok st pos e p e' :
  relay_inv st -> x_raw st !! pos = Some e -> deliverable e = true -> alter redelivered pos (x_raw st) !! p = Some e' ->
  x_raw st !! p = Some e' \/ (0 <= r_deliveries e' <= bridgeMaxDeliver /\ r_at e' <= x_now st /\ r_acked e' = false).
Proof.
  intros [Hr _] He Hd [?|(e0 & -> & He0 & ->)]%raw_alter_inv; [by left|right]. replace e0 with e in * by congruence.
  destruct (Hr _ _ He) as (Hb & Ha & _). unfold deliverable in Hd. apply andb_true_iff in Hd as [Hn Hd].
  apply negb_true_iff in Hn. apply Z.ltb_lt in Hd. simpl. split_and!; [lia|lia|done|done].
Qed.

(** The submission of a delivered message adds an outcome the invariant allows. *)
Lemma submitted_ok js pos e raw js' o now dec :
  raw !! pos = Some e -> r_at e <= now -> decodeAndSubmit cfg skew now js (deliveryOf pos e) = (js', o) ->
  outcome_ok (alter redelivered pos raw) now (dec ++ [(pos, now)]) (now, o).
Proof.
  intros He Hat Hd. destruct (decodeAndSubmit_ok _ _ _ _ _ _ _ Hd) as [Hm Hc]. unfold outcome_ok. simpl. rewrite Hm. split; [|exact Hc].
  exists (redelivered e). rewrite posOf_deliveryOf, list_lookup_alter_eq, He. split_and!; [done|done|done|done|lia|].
  apply elem_of_app. right. by left.
Qed.

(** The ack of an outcome is sent once everything the message decoded to is taken. *)
Lemma acked_relayed t js o js' m raw ps now dec e :
  outcome_ok raw now dec (t, o) -> finish js o = (js', VAck m) -> raw !! posOf m = Some e ->
  relayed (mkRelay js' (alter settled (posOf m) raw) ps now dec) (posOf m) (settled e).
Proof.
  intros [(e' & He' & Hh & Hd & Hb & Hin) Hc] Hf He. simpl in *. apply finish_ok in Hf as [_ [?|([= ->] & Hn & Hfs)]]; [done|].
  replace e' with e in * by congruence. exists t. simpl. split_and!; [done|lia|lia|].
  rewrite <- (publications_content t (o_msg o)) by done. eapply carries_published; [by apply Hc|done].
Qed.

Ltac grow := split; simpl; [try (intros; eexists; done)|auto|lia|auto].

Lemma submit_step_inv i sent pos e js js' o raw ps now dec :
  relay_inv (mkRelay js raw ps now dec) -> ps !! i = Some (XSubmit sent) -> raw !! pos = Some e -> deliverable e = true ->
  decodeAndSubmit cfg skew now js (deliveryOf pos e) = (js', o) ->
  relay_inv (mkRelay js' (alter redelivered pos raw) (<[i := XSubmit (sent ++ [(now, o)])]> ps) now (dec ++ [(pos, now)])).
Proof.
  intros Hinv Hi He Hd Ho. pose proof Hinv as [Hr Hp]. pose proof (part_at _ _ _ _ _ _ Hp Hi) as Hok. simpl in Hr, Hp, Hok.
  set (st' := mkRelay js' _ _ now _). assert (grows (mkRelay js raw ps now dec) st') as Hg.
  { grow.
    - intros p e' He'. by apply raw_alter.
    - intros x Hx. pose proof (decodeAndSubmit_keeps now js (deliveryOf pos e) x Hx) as Hk. by rewrite Ho in Hk.
    - intros x Hx. apply elem_of_app. by left. }
  eapply grows_inv; [exact Hg| | |exact Hinv].
  - intros p e' He'. destruct (redelivered_ok _ _ _ _ _ Hinv He Hd He') as [?|(? & ? & Hn)]; [by left|right]; simpl in *.
    split_and!; [lia..|by rewrite Hn].
  - simpl. apply Forall_insert; [exact (grows_parts _ _ _ Hg Hp)|]. simpl. apply Forall_app. split.
    + exact (grows_part _ _ (XSubmit sent) Hg Hok).
    + apply Forall_singleton. eapply submitted_ok; [done| |done]. apply (Hr _ _ He).
Qed.

Lemma ack_step_inv i t o todo js js' m raw ps now dec :
  relay_inv (mkRelay js raw ps now dec) -> ps !! i = Some (XFinish ((t, o) :: todo)) -> finish js o = (js', VAck m) ->
  relay_inv (mkRelay js' (alter settled (posOf m) raw) (<[i := XFinish todo]> ps) now dec).
Proof.
  intros Hinv Hi Hf. pose proof Hinv as [Hr Hp]. pose proof (part_at _ _ _ _ _ _ Hp Hi) as Hok. simpl in Hr, Hp, Hok.
  apply Forall_cons in Hok as [Ho Ht]. set (st' := mkRelay js' _ _ now dec).
  assert (grows (mkRelay js raw ps now dec) st') as Hg.
  { grow; [intros p e' He'; by apply raw_alter|apply (finish_ok _ _ _ _ Hf)]. }
  eapply grows_inv; [exact Hg| | |exact Hinv].
  - intros p e' [?|(e & -> & He & ->)]%raw_alter_inv; [by left|right]. destruct (Hr _ _ He) as (Hb & Ha & _).
    simpl. split_and!; [lia..|]. intros _. by eapply acked_relayed.
  - simpl. apply Forall_insert; [exact (grows_parts _ _ _ Hg Hp)|]. simpl.
    exact (grows_part _ _ (XFinish todo) Hg Ht).
Qed.

Lemma xstep_inv st st' : relay_inv st -> xstep st st' -> relay_inv st'.
Proof.
  intros Hinv Hs. pose proof Hinv as [Hr Hp].
  destruct Hs as [now' js raw ps now dec Hle|hs data js raw ps now dec|m js raw ps now dec|pos e js raw ps now dec He Hd|i js raw ps now dec Hi
    |i sent pos e js js' o raw ps now dec Hi He Hd Ho|i sent js raw ps now dec Hi|i t o todo js js' m raw ps now dec Hi Hf
    |i t o todo js js' v raw ps now dec Hi Hf|i js raw ps now dec Hi|i js raw ps now dec];
    simpl in *; try (pose proof (part_at _ _ _ _ _ _ Hp Hi) as Hok; simpl in Hok).
  - assert (grows (mkRelay js raw ps now dec) (mkRelay js raw ps now' dec)) as Hg by grow.
    eapply grows_inv; [exact Hg|by left|exact (grows_parts _ _ _ Hg Hp)|exact Hinv].
  - set (st' := mkRelay js (raw ++ _) ps now dec). assert (grows (mkRelay js raw ps now dec) st') as Hg.
    { grow. intros pos e He. exists e. split; [by apply lookup_app_l_Some|done]. }
    eapply grows_inv; [exact Hg| |exact (grows_parts _ _ _ Hg Hp)|exact Hinv].
    intros pos e' [?|[_ He']]%lookup_app_Some; [by left|]. apply list_lookup_singleton_Some in He' as [_ <-].
    right. simpl. unfold bridgeMaxDeliver. split_and!; [lia..|done].
  - assert (grows (mkRelay js raw ps now dec) (mkRelay (PublishMsgAsync js m).1 raw ps now dec)) as Hg.
    { grow. intros x. apply submit_keeps_taken. }
    eapply grows_inv; [exact Hg|by left|exact (grows_parts _ _ _ Hg Hp)|exact Hinv].
  - set (st' := mkRelay js (alter redelivered pos raw) ps now dec). assert (grows (mkRelay js raw ps now dec) st') as Hg.
    { grow. intros p e' He'. by apply raw_alter. }
    eapply grows_inv; [exact Hg| |exact (grows_parts _ _ _ Hg Hp)|exact Hinv].
    intros p e' He'. destruct (redelivered_ok _ _ _ _ _ Hinv He Hd He') as [?|(? & ? & Hn)]; [by left|right]; simpl in *.
    split_and!; [lia..|by rewrite Hn].
  - eapply (grows_inv (mkRelay js raw ps now dec)); [grow|by left| |exact Hinv]. apply Forall_insert; [done|constructor].
  - by eapply submit_step_inv.
  - eapply (grows_inv (mkRelay js raw ps now dec)); [grow|by left| |exact Hinv]. by apply Forall_insert.
  - by eapply ack_step_inv.
  - apply Forall_cons in Hok as [_ Ht].
    eapply (grows_inv (mkRelay js raw ps now dec)); [grow; apply (finish_ok _ _ _ _ Hf)|by left| |exact Hinv]. by apply Forall_insert.
  - eapply (grows_inv (mkRelay js raw ps now dec)); [grow|by left| |exact Hinv]. by apply Forall_insert.
  - eapply (grows_inv (mkRelay js raw ps now dec)); [grow|by left| |exact Hinv]. by apply Forall_insert.
Qed.

Lemma xreach_inv st : xreach st -> relay_inv st.
Proof.
  induction 1 as [js n now|st st' _ IH Hs]; [|by eapply xstep_inv]. split; simpl; [done|by apply Forall_replicate].
Qed.

(** ** Lemmas: handleBatch is a run of these steps *)

(** The deliveries of a batch, given the positions in the order the server hands them out,
    and the stream after the verdicts of a batch. *)
Fixpoint hand_out (raw : list rawEntry) (poss : list nat) : option (list JMsg * list rawEntry) :=
  match poss with
  | [] => Some ([], raw)
  | pos :: rest =>
      match raw !! pos with
      | Some e =>
          if deliverable e then prod_map (cons (deliveryOf pos e)) id <$> hand_out (alter redelivered pos raw) rest else None
      | None => None
      end
  end.
Fixpoint settle_all (raw : list rawEntry) (vs : list verdict) : list rawEntry :=
  match vs with
  | [] => raw
  | VAck m :: vs' => settle_all (alter settled (posOf m) raw) vs'
  | VNak _ :: vs' => settle_all raw vs'
  end.

Lemma submitBatch_run now i poss : forall js raw ps dec sent msgs raw1 js1 os,
  ps !! i = Some (XSubmit sent) -> hand_out raw poss = Some (msgs, raw1) -> submitBatch cfg skew now js msgs = (js1, os) ->
  rtc xstep (mkRelay js raw ps now dec)
    (mkRelay js1 raw1 (<[i := XSubmit (sent ++ (pair now <$> os))]> ps) now (dec ++ ((fun pos => (pos, now)) <$> poss))).
Proof.
  induction poss as [|pos poss IH]; intros js raw ps dec sent msgs raw1 js1 os Hi; simpl.
  { intros [= <- <-] [= <- <-]. rewrite !app_nil_r, list_insert_id by done. reflexivity. }
  destruct (raw !! pos) as [e|] eqn:He; [|done]. destruct (deliverable e) eqn:Hd; [|done].
  destruct (hand_out _ poss) as [[ms raw2]|] eqn:Eh; [|done]. intros [= <- <-]. simpl.
  destruct (decodeAndSubmit cfg skew now js (deliveryOf pos e)) as [js2 o] eqn:Ed.
  destruct (submitBatch cfg skew now js2 ms) as [js3 os'] eqn:Eb. intros [= <- <-].
  eapply rtc_l; [by apply (x_submit i sent pos e js js2 o raw ps now dec)|].
  assert ((<[i := XSubmit (sent ++ [(now, o)])]> ps) !! i = Some (XSubmit (sent ++ [(now, o)]))) as Hi'.
  { by apply list_lookup_insert_eq, lookup_lt_Some with (XSubmit sent). }
  pose proof (IH _ _ _ (dec ++ [(pos, now)]) _ _ _ _ _ Hi' Eh Eb) as Hr. rewrite list_insert_insert_eq, <- !app_assoc in Hr. exact Hr.
Qed.

Lemma finishBatch_run now t i os : forall js raw ps dec js1 vs,
  ps !! i = Some (XFinish (pair t <$> os)) -> finishBatch js os = (js1, vs) ->
  rtc xstep (mkRelay js raw ps now dec) (mkRelay js1 (settle_all raw vs) (<[i := XFinish []]> ps) now dec).
Proof.
  induction os as [|o os IH]; intros js raw ps dec js1 vs Hi; simpl.
  { intros [= <- <-]. simpl. rewrite list_insert_id by done. reflexivity. }
  destruct (finish js o) as [js2 v] eqn:Ef. destruct (finishBatch js2 os) as [js3 vs'] eqn:Eb. intros [= <- <-].
  assert ((<[i := XFinish (pair t <$> os)]> ps) !! i = Some (XFinish (pair t <$> os))) as Hi'.
  { eapply list_lookup_insert_eq, lookup_lt_Some, Hi. }
  pose proof (fun raw => IH js2 raw _ dec _ _ Hi' Eb) as Hr. setoid_rewrite list_insert_insert_eq in Hr.
  destruct (finish_ok _ _ _ _ Ef) as [_ [->|(-> & _)]]; (eapply rtc_l; [|apply Hr]); simpl in Hi.
  - by eapply x_settle_lost.
  - by eapply x_ack.
Qed.

Lemma handleBatch_run now i poss js raw ps dec msgs raw1 js' vs :
  ps !! i = Some XFetch -> hand_out raw poss = Some (msgs, raw1) -> handleBatch cfg skew now js msgs = (js', vs) ->
  rtc xstep (mkRelay js raw ps now dec)
    (mkRelay js' (settle_all raw1 vs) ps now (dec ++ ((fun pos => (pos, now)) <$> poss))).
Proof.
  intros Hi Hh. unfold handleBatch. destruct (submitBatch cfg skew now js msgs) as [js1 os] eqn:Es. intros Ef.
  assert (i < length ps)%nat as Hl by (eapply lookup_lt_Some, Hi).
  eapply rtc_l; [by apply (x_fetch i)|]. etrans; [eapply submitBatch_run; [by apply list_lookup_insert_eq|done|done]|].
  eapply rtc_l; [apply (x_submitted i); apply list_lookup_insert_eq; by rewrite length_insert|].
  rewrite !list_insert_insert_eq. etrans; [eapply finishBatch_run; [by apply list_lookup_insert_eq|done]|].
  eapply rtc_l; [apply (x_done i); apply list_lookup_insert_eq; by rewrite length_insert|].
  rewrite !list_insert_insert_eq, list_insert_id by done. reflexivity.
Qed.

Lemma xreach_rtc st st' : rtc xstep st st' -> xreach st -> xreach st'.
Proof. induction 1 as [|st st1 st' Hs _ IH]; [done|]. intros Hr. apply IH. by eapply x_next. Qed.
End Relay.

(** ** Properties *)


(** ** Witness: a lost delivery, then a batch that settles the message *)

Definition relay_entry (n : Z) (acked : bool) : rawEntry := mkEntry (jm_Headers bridge_msg) (jm_Data bridge_msg) 9 n acked.
Definition relay_batch : decodedStream * list verdict :=
  @handleBatch sample_lib map_headers decoded_js sample_decoder bridge_cfg 300 9 (mkDecoded [] []) [deliveryOf 0 (relay_entry 1 false)].
Definition relay_end : @relay decoded_js :=
  @mkRelay decoded_js relay_batch.1 (settle_all [relay_entry 2 false] relay_batch.2) [XFetch] 9 [(0%nat, 9)].

Lemma relay_end_reached : @xreach sample_lib map_headers decoded_js sample_decoder bridge_cfg 300 relay_end.
Proof.
  eapply (@xreach_rtc sample_lib map_headers decoded_js sample_decoder); [|apply (x_init _ _ (mkDecoded [] [] : @wal decoded_js) 1 9)].
  eapply rtc_l; [apply (x_accept _ _ (jm_Headers bridge_msg) (jm_Data bridge_msg))|].
  eapply rtc_l; [by apply (x_lost _ _ 0%nat (relay_entry 0 false))|].
  apply (@handleBatch_run sample_lib map_headers decoded_js sample_decoder bridge_cfg 300 decoded_js_laws 9 0%nat [0%nat]
           (mkDecoded [] [] : @wal decoded_js) [relay_entry 1 false] [XFetch] [] [deliveryOf 0 (relay_entry 1 false)] [relay_entry 2 false]
           relay_batch.1 relay_batch.2); [done|done|]. apply surjective_pairing.
Qed.

