(* ===== verification/Config.v ===== *)
(** * Package config and the wiring of cmd/din: settings and what follows from them

    internal/config/config.go and the parts of cmd/din/main.go that derive one
    component's configuration from the settings. The environment is an argument
    (os.Getenv as a function, the empty text for an unset variable), go-ethereum's
    address helpers are [EthLib]. Durations are time.Duration: nanoseconds, 64 bit. *)

From S2P Require Import Prelude GoStd Float CloudEvent Stream Publisher LakeWriter Blob Sink Maintain LakeSQL.

(** ** strconv and time *)

Definition digit_val (c : Ascii.ascii) : Z := byte_val c - 48.

(** strconv.ParseUint(v, 10, 64). *)
Fixpoint parseDigits (x : Z) (s : string) : option Z :=
  match s with
  | "" => Some x
  | String c s' => if is_digit c then parseDigits (x * 10 + digit_val c) s' else None
  end.
Definition parse_error (v why : string) : error :=
  ENew ("strconv.ParseUint: parsing " +:+ fmt_q v +:+ ": " +:+ why).
Definition ParseUint (v : string) : result Z :=
  if v =?s "" then Err (parse_error v "invalid syntax")
  else match parseDigits 0 v with
       | None => Err (parse_error v "invalid syntax")
       | Some n => if n <? 2 ^ 64 then Ok n else Err (parse_error v "value out of range")
       end.

(** strconv.ParseBool; None is the error. *)
Definition ParseBool (v : string) : option bool :=
  if bool_decide (v ∈ ["1"; "t"; "T"; "true"; "TRUE"; "True"]) then Some true
  else if bool_decide (v ∈ ["0"; "f"; "F"; "false"; "FALSE"; "False"]) then Some false
  else None.

(** time.ParseDuration. *)
Fixpoint leadingInt (x : Z) (s : string) : option (Z * string) :=
  match s with
  | "" => Some (x, "")
  | String c s' =>
      if negb (is_digit c) then Some (x, s)
      else if 2 ^ 63 / 10 <? x then None
      else let x := x * 10 + digit_val c in if 2 ^ 63 <? x then None else leadingInt x s'
  end.

(** The digits after the point; further ones are skipped once they overflow. *)
Fixpoint leadingFraction (x scale : Z) (overflow : bool) (s : string) : Z * Z * string :=
  match s with
  | "" => (x, scale, "")
  | String c s' =>
      if negb (is_digit c) then (x, scale, s)
      else if overflow || ((2 ^ 63 - 1) / 10 <? x) then leadingFraction x scale true s'
      else let y := x * 10 + digit_val c in
           if 2 ^ 63 <? y then leadingFraction x scale true s' else leadingFraction y (scale * 10) false s'
  end.

Definition is_numeric (c : Ascii.ascii) : bool := Ascii.eqb c (chr ".") || is_digit c.
Fixpoint unitText (s : string) : string * string :=
  match s with
  | "" => ("", "")
  | String c s' => if is_numeric c then ("", s) else let '(u, k) := unitText s' in (String c u, k)
  end.
Definition unitMap (u : string) : option Z :=
  if u =?s "ns" then Some 1 else if (u =?s "us") || (u =?s "µs") || (u =?s "μs") then Some 1000
  else if u =?s "ms" then Some Millisecond else if u =?s "s" then Some Second
  else if u =?s "m" then Some Minute else if u =?s "h" then Some Hour else None.

Definition bad_duration (orig : string) : error := ENew ("time: invalid duration " +:+ fmt_q orig).

(** uint64(float64(f) * (float64(unit) / scale)) *)
Definition fractionOf (f unit scale : Z) : Z :=
  match round64 f 1, round64 unit scale with
  | Fin x, Fin y =>
      match round64 (numOf x * numOf y) (denOf x * denOf y) with Fin z => numOf z / denOf z | _ => 0 end
  | _, _ => 0
  end.

(** One number and its unit per round; each takes at least one byte, so the
    length is enough fuel. *)
Fixpoint durationLoop (fuel : nat) (orig s : string) (d : Z) : result Z :=
  match fuel, s with
  | _, "" => Ok d
  | O, _ => Err (bad_duration orig)
  | S fuel', String c _ =>
      if negb (is_numeric c) then Err (bad_duration orig)
      else match leadingInt 0 s with
           | None => Err (bad_duration orig)
           | Some (v, s1) =>
               let pre := negb (strlen s =? strlen s1) in
               let '(f, scale, s2, post) :=
                 match s1 with
                 | String p s' => if Ascii.eqb p (chr ".") then
                     let '(f, scale, s2) := leadingFraction 0 1 false s' in (f, scale, s2, negb (strlen s' =? strlen s2))
                     else (0, 1, s1, false)
                 | "" => (0, 1, s1, false)
                 end in
               if negb pre && negb post then Err (bad_duration orig)
               else let '(u, s3) := unitText s2 in
                 if u =?s "" then Err (ENew ("time: missing unit in duration " +:+ fmt_q orig))
                 else match unitMap u with
                      | None => Err (ENew ("time: unknown unit " +:+ fmt_q u +:+ " in duration " +:+ fmt_q orig))
                      | Some unit =>
                          if 2 ^ 63 / unit <? v then Err (bad_duration orig)
                          else let v := v * unit + fractionOf f unit scale in
                            if 2 ^ 63 <? v then Err (bad_duration orig)
                            else if 2 ^ 63 <? d + v then Err (bad_duration orig)
                            else durationLoop fuel' orig s3 (d + v)
                      end
           end
  end.
Definition ParseDuration (orig : string) : result Z :=
  let '(neg, s) := match orig with
                   | String c s' => if Ascii.eqb c (chr "-") then (true, s')
                                    else if Ascii.eqb c (chr "+") then (false, s') else (false, orig)
                   | "" => (false, "")
                   end in
  if s =?s "0" then Ok 0
  else if s =?s "" then Err (bad_duration orig)
  else
    d ← durationLoop (String.length s) orig s 0;
    if (neg : bool) then Ok (- d)
    else if 2 ^ 63 - 1 <? d then Err (bad_duration orig) else Ok d.

Example ParseDuration_examples :
  ParseDuration "5m" = Ok (5 * Minute) /\ ParseDuration "1h30m" = Ok (90 * Minute) /\
  ParseDuration "-1.5s" = Ok (- (1500 * Millisecond)) /\ is_ok (ParseDuration "5") = false.
Proof. repeat split. Qed.

(** ** Settings *)

Module config.

Record Settings := mkSettings {
  LogLevel : string; ConnectionAddr : string; AttestationAddr : string; OpsAddr : string;
  TLSCertFile : string; TLSKeyFile : string; TLSClientCAFile : string;
  MaxBodyBytes : Z; RateLimitRPS : Z; RateLimitBurst : Z;
  TokenExchangeIssuer : string; TokenExchangeKeySetURL : string;
  ChainID : Z; VehicleNFTAddress : string; AftermarketNFTAddress : string; SyntheticNFTAddress : string;
  RPCURL : string;
  NATSMode : string; NATSURL : string; NATSStoreDir : string; NATSReplicas : Z;
  NATSStreamPartitions : Z; NATSStreamMaxBytes : Z; SignalsMaxBytes : Z; EventsMaxBytes : Z;
  BlobBucket : string; BlobPrefix : string; BlobEncryptionKey : string; DocumentSizeLimit : Z;
  S3Region : string; S3AccessKeyID : string; S3SecretAccessKey : string; S3Endpoint : string; S3KMSKeyID : string;
  LakeCatalogDSN : string; LakeDataPath : string; LakeTempDirectory : string; LakeMemoryLimit : string;
  LakeThreads : Z; LakeTargetFileSize : string; LakeRowGroupSize : Z; LakeParquetVersion : string;
  LakeCompression : string; LakeExtensionDir : string; LakeEncryptionEnabled : bool;
  LakeMaintenanceEnabled : bool; LakeMaintInterval : Z; LakeSnapshotKeep : Z; LakeConsumerStaleness : Z;
  LakeOrphanRetention : Z; LakeCleanupGrace : Z; LakeWriterConnections : Z; LakeMergeMaxFilesPerCall : Z;
  LakeRewriteDeleteThreshold : float;
  SinkMaxRowsPerFlush : Z; SinkMaxBytesPerFlush : Z; SinkMinFlushBytes : Z; SinkMaxAge : Z; SinkMaxAgeHard : Z;
  SinkWorkers : Z; SinkDrainTimeout : Z;
  DecodeStreamEnabled : bool; FingerprintValidation : bool; AllowableTimeSkew : Z
}.

Section Load.
Context `{EthLib}.
Variable getenv : string -> string.

Definition env (key def : string) : string := if getenv key =?s "" then def else getenv key.

Definition envUint (key : string) (def : Z) : result Z :=
  if getenv key =?s "" then Ok def
  else wrap_err (fun e => EWrap ("parsing " +:+ key +:+ ": ") e "") (ParseUint (getenv key)).

Definition envFloat (key : string) (def : float) : result float :=
  if getenv key =?s "" then Ok def
  else wrap_err (fun e => EWrap ("parsing " +:+ key +:+ ": ") e "") (ParseFloat (getenv key)).

Definition envDuration (key : string) (def : Z) : result Z :=
  if getenv key =?s "" then Ok def
  else wrap_err (fun e => EWrap ("parsing " +:+ key +:+ ": ") e "") (ParseDuration (getenv key)).

Definition envBool (key : string) (def : bool) : bool :=
  if getenv key =?s "" then def else default def (ParseBool (getenv key)).

(** common.Address{} is what HexToAddress makes of an empty text. *)
Definition zeroAddress : string := HexToAddress "".

Definition envAddress (key : string) : result string :=
  let v := getenv key in
  if v =?s "" then Err (ENew (key +:+ " is required"))
  else if negb (IsHexAddress v) then Err (ENew (key +:+ " is not a valid address: " +:+ fmt_q v))
  else if HexToAddress v =?s zeroAddress then Err (ENew (key +:+ " must not be the zero address"))
  else Ok (HexToAddress v).

Definition isKMSKeyARN (v : string) : bool := HasPrefix v "arn:" && Contains v ":kms:".

Definition validateMaintenance (staleness keep : Z) : result unit :=
  reject_if (staleness >=? keep)
    (ENew ("LAKE_CONSUMER_STALENESS (" +:+ DurationString staleness +:+ ") must be less than LAKE_SNAPSHOT_RETENTION (" +:+
      DurationString keep +:+ ")")).

(** The checks of Load on the strings it read; the two paths are looked at in the
    order of a Go map, so which of two bad ones is named is open. *)
Definition checkPaths (dsn data bucket kms key : string) : result unit :=
  _ ← reject_if (dsn =?s "") (ENew "DUCKLAKE_CATALOG_DSN is required (PostgreSQL DSN, or a local catalog file path for single-node)");
  _ ← reject_if (data =?s "") (ENew "DUCKLAKE_DATA_PATH is required (s3://bucket/prefix/ or absolute local path)");
  _ ← reject_if (HasPrefix data ".") (ENew ("DUCKLAKE_DATA_PATH must not be a relative path, got " +:+ fmt_q data));
  _ ← reject_if (HasPrefix bucket ".") (ENew ("BLOB_BUCKET must not be a relative path, got " +:+ fmt_q bucket));
  _ ← reject_if (nonempty kms && negb (isKMSKeyARN kms))
        (ENew ("S3_KMS_KEY_ID must be a KMS key ARN (arn:aws:kms:...), got " +:+ fmt_q kms));
  reject_if (nonempty key && negb (match b64_DecodeString key with Some k => strlen k =? 32 | None => false end))
    (ENew "BLOB_ENCRYPTION_KEY must be base64 of exactly 32 bytes (AES-256)").

Definition Load : result Settings :=
  chainID ← envUint "DIMO_REGISTRY_CHAIN_ID" 137;
  vehicle ← envAddress "VEHICLE_NFT_ADDRESS";
  aftermarket ← envAddress "AFTERMARKET_NFT_ADDRESS";
  synthetic ← envAddress "SYNTHETIC_NFT_ADDRESS";
  docLimit ← envUint "DOCUMENT_SIZE_THRESHOLD" (Z.shiftl 1 20);
  maxBody ← envUint "MAX_BODY_BYTES" (Z.shiftl 32 20);
  rps ← envUint "RATE_LIMIT_RPS" 0;
  burst ← envUint "RATE_LIMIT_BURST" 100;
  replicas ← envUint "NATS_REPLICAS" 1;
  parts ← envUint "NATS_STREAM_PARTITIONS" 1;
  _ ← reject_if ((parts <? 1) || (256 <? parts)) (ENew ("NATS_STREAM_PARTITIONS must be 1..256, got " +:+ fmt_d parts));
  maxBytes ← envUint "NATS_STREAM_MAX_BYTES" 0;
  signalsMax ← envUint "SIGNALS_MAX_BYTES" 0;
  eventsMax ← envUint "EVENTS_MAX_BYTES" 0;
  threads ← envUint "DUCKDB_THREADS" 0;
  maintInterval ← envDuration "LAKE_MAINTENANCE_INTERVAL" (15 * Minute);
  snapshotKeep ← envDuration "LAKE_SNAPSHOT_RETENTION" (72 * Hour);
  consumerStaleness ← envDuration "LAKE_CONSUMER_STALENESS" Hour;
  orphanRetention ← envDuration "LAKE_ORPHAN_RETENTION" (7 * 24 * Hour);
  cleanupGrace ← envDuration "LAKE_CLEANUP_GRACE" (30 * Minute);
  writerConns ← envUint "LAKE_WRITER_CONNECTIONS" 2;
  rowGroupSize ← envUint "LAKE_ROW_GROUP_SIZE" 16384;
  mergeMaxFiles ← envUint "LAKE_MERGE_MAX_FILES_PER_CALL" 0;
  rewriteThreshold ← envFloat "LAKE_REWRITE_DELETE_THRESHOLD" fzero;
  sinkRows ← envUint "SINK_MAX_ROWS_PER_FLUSH" 0;
  sinkBytes ← envUint "SINK_MAX_BYTES_PER_FLUSH" 0;
  sinkMin ← envUint "SINK_MIN_FLUSH_BYTES" 0;
  sinkAge ← envDuration "SINK_MAX_AGE" 0;
  sinkAgeHard ← envDuration "SINK_MAX_AGE_HARD" 0;
  sinkWorkers ← envUint "SINK_WORKERS" 0;
  sinkDrain ← envDuration "SINK_DRAIN_TIMEOUT" 0;
  skew ← wrap_err (fun e => EWrap "parsing ALLOWABLE_TIME_SKEW: " e "") (ParseDuration (env "ALLOWABLE_TIME_SKEW" "5m"));
  _ ← checkPaths (getenv "DUCKLAKE_CATALOG_DSN") (getenv "DUCKLAKE_DATA_PATH") (getenv "BLOB_BUCKET")
        (getenv "S3_KMS_KEY_ID") (getenv "BLOB_ENCRYPTION_KEY");
  _ ← validateMaintenance consumerStaleness snapshotKeep;
  Ok {| LogLevel := env "LOG_LEVEL" "info"; ConnectionAddr := env "DIS_CONNECTION_ADDRESS" "0.0.0.0:9443";
        AttestationAddr := env "DIS_ATTESTATION_ADDRESS" "0.0.0.0:9442"; OpsAddr := env "OPS_ADDRESS" "0.0.0.0:8080";
        TLSCertFile := getenv "TLS_CERT_FILE"; TLSKeyFile := getenv "TLS_KEY_FILE";
        TLSClientCAFile := getenv "TLS_CA_CERT_FILE";
        MaxBodyBytes := int64 maxBody; RateLimitRPS := rps; RateLimitBurst := int64 burst;
        TokenExchangeIssuer := getenv "TOKEN_EXCHANGE_ISSUER_URL";
        TokenExchangeKeySetURL := getenv "TOKEN_EXCHANGE_JWK_KEY_SET_URL";
        ChainID := chainID; VehicleNFTAddress := vehicle; AftermarketNFTAddress := aftermarket;
        SyntheticNFTAddress := synthetic; RPCURL := getenv "RPC_URL";
        NATSMode := env "NATS_MODE" "external"; NATSURL := env "NATS_URL" "nats://localhost:4222";
        NATSStoreDir := env "NATS_STORE_DIR" "/data/nats"; NATSReplicas := int64 replicas;
        NATSStreamPartitions := int64 parts; NATSStreamMaxBytes := int64 maxBytes;
        SignalsMaxBytes := int64 signalsMax; EventsMaxBytes := int64 eventsMax;
        BlobBucket := getenv "BLOB_BUCKET"; BlobPrefix := env "BLOB_PREFIX" "cloudevent/blobs/";
        BlobEncryptionKey := getenv "BLOB_ENCRYPTION_KEY"; DocumentSizeLimit := int64 docLimit;
        S3Region := getenv "S3_AWS_REGION"; S3AccessKeyID := getenv "S3_AWS_ACCESS_KEY_ID";
        S3SecretAccessKey := getenv "S3_AWS_SECRET_ACCESS_KEY"; S3Endpoint := getenv "S3_ENDPOINT";
        S3KMSKeyID := getenv "S3_KMS_KEY_ID";
        LakeCatalogDSN := getenv "DUCKLAKE_CATALOG_DSN"; LakeDataPath := getenv "DUCKLAKE_DATA_PATH";
        LakeTempDirectory := getenv "DUCKDB_TEMP_DIRECTORY"; LakeMemoryLimit := getenv "DUCKDB_MEMORY_LIMIT";
        LakeThreads := int64 threads; LakeTargetFileSize := env "LAKE_TARGET_FILE_SIZE" "512MB";
        LakeRowGroupSize := int64 rowGroupSize; LakeParquetVersion := env "LAKE_PARQUET_VERSION" "2";
        LakeCompression := env "LAKE_COMPRESSION" "snappy"; LakeExtensionDir := getenv "DUCKDB_EXTENSION_DIR";
        LakeEncryptionEnabled := envBool "LAKE_ENCRYPTION_ENABLED" false;
        LakeMaintenanceEnabled := envBool "LAKE_MAINTENANCE_ENABLED" false;
        LakeMaintInterval := maintInterval; LakeSnapshotKeep := snapshotKeep; LakeConsumerStaleness := consumerStaleness;
        LakeOrphanRetention := orphanRetention; LakeCleanupGrace := cleanupGrace;
        LakeWriterConnections := Z.max (int64 writerConns) 1; LakeMergeMaxFilesPerCall := int64 mergeMaxFiles;
        LakeRewriteDeleteThreshold := rewriteThreshold;
        SinkMaxRowsPerFlush := sinkRows; SinkMaxBytesPerFlush := sinkBytes; SinkMinFlushBytes := sinkMin;
        SinkMaxAge := sinkAge; SinkMaxAgeHard := sinkAgeHard; SinkWorkers := sinkWorkers; SinkDrainTimeout := sinkDrain;
        DecodeStreamEnabled := envBool "DECODESTREAM_ENABLED" true;
        FingerprintValidation := envBool "FINGERPRINT_VALIDATION" true; AllowableTimeSkew := skew |}.
End Load.
End config.

(** ** cmd/din: what each component is configured with *)

Module wiring.
Import config.

Definition lakeConfig (s : Settings) : LakeConfig := {|
  CatalogDSN := LakeCatalogDSN s; DataPath := LakeDataPath s;
  LakeSQL.S3Region := S3Region s; LakeSQL.S3AccessKeyID := S3AccessKeyID s;
  LakeSQL.S3SecretAccessKey := S3SecretAccessKey s; LakeSQL.S3Endpoint := S3Endpoint s;
  LakeSQL.S3KMSKeyID := S3KMSKeyID s; Encrypted := LakeEncryptionEnabled s;
  MemoryLimit := LakeMemoryLimit s; Threads := LakeThreads s; TargetFileSize := LakeTargetFileSize s;
  RowGroupSize := LakeRowGroupSize s; Compression := LakeCompression s; ParquetVersion := LakeParquetVersion s;
  ExtensionDir := LakeExtensionDir s; TempDirectory := LakeTempDirectory s;
  MaxConns := int64 (int64 (NATSStreamPartitions s * LakeWriterConnections s) + 2) |}.

(** The memory limit goes to the maintainer as text, see Maintain. *)
Definition maintConfig (s : Settings) : MaintConfig :=
  mkMaint (LakeMaintInterval s) (LakeSnapshotKeep s) (LakeConsumerStaleness s) (LakeOrphanRetention s)
    (LakeCleanupGrace s) (LakeMergeMaxFilesPerCall s) (LakeRewriteDeleteThreshold s).

Definition sinkConfig (s : Settings) (podSinks : Z) : Sink.Config := {|
  MaxRowsPerFlush := int64 (SinkMaxRowsPerFlush s); MaxBytesPerFlush := int64 (SinkMaxBytesPerFlush s);
  MaxBufferedBytes := 0; PodSinks := podSinks; MaxAge := SinkMaxAge s;
  MinFlushBytes := int64 (SinkMinFlushBytes s); MaxAgeHard := SinkMaxAgeHard s; Workers := int64 (SinkWorkers s);
  FetchBatch := 0; DrainTimeout := SinkDrainTimeout s; Name := ""; FlushTimeout := 0; CommitFailureWindow := 0 |}.

(** AckWait of the sink consumers. *)
Definition ackWait (s : Settings) : Z :=
  let hardCap := if SinkMaxAgeHard s <=? 0 then DefaultMaxAgeHard else SinkMaxAgeHard s in
  int64 (hardCap + 3 * Minute).

(** jetstream.ConsumerConfig, the fields run sets; acks are explicit. *)
Record ConsumerConfig := mkConsumer {
  Durable : string; AckWait : Z; MaxAckPending : Z; MaxDeliver : Z; BackOff : list Z
}.

(** The durable name of partition [i] of [n]. *)
Definition durableName (n : Z) (i : Z) : string :=
  if 1 <? n then "parquet-sink-p" +:+ fmt_0d 3 i else "parquet-sink".

Definition sinkConsumer (s : Settings) (n i : Z) : ConsumerConfig := {|
  Durable := durableName n i; AckWait := ackWait s; MaxAckPending := 250000; MaxDeliver := 1000;
  BackOff := [ackWait s; int64 (ackWait s + 10 * Minute); 30 * Minute] |}.

Definition set_Name_FlushTimeout (c : Sink.Config) (name : string) (flushTimeout : Z) : Sink.Config :=
  mkConfig (MaxRowsPerFlush c) (MaxBytesPerFlush c) (MaxBufferedBytes c) (PodSinks c) (MaxAge c) (MinFlushBytes c)
    (MaxAgeHard c) (Workers c) (FetchBatch c) (DrainTimeout c) name flushTimeout (CommitFailureWindow c).

(** The configuration of the sink of partition [i] of [n]. *)
Definition partitionSink (s : Settings) (n i : Z) : Sink.Config :=
  let cfg := sinkConfig s n in
  let ft := int64 (ackWait s - Minute) in
  set_Name_FlushTimeout cfg (durableName n i) (if ft <? 5 * Minute then ft else FlushTimeout cfg).

(** The stream configuration run passes to EnsureStreams. *)
Definition streamConfig (s : Settings) : WALConfig :=
  let d := DefaultConfig in
  mkWALConfig (NATSReplicas s) (Stream.MaxAge d) (NATSStreamMaxBytes s) (DuplicateWindow d) (NATSStreamPartitions s).

(** runSubcommand: which command the arguments name. *)
Inductive subcommand := InstallExtensions (dir : string) | RunMaintenance | LakeBackfill (source : string).
Definition runSubcommand (arg0 : string) (args : list string) : result subcommand :=
  if arg0 =?s "install-duckdb-extensions" then
    match args with
    | [dir] => Ok (InstallExtensions dir)
    | _ => Err (ENew "usage: din install-duckdb-extensions <dir>")
    end
  else if arg0 =?s "maintain" then Ok RunMaintenance
  else if arg0 =?s "lake-backfill" then
    match args with
    | [source] => Ok (LakeBackfill source)
    | _ => Err (ENew "usage: din lake-backfill <s3://bucket/prefix/ | /abs/dir>")
    end
  else Err (ENew ("unknown subcommand " +:+ fmt_q arg0)).

(** strings.Cut(s, "/") and strings.TrimSuffix(s, "/"). *)
Fixpoint cutSlash (s : string) : string * string :=
  match s with
  | "" => ("", "")
  | String c s' => if Ascii.eqb c (chr "/") then ("", s') else let '(a, b) := cutSlash s' in (String c a, b)
  end.
Definition trimSlash (s : string) : string :=
  if HasSuffix s "/" then String.substring 0 (String.length s - 1) s else s.

(** lakeBackfill: bucket, prefix and URI base of the source, and the paths of the
    objects listed under it. *)
Definition backfillSource (source : string) : result (string * string * string) :=
  match CutPrefix source "s3://" with
  | Some after => let '(bucket, prefix) := cutSlash after in Ok (bucket, prefix, "s3://" +:+ bucket +:+ "/")
  | None =>
      if IsLocalPath source then Ok (source, "", trimSlash (LocalRoot source) +:+ "/")
      else Err (ENew ("source must be s3://bucket/prefix/ or an absolute path, got " +:+ fmt_q source))
  end.
Definition backfillFiles (uriBase : string) (keys : list string) : list string := (fun key => uriBase +:+ key) <$> keys.

(** run: the steps that can fail, in order, and what each leaves to a deferred
    release. A step of partition [i] is one per raw stream. *)
Inductive bootStep :=
| StartEmbeddedNATS | ConnectEmbedded | ConnectExternal | NewJetStream | EnsureRawStreams | AttachLake
| RequireBlobBucket | NewBlobStore | NewVerifier | NewConnectionSrv | NewAttestationSrv
| CreateSinkConsumer (i : Z) | PinWriter (i : Z) | NewBridgeJetStream | EnsureDecodedStreams.
Inductive release := ShutdownNATS | CloseConnNATS | CloseLake | CloseWriter (i : Z).

Definition deferred (b : bootStep) : option release :=
  match b with
  | StartEmbeddedNATS => Some ShutdownNATS
  | ConnectEmbedded | ConnectExternal => Some CloseConnNATS
  | AttachLake => Some CloseLake
  | PinWriter i => Some (CloseWriter i)
  | _ => None
  end.

Definition bootPlan (s : Settings) : list bootStep :=
  (if NATSMode s =?s "embedded" then [StartEmbeddedNATS; ConnectEmbedded] else [ConnectExternal]) ++
  [NewJetStream; EnsureRawStreams; AttachLake; RequireBlobBucket; NewBlobStore; NewVerifier;
   NewConnectionSrv; NewAttestationSrv] ++
  concat ((fun i => [CreateSinkConsumer (Z.of_nat i); PinWriter (Z.of_nat i)]) <$> seq 0 (Z.to_nat (NATSStreamPartitions s))) ++
  when (DecodeStreamEnabled s) [NewBridgeJetStream; EnsureDecodedStreams].

(** RequireBlobBucket is a check of the settings, the other steps return what
    [attempt] says. *)
Definition stepErr (s : Settings) (attempt : bootStep -> option error) (b : bootStep) : option error :=
  match b with
  | RequireBlobBucket => if BlobBucket s =?s "" then Some (ENew "BLOB_BUCKET is required") else None
  | _ => attempt b
  end.

(** Running the plan. The result: was the
    readiness gate opened, the releases in the order they run, the error. [wait]
    is what group.Wait returns once everything runs. *)
Fixpoint bootLoop (attempt : bootStep -> option error) (wait : option error) (steps : list bootStep)
    (defers : list release) : bool * list release * option error :=
  match steps with
  | [] => (true, defers, wait)
  | b :: steps' =>
      match attempt b with
      | Some e => (false, defers, Some e)
      | None => bootLoop attempt wait steps' (match deferred b with Some r => r :: defers | None => defers end)
      end
  end.
Definition boot (s : Settings) (attempt : bootStep -> option error) (wait : option error) :=
  bootLoop (stepErr s attempt) wait (bootPlan s) [].
End wiring.

(** ** Lemmas *)

Import config wiring.

Lemma int64_id z : - 2 ^ 63 <= z < 2 ^ 63 -> int64 z = z.
Proof. intros Hz. unfold int64. rewrite Z.mod_small by lia. lia. Qed.

(** Take a successful chain of binds apart. *)
Ltac bind_ok H :=
  repeat lazymatch type of H with
  | mbind _ _ = Ok _ => let E := fresh "E" in let x := fresh "x" in apply result_bind_Ok in H as (x & E & H)
  end.

Lemma envAddress_Ok `{EthLib} getenv key a :
  envAddress getenv key = Ok a -> a <> zeroAddress /\ IsHexAddress (getenv key) = true /\ a = HexToAddress (getenv key).
Proof.
  unfold envAddress. destruct (_ =?s ""); [done|]. destruct (IsHexAddress (getenv key)); simpl; [|done].
  destruct (_ =?s zeroAddress) eqn:E; [done|]. intros [= <-]. by apply String.eqb_neq in E.
Qed.

Lemma checkPaths_Ok dsn data bucket kms key u :
  checkPaths dsn data bucket kms key = Ok u ->
  dsn <> "" /\ data <> "" /\ HasPrefix data "." = false /\ HasPrefix bucket "." = false /\
  (kms = "" \/ isKMSKeyARN kms = true) /\ exists c, NewCipher key = Ok c.
Proof.
  unfold checkPaths. intros Hc. bind_ok Hc.
  repeat match goal with H : reject_if _ _ = Ok _ |- _ => apply reject_if_Ok' in H end. unfold NewCipher, nonempty in *.
  repeat match goal with H : _ && _ = false |- _ => apply andb_false_iff in H end.
  bool_to_prop. split_and!; try done.
  - destruct E3 as [?%negb_false_iff|?%negb_false_iff]; bool_to_prop; auto.
  - destruct (key =?s ""); [by eexists|]. simpl in Hc. destruct Hc as [|Hc%negb_false_iff]; [done|].
    destruct (b64_DecodeString key) as [k|]; [|done]. rewrite Hc. by eexists.
Qed.

(** ** Properties *)

(** What Load guarantees to the rest of the node: 1 to 256 partitions, at
    least one writer connection, three NFT addresses that are addresses and not the
    zero address, a catalog and an absolute or s3 data path, an ARN for a KMS key,
    a blob key the cipher accepts, and a staleness below the snapshot retention. *)
Theorem Load_sound `{EthLib} getenv s :
  Load getenv = Ok s ->
  1 <= NATSStreamPartitions s <= 256 /\ 1 <= LakeWriterConnections s /\
  Forall (fun a => a <> zeroAddress) [VehicleNFTAddress s; AftermarketNFTAddress s; SyntheticNFTAddress s] /\
  LakeCatalogDSN s <> "" /\ LakeDataPath s <> "" /\
  HasPrefix (LakeDataPath s) "." = false /\ HasPrefix (BlobBucket s) "." = false /\
  (S3KMSKeyID s = "" \/ isKMSKeyARN (S3KMSKeyID s) = true) /\
  (exists c, NewCipher (BlobEncryptionKey s) = Ok c) /\
  LakeConsumerStaleness s < LakeSnapshotKeep s.
Proof.
  unfold Load. intros Hl.
  bind_ok Hl.
  injection Hl as <-. cbn [NATSStreamPartitions LakeWriterConnections VehicleNFTAddress AftermarketNFTAddress
    SyntheticNFTAddress LakeCatalogDSN LakeDataPath BlobBucket S3KMSKeyID BlobEncryptionKey LakeConsumerStaleness LakeSnapshotKeep].
  repeat match goal with
    | H : envAddress _ _ = Ok _ |- _ => apply envAddress_Ok in H as (? & ? & ?)
    | H : checkPaths _ _ _ _ _ = Ok _ |- _ => apply checkPaths_Ok in H as (? & ? & ? & ? & ? & ?)
    | H : validateMaintenance _ _ = Ok _ |- _ => apply reject_if_Ok' in H
    | H : reject_if _ _ = Ok _ |- _ => apply reject_if_Ok' in H
    end.
  bool_to_prop. split_and!; try done; try (rewrite int64_id; lia); try lia.
  by repeat constructor.
Qed.

(** The hard cap and the flush timeout a sink of the node runs with. *)
Lemma partitionSink_effective s n i :
  0 <= SinkMaxAgeHard s < 2 ^ 62 ->
  let c := Sink.applyDefaults (partitionSink s n i) in
  let cap := MaxAgeHard c in
  0 < cap /\ (cap = SinkMaxAgeHard s \/ SinkMaxAgeHard s = 0 /\ cap = DefaultMaxAgeHard) /\
  ackWait s = cap + 3 * Minute /\
  FlushTimeout c = Z.min (5 * Minute) (cap + 2 * Minute).
Proof.
  intros Hs. cbn [Sink.applyDefaults MaxAgeHard FlushTimeout partitionSink set_Name_FlushTimeout sinkConfig].
  unfold ackWait, or_default. assert (Hd : DefaultMaxAgeHard = 5 * Minute) by done.
  assert (Hm : Minute = 60000000000) by done. rewrite Hd.
  destruct (SinkMaxAgeHard s <=? 0) eqn:E0; bool_to_prop.
  - replace (SinkMaxAgeHard s) with 0 by lia. rewrite Hm. vm_compute. naive_solver.
  - replace (SinkMaxAgeHard s =? 0) with false by (symmetry; apply Z.eqb_neq; lia).
    rewrite !int64_id by lia. destruct (_ <? 5 * Minute) eqn:E5; bool_to_prop.
    + replace (SinkMaxAgeHard s + 3 * Minute - Minute =? 0) with false by (symmetry; apply Z.eqb_neq; lia). split_and!; lia.
    + simpl. split_and!; lia.
Qed.

(** The consumer of a sink outlasts the buffer it feeds: AckWait is the
    sink's hard flush cap and three minutes, so a message that waits for the cap is
    not redelivered before its flush starts; the first two back-off steps are no
    shorter than AckWait; and the timeout of a flush is below AckWait, whatever
    hard cap the operator sets. *)
Theorem sink_timeouts_ordered s n i :
  0 <= SinkMaxAgeHard s < 2 ^ 62 ->
  let c := Sink.applyDefaults (partitionSink s n i) in
  let k := sinkConsumer s n i in
  MaxAgeHard c + 3 * Minute = AckWait k /\
  0 < FlushTimeout c < AckWait k /\
  (exists b rest, BackOff k = AckWait k :: b :: rest /\ AckWait k < b) /\
  Durable k = Sink.Name c.
Proof.
  intros Hs c k. destruct (partitionSink_effective s n i Hs) as (Hc & Hcap & Ha & Hf). fold c in Hc, Ha, Hf, Hcap.
  assert (Hm : Minute = 60000000000) by done. assert (Hd : DefaultMaxAgeHard = 5 * Minute) by done.
  change (AckWait k) with (ackWait s). split_and!; [lia..| |].
  - eexists _, _. split; [reflexivity|]. rewrite int64_id by lia. lia.
  - unfold c, k. cbn [Sink.applyDefaults Sink.Name partitionSink set_Name_FlushTimeout Durable sinkConsumer].
    unfold durableName. by destruct (1 <? n).
Qed.

(** A flush the sink allows can outlive AckWait. AckWait runs from delivery
    while the flush timeout runs from the start of the flush; a message buffered up
    to the hard cap whose flush uses its whole timeout is settled after AckWait,
    hence redelivered while its bundle still commits, exactly when the hard cap is
    above one minute (the default is five). *)
Theorem flush_deadline_past_ackwait s n i :
  0 <= SinkMaxAgeHard s < 2 ^ 62 ->
  let c := Sink.applyDefaults (partitionSink s n i) in
  AckWait (sinkConsumer s n i) < MaxAgeHard c + FlushTimeout c <-> Minute < MaxAgeHard c.
Proof.
  intros Hs c. destruct (partitionSink_effective s n i Hs) as (Hc & _ & Ha & Hf). fold c in Hc, Ha, Hf.
  change (AckWait (sinkConsumer s n i)) with (ackWait s). assert (Hm : Minute = 60000000000) by done. lia.
Qed.

(** What becomes of the staleness rule. The maintainer runs with a staleness
    below its snapshot retention, as validateMaintenance demands, except when
    LAKE_CONSUMER_STALENESS is 0 and the retention is at most an hour: Load accepts
    that, and the maintainer replaces 0 by an hour. *)
Theorem maintainer_staleness_rule `{EthLib} getenv s :
  Load getenv = Ok s ->
  let m := Maintain.applyDefaults (maintConfig s) in
  ConsumerStaleness m < SnapshotKeep m <->
  ~ (LakeConsumerStaleness s = 0 /\ LakeSnapshotKeep s <= Hour).
Proof.
  intros Hl m. unfold Load in Hl. assert (Hlt : LakeConsumerStaleness s < LakeSnapshotKeep s).
  { bind_ok Hl. injection Hl as <-. cbn [LakeConsumerStaleness LakeSnapshotKeep].
    repeat match goal with H : validateMaintenance _ _ = Ok _ |- _ => apply reject_if_Ok' in H end. bool_to_prop. lia. }
  clear Hl. unfold m. cbn [Maintain.applyDefaults maintConfig ConsumerStaleness SnapshotKeep]. unfold or_default.
  assert (Hh : Hour = 3600000000000) by done.
  destruct (LakeConsumerStaleness s =? 0) eqn:E1, (LakeSnapshotKeep s =? 0) eqn:E2; bool_to_prop; lia.
Qed.

(** The connection pool holds every pinned writer. The pool of the lake is
    the writer connections of all partitions and two more, as long as their number
    is below 2^48. *)
Theorem pool_fits_writers `{EthLib} getenv s :
  Load getenv = Ok s -> LakeWriterConnections s < 2 ^ 48 ->
  MaxConns (lakeConfig s) = NATSStreamPartitions s * LakeWriterConnections s + 2 /\ 3 <= MaxConns (lakeConfig s).
Proof.
  unfold Load. intros Hl Hw.
  assert (1 <= NATSStreamPartitions s <= 256 /\ 1 <= LakeWriterConnections s) as [Hp Hw1].
  { bind_ok Hl. injection Hl as <-. cbn [NATSStreamPartitions LakeWriterConnections].
    repeat match goal with H : reject_if _ _ = Ok _ |- _ => apply reject_if_Ok' in H end.
    bool_to_prop. rewrite int64_id; lia. }
  cbn [lakeConfig MaxConns]. rewrite (int64_id (_ * _)) by nia. rewrite int64_id by nia. nia.
Qed.

(** The releases of steps that succeeded, last first. *)
Definition acquired (steps : list bootStep) : list release := rev (omap deferred steps).

Lemma bootLoop_spec attempt wait steps defers ready releases err :
  bootLoop attempt wait steps defers = (ready, releases, err) ->
  (ready = true /\ Forall (fun b => attempt b = None) steps /\ err = wait /\ releases = acquired steps ++ defers) \/
  (ready = false /\ exists ok b e rest, steps = ok ++ b :: rest /\ Forall (fun b => attempt b = None) ok /\
     attempt b = Some e /\ err = Some e /\ releases = acquired ok ++ defers).
Proof.
  revert defers. induction steps as [|b steps IH]; intros defers; simpl.
  { intros [= <- <- <-]. left. split_and!; done || constructor. }
  destruct (attempt b) as [e|] eqn:Eb.
  { intros [= <- <- <-]. right. split; [done|]. exists [], b, e, steps. split_and!; done || constructor. }
  assert (Ha : forall l, acquired l ++ match deferred b with Some r => r :: defers | None => defers end = acquired (b :: l) ++ defers).
  { intros l. unfold acquired. simpl. destruct (deferred b); simpl; [by rewrite <- app_assoc|done]. }
  intros [(-> & Hf & -> & ->)|(-> & ok & b' & e & rest & -> & Hf & He & -> & ->)]%IH.
  - left. rewrite Ha. split_and!; [done|by constructor|done|done].
  - right. split; [done|]. exists (b :: ok), b', e, rest. rewrite Ha. split_and!; [done|by constructor|done..].
Qed.

(** The node reports ready only when every part of its wiring succeeded, and
    whatever happens it releases exactly what it acquired, in reverse order: after a
    failed step that step's error is returned and the resources of the steps before
    it are released. *)
Theorem boot_ready_and_released s attempt wait ready releases err :
  boot s attempt wait = (ready, releases, err) ->
  exists done rest, bootPlan s = done ++ rest /\ Forall (fun b => stepErr s attempt b = None) done /\
    releases = acquired done /\
    (ready = true <-> rest = []) /\
    (ready = true -> err = wait /\ BlobBucket s <> "") /\
    (ready = false -> exists b rest', rest = b :: rest' /\ stepErr s attempt b = err /\ err <> None).
Proof.
  intros Hb. apply bootLoop_spec in Hb as [(-> & Hf & -> & ->)|(-> & ok & b & e & rest & Hp & Hf & He & -> & ->)].
  - exists (bootPlan s), []. rewrite !app_nil_r. split_and!; try done. intros _. split; [done|].
    assert (Hin : RequireBlobBucket ∈ bootPlan s) by (unfold bootPlan; destruct (_ =?s _); set_solver).
    rewrite Forall_forall in Hf. specialize (Hf _ Hin). simpl in Hf. destruct (BlobBucket s =?s "") eqn:E; [done|].
    by apply String.eqb_neq in E.
  - exists ok, (b :: rest). rewrite app_nil_r. split_and!; try done.
    intros _. exists b, rest. by rewrite He.
Qed.

(** ** Witnesses *)

(** Addresses as texts: 42 characters starting with 0x, compared as they are. *)
Definition textEth : EthLib := {|
  IsHexAddress s := HasPrefix s "0x" && (strlen s =? 42);
  HexToAddress s := if s =?s "" then "0x0000000000000000000000000000000000000000" else s;
  AddressHex s := s |}.

Definition sampleEnv (key : string) : string :=
  if HasSuffix key "_NFT_ADDRESS" then "0xbA5738a18d83D41847dfFbDC6101d37C69c9B0cF"
  else if key =?s "DUCKLAKE_CATALOG_DSN" then "postgres://din@db/lake"
  else if key =?s "DUCKLAKE_DATA_PATH" then "s3://bucket/lake/"
  else if key =?s "BLOB_BUCKET" then "blobs"
  else if key =?s "NATS_STREAM_PARTITIONS" then "4"
  else if key =?s "LAKE_CONSUMER_STALENESS" then "0"
  else if key =?s "LAKE_SNAPSHOT_RETENTION" then "45m"
  else "".

Definition sampleSettings : result Settings := Eval vm_compute in @Load textEth sampleEnv.
Definition sample : Settings :=
  match sampleSettings with Ok s => s | Err _ => mkSettings "" "" "" "" "" "" "" 0 0 0 "" "" 0 "" "" "" "" "" "" "" 0 0 0 0 0 "" "" "" 0 "" "" "" "" "" "" "" "" "" 0 "" 0 "" "" "" false false 0 0 0 0 0 0 0 fzero 0 0 0 0 0 0 0 false false 0 end.

Lemma Load_sound_witness :
  @Load textEth sampleEnv = Ok sample /\ 1 <= NATSStreamPartitions sample <= 256.
Proof.
  assert (Hl : @Load textEth sampleEnv = Ok sample) by (vm_compute; reflexivity).
  split; [exact Hl|]. exact (proj1 (@Load_sound textEth sampleEnv sample Hl)).
Defined.

Lemma sink_timeouts_ordered_witness :
  MaxAgeHard (Sink.applyDefaults (partitionSink sample 4 0)) + 3 * Minute = AckWait (sinkConsumer sample 4 0).
Proof. apply (sink_timeouts_ordered sample 4 0). vm_compute. split; [discriminate|reflexivity]. Defined.

Lemma flush_deadline_past_ackwait_witness :
  AckWait (sinkConsumer sample 4 0) <
    MaxAgeHard (Sink.applyDefaults (partitionSink sample 4 0)) + FlushTimeout (Sink.applyDefaults (partitionSink sample 4 0)).
Proof. apply flush_deadline_past_ackwait; vm_compute; [split; [discriminate|reflexivity]|reflexivity]. Defined.

Lemma maintainer_staleness_rule_witness :
  ~ ConsumerStaleness (Maintain.applyDefaults (maintConfig sample)) < SnapshotKeep (Maintain.applyDefaults (maintConfig sample)).
Proof.
  assert (Hl : @Load textEth sampleEnv = Ok sample) by (vm_compute; reflexivity).
  intros Hlt. apply (proj1 (@maintainer_staleness_rule textEth sampleEnv sample Hl)) in Hlt.
  apply Hlt. split; [reflexivity|]. vm_compute. discriminate.
Defined.

Lemma pool_fits_writers_witness : MaxConns (lakeConfig sample) = 10.
Proof.
  assert (Hl : @Load textEth sampleEnv = Ok sample) by (vm_compute; reflexivity).
  rewrite (proj1 (@pool_fits_writers textEth sampleEnv sample Hl ltac:(vm_compute; reflexivity))). reflexivity.
Defined.

Lemma boot_ready_and_released_witness :
  exists done rest, bootPlan sample = done ++ rest /\ [CloseLake; CloseConnNATS] = acquired done.
Proof.
  destruct (boot_ready_and_released sample (fun b => match b with NewVerifier => Some (ENew "no rpc") | _ => None end) None
    false [CloseLake; CloseConnNATS] (Some (ENew "no rpc")) ltac:(vm_compute; reflexivity)) as (d & r & Hp & _ & Hr & _).
  exists d, r. exact (conj Hp Hr).
Defined.
