(* ===== verification/Delivery.v ===== *)
(** * Redelivery: how often JetStream tries, and for how long

    The consumers of the sinks (cmd/din/main.go) by their BackOff and MaxDeliver, and the
    MaxAge of the WAL: when a message is delivered again, and which limit is met first. *)

From S2P Require Import Prelude GoStd CloudEvent Stream Publisher Sink Maintain LakeSQL Config.
Import config wiring.

(** What JetStream waits after delivery [k] of a message (from 0) that was not settled:
    "BackOff specifies the optional back-off intervals for retrying message delivery after
    a failed acknowledgement", the last of which is repeated. The sinks never nak. *)
Definition gap (backOff : list Z) (k : nat) : Z := nth (Nat.min k (length backOff - 1)) backOff 0.

(** The times of the deliveries after the first. *)
Fixpoint redelivered (backOff : list Z) (k : nat) (prev : Z) (ts : list Z) : Prop :=
  match ts with
  | [] => True
  | t :: ts' => prev + gap backOff k <= t /\ redelivered backOff (S k) t ts'
  end.
Definition lifetime (backOff : list Z) (published first : Z) (ts : list Z) : Prop :=
  published <= first /\ redelivered backOff 0 first ts.
Definition lastDelivery (first : Z) (ts : list Z) : Z := List.last ts first.

(** ** Lemmas *)

Lemma lastDelivery_cons t t' ts : lastDelivery t (t' :: ts) = lastDelivery t' ts.
Proof.
  unfold lastDelivery. revert t t'. induction ts as [|y ts IH]; intros t x; [done|].
  change (List.last (y :: ts) t = List.last (y :: ts) x). by rewrite !IH.
Qed.

Lemma redelivered_span backOff g ts : forall k prev,
  (forall j, g <= gap backOff j) -> redelivered backOff k prev ts -> prev + g * Zlen ts <= lastDelivery prev ts.
Proof.
  induction ts as [|t ts IH]; intros k prev Hg; cbn [redelivered]; [unfold lastDelivery, Zlen; simpl; lia|].
  intros [Hle Hr]. rewrite lastDelivery_cons, Zlen_cons. specialize (IH (S k) t Hg Hr). specialize (Hg k). lia.
Qed.

Lemma gap_bound backOff g k : backOff <> [] -> Forall (fun b => g <= b) backOff -> g <= gap backOff k.
Proof.
  intros Hne Hb. unfold gap. rewrite Forall_forall in Hb. apply Hb, list_elem_of_In, nth_In.
  destruct backOff; [done|simpl length]. lia.
Qed.

(** ** Properties *)

(** C27: The delivery limit of the sinks never sheds a message. Whatever hard cap is set,
    as long as a message that the sink neither acks nor terminates is in the WAL, which
    drops it after MaxAge, JetStream has delivered it fewer than MaxDeliver times: the
    limit cannot lose what the lake does not have yet. *)
Theorem MaxDeliver_never_sheds s n i published first ts :
  0 <= SinkMaxAgeHard s < 2 ^ 62 ->
  lifetime (BackOff (sinkConsumer s n i)) published first ts ->
  lastDelivery first ts <= published + Stream.MaxAge (streamConfig s) ->
  Z.of_nat (S (length ts)) < MaxDeliver (sinkConsumer s n i).
Proof.
  intros Hs [Hp Hr] Hage. destruct (partitionSink_effective s n i Hs) as (Hc & _ & Ha & _).
  assert (Hm : Minute = 60000000000) by done. set (cap := MaxAgeHard _) in *.
  assert (Hb : Forall (fun b => 3 * Minute <= b) (BackOff (sinkConsumer s n i))).
  { cbn [BackOff sinkConsumer]. assert (cap < 2 ^ 62 + 300000000001).
    { unfold cap. destruct (partitionSink_effective s n i Hs) as (_ & [->|[_ ->]] & _); [lia|]. vm_compute. reflexivity. }
    rewrite int64_id by lia. repeat constructor; lia. }
  assert (Hspan : first + 3 * Minute * Zlen ts <= lastDelivery first ts).
  { apply (redelivered_span (BackOff (sinkConsumer s n i)) _ _ 0%nat); [|done]. intros j. by apply gap_bound. }
  change (Stream.MaxAge (streamConfig s)) with (48 * (60 * Minute)) in Hage. cbn [MaxDeliver sinkConsumer].
  unfold Zlen in Hspan. lia.
Qed.

(** BackOff and the hard flush cap. Every interval of a sink consumer is above the
    hard cap, so that no redelivery overtakes a buffer that waits for it, exactly when the
    cap is below thirty minutes: the last interval is fixed, the cap is a setting. *)
Theorem backoff_clears_hard_cap s n i :
  0 <= SinkMaxAgeHard s < 2 ^ 62 ->
  let cap := MaxAgeHard (Sink.applyDefaults (partitionSink s n i)) in
  Forall (fun b => cap < b) (BackOff (sinkConsumer s n i)) <-> cap < 30 * Minute.
Proof.
  intros Hs cap. destruct (partitionSink_effective s n i Hs) as (Hc & Hcap & Ha & _). fold cap in Hc, Hcap, Ha.
  assert (Hm : Minute = 60000000000) by done. assert (Hd : DefaultMaxAgeHard = 5 * Minute) by done.
  cbn [BackOff sinkConsumer]. rewrite int64_id by lia. split.
  - intros Hf. by repeat (apply Forall_cons in Hf as [? Hf]).
  - intros Hlt. repeat constructor; lia.
Qed.

(** ** Witnesses *)

Lemma MaxDeliver_never_sheds_witness :
  Z.of_nat (S (length [8 * Minute; 26 * Minute])) < MaxDeliver (sinkConsumer sample 4 0).
Proof.
  apply (MaxDeliver_never_sheds sample 4 0 0 0 [8 * Minute; 26 * Minute]).
  - vm_compute. split; [discriminate|reflexivity].
  - vm_compute. repeat split; discriminate.
  - vm_compute. discriminate.
Defined.

Lemma backoff_clears_hard_cap_witness :
  Forall (fun b => MaxAgeHard (Sink.applyDefaults (partitionSink sample 4 0)) < b) (BackOff (sinkConsumer sample 4 0)).
Proof. apply (backoff_clears_hard_cap sample 4 0); vm_compute; [split; [discriminate|reflexivity]|reflexivity]. Defined.
