(* ===== verification/Durability.v ===== *)
(** * Durability: pods, crashes, lost acks and the age of the WAL

    Sink is one run of one sink. Here the sinks of all pods and partitions run against
    one lake and one WAL, start and crash at any point, their acks arrive late or never,
    JetStream delivers a message as often as it likes until it is settled, and the WAL
    drops what is older than its MaxAge (stream.DefaultConfig, set by run). *)

From S2P Require Import Prelude GoStd CloudEvent Stream Publisher LakeWriter Sink Pipeline Maintain LakeSQL Config.
Import config wiring.

(** A message of the WAL: its sequence number, the message, and when it was stored. *)
Record walMsg := mkWal { w_seq : Z; w_msg : Msg; w_at : Z }.

(** A delivery of it. *)
Definition deliveryOf (w : walMsg) (m : JMsg) : Prop := jm_seq m = w_seq w /\ delivers (w_msg w) m.

Section Durability.
Context `{CloudEventLib} `{NatsHeaderLib} `{W : BundleWriter} `{L : !BundleWriterLaws W}.
Variable settings : Settings.
Abbreviation maxAge := (Stream.MaxAge (streamConfig settings)).

Definition with_lake (l : lake) (st : state) : state :=
  mkState (st_sink st) (st_pc st) (st_running st) l (st_settled st) (st_received st) (st_done st).

(** The lake; the sinks that run, with their configurations; what the consumers still owe;
    every message ever accepted; the settlements sent; the time. *)
Record system := mkSystem {
  y_lake : lake; y_sinks : list (Config * state); y_owed : list walMsg; y_log : list walMsg;
  y_sent : list settlement; y_now : Z
}.

Inductive dstep : system -> system -> Prop :=
| y_tick now' l sinks owed log sent now :
    now <= now' -> dstep (mkSystem l sinks owed log sent now) (mkSystem l sinks owed log sent now')
(* a publish is acknowledged *)
| y_accept seq msg l sinks owed log sent now :
    dstep (mkSystem l sinks owed log sent now)
          (mkSystem l sinks (mkWal seq msg now :: owed) (mkWal seq msg now :: log) sent now)
(* the sink of a partition starts, in this pod or another *)
| y_start n i l sinks owed log sent now :
    dstep (mkSystem l sinks owed log sent now)
          (mkSystem l ((partitionSink settings n i, init (partitionSink settings n i) l) :: sinks) owed log sent now)
(* one of the sinks makes a step; what it receives is a message still owed *)
| y_sink c st st' pre post l owed log sent now :
    step (with_lake l st) st' ->
    (forall m, m ∈ st_received st' -> m ∈ st_received st \/ exists w, w ∈ owed /\ deliveryOf w m) ->
    dstep (mkSystem l (pre ++ (c, st) :: post) owed log sent now)
          (mkSystem (st_lake st') (pre ++ (c, st') :: post) owed log (sent ++ st_settled st') now)
(* a sink dies with what it had buffered *)
| y_crash c st pre post l owed log sent now :
    dstep (mkSystem l (pre ++ (c, st) :: post) owed log sent now) (mkSystem l (pre ++ post) owed log sent now)
(* a settlement arrives; others never do *)
| y_settle s w pre post l sinks log sent now :
    s ∈ sent -> deliveryOf w (settled_msg s) ->
    dstep (mkSystem l sinks (pre ++ w :: post) log sent now) (mkSystem l sinks (pre ++ post) log sent now)
(* the WAL drops what is too old *)
| y_age w pre post l sinks log sent now :
    w_at w + maxAge <= now ->
    dstep (mkSystem l sinks (pre ++ w :: post) log sent now) (mkSystem l sinks (pre ++ post) log sent now).

Inductive dreach (l0 : lake) : system -> Prop :=
| y_init : dreach l0 (mkSystem l0 [] [] [] [] 0)
| y_next y y' : dreach l0 y -> dstep y y' -> dreach l0 y'.

(** ** Lemmas *)

(** A step of a sink keeps what the lake holds. *)
Lemma step_keeps c st st' ev : inv c st -> step st st' -> persisted (st_lake st) ev -> persisted (st_lake st') ev.
Proof.
  intros Hi Hs. destruct Hs; simpl; auto. apply i_jobs in Hi. simpl in Hi. rewrite !Forall_app, Forall_cons in Hi.
  destruct Hi as (_ & _ & Hj & _). match goal with Hf : flush _ _ _ _ = _ |- _ => destruct (flush_spec _ _ _ _ _ _ _ Hj Hf) as (_ & Hk & _) end.
  apply Hk.
Qed.

(** The lake may grow under a sink. *)
Lemma inv_with_lake c l l' st :
  (forall ev, persisted l ev -> persisted l' ev) -> inv c (with_lake l st) -> inv c (with_lake l' st).
Proof.
  intros Hl [Hc Hb Hj Hi Hq Hs Ho]. split; try done. simpl in *. eapply Forall_impl; [exact Hs|]. intros x. by apply rightly_mono.
Qed.

(** Where an accepted message is. *)
Definition accounted (y : system) (w : walMsg) : Prop :=
  w ∈ y_owed y \/ (exists s, deliveryOf w (settled_msg s) /\ rightly (y_lake y) s) \/ w_at w + maxAge <= y_now y.

Record sys_inv (y : system) : Prop := mkSysInv {
  yi_sinks : Forall (fun p => inv p.1 (with_lake (y_lake y) p.2)) (y_sinks y);
  yi_sent : Forall (rightly (y_lake y)) (y_sent y);
  yi_log : Forall (accounted y) (y_log y)
}.

Lemma accounted_mono y y' w :
  (w ∈ y_owed y -> accounted y' w) -> (forall ev, persisted (y_lake y) ev -> persisted (y_lake y') ev) ->
  y_now y <= y_now y' -> accounted y w -> accounted y' w.
Proof.
  intros Ho Hl Hn [?|[(s & Hs & Hr)|Ha]]; [by apply Ho|right; left|right; right; lia].
  exists s. split; [done|]. by eapply rightly_mono.
Qed.

Lemma elem_middle {A} (x w : A) pre post : x ∈ pre ++ w :: post -> x = w \/ x ∈ pre ++ post.
Proof. set_solver. Qed.

Lemma dstep_inv y y' : sys_inv y -> dstep y y' -> sys_inv y'.
Proof.
  intros [Hk Hs Hl] Hstep. destruct Hstep as [now' l sinks owed log sent now Hn|seq msg l sinks owed log sent now
    |n i l sinks owed log sent now|c st st' pre post l owed log sent now Hst Hrcv|c st pre post l owed log sent now
    |s w pre post l sinks log sent now Hin Hd|w pre post l sinks log sent now Ha]; simpl in *.
  - split; simpl; [done..|]. eapply Forall_impl; [exact Hl|]. intros w. by apply accounted_mono; [left| |simpl].
  - split; simpl; [done..|]. constructor; [by left; left|]. eapply Forall_impl; [exact Hl|].
    intros w. apply accounted_mono; [by left; right|done|done].
  - split; simpl; [|done..]. constructor; [|done]. simpl. apply (inv_init (partitionSink settings n i) l).
  - rewrite Forall_app, Forall_cons in Hk. destruct Hk as (Hk1 & Hi & Hk2). simpl in Hi.
    assert (Hl' : forall ev, persisted l ev -> persisted (st_lake st') ev) by (intros ev; by apply (step_keeps c (with_lake l st))).
    pose proof (inv_step _ _ _ Hi Hst) as Hi'. split; simpl.
    + assert (Hgrow : forall q : Config * state, inv q.1 (with_lake l q.2) -> inv q.1 (with_lake (st_lake st') q.2))
        by (intros q; by apply inv_with_lake).
      apply Forall_app. split; [by eapply Forall_impl; [exact Hk1|]|]. constructor; [by destruct st'|].
      by eapply Forall_impl; [exact Hk2|].
    + apply Forall_app. split; [|apply (i_settled _ _ Hi')]. eapply Forall_impl; [exact Hs|]. intros x. by apply rightly_mono.
    + eapply Forall_impl; [exact Hl|]. intros w. by apply accounted_mono; [left| |simpl].
  - split; simpl; [|done..]. rewrite Forall_app, Forall_cons in Hk. apply Forall_app. tauto.
  - split; simpl; [done..|]. eapply Forall_impl; [exact Hl|]. intros x. apply accounted_mono; [|done|done].
    intros [->|Hx]%elem_middle; [|by left]. right; left. exists s. split; [done|]. rewrite Forall_forall in Hs. by apply Hs.
  - split; simpl; [done..|]. eapply Forall_impl; [exact Hl|]. intros x. apply accounted_mono; [|done|done].
    intros [->|Hx]%elem_middle; [by right; right|by left].
Qed.

Lemma dreach_inv l0 y : dreach l0 y -> sys_inv y.
Proof. induction 1; [by split|by eapply dstep_inv]. Qed.

(** The writer refused the event on its own: as poison, or at the tenth delivery or later. *)
Definition refused (w : walMsg) (ev : StoredEvent) : Prop :=
  exists m l0 l1 err, deliveryOf w m /\ bw_WriteBundle l0 [ev] = (l1, Some err) /\
    (errors_is err ErrPoisonRow = true \/ poisonRedeliveryThreshold <= redeliveryCount m).

(** ** Properties *)

(** C2: No accepted event is lost to a crash. Whatever pods and sinks start, crash or
    restart, in whatever order they flush, however many acks never arrive: an event whose
    publish was acknowledged is in the lake, or still owed to a sink, or was refused by
    the writer on its own, or its 48 hours in the WAL are over. *)
Theorem no_accepted_event_lost `{!NatsHeaderLaws H0} l0 y w partitions (event : StoredEvent) body :
  dreach l0 y -> w ∈ y_log y -> w_msg w = buildMsg partitions event body -> UnmarshalJSON body = Ok (Raw event) ->
  persisted (y_lake y) event \/ w ∈ y_owed y \/ refused w event \/ w_at w + 48 * Hour <= y_now y.
Proof.
  intros [_ _ Hl]%dreach_inv Hw Hm Hu. rewrite Forall_forall in Hl. destruct (Hl w Hw) as [?|[(s & [Hq Hd] & Hr)|Ha]].
  - by right; left.
  - assert (ParseMsg (jm_Headers (settled_msg s)) (jm_Data (settled_msg s)) = Ok event) as Hp.
    { destruct Hd as [-> ->]. rewrite Hm. by apply ParseMsg_buildMsg. }
    destruct s as [m|m]; simpl in *; unfold decoded in *; rewrite Hp in Hr.
    + left. by destruct Hr as (ev & [= <-] & Hev).
    + right; right; left. destruct Hr as [?|(ev & la & lb & err & [= <-] & Hwr & He)]; [done|].
      by exists m, la, lb, err.
  - by right; right; right.
Qed.
End Durability.

(** ** Witness *)

(** A message is accepted and delivered to a sink, which crashes with it in its buffer. *)
Definition walSample : walMsg := mkWal 1 (@buildMsg sample_lib map_headers 4 sample_stored "local-1|42") 0.
Definition sinkCfg : Config := partitionSink sample 4 0.
Definition gotIt : @state toy_writer :=
  let '(s, out) := @add sample_lib map_headers 0 (New sinkCfg) run_msg in
  @mkState toy_writer (flushReady 0 false s false) InBackpressure [] [] out [run_msg] false.
Definition afterCrash : @system toy_writer := @mkSystem toy_writer [] [] [walSample] [walSample] (st_settled gotIt) 0.

Lemma afterCrash_reach : @dreach sample_lib map_headers toy_writer sample [] afterCrash.
Proof.
  eapply y_next; [eapply y_next; [eapply y_next; [eapply y_next; [apply y_init|]|]|]|].
  - apply (y_accept _ 1 (w_msg walSample)).
  - apply (y_start _ 4 0).
  - apply (@y_sink sample_lib map_headers toy_writer sample sinkCfg (@init toy_writer sinkCfg []) gotIt [] []).
    + unfold gotIt. destruct (add 0 (New sinkCfg) run_msg) as [s out] eqn:Ea.
      exact (@step_message sample_lib map_headers toy_writer 0 run_msg (New sinkCfg) s out [] [] [] [] false Ea).
    + intros m Hm. right. exists walSample. split; [by left|].
      assert (m = run_msg) as ->; [|by vm_compute]. unfold gotIt in Hm. destruct (add _ _ _). by apply list_elem_of_singleton in Hm.
  - apply (@y_crash sample_lib map_headers toy_writer sample sinkCfg gotIt [] []).
Defined.

Lemma no_accepted_event_lost_witness :
  @persisted toy_writer toy_laws (y_lake afterCrash) sample_stored \/ walSample ∈ y_owed afterCrash \/
  @refused toy_writer walSample sample_stored \/ w_at walSample + 48 * Hour <= y_now afterCrash.
Proof.
  apply (@no_accepted_event_lost sample_lib map_headers toy_writer toy_laws sample _ [] afterCrash walSample 4 sample_stored
    "local-1|42" afterCrash_reach); [by left|reflexivity|reflexivity].
Defined.
