(* ===== verification/Commands.v ===== *)
(** * Package main, commands: the object store, lake-backfill, maintain

    cmd/din/main.go: newBaseObjectStore and newObjectStore (which backend, and the
    sealing around it), the two subcommands that run against the lake, and
    serveHTTP. The file system, S3, the random source and the lake are those of
    FsStore, S3Client, Blob and Backfill; opening and closing the lake, whose
    statements are LakeSQL's, hand over the catalog [bdb] works on. *)

From S2P Require Import Prelude GoStd Float Sha256 AesGcm CloudEvent Stream Publisher LakeWriter Blob Sink LakeSQL Backfill FsStore S3Client Maintain Config.
Import config wiring.

(** ** The object store *)

(** *fsstore.Client by its root, or *s3client.Client. *)
Inductive baseStore `{AwsSDK} := FSBase (root : string) | S3Base (c : S3Client).

Section Stores.
Context `{FileSystem} `{AwsSDK}.
(** The directory tree below a root, as os.ReadDir and d.Info give it. *)
Variable tree : fsys -> string -> node.
(** The pages of an S3 listing looked at. *)
Variable fuel : nat.

Definition disks : Type := fsys * service.

Definition s3Config (s : Settings) (bucket : string) : S3Config :=
  mkS3Config bucket (S3Region s) (S3AccessKeyID s) (S3SecretAccessKey s) (S3Endpoint s) (S3KMSKeyID s).

Definition newBaseObjectStore (s : Settings) (d : disks) (bucket : string) : disks * result baseStore :=
  if IsLocalPath bucket then
    let '(f, r) := NewClient d.1 (LocalRoot bucket) in
    ((f, d.2), match r with Ok root => Ok (FSBase root) | Err e => Err e end)
  else (d, match NewS3 (s3Config s bucket) with Ok c => Ok (S3Base c) | Err e => Err e end).

(** objstore.Store of a backend: PutObject, and ListObjectsV2. *)
Definition base_store (b : baseStore) : ObjectStore := {|
  store := disks;
  PutObject d key body :=
    match b with
    | FSBase root => let '(f, _, e) := PutFile root d.1 key body in ((f, d.2), e)
    | S3Base c => let '(sv, e) := S3PutObject c d.2 key body in ((d.1, sv), e)
    end
|}.
Definition baseList (b : baseStore) (d : disks) (prefix : string) : disks * option (result (list ObjectInfo)) :=
  match b with
  | FSBase root => (d, Some (ListObjectsV2 root (tree d.1 root) prefix))
  | S3Base c => let '(sv, r) := S3ListObjectsV2 fuel c d.2 prefix in ((d.1, sv), r)
  end.

(** newObjectStore: the backend and the cipher around it; a store of them. *)
Definition newObjectStore (s : Settings) (d : disks) (bucket : string) : disks * result (baseStore * option string) :=
  match newBaseObjectStore s d bucket with
  | (d', Err e) => (d', Err e)
  | (d', Ok b) =>
      match NewCipher (BlobEncryptionKey s) with
      | Err e => (d', Err e)
      | Ok cipher => (d', Ok (b, cipher))
      end
  end.

(** PutObject of what blobcrypt.WrapStore makes of them; the random source is
    threaded with the disks. *)
Definition storePut (st : baseStore * option string) (w : disks * list (result string)) (key body : string)
    : disks * list (result string) * option error :=
  match st.2 with
  | None => @PutObject (WrapStore (base_store st.1) None) w key body
  | Some k => @PutObject (WrapStore (base_store st.1) (Some k)) w key body
  end.

(** ** lake-backfill *)

Context `{BackfillDB}.
(** lake.Open for a configuration, and lk.Close. *)
Variables (openLake : LakeConfig -> bdb -> bdb * option error) (closeLake : bdb -> bdb).

(** The disks, the catalog, and the returned error; no error while the listing is
    still running. [loaded] is config.Load. *)
Definition lakeBackfill (loaded : result Settings) (source : string) (d : disks) (b : bdb)
    : disks * bdb * option (option error) :=
  match loaded with
  | Err e => (d, b, Some (Some e))
  | Ok settings =>
      match backfillSource source with
      | Err e => (d, b, Some (Some e))
      | Ok (bucket, prefix, uriBase) =>
          match newObjectStore settings d bucket with
          | (d1, Err e) => (d1, b, Some (Some e))
          | (d1, Ok st) =>
              match baseList st.1 d1 prefix with
              | (d2, None) => (d2, b, None)
              | (d2, Some (Err e)) => (d2, b, Some (Some (EWrap ("listing " +:+ source +:+ ": ") e "")))
              | (d2, Some (Ok objects)) =>
                  match openLake (lakeConfig settings) b with
                  | (b1, Some e) => (d2, b1, Some (Some e))
                  | (b1, None) =>
                      let '(b2, _, err) := Backfill (backfillFiles uriBase (obj_Key <$> objects)) b1 in
                      (d2, closeLake b2, Some err)
                  end
              end
          end
      end
  end.

(** ** maintain *)

(** What ends serveHTTP first: the listener returned, or ctx is done (then
    srv.Shutdown may fail, which is logged). *)
Inductive serveEnd := ListenReturned (err : error) | CtxDone (shutdownErr : option error).
Definition serveHTTP (ended : serveEnd) : option error :=
  match ended with
  | ListenReturned err => if errors_is err httpErrServerClosed then None else Some err
  | CtxDone _ => None
  end.

(** errgroup.Wait, over the results of the group's functions in the order they
    returned. *)
Variable Wait : list (option error) -> option error.

(** runMaintenance: [cycles] is what the cycles of the maintainer return (it runs with
    [maintConfig settings]), [opsFirst] says which of the two functions returned first;
    no result while the maintainer runs. *)
Definition runMaintenance (loaded : result Settings) (ended : serveEnd) (cycles : MaintConfig -> list (option error * bool))
    (opsFirst : bool) (b : bdb) : bdb * option (option error) :=
  match loaded with
  | Err e => (b, Some (Some e))
  | Ok settings =>
      match openLake (lakeConfig settings) b with
      | (b1, Some e) => (b1, Some (Some e))
      | (b1, None) =>
          match Maintain.Run 0 (cycles (maintConfig settings)) with
          | None => (b1, None)
          | Some maintErr =>
              (closeLake b1,
               Some (Wait (if opsFirst then [serveHTTP ended; maintErr] else [maintErr; serveHTTP ended])))
          end
      end
  end.
End Stores.

(** ** Lemmas *)

Lemma HasSuffix_prepend base s p : HasSuffix s p = true -> HasSuffix (base +:+ s) p = true.
Proof.
  unfold HasSuffix. intros [Hl Hs]%andb_true_iff. apply Nat.leb_le in Hl. rewrite string_length_app.
  apply andb_true_iff. split; [apply Nat.leb_le; lia|].
  rewrite <- Nat.add_sub_assoc by done. by rewrite substring_shift.
Qed.

Lemma cutSlash_app bucket prefix :
  has_byte bucket (chr "/") = false -> cutSlash (bucket +:+ "/" +:+ prefix) = (bucket, prefix).
Proof.
  induction bucket as [|c bucket IH]; [done|]. cbn [has_byte]. intros [Hc Hb]%orb_false_iff.
  rewrite string_app_cons. cbn [cutSlash]. rewrite Hc, (IH Hb). done.
Qed.

(** A name without a slash is a bucket, not a path. *)
Lemma bucket_not_local bucket : has_byte bucket (chr "/") = false -> IsLocalPath bucket = false.
Proof.
  intros Hb. unfold IsLocalPath.
  destruct (HasPrefix bucket "file://") eqn:E1; [|destruct (HasPrefix bucket "/") eqn:E2; [|done]].
  - do 7 (destruct bucket as [|[[] [] [] [] [] [] [] []] bucket]; try discriminate).
  - destruct bucket as [|[[] [] [] [] [] [] [] []] bucket]; discriminate.
Qed.

(** ** Properties *)

Section CommandProperties.
Context `{F : FileSystem} `{S : AwsSDK} `{L : !S3Laws S}.

(** What the settings ask of an object at rest. *)
Definition protected (s : Settings) (key body : string) (o : atRest) : Prop :=
  (if BlobEncryptionKey s =?s "" then r_body o = body
   else IsSealed (r_body o) = true /\
        exists k, b64_DecodeString (BlobEncryptionKey s) = Some k /\ strlen k = 32 /\ Open k key (r_body o) = Ok body) /\
  (S3KMSKeyID s <> "" ->
     r_encryption o = ServerSideEncryptionAwsKms /\ r_key o = Some (S3KMSKeyID s) /\ r_bucketKey o = Some true).

Lemma newObjectStore_S3 s (d d' : disks) bucket st :
  IsLocalPath bucket = false -> newObjectStore s d bucket = (d', Ok st) ->
  exists c, st.1 = S3Base c /\ c_bucket c = bucket /\ c_kmsKeyID c = S3KMSKeyID s /\
    NewCipher (BlobEncryptionKey s) = Ok st.2 /\ d' = d.
Proof.
  unfold newObjectStore, newBaseObjectStore, NewS3. intros ->.
  destruct (s3_Bucket _ =?s ""); [done|]. destruct (LoadDefaultConfig _) as [cfg|e]; simpl; [|done].
  destruct (NewCipher _) as [cipher|e]; [|done]. intros [= <- <-]. by eexists.
Qed.

Lemma requested_protected c (s : Settings) key body o :
  c_kmsKeyID c = S3KMSKeyID s -> o = requested (putInput c key body) ->
  r_body o = body /\
  (S3KMSKeyID s <> "" ->
     r_encryption o = ServerSideEncryptionAwsKms /\ r_key o = Some (S3KMSKeyID s) /\ r_bucketKey o = Some true).
Proof.
  intros <- ->. unfold putInput. destruct (c_kmsKeyID c =?s "") eqn:E; [|done].
  apply String.eqb_eq in E. by split.
Qed.

Lemma base_put_S3 c (w : disks) key body w' :
  @PutObject (base_store (S3Base c)) w key body = (w', None) ->
  bucket_of w'.2 (c_bucket c) = <[key := requested (putInput c key body)]> (bucket_of w.2 (c_bucket c)).
Proof.
  simpl. destruct (S3PutObject c w.2 key body) as [sv e] eqn:Ep. intros [= <- ->]. by apply S3PutObject_stored.
Qed.

Lemma NewCipher_Ok b64 cipher :
  NewCipher b64 = Ok cipher ->
  match cipher with
  | None => b64 = ""
  | Some k => b64 <> "" /\ b64_DecodeString b64 = Some k /\ strlen k = 32
  end.
Proof.
  unfold NewCipher. destruct (b64 =?s "") eqn:E; [intros [= <-]; by apply String.eqb_eq|].
  destruct (b64_DecodeString b64) as [k|]; [|done]. destruct (strlen k =? 32) eqn:El; [|done].
  intros [= <-]. apply String.eqb_neq in E. apply Z.eqb_eq in El. done.
Qed.

(** C18: Blobs are protected at rest as configured. A put that returned nil through the
    store the node builds for a bucket changed one object of it, the one under the key:
    its bytes are the payload or, with BLOB_ENCRYPTION_KEY, a sealed text that opens to
    the payload with that key under that name; with S3_KMS_KEY_ID the request asked for
    SSE-KMS with that key and a bucket key. *)
Theorem blobs_protected_at_rest s (d d' : disks) bucket st w key body w' :
  IsLocalPath bucket = false -> newObjectStore s d bucket = (d', Ok st) ->
  storePut st w key body = (w', None) ->
  exists o, bucket_of w'.1.2 bucket = <[key := o]> (bucket_of w.1.2 bucket) /\ protected s key body o.
Proof.
  intros Hl Hn. destruct (newObjectStore_S3 _ _ _ _ _ Hl Hn) as (c & Hb & <- & Hk & Hc & _). unfold storePut. rewrite Hb.
  apply NewCipher_Ok in Hc. destruct st.2 as [k|]; cbn [WrapStore PutObject].
  - destruct Hc as (Hne & Hd & Hlen). unfold encPutObject.
    destruct (Seal k _ key body) as [sealed|e] eqn:Es; [|done].
    destruct (PutObject _ key sealed) as [w1 e] eqn:Ep. intros [= <- ->].
    apply base_put_S3 in Ep. eexists. split; [exact Ep|].
    destruct (requested_protected c s key sealed _ Hk eq_refl) as [Hbody Hkms]. split; [|done].
    apply String.eqb_neq in Hne. rewrite Hne, Hbody. split; [|exists k; split_and!; [done..|by eapply Open_Seal]].
    apply Seal_Ok in Es as (nonce & ct & _ & _ & ->). apply HasPrefix_app.
  - destruct (PutObject _ key body) as [w1 e] eqn:Ep. intros [= <- ->].
    apply base_put_S3 in Ep. eexists. split; [exact Ep|].
    destruct (requested_protected c s key body _ Hk eq_refl) as [Hbody Hkms]. split; [|done]. by rewrite Hc.
Qed.
End CommandProperties.

Section BackfillCommand.
Context `{F : FileSystem} `{S : AwsSDK} `{L : !S3Laws S} `{B : BackfillDB} `{!BackfillLaws B}.
Variables (tree : fsys -> string -> node) (fuel : nat).
Variables (openLake : LakeConfig -> bdb -> bdb * option error) (closeLake : bdb -> bdb).

(** Opening and closing the lake registers no data file. *)
Definition lake_keeps : Prop :=
  (forall cfg b, snaps (openLake cfg b).1 = snaps b) /\ (forall b, snaps (closeLake b) = snaps b).

Lemma backfillFiles_NoDup base keys : NoDup keys -> NoDup (backfillFiles base keys).
Proof. intros Hnd. apply NoDup_fmap; [|done]. intros x y Hxy. by eapply string_app_inj_l. Qed.

(** C17: A backfill of a bucket registers all of it. Given enough turns for the pages of
    the listing, lake-backfill s3://bucket/prefix returns; if it returns nil, every
    object of the bucket under the prefix whose key ends in .parquet is a data file of
    the catalog, and whatever it returns no file is registered twice and the files
    registered before still are. *)
Theorem lakeBackfill_registers_bucket loaded bucket prefix (d : disks) b :
  lake_keeps -> has_byte bucket (chr "/") = false -> NoDup (concat (snaps b)) ->
  (forall api, length (pages d.2 (NewListObjectsV2Paginator api bucket prefix)) < fuel)%nat ->
  exists d' b' err,
    lakeBackfill tree fuel openLake closeLake loaded ("s3://" +:+ bucket +:+ "/" +:+ prefix) d b = (d', b', Some err) /\
    NoDup (concat (snaps b')) /\ (forall f, f ∈ concat (snaps b) -> f ∈ concat (snaps b')) /\
    (err = None -> forall key, HasPrefix key prefix = true -> is_Some (bucket_of d.2 bucket !! key) ->
       parquet key = true -> ("s3://" +:+ bucket +:+ "/") +:+ key ∈ concat (snaps b')).
Proof.
  intros [Hopen Hclose] Hb Hnd Hfuel. unfold lakeBackfill. destruct loaded as [settings|e]; [|by do 3 eexists].
  unfold backfillSource. rewrite CutPrefix_app, cutSlash_app by done.
  destruct (newObjectStore settings d bucket) as [d1 [st|e]] eqn:En; [|by do 3 eexists].
  destruct (newObjectStore_S3 _ _ _ _ _ (bucket_not_local _ Hb) En) as (c & -> & Hcb & _ & _ & ->).
  unfold baseList. pose proof (S3_listing fuel c d.2 prefix) as Hlist. rewrite Hcb in Hlist.
  destruct (Hlist (Hfuel _)) as (sv & r & -> & Hr). destruct r as [objs|e]; [|by do 3 eexists].
  destruct (Hr objs eq_refl) as [Hknd Hkeys]. pose proof (Hopen (lakeConfig settings) b) as Hob.
  destruct (openLake (lakeConfig settings) b) as [b1 [e|]]; simpl in Hob.
  { do 3 eexists. split; [done|]. rewrite Hob. done. }
  destruct (Backfill _ b1) as [[b2 res] err] eqn:Ebf.
  destruct (Backfill_spec _ _ _ _ _ (backfillFiles_NoDup _ _ Hknd) ltac:(by rewrite Hob) Ebf)
    as (added & Hs & _ & _ & Hnd2 & _ & Hall).
  do 3 eexists. split; [done|]. rewrite Hclose. split; [done|]. split.
  - intros f Hf. rewrite Hs, Hob, concat_app. apply elem_of_app. by left.
  - intros He key Hp Hk Hpq. apply (proj1 (Hall He)); [|by apply HasSuffix_prepend].
    unfold backfillFiles. apply (list_elem_of_fmap_2 (fun k => ("s3://" +:+ bucket +:+ "/") +:+ k)), Hkeys. done.
Qed.
End BackfillCommand.

(** The dedicated maintenance process fails, so that its pod is restarted, only for one
    of four reasons: the settings, the lake, the ops listener, or four failed cycles in
    a row; and it has closed the lake by then. *)
Theorem runMaintenance_fails_for_cause `{BackfillDB} openLake closeLake Wait loaded ended cycles opsFirst b b' e :
  (forall rs err, Wait rs = Some err -> Some err ∈ rs) ->
  runMaintenance openLake closeLake Wait loaded ended cycles opsFirst b = (b', Some (Some e)) ->
  loaded = Err e \/
  exists settings, loaded = Ok settings /\
    ((openLake (lakeConfig settings) b).2 = Some e \/
     (b' = closeLake (openLake (lakeConfig settings) b).1 /\
      (ended = ListenReturned e \/
       exists pre strikes post, cycles (maintConfig settings) = pre ++ strikes ++ post /\
         Zlen strikes = maxConsecutiveCycleFailures /\ Forall failed_cycle strikes))).
Proof.
  intros Hw. unfold runMaintenance. destruct loaded as [settings|e']; [|intros [= _ ->]; by left]. intros Hr. right.
  exists settings. split; [done|]. destruct (openLake _ b) as [b1 [e1|]]; [left; by simplify_eq|]. right.
  destruct (Maintain.Run 0 _) as [m|] eqn:Em; [|done]. injection Hr as <- He. split; [done|].
  assert (Some e = serveHTTP ended \/ Some e = m) as [Hs|Hs] by (apply Hw in He; destruct opsFirst; set_solver).
  - left. destruct ended as [err|]; simpl in Hs; [|done]. destruct (errors_is _ _); by simplify_eq.
  - right. subst m. by apply Run_strikes in Em.
Qed.

(** ** Instances and witnesses *)

(** S3 in memory: buckets of objects, a listing is one page. *)
Definition entries (m : gmap string (gmap string atRest)) (bucket prefix : string) : list listed :=
  (fun kv => (Some kv.1, Some (strlen (r_body kv.2)))) <$>
  filter (fun kv => HasPrefix kv.1 prefix = true) (map_to_list (default ∅ (m !! bucket))).
Definition memAws : AwsSDK := {|
  awsConfig := unit; s3api := unit; service := gmap string (gmap string atRest);
  paginator := string * string * bool;
  LoadDefaultConfig _ := Ok tt; NewFromConfig _ _ := tt;
  api_PutObject _ st _ i :=
    (<[in_Bucket i := <[in_Key i := requested i]> (default ∅ (st !! in_Bucket i))]> st, None);
  NewListObjectsV2Paginator _ b p := (b, p, true);
  HasMorePages p := p.2;
  NextPage st p := if p.2 then (st, (p.1, false), Ok (entries st p.1.1 p.1.2)) else (st, p, Err (ENew "no more pages available"))
|}.

Lemma entries_keys m bucket prefix :
  obj_Key <$> (objectInfo <$> entries m bucket prefix) =
  (filter (fun kv => HasPrefix kv.1 prefix = true) (map_to_list (default ∅ (m !! bucket)))).*1.
Proof. unfold entries. by rewrite <- !list_fmap_compose. Qed.

#[global] Instance memAws_laws : S3Laws memAws.
Proof.
  refine {| bucket_of := fun (st : @service memAws) b => default ∅ (st !! b);
            pages := fun (st : @service memAws) (p : @paginator memAws) => if p.2 then [entries st p.1.1 p.1.2] else [] |}.
  - intros api st t i st' [= <-]. simpl. by rewrite lookup_insert_eq.
  - intros api st bucket prefix. eexists. split; [done|]. simpl. rewrite app_nil_r, entries_keys. split.
    + eapply sublist_NoDup; [apply (NoDup_fst_map_to_list (default ∅ (st !! bucket)))|]. apply fmap_sublist, sublist_filter.
    + intros key. rewrite list_elem_of_fmap. split.
      * intros ([k o] & -> & [Hp Hk]%list_elem_of_filter). split; [done|]. exists o. by apply elem_of_map_to_list.
      * intros [Hp [o Ho]]. exists (key, o). split; [done|]. apply list_elem_of_filter. by rewrite elem_of_map_to_list.
  - intros st [[b p] []]; simpl; done.
  - intros st [[b p] []] st' p' page; simpl; [|done]. intros [= <- <- <-]. done.
Defined.

(** The sample settings, with a key for blobs and one of KMS. *)
Definition vaultSettings : Settings :=
  mkSettings "" "" "" "" "" "" "" 0 0 0 "" "" 0 "" "" "" "" "" "" "" 0 0 0 0 0 "blobs" ""
    "MDEyMzQ1Njc4OWFiY2RlZjAxMjM0NTY3ODlhYmNkZWY=" 0 "" "" "" "" "arn:aws:kms:k1" "" "" "" "" 0 "" 0 "" "" "" false false
    0 0 0 0 0 0 0 fzero 0 0 0 0 0 0 0 false false 0.

Definition emptyDisks : @disks memFS memAws := (∅, ∅).
Definition vaultStore : @baseStore memAws * option string :=
  match (@newObjectStore memFS memAws vaultSettings emptyDisks "blobs").2 with
  | Ok st => st
  | Err _ => (FSBase "", None)
  end.
Definition vaultPut := @storePut memFS memAws vaultStore (emptyDisks, [Ok "nonce-123456"]) "k" "secret".

Lemma blobs_protected_at_rest_witness :
  exists o, vaultPut.2 = None /\ bucket_of (S := memAws) vaultPut.1.1.2 "blobs" !! "k" = Some o /\
    protected vaultSettings "k" "secret" o.
Proof.
  destruct (@blobs_protected_at_rest memFS memAws memAws_laws vaultSettings emptyDisks
    emptyDisks "blobs" vaultStore (emptyDisks, [Ok "nonce-123456"]) "k" "secret" vaultPut.1
    eq_refl eq_refl) as (o & Ho & Hp).
  - by destruct (storePut _ _ _ _) eqn:E; unfold vaultPut; rewrite E; assert (vaultPut.2 = None) as H by (vm_compute; reflexivity); unfold vaultPut in H; rewrite E in H; simpl in *; subst.
  - exists o. split; [vm_compute; reflexivity|]. split; [|exact Hp]. rewrite Ho. apply lookup_insert_eq.
Defined.

(** A bucket with two Parquet files and a note, one of them registered already. *)
Definition rawBucket : gmap string atRest :=
  {[ "valid/a.parquet" := mkAtRest "x" "" None None; "valid/b.parquet" := mkAtRest "y" "" None None;
     "valid/notes.txt" := mkAtRest "z" "" None None ]}.
Definition rawDisks : @disks memFS memAws := (∅, {[ "raw" := rawBucket ]}).
Definition noTree (f : @fsys memFS) (root : string) : node := Dir (Ok None).
Definition openMem (cfg : LakeConfig) (b : @bdb memDB) : @bdb memDB * option error := (b, None).
Definition backfillRun :=
  @lakeBackfill memFS memAws noTree 2 memDB openMem (fun b => b) (Ok vaultSettings) "s3://raw/valid/" rawDisks
    (mkMem [["s3://raw/valid/a.parquet"]] []).

Lemma S3ListObjectsV2_complete_witness :
  exists st' r, @S3ListObjectsV2 memAws 2 (mkS3Client (H := memAws) tt "raw" "") rawDisks.2 "valid/" = (st', Some r).
Proof.
  destruct (@S3ListObjectsV2_complete memAws memAws_laws 2 (mkS3Client (H := memAws) tt "raw" "") rawDisks.2 "valid/"
    ltac:(simpl; lia)) as (st' & r & Hr & _). exact (ex_intro _ st' (ex_intro _ r Hr)).
Defined.

Lemma lakeBackfill_registers_bucket_witness :
  backfillRun.2 = Some None /\ "s3://raw/valid/b.parquet" ∈ concat (mem_snaps backfillRun.1.2).
Proof.
  assert (backfillRun.2 = Some None) as Hok by (vm_compute; reflexivity). split; [exact Hok|].
  destruct (@lakeBackfill_registers_bucket memFS memAws memAws_laws memDB memDB_laws noTree 2 openMem (fun b => b)
    (Ok vaultSettings) "raw" "valid/" rawDisks (mkMem [["s3://raw/valid/a.parquet"]] []))
    as (d' & b' & err & Hrun & _ & _ & Hall).
  - by split.
  - reflexivity.
  - apply (bool_decide_unpack _). by vm_compute.
  - intros api. simpl. lia.
  - change (backfillRun = (d', b', Some err)) in Hrun. rewrite Hrun in Hok |- *. injection Hok as ->.
    apply (Hall eq_refl "valid/b.parquet"); [reflexivity| |reflexivity]. eexists. vm_compute. reflexivity.
Defined.
