(* ===== verification/Supervise.v ===== *)
(** * Package main: supervision of the running node

    run starts its components as functions of one errgroup and returns what the group's
    Wait returns; decodestream's Run does the same with its partitions. Here is the group
    as a step relation over functions that live under its context: each has its life so
    far (the rounds of its loop, the cycles it ran, how its listener ended), every event of
    which the environment gives under the context as it is, and returns what its own model
    makes of that life. A pod is restarted when the process fails, so what matters is that
    it fails exactly for a cause, found in the life of the component that failed, and that
    a shutdown reaches the end. *)

From S2P Require Import Prelude GoStd Sha256 CloudEvent Stream Publisher Convert Blob Attest Handler LakeWriter LakeSQL Sink Maintain Decode Fetch SinkLive SinkWatch Config Commands.
Import config wiring.

(** ** errgroup

    golang.org/x/sync/errgroup: a group made by WithContext, what Wait returns, and
    whether the group has cancelled its context, after its functions returned. *)
Class ErrGroup := {
  group : Type;
  WithContext : group;
  fnReturned : group -> option error -> group;
  selfCancelled : group -> bool;
  Wait : group -> option error
}.

Definition after `{ErrGroup} (rs : list (option error)) : group := foldl fnReturned WithContext rs.

(** "The derived Context is canceled the first time a function passed to Go returns a
    non-nil error"; Wait "returns the first non-nil error (if any) from them". *)
Class ErrGroupLaws (G : ErrGroup) := {
  Wait_first rs : Wait (after rs) = firstErr rs;
  cancelled_on_error rs : selfCancelled (after rs) = bool_decide (firstErr rs <> None)
}.

Section Group.
Context `{G : ErrGroup} {C L : Type}.
(** How the life of a function goes on, under a context that is done or not, and what the
    function has returned when its life is over. *)
Variables (lives : bool -> C -> L -> L -> Prop) (result : C -> L -> option (option error)).

(** The group, the functions that run, and those that returned, in that order. *)
Record gstate := mkGroup { g_group : group; g_running : list (C * L); g_returned : list (C * L * option error) }.
Definition g_start (fs : list (C * L)) : gstate := mkGroup WithContext fs [].
Definition gctxDone (parent : bool) (st : gstate) : bool := parent || selfCancelled (g_group st).

(** [parent] tells whether the context the group was made from is done. *)
Inductive gstep (parent : bool) : gstate -> gstate -> Prop :=
| g_life c x x' g run1 run2 out :
    result c x = None -> lives (parent || selfCancelled g) c x x' ->
    gstep parent (mkGroup g (run1 ++ (c, x) :: run2) out) (mkGroup g (run1 ++ (c, x') :: run2) out)
| g_return c x r g run1 run2 out :
    result c x = Some r ->
    gstep parent (mkGroup g (run1 ++ (c, x) :: run2) out) (mkGroup (fnReturned g r) (run1 ++ run2) (out ++ [(c, x, r)])).

(** group.Wait: blocks while a function runs. *)
Definition groupWait (st : gstate) : option (option error) :=
  match g_running st with [] => Some (Wait (g_group st)) | _ => None end.
End Group.
Arguments gstate {_} _ _.

(** ** The components *)

Inductive component := ConnectionSrv | AttestationSrv | OpsSrv | SinkOf (i : Z) | MaintainerOf | BridgeOf.

(** The number of streams EnsureStreams gives run, each with a sink. *)
Definition walPartitions (s : Settings) : Z := if NATSStreamPartitions s <=? 0 then 1 else NATSStreamPartitions s.

(** The functions run passes to group.Go. *)
Definition wired (s : Settings) : list component :=
  [ConnectionSrv; AttestationSrv; OpsSrv] ++
  (SinkOf <$> (Z.of_nat <$> seq 0 (Z.to_nat (walPartitions s)))) ++
  when (LakeMaintenanceEnabled s) [MaintainerOf] ++
  when (DecodeStreamEnabled s) [BridgeOf].

(** The configuration run gives the bridge. *)
Definition bridgeConfig (s : Settings) : BridgeConfig :=
  mkBridge (ChainID s) (VehicleNFTAddress s) (NATSReplicas s) (NATSStreamPartitions s) (SignalsMaxBytes s) (EventsMaxBytes s).

(** *** What a context can give *)

(** An error of the context in a round of a fetch loop. *)
Definition ctx_error (r : fetchRound) (e : error) : Prop :=
  fr_top r = Some e \/ fr_wait r = Some e \/ exists k, fr_send r = Some (k, e).

(** A round of a fetch loop that began when the context was done or not ([begun]) and
    ends with it done or not: the top of the loop sees a context that is done; ctx.Err()
    is context.Canceled and only there once the context is done. Within the round the
    selects may pick the other case. *)
Definition roundCan (begun done : bool) (r : fetchRound) : Prop :=
  (begun = true -> fr_top r <> None) /\
  (forall e, ctx_error r e -> done = true /\ errors_is e ctxCanceled = true).

(** A maintenance cycle likewise: one begun under a done context returns ctx.Err()
    (Cycle_done), and the wait for the next tick may end with a done context. *)
Definition cycleCan (begun done : bool) (c : option error * bool) : Prop :=
  (begun = true -> exists e, c.1 = Some e /\ errors_is e ctxCanceled = true) /\
  (c.2 = true -> done = true) /\
  (forall e, c.1 = Some e -> errors_is e ctxCanceled = true -> done = true).

(** http.Server: ErrServerClosed is what a listener returns after Shutdown, which only
    serveHTTP calls, once its context is done. *)
Definition serveCan (done : bool) (e : serveEnd) : Prop :=
  match e with ListenReturned err => errors_is err httpErrServerClosed = false | CtxDone _ => done = true end.

(** *** The lives *)

(** The maintainer: whether its context was done when the cycle under way began, and the
    cycles so far. *)
Record maintLife := mkMaintLife { ml_begun : bool; ml_cycles : list (option error * bool) }.
Inductive maintLives (done : bool) : maintLife -> maintLife -> Prop :=
| m_cycle b cycles c : cycleCan b done c -> maintLives done (mkMaintLife b cycles) (mkMaintLife done (cycles ++ [c])).

(** A partition of the bridge: what looking up its stream and creating its consumer
    returned, if they did, and the rounds of its loop. *)
Record partLife := mkPart { pl_opened : option (option error); pl_created : option (option error); pl_begun : bool; pl_rounds : list fetchRound }.
Inductive partLives (done : bool) (i : Z) : partLife -> partLife -> Prop :=
| p_open o cr b rounds : partLives done i (mkPart None cr b rounds) (mkPart (Some o) cr done rounds)
| p_create cr b rounds : partLives done i (mkPart (Some None) None b rounds) (mkPart (Some None) (Some cr) done rounds)
| p_round r b rounds : roundCan b done r ->
    partLives done i (mkPart (Some None) (Some None) b rounds) (mkPart (Some None) (Some None) done (rounds ++ [r])).

Section Components.
Context `{CloudEventLib} `{NatsHeaderLib} `{BundleWriter} `{G : ErrGroup}.
(** What handling a batch does to the decoded streams, what they and the lake are at the
    start, and the settings. *)
Context {S V : Type} (handle : S -> list JMsg -> S * list V) (s0 : S) (l0 : lake) (s : Settings).

(** A sink: the rounds of its fetch loop, and how its Run ended: its last state and the
    flushes it made. *)
Record sinkLife := mkSinkLife { sl_begun : bool; sl_rounds : list fetchRound; sl_end : option (state * list flushed_at) }.
Definition sinkOf (i : Z) : Sink.Config := partitionSink s (walPartitions s) i.

(** Run ends with the fatal error, while some round is under way ([cur]), or after the
    fetch loop, having received all it handed over, when the drain left the workers
    nothing. *)
Inductive sinkLives (done : bool) (i : Z) : sinkLife -> sinkLife -> Prop :=
| sk_round r b rounds :
    (fetchLoop 0 rounds).2 = None -> roundCan b done r ->
    sinkLives done i (mkSinkLife b rounds None) (mkSinkLife done (rounds ++ [r]) None)
| sk_fatal cur st h e b rounds :
    watched (sinkOf i) l0 st h -> st_pc st = Exited e -> (st_done st = true -> done = true) ->
    st_received st `prefix_of` (fetchLoop 0 (rounds ++ [cur])).1 ->
    sinkLives done i (mkSinkLife b rounds None) (mkSinkLife b rounds (Some (st, h)))
| sk_drained st h b rounds :
    is_Some (fetchLoop 0 rounds).2 ->
    watched (sinkOf i) l0 st h -> st_pc st = Draining -> (st_done st = true -> done = true) ->
    st_received st = (fetchLoop 0 rounds).1 -> unfinished st = [] ->
    sinkLives done i (mkSinkLife b rounds None) (mkSinkLife b rounds (Some (st, h))).

(** What sink.Run returned. *)
Definition sinkResult (x : sinkLife) : option (option error) :=
  match sl_end x with
  | None => None
  | Some (st, _) =>
      match st_pc st with
      | Exited e => Some (Some e)
      | _ => match (fetchLoop 0 (sl_rounds x)).2 with Some fetchErr => Some (fetchResult fetchErr) | None => None end
      end
  end.

(** decodestream runPartition: [opened] and [created] are what looking up the stream and
    creating the consumer returned. *)
Definition runPartition (i n : Z) (opened created : option error) (t : S) (rounds : list fetchRound)
    : S * list V * option (option error) :=
  let '(streamName, durable, _) := bridgeConsumer i n in
  match opened with
  | Some e => (t, [], Some (Some (EWrap ("opening " +:+ streamName +:+ ": ") e "")))
  | None =>
      match created with
      | Some e => (t, [], Some (Some (EWrap ("creating " +:+ durable +:+ " consumer: ") e "")))
      | None => partitionLoop handle 0 t rounds
      end
  end.

(** decodestream Run: its partitions, in a group of their own below the node's. *)
Definition partitions : list Z := bridgePartitions (NewBridge (bridgeConfig s)).
Definition partResult (i : Z) (p : partLife) : option (option error) :=
  match pl_opened p, pl_created p with
  | None, _ | Some None, None => None
  | Some (Some e), _ => (runPartition i (Zlen partitions) (Some e) None s0 []).2
  | Some None, Some created => (runPartition i (Zlen partitions) None created s0 (pl_rounds p)).2
  end.

(** The life of a component. *)
Inductive life :=
| LServer (ended : option serveEnd)
| LSink (x : sinkLife)
| LMaint (x : maintLife)
| LBridge (g : gstate Z partLife).

Definition born (c : component) : life :=
  match c with
  | ConnectionSrv | AttestationSrv | OpsSrv => LServer None
  | SinkOf _ => LSink (mkSinkLife false [] None)
  | MaintainerOf => LMaint (mkMaintLife false [])
  | BridgeOf => LBridge (g_start ((fun i => (i, mkPart None None false [])) <$> partitions))
  end.

Inductive clives (done : bool) : component -> life -> life -> Prop :=
| server_lives c e : serveCan done e -> clives done c (LServer None) (LServer (Some e))
| sink_lives i x x' : sinkLives done i x x' -> clives done (SinkOf i) (LSink x) (LSink x')
| maint_lives c x x' : maintLives done x x' -> clives done c (LMaint x) (LMaint x')
| bridge_lives c g g' : gstep partLives partResult done g g' -> clives done c (LBridge g) (LBridge g').

Definition cresult (c : component) (x : life) : option (option error) :=
  match x with
  | LServer ended => serveHTTP <$> ended
  | LSink x => sinkResult x
  | LMaint x => Maintain.Run 0 (ml_cycles x)
  | LBridge g => groupWait g
  end.

(** The node: SIGINT or SIGTERM, and the group of its components. *)
Record node := mkNode { n_signal : bool; n_group : gstate component life }.
Inductive nstep : node -> node -> Prop :=
| n_signalled g : nstep (mkNode false g) (mkNode true g)
| n_moves sig g g' : gstep clives cresult sig g g' -> nstep (mkNode sig g) (mkNode sig g').

Definition n_start : node := mkNode false (g_start ((fun c => (c, born c)) <$> wired s)).
Definition n_done (st : node) : bool := gctxDone (n_signal st) (n_group st).

Inductive nreach : node -> Prop :=
| n_init : nreach n_start
| n_next st st' : nreach st -> nstep st st' -> nreach st'.
End Components.

(** run: the configuration, the wiring, and then the group. *)
Definition run (loaded : result Settings) (attempt : bootStep -> option error) (wait : option error) : option error :=
  match loaded with
  | Err e => Some e
  | Ok s => (boot s attempt wait).2
  end.

(** main: log.Fatal exits with 1. [args] is os.Args[1:]. *)
Definition exitCode (args : list string) (subcommandErr : list string -> option error) (runErr : option error) : Z :=
  let err := match args with [] => runErr | _ => subcommandErr args end in
  match err with Some _ => 1 | None => 0 end.

(** The commit main stamps on every log line, from the settings of the build info. *)
Fixpoint buildCommit (settings : list (string * string)) : option string :=
  match settings with
  | [] => None
  | (k, v) :: settings' =>
      if (k =?s "vcs.revision") && (strlen v =? 40) then Some (String.substring 0 7 v) else buildCommit settings'
  end.

(** ** Lemmas: the group *)

Lemma firstErr_app_Some errs errs' e : firstErr errs = Some e -> firstErr (errs ++ errs') = Some e.
Proof. induction errs as [|[x|] errs IH]; simpl; [done|done|apply IH]. Qed.

Lemma firstErr_split errs e :
  firstErr errs = Some e -> exists pre rest, errs = pre ++ Some e :: rest /\ Forall (fun r => r = None) pre.
Proof.
  induction errs as [|[x|] errs IH]; simpl; [done|intros [= ->]; by exists [], errs|].
  intros (pre & rest & -> & Hp)%IH. exists (None :: pre), rest. by split; [|constructor].
Qed.

Section GroupLemmas.
Context `{G : ErrGroup} `{GL : !ErrGroupLaws G} {C L : Type}.
Variables (lives : bool -> C -> L -> L -> Prop) (result : C -> L -> option (option error)).
Implicit Types st : gstate C L.

(** What every life keeps, and what it keeps as long as no context is done. *)
Variables (legal quiet : C -> L -> Prop).
Hypothesis legal_kept : forall d c x x', lives d c x x' -> legal c x -> legal c x'.
Hypothesis quiet_kept : forall c x x', lives false c x x' -> quiet c x -> quiet c x'.
Hypothesis quiet_fails : forall c x, quiet c x -> result c x <> Some None.

Lemma after_snoc rs r : fnReturned (after rs) r = after (rs ++ [r]).
Proof. unfold after. by rewrite foldl_app. Qed.

Record group_inv (cs : list C) (st : gstate C L) : Prop := mkGroupInv {
  gi_group : g_group st = after (g_returned st).*2;
  gi_all : (g_running st).*1 ++ (g_returned st).*1.*1 ≡ₚ cs;
  gi_live : Forall (fun p => legal p.1 p.2) (g_running st);
  gi_over : Forall (fun q => legal q.1.1 q.1.2 /\ result q.1.1 q.1.2 = Some q.2) (g_returned st)
}.

(** Nothing returned nil before the first error. *)
Definition calm st : Prop :=
  match g_returned st with [] => Forall (fun p => quiet p.1 p.2) (g_running st) | q :: _ => q.2 <> None end.

Lemma group_start_inv fs : Forall (fun p => legal p.1 p.2) fs -> group_inv fs.*1 (g_start fs).
Proof. intros Hf. split; try done. simpl. by rewrite app_nil_r. Qed.

Lemma gstep_group_inv cs parent st st' : group_inv cs st -> gstep lives result parent st st' -> group_inv cs st'.
Proof.
  intros [Hg Ha Hl Ho] Hs. destruct Hs as [c x x' g run1 run2 out Hres Hlive|c x r g run1 run2 out Hres]; simpl in *;
    apply Forall_app in Hl as [Hl1 [Hc Hl2]%Forall_cons]; simpl in Hc; split; simpl.
  - done.
  - rewrite fmap_app in *. done.
  - apply Forall_app. split; [done|]. constructor; [by eapply legal_kept|done].
  - done.
  - by rewrite Hg, after_snoc, fmap_app.
  - rewrite <- Ha, !fmap_app. simpl. rewrite <- (Permutation_middle run1.*1), app_assoc, Permutation_app_comm. done.
  - by apply Forall_app.
  - apply Forall_app. split; [done|]. by apply Forall_singleton.
Qed.

Lemma gstep_calm cs st st' : group_inv cs st -> calm st -> gstep lives result false st st' -> calm st'.
Proof.
  intros [Hg _ _ _] Hc Hs. destruct Hs as [c x x' g run1 run2 out Hres Hlive|c x r g run1 run2 out Hres]; unfold calm in *; simpl in *;
    (destruct out as [|q out]; [|done]); apply Forall_app in Hc as [H1 [Hx H2]%Forall_cons]; simpl in Hx.
  - rewrite Hg, (cancelled_on_error []), bool_decide_eq_false_2 in Hlive by (intros ?; done).
    apply Forall_app. split; [done|]. constructor; [by eapply quiet_kept|done].
  - simpl. intros ->. by eapply quiet_fails.
Qed.

(** What Wait returns: nil when nothing failed, otherwise the error of the function that
    failed first, as its life explains it. *)
Lemma groupWait_cases cs st r :
  group_inv cs st -> groupWait st = Some r ->
  match r with
  | None => Forall (fun q => q.2 = None) (g_returned st)
  | Some e => exists pre c x rest, g_returned st = pre ++ (c, x, Some e) :: rest /\
      Forall (fun q => q.2 = None) pre /\ c ∈ cs /\ legal c x /\ result c x = Some (Some e)
  end.
Proof.
  intros [Hg Ha Hl Ho] Hw. unfold groupWait in Hw. destruct (g_running st) eqn:Er; [|done]. simpl in Ha.
  injection Hw as <-. rewrite Hg, Wait_first. destruct (firstErr (g_returned st).*2) as [e|] eqn:Ef.
  - apply firstErr_split in Ef as (pre & rest & Heq & Hp). apply fmap_app_inv in Heq as (l1 & l2 & -> & E2 & Hret).
    symmetry in E2. apply fmap_cons_inv in E2 as ([[c x] r] & l3 & E2 & _ & ->). simpl in E2. subst r.
    rewrite Hret in Ha, Ho |- *. apply Forall_app in Ho as [_ [[Hc Hres] _]%Forall_cons]. exists l1, c, x, l3.
    split_and!; try done; [by apply Forall_fmap in Hp|]. rewrite <- Ha, !fmap_app. apply elem_of_app. right. apply list_elem_of_here.
  - by apply firstErr_None, Forall_fmap in Ef.
Qed.

Lemma calm_wait cs st r : group_inv cs st -> cs <> [] -> calm st -> groupWait st = Some r -> r <> None.
Proof.
  intros I Hne Hc Hw ->. pose proof (groupWait_cases _ _ _ I Hw) as Hn. destruct I as [_ Ha _ _].
  unfold groupWait in Hw. destruct (g_running st); [|done]. unfold calm in Hc. destruct (g_returned st) as [|q out].
  - simpl in Ha. by apply Permutation_nil_l in Ha.
  - apply Forall_cons in Hn as [Hn _]. done.
Qed.

(** ** The end of a cancelled group *)

(** The events a function may still see under a done context, none when it is over; and
    while it is not, there is one. *)
Variable budget : C -> L -> nat.
Hypothesis budget_falls : forall c x x', legal c x -> result c x = None -> lives true c x x' -> (budget c x' < budget c x)%nat.
Hypothesis alive : forall c x, legal c x -> result c x = None -> exists x', lives true c x x'.

Definition steps_left st : nat := sum_list_with (fun p => S (budget p.1 p.2)) (g_running st).

Lemma gctxDone_step cs parent st st' :
  group_inv cs st -> gstep lives result parent st st' -> gctxDone parent st = true -> gctxDone parent st' = true.
Proof.
  intros [Hg _ _ _] Hs Hd. destruct Hs as [|c x r g run1 run2 out _]; [done|]. unfold gctxDone in *. simpl in *.
  destruct parent; [done|]. simpl in *. rewrite Hg, cancelled_on_error in Hd. apply bool_decide_eq_true in Hd.
  rewrite Hg, after_snoc, cancelled_on_error. apply bool_decide_eq_true. rewrite firstErr_None, Forall_app, <- firstErr_None. by intros [].
Qed.

Lemma gstep_left cs parent st st' :
  group_inv cs st -> gctxDone parent st = true -> gstep lives result parent st st' -> (steps_left st' < steps_left st)%nat.
Proof.
  intros [_ _ Hl _] Hd Hs. unfold gctxDone, steps_left in *. destruct Hs as [c x x' g run1 run2 out Hres Hx|c x r g run1 run2 out _];
    simpl in Hl, Hd; cbn [g_running]; rewrite !sum_list_with_app; cbn [sum_list_with]; [|lia].
  rewrite Hd in Hx. apply Forall_app in Hl as [_ [Hc _]%Forall_cons]. pose proof (budget_falls c x x' Hc Hres Hx). cbn [fst snd]. lia.
Qed.

(** A function that runs in a cancelled group can move, or return. *)
Lemma cancelled_moves cs parent st :
  group_inv cs st -> gctxDone parent st = true -> g_running st <> [] -> exists st', gstep lives result parent st st'.
Proof.
  intros [_ _ Hl _] Hd Hr. destruct st as [g run out]. simpl in *. destruct run as [|[c x] run]; [done|].
  apply Forall_cons in Hl as [Hc _]. destruct (result c x) as [r|] eqn:Eres.
  - eexists. by apply (g_return lives result parent c x r g [] run out).
  - destruct (alive c x Hc Eres) as [x' Hx]. eexists. apply (g_life lives result parent c x x' g [] run out); [done|].
    unfold gctxDone in Hd. simpl in Hd. by rewrite Hd.
Qed.

Lemma gstep_returned parent st st' : gstep lives result parent st st' -> g_returned st `prefix_of` g_returned st'.
Proof. destruct 1; simpl; [done|by apply prefix_app_r]. Qed.

(** So a cancelled group has a run to its end. *)
Lemma finish_run cs parent st :
  group_inv cs st -> gctxDone parent st = true ->
  exists st', rtc (gstep lives result parent) st st' /\ g_running st' = [] /\ g_returned st `prefix_of` g_returned st'.
Proof.
  remember (steps_left st) as k eqn:Hk. revert st Hk. induction k as [k IH] using lt_wf_ind. intros st -> I Hd.
  destruct (g_running st) as [|p run] eqn:Er; [by exists st|].
  destruct (cancelled_moves cs parent st I Hd ltac:(by rewrite Er)) as [st1 Hs].
  destruct (IH _ (gstep_left _ _ _ _ I Hd Hs) st1 eq_refl) as (st2 & Hr & He & Hp).
  - by eapply gstep_group_inv.
  - by eapply gctxDone_step.
  - exists st2. split_and!; [by eapply rtc_l|done|]. etrans; [by eapply gstep_returned|done].
Qed.
End GroupLemmas.

(** ** Lemmas: the drain of a sink *)

Section Drain.
Context `{CloudEventLib} `{NatsHeaderLib} `{BundleWriter}.
Variables (c : Sink.Config) (l : lake).

(** Under a done context Run can take any messages, whatever the backpressure. *)
Lemma can_receive msgs : exists st, reachable c l st /\ st_pc st = AtSelect /\ st_received st = msgs.
Proof.
  induction msgs as [|m msgs (st & Hr & Hpc & Hrcv)] using rev_ind; [by exists (init c l); split; [apply reach_init|]|].
  destruct st as [s pc run l1 tr rcv d]. simpl in *. subst pc rcv. destruct (add 0 s m) as [s1 out] eqn:Ea.
  pose proof (reach_step _ _ _ _ Hr (step_message 0 m s s1 out run l1 tr msgs d Ea)) as Hr1. clear Hr.
  remember (flushReady 0 false s1 false) as s2 eqn:E2. clear E2. destruct (underCeiling s2) eqn:Eu.
  - eexists. split; [eapply reach_step; [exact Hr1|by apply step_under]|split; reflexivity].
  - pose proof (reach_step _ _ _ _ Hr1 (step_over 0 _ _ _ _ _ _ Eu)) as Hr2.
    pose proof (reach_step _ _ _ _ (reach_step _ _ _ _ Hr2 (step_cancel _ _ _ _ _ _ _)) (step_wait_done _ _ _ _ _)) as Hr3.
    by eexists.
Qed.

(** The workers can finish what they have. *)
Lemma can_finish st :
  1 <= Workers (Sink.applyDefaults c) -> reachable c l st ->
  exists st', reachable c l st' /\ st_pc st' = st_pc st /\ st_received st' = st_received st /\ unfinished st' = [].
Proof.
  intros Hw. remember (load st) as k eqn:Hk. revert st Hk. induction k as [k IH] using lt_wf_ind. intros st -> Hr.
  assert (cfg (st_sink st) = Sink.applyDefaults c) as Hc.
  { destruct (reachable_watched _ _ _ Hr) as [h Hh]. by eapply wi_cfg, watched_inv. }
  destruct (work_possible st ltac:(by rewrite Hc)) as [Hu|[st1 Hs]]; [by exists st|].
  destruct (IH (load st1) ltac:(by rewrite (work_load _ _ Hs); lia) st1 eq_refl) as (st2 & Hr2 & Hp & Hv & Hu).
  { eapply reach_step; [done|]. by apply work_is_step. }
  exists st2. split_and!; [done|..|done]; [rewrite Hp|rewrite Hv]; by destruct Hs.
Qed.

Lemma can_drain msgs :
  1 <= Workers (Sink.applyDefaults c) ->
  exists st h, watched c l st h /\ st_pc st = Draining /\ st_received st = msgs /\ unfinished st = [].
Proof.
  intros Hw. destruct (can_receive msgs) as ([s pc run l1 tr rcv d] & Hr & Hpc & Hrcv). simpl in *. subst pc rcv.
  destruct (can_finish _ Hw (reach_step _ _ _ _ Hr (step_drain 0 0 true s run l1 tr msgs d))) as (st & Hr' & Hp & Hv & Hu).
  destruct (reachable_watched _ _ _ Hr') as [h Hh]. by exists st, h.
Qed.
End Drain.

(** ** Lemmas: the components *)

(** No context error in the rounds so far. *)
Definition unstopped (rounds : list fetchRound) : Prop := forall e, ~ stopped rounds e.
Lemma unstopped_snoc b rounds r : unstopped rounds -> roundCan b false r -> unstopped (rounds ++ [r]).
Proof.
  intros Hu [_ Hr] e (q & [Hq| ->%list_elem_of_singleton]%elem_of_app & He); [apply (Hu e); by exists q|].
  by destruct (Hr e He).
Qed.

(** What a loop sees at its top under a done context. *)
Definition doneRound : fetchRound := mkRound (Some (ESentinel ctxCanceled)) (Ok []) None None.
Lemma doneRound_can b : roundCan b true doneRound.
Proof. split; [done|]. intros e [[= <-]|[?|[? ?]]]; done. Qed.

(** Thirty failing fetches, none successful in between. *)
Definition fetch_outage (rounds : list fetchRound) : Prop :=
  exists pre outage post, rounds = pre ++ outage ++ post /\
    Forall (fun r => batch_of r = None) outage /\ strikes outage = 30.

Section Partitions.
Context `{CloudEventLib} {S V : Type} (handle : S -> list JMsg -> S * list V) (s0 : S) (s : Settings).
Notation partResult := (partResult handle s0 s).

Definition part_legal (i : Z) (p : partLife) : Prop := True.
Definition part_quiet (i : Z) (p : partLife) : Prop := unstopped (pl_rounds p).
Definition part_budget (i : Z) (p : partLife) : nat :=
  match partResult i p with
  | Some _ => 0
  | None => match pl_opened p, pl_created p with None, _ => 4 | _, None => 3 | _, _ => if pl_begun p then 1 else 2 end
  end.

(** Why a partition failed: its stream could not be opened, its consumer not created, or
    its own rounds have an outage. *)
Definition part_cause (p : partLife) : Prop :=
  (exists e, pl_opened p = Some (Some e)) \/ (exists e, pl_created p = Some (Some e)) \/ fetch_outage (pl_rounds p).

Lemma partResult_loop i b rounds :
  partResult i (mkPart (Some None) (Some None) b rounds) = (partitionLoop handle 0 s0 rounds).2.
Proof. reflexivity. Qed.

Lemma part_quiet_kept i p p' : partLives false i p p' -> part_quiet i p -> part_quiet i p'.
Proof. destruct 1; unfold part_quiet; simpl; try done. intros Hq. by eapply unstopped_snoc. Qed.

Lemma part_quiet_fails i p : part_quiet i p -> partResult i p <> Some None.
Proof.
  destruct p as [[[e|]|] [[e'|]|] b rounds]; unfold part_quiet; cbn [pl_rounds]; intros Hq; try done; rewrite ?partResult_loop;
    try discriminate.
  intros Hl. destruct (partitionLoop handle 0 s0 rounds) as [[t vs] r] eqn:El. simpl in Hl. subst r.
  apply partitionLoop_nil in El as [e He]. by eapply Hq.
Qed.

Lemma part_error i p e : partResult i p = Some (Some e) -> part_cause p.
Proof.
  destruct p as [[[eo|]|] [[ec|]|] b rounds]; unfold part_cause; simpl; try done; eauto.
  rewrite partResult_loop. destruct (partitionLoop handle 0 s0 rounds) as [[t vs] r] eqn:El. simpl. intros ->.
  right; right. apply partitionLoop_strikes in El as (pre & rn & post & -> & Hb & Hc); [|done].
  exists pre, rn, post. split_and!; [done..|]. destruct Hc as [->|[_ ->]]; done.
Qed.

Lemma part_budget_le i p : (part_budget i p <= 4)%nat.
Proof. unfold part_budget. repeat split_match; lia. Qed.

Lemma part_budget_falls i p p' :
  part_legal i p -> partResult i p = None -> partLives true i p p' -> (part_budget i p' < part_budget i p)%nat.
Proof.
  intros _ Hres Hs. unfold part_budget at 2. rewrite Hres.
  destruct Hs as [o cr b rounds|cr b rounds|r b rounds [Htop _]]; cbn [pl_opened pl_created pl_begun].
  - unfold part_budget. cbn [pl_opened pl_created pl_begun]. repeat split_match; lia.
  - unfold part_budget. cbn [pl_opened pl_created pl_begun]. repeat split_match; lia.
  - rewrite partResult_loop in Hres. unfold part_budget. rewrite partResult_loop. cbn [pl_opened pl_created pl_begun].
    destruct b.
    + destruct (fr_top r) as [e|] eqn:Et; [|by specialize (Htop eq_refl)].
      rewrite (partitionLoop_top _ _ _ _ _ _ Hres Et). lia.
    + repeat split_match; lia.
Qed.

Lemma part_alive i p : part_legal i p -> partResult i p = None -> exists p', partLives true i p p'.
Proof.
  destruct p as [[[eo|]|] [[ec|]|] b rounds]; intros _ Hres;
    try (eexists; apply (p_open true i None)); try (eexists; apply (p_create true i None));
    try (eexists; apply (p_round true i doneRound); apply doneRound_can);
    discriminate Hres.
Qed.

Lemma partitions_ne : partitions s <> [].
Proof.
  unfold partitions, bridgePartitions. intros He%fmap_nil_inv. apply (f_equal length) in He. rewrite length_seq in He. simpl in He.
  destruct (_ <=? 0) eqn:E; bool_to_prop; lia.
Qed.
End Partitions.

Section Sinks.
Context `{CloudEventLib} `{NatsHeaderLib} `{BundleWriter} (l0 : lake) (s : Settings).

Definition sink_legal (i : Z) (x : sinkLife) : Prop :=
  Forall (fun r => forall e, ctx_error r e -> errors_is e ctxCanceled = true) (sl_rounds x) /\
  match sl_end x with Some (st, h) => watched (sinkOf s i) l0 st h /\ sinkResult x <> None | None => True end.
Definition sink_quiet (x : sinkLife) : Prop := unstopped (sl_rounds x).
Definition sink_budget (x : sinkLife) : nat :=
  match sl_end x with
  | Some _ => 0
  | None => match (fetchLoop 0 (sl_rounds x)).2 with Some _ => 1 | None => if sl_begun x then 2 else 3 end
  end.

(** Why a sink failed: its writer committed nothing for the failure window, in the
    flushes of this run, or its own rounds have an outage. *)
Definition sink_cause (i : Z) (x : sinkLife) (e : error) : Prop :=
  (exists st h, sl_end x = Some (st, h) /\ watched (sinkOf s i) l0 st h /\ st_pc st = Exited e /\ gave_up (sinkOf s i) h) \/
  (exists fetchErr, (fetchLoop 0 (sl_rounds x)).2 = Some fetchErr /\ e = EWrap "sink fetch loop: " fetchErr "" /\ fetch_outage (sl_rounds x)).

Lemma sink_legal_kept d i x x' : sinkLives l0 s d i x x' -> sink_legal i x -> sink_legal i x'.
Proof.
  destruct 1 as [r b rounds _ [_ Hr]| |]; intros [Hf He]; split; simpl in *; try done;
    [|split; [done|]; unfold sinkResult; simpl; match goal with E : st_pc _ = _ |- _ => rewrite E end; by repeat split_match..].
  apply Forall_app. split; [done|]. apply Forall_singleton. intros e Hce. by apply Hr.
Qed.

Lemma sink_quiet_kept i x x' : sinkLives l0 s false i x x' -> sink_quiet x -> sink_quiet x'.
Proof. destruct 1; unfold sink_quiet; simpl; try done. intros Hq. by eapply unstopped_snoc. Qed.

Lemma sink_quiet_fails x : sink_quiet x -> sinkResult x <> Some None.
Proof.
  unfold sink_quiet, sinkResult. intros Hq. destruct (sl_end x) as [[st h]|]; [|done].
  destruct (fetchLoop 0 (sl_rounds x)) as [out [fe|]] eqn:El; simpl; [|by destruct (st_pc st)].
  assert (Some (fetchResult fe) <> Some None) as Hne; [|by destruct (st_pc st)].
  unfold fetchResult. destruct (errors_is fe ctxCanceled) eqn:Ec; [|done]. intros _. by eapply Hq, fetchLoop_canceled.
Qed.

Lemma sink_error i x e : sink_legal i x -> sinkResult x = Some (Some e) -> sink_cause i x e.
Proof.
  intros [Hf He] Hres. unfold sinkResult in Hres. destruct (sl_end x) as [[st h]|] eqn:Ee; [|done].
  destruct (st_pc st) as [| | | |e'] eqn:Epc; try (
    right; destruct (fetchLoop 0 (sl_rounds x)) as [out [fe|]] eqn:El; simpl in Hres; [|done];
    unfold fetchResult in Hres; destruct (errors_is fe ctxCanceled) eqn:Ec; [done|]; injection Hres as <-;
    exists fe; split_and!; [done..|];
    apply fetchLoop_strikes in El as [(r & Hr & Hce)|(pre & rn & post & -> & Hb & Hc)]; [|
      exists pre, rn, post; split_and!; [done..|]; destruct Hc as [->|[_ ->]]; done|done];
    rewrite Forall_forall in Hf; specialize (Hf r Hr fe Hce); congruence).
  injection Hres as ->. left. exists st, h. destruct He as [He _]. split_and!; try done. by eapply wi_exited; [eapply watched_inv|].
Qed.

Lemma sink_budget_falls i x x' : sinkLives l0 s true i x x' -> (sink_budget x' < sink_budget x)%nat.
Proof.
  destruct 1 as [r b rounds Hl [Htop _]|cur st h e b rounds|st h b rounds]; unfold sink_budget; cbn [sl_end sl_rounds sl_begun];
    [|by repeat split_match; lia..].
  rewrite Hl. destruct b; [|repeat split_match; lia].
  destruct (fr_top r) as [e|] eqn:Et; [|by specialize (Htop eq_refl)]. rewrite (fetchLoop_top _ _ _ _ Hl Et). lia.
Qed.

Lemma sink_alive i x :
  1 <= Workers (Sink.applyDefaults (sinkOf s i)) -> sink_legal i x -> sinkResult x = None ->
  exists x', sinkLives l0 s true i x x'.
Proof.
  intros Hw [_ Hl] Hres. destruct x as [b rounds [[st h]|]]; simpl in Hl; [by destruct Hl|]. clear Hl Hres. destruct (fetchLoop 0 rounds).2 as [fe|] eqn:El.
  - destruct (can_drain (sinkOf s i) l0 (fetchLoop 0 rounds).1 Hw) as (st & h & Hh & Hpc & Hr & Hu).
    eexists. by apply (sk_drained l0 s true i st h b rounds); [eexists|..].
  - eexists. apply sk_round; [done|apply doneRound_can].
Qed.
End Sinks.

Section ComponentLemmas.
Context `{CloudEventLib} `{NatsHeaderLib} `{BundleWriter} `{G : ErrGroup} `{GL : !ErrGroupLaws G}.
Context {S V : Type} (handle : S -> list JMsg -> S * list V) (s0 : S) (l0 : lake) (s : Settings).
Notation parts_inv := (group_inv (partResult handle s0 s) part_legal (partitions s)).
Notation plives := (gstep partLives (partResult handle s0 s)).

(** Every life is its component's own, and keeps its invariant. *)
Definition legal (c : component) (x : life) : Prop :=
  match c, x with
  | (ConnectionSrv | AttestationSrv | OpsSrv), LServer (Some (ListenReturned err)) => errors_is err httpErrServerClosed = false
  | (ConnectionSrv | AttestationSrv | OpsSrv), LServer _ => True
  | SinkOf i, LSink x => sink_legal l0 s i x
  | MaintainerOf, LMaint _ => True
  | BridgeOf, LBridge g => parts_inv g
  | _, _ => False
  end.

(** What it keeps while its context is not done. *)
Definition quiet (c : component) (x : life) : Prop :=
  match x with
  | LServer None => True
  | LServer (Some e) => serveCan false e
  | LSink x => sink_quiet x
  | LMaint x => Forall (cycleCan false false) (ml_cycles x)
  | LBridge g => parts_inv g /\ calm part_quiet g
  end.

(** The events it may still see once its context is done. *)
Definition budget (c : component) (x : life) : nat :=
  match x with
  | LServer None => 1
  | LServer (Some _) => 0
  | LSink x => sink_budget x
  | LMaint x => match Maintain.Run 0 (ml_cycles x) with Some _ => 0 | None => if ml_begun x then 1 else 2 end
  | LBridge g => steps_left (part_budget handle s0 s) g
  end.

(** Why a component failed, by the life it had. *)
Definition cause (c : component) (x : life) (e : error) : Prop :=
  match c, x with
  | (ConnectionSrv | AttestationSrv | OpsSrv), LServer ended => ended = Some (ListenReturned e)
  | SinkOf i, LSink x => sink_cause l0 s i x e
  | MaintainerOf, LMaint x =>
      exists pre strikes post, ml_cycles x = pre ++ strikes ++ post /\
        Zlen strikes = maxConsecutiveCycleFailures /\ Forall failed_cycle strikes
  | BridgeOf, LBridge g => exists i p, (i, p, Some e) ∈ g_returned g /\ i ∈ partitions s /\ part_cause p
  | _, _ => False
  end.

Lemma parts_step d g g' : parts_inv g -> plives d g g' -> parts_inv g'.
Proof. intros I. by apply gstep_group_inv. Qed.

Lemma legal_kept d c x x' : clives handle s0 l0 s d c x x' -> legal c x -> legal c x'.
Proof.
  destruct 1 as [c e He|i x x' Hs|c x x' _|c g g' Hs]; simpl.
  - destruct c; try done; by destruct e.
  - by eapply sink_legal_kept.
  - by destruct c.
  - destruct c; try done. intros I. by eapply parts_step.
Qed.

Lemma quiet_kept c x x' : clives handle s0 l0 s false c x x' -> quiet c x -> quiet c x'.
Proof.
  destruct 1 as [c e He|i x x' Hs|c x x' [b cycles cy [_ Hc]]|c g g' Hs]; simpl.
  - done.
  - by eapply sink_quiet_kept.
  - intros Hf. apply Forall_app. split; [done|]. by apply Forall_singleton.
  - intros [I Hc]. split; [by eapply parts_step|]. eapply gstep_calm; [| |exact I|exact Hc|exact Hs]; [apply part_quiet_kept|apply part_quiet_fails].
Qed.

Lemma quiet_fails c x : quiet c x -> cresult c x <> Some None.
Proof.
  destruct x as [[e|]|x|x|g]; simpl; intros Hq; try done.
  - destruct e as [err|]; [|done]. simpl in *. by rewrite Hq.
  - by apply sink_quiet_fails.
  - intros (cy & Hin & Hcy)%Run_nil. rewrite Forall_forall in Hq. destruct (Hq cy Hin) as (_ & Hd1 & Hx1).
    destruct Hcy as [Hd|(e & He & Hx)]; [by specialize (Hd1 Hd)|by specialize (Hx1 e He Hx)].
  - destruct Hq as [I Hc]. intros Hw. by eapply (calm_wait _ _ _ _ _ _ I (partitions_ne s) Hc Hw).
Qed.

Lemma budget_falls c x x' :
  legal c x -> cresult c x = None -> clives handle s0 l0 s true c x x' -> (budget c x' < budget c x)%nat.
Proof.
  intros Hl Hres Hs. destruct Hs as [c e He|i x x' Hs|c x x' [b cycles cy [Hb _]]|c g g' Hs]; simpl in *.
  - lia.
  - by eapply sink_budget_falls.
  - rewrite Hres. destruct b; [|repeat split_match; lia]. destruct (Hb eq_refl) as (e & He & Hx).
    rewrite (Run_canceled _ _ _ _ Hres He Hx). lia.
  - destruct c; try done. exact (gstep_left _ _ _ _ (part_budget_falls handle s0 s) _ true _ _ Hl eq_refl Hs).
Qed.

Lemma alive c x :
  1 <= Workers (Sink.applyDefaults (sinkConfig s (walPartitions s))) ->
  legal c x -> cresult c x = None -> exists x', clives handle s0 l0 s true c x x'.
Proof.
  intros Hw Hl Hres. destruct x as [[e|]|x|x|g]; simpl in Hres; try done.
  - exists (LServer (Some (CtxDone None))). by apply server_lives.
  - destruct c; try done. destruct (sink_alive l0 s i x Hw Hl Hres) as [x' Hx]. exists (LSink x'). by apply sink_lives.
  - destruct x as [b cycles]. eexists. apply maint_lives, (m_cycle true b cycles (Some (ESentinel ctxCanceled), false)).
    split_and!; [|done..]. intros _. by eexists.
  - destruct c; try done. destruct (cancelled_moves partLives _ _ (part_alive handle s0 s) _ true g Hl eq_refl) as [g' Hg].
    + intros Hr. unfold groupWait in Hres. by rewrite Hr in Hres.
    + exists (LBridge g'). by apply bridge_lives.
Qed.

Lemma error_cause c x e : legal c x -> cresult c x = Some (Some e) -> cause c x e.
Proof.
  assert (forall ended : option serveEnd, serveHTTP <$> ended = Some (Some e) -> ended = Some (ListenReturned e)) as Hsrv.
  { intros [[err|]|]; simpl; try done. destruct (errors_is err httpErrServerClosed); [done|]. by intros [= ->]. }
  destruct c, x as [ended|x|x|g]; simpl; try done; auto.
  - apply sink_error.
  - intros _. apply Run_strikes.
  - intros I Hw. destruct (groupWait_cases _ _ _ _ _ I Hw) as (out & i & p & rest & Hret & _ & Hi & _ & Hres).
    exists i, p. split_and!; [rewrite Hret; set_solver|done|by eapply part_error].
Qed.

(** The steps of a shutdown, at most: an event and the return of a server; two rounds,
    the drain and the return of a sink; two cycles and the return of the maintainer; for
    a partition of the bridge its opening, its consumer, two rounds and its return. *)
Definition turns (x : life) : nat :=
  match x with
  | LServer _ => 2
  | LSink _ => 4
  | LMaint _ => 3
  | LBridge g => 1 + 5 * length (g_running g)
  end.

Lemma budget_turns c x : (1 + budget c x <= turns x)%nat.
Proof.
  destruct x as [[e|]|x|x|g]; simpl; [lia..|unfold sink_budget; repeat split_match; lia|repeat split_match; lia|].
  unfold steps_left. induction (g_running g) as [|[i p] run IH]; simpl; [lia|]. pose proof (part_budget_le handle s0 s i p). lia.
Qed.

(** ** Lemmas: the node *)

Notation nsteps_to := (nstep handle s0 l0 s).
Notation node_group := (group_inv cresult legal (wired s)).

Record node_inv (st : node) : Prop := mkNodeInv {
  ni_group : node_group (n_group st);
  ni_calm : n_signal st = false -> calm quiet (n_group st)
}.

Lemma born_ok c : legal c (born s c) /\ quiet c (born s c).
Proof.
  assert (parts_inv (g_start ((fun i => (i, mkPart None None false [])) <$> partitions s))) as I.
  { rewrite <- (list_fmap_id (partitions s)) at 1.
    replace (id <$> partitions s) with ((fun i => (i, mkPart None None false [])) <$> partitions s).*1 by (by rewrite <- list_fmap_compose).
    apply group_start_inv. apply Forall_fmap, Forall_true. done. }
  destruct c; simpl; split; try done; try (by intros e (r & Hr%elem_of_nil & _)).
  split; [done|]. unfold calm. simpl. apply Forall_fmap, Forall_true. intros i e (r & Hr%elem_of_nil & _). done.
Qed.

Lemma node_step_inv st st' : node_inv st -> nsteps_to st st' -> node_inv st'.
Proof.
  intros [Hg Hc] Hs. destruct Hs as [g|sig g g' Hs]; split; simpl in *; try done.
  - eapply gstep_group_inv; [apply legal_kept|done..].
  - intros ->. eapply gstep_calm; [apply quiet_kept|apply quiet_fails|done|by apply Hc|done].
Qed.

Lemma nreach_inv st : nreach handle s0 l0 s st -> node_inv st.
Proof.
  induction 1 as [|st st' _ IH Hs]; [|by eapply node_step_inv].
  assert (Forall (fun p => legal p.1 p.2 /\ quiet p.1 p.2) ((fun c => (c, born s c)) <$> wired s)) as Hb.
  { apply Forall_fmap, Forall_true. intros c. apply born_ok. }
  split.
  - replace (wired s) with ((fun c => (c, born s c)) <$> wired s).*1 at 1
      by (rewrite <- list_fmap_compose; apply list_fmap_id).
    apply group_start_inv. eapply Forall_impl; [exact Hb|]. by intros p [].
  - intros _. unfold calm. simpl. eapply Forall_impl; [exact Hb|]. by intros p [].
Qed.

(** A cancelled node stays cancelled, and every step brings it closer to its end. *)
Definition node_left (st : node) : nat := (steps_left budget (n_group st) + if n_signal st then 0 else 1)%nat.

Lemma node_step_left st st' :
  node_inv st -> n_done st = true -> nsteps_to st st' -> n_done st' = true /\ (node_left st' < node_left st)%nat.
Proof.
  intros [Hg _] Hd Hs. unfold n_done, node_left in *. destruct Hs as [g|sig g g' Hs]; simpl in *; [split; [done|lia]|]. split.
  - by eapply gctxDone_step.
  - pose proof (gstep_left _ _ legal budget budget_falls _ _ _ _ Hg Hd Hs). lia.
Qed.

Lemma node_steps_left k st st' :
  nsteps nsteps_to k st st' -> node_inv st -> n_done st = true ->
  node_inv st' /\ n_done st' = true /\ (k + node_left st' <= node_left st)%nat.
Proof.
  induction 1 as [|k st st1 st2 Hs _ IH]; intros I Hd; [by split_and!|].
  destruct (node_step_left _ _ I Hd Hs) as [Hd1 Hl]. destruct (IH (node_step_inv _ _ I Hs) Hd1) as (? & ? & ?).
  split_and!; [done..|lia].
Qed.

(** A cancelled node has a run to its end. *)
Lemma node_finishes st :
  1 <= Workers (Sink.applyDefaults (sinkConfig s (walPartitions s))) ->
  nreach handle s0 l0 s st -> n_done st = true ->
  exists st', nreach handle s0 l0 s st' /\ n_signal st' = n_signal st /\ g_running (n_group st') = [] /\
    g_returned (n_group st) `prefix_of` g_returned (n_group st').
Proof.
  intros Hw Hr Hd. destruct st as [sig g]. pose proof (ni_group _ (nreach_inv _ Hr)) as Hg.
  destruct (finish_run _ _ _ legal_kept budget budget_falls (fun c x => alive c x Hw) _ sig g Hg Hd) as (g' & Hs & He & Hp).
  exists (mkNode sig g'). split_and!; [|done..]. clear -Hr Hs. induction Hs as [|g g1 g2 Hs _ IH]; [done|].
  apply IH. eapply n_next; [exact Hr|]. by apply n_moves.
Qed.
End ComponentLemmas.

(** ** Properties *)

Section Supervision.
Context `{CloudEventLib} `{NatsHeaderLib} `{BundleWriter} `{G : ErrGroup} `{GL : !ErrGroupLaws G}.
Context {S V : Type} (handle : S -> list JMsg -> S * list V) (s0 : S) (l0 : lake).

(** C15: The node exits for a cause. When its group is through, run returns nil only if
    SIGINT or SIGTERM came, every wiring step was done and every component returned nil;
    otherwise its error is that of a wiring step, or that of the component that failed
    first, and the life that component had in this very run shows why: its listener
    returned that error; the flushes of its sink committed nothing for the failure
    window, or its fetches failed thirty times with none successful in between; four of
    its maintenance cycles in a row failed; one of its bridge partitions could not be
    opened or met thirty failing fetches in a row. Without a signal that component
    was the first of all to return: no component ends by itself. *)
Theorem run_exits_for_cause s attempt st wait :
  nreach handle s0 l0 s st -> groupWait (n_group st) = Some wait ->
  match run (Ok s) attempt wait with
  | None => n_signal st = true /\ Forall (fun b => stepErr s attempt b = None) (bootPlan s) /\
      Forall (fun q => q.2 = None) (g_returned (n_group st))
  | Some e =>
      (exists b, b ∈ bootPlan s /\ stepErr s attempt b = Some e) \/
      exists before c x after, g_returned (n_group st) = before ++ (c, x, Some e) :: after /\
        Forall (fun q => q.2 = None) before /\ c ∈ wired s /\ cause l0 s c x e /\ (n_signal st = false -> before = [])
  end.
Proof.
  intros [Hg Hc]%nreach_inv Hw. pose proof (groupWait_cases _ _ _ _ _ Hg Hw) as Hcause.
  assert (n_signal st = false -> wait <> None) as Hn.
  { intros Hs. eapply calm_wait; [exact Hg|done|by apply Hc|done]. }
  unfold run. destruct (boot s attempt wait) as [[ready rel] err] eqn:Eb.
  apply bootLoop_spec in Eb as [(_ & Hf & -> & _)|(_ & ok & b & e & rest & Hp & _ & He & -> & _)]; simpl.
  - destruct wait as [e|]; [|split_and!; [|done..]; destruct (n_signal st); [done|by specialize (Hn eq_refl)]].
    right. destruct Hcause as (before & c & x & rest & Hret & Hb & Hin & Hl & Hres). exists before, c, x, rest.
    split_and!; [done..|by eapply error_cause|]. intros Hs%Hc. unfold calm in Hs. rewrite Hret in Hs.
    destruct before as [|q before]; [done|]. apply Forall_cons in Hb as [? _]. done.
  - left. exists b. split; [rewrite Hp; set_solver|done].
Qed.

(** C16: Shutdown reaches its end. Once the group's context is done, by a signal or by a
    component that failed, every component ends in its next rounds: the node takes no
    more steps than [turns] gives each component that still runs (a server its end; a
    sink two rounds of its fetch loop and the drain; the maintainer two cycles; a bridge
    partition its start and two rounds) and one for a signal, in whatever order and
    whatever fails; it stays cancelled; and as long as a component runs, one can move,
    so that the group ends and group.Wait returns. *)
Theorem shutdown_completes s st k st' :
  1 <= Workers (Sink.applyDefaults (sinkConfig s (walPartitions s))) ->
  nreach handle s0 l0 s st -> n_done st = true -> nsteps (nstep handle s0 l0 s) k st st' ->
  (k <= 1 + sum_list_with (fun p => turns p.2) (g_running (n_group st)))%nat /\ n_done st' = true /\
  (is_Some (groupWait (n_group st')) \/
   exists g, gstep (clives handle s0 l0 s) cresult (n_signal st') (n_group st') g).
Proof.
  intros Hw Hr%nreach_inv Hd Hs. destruct (node_steps_left _ _ _ _ _ _ _ Hs Hr Hd) as ([Hg _] & Hd' & Hk). split_and!; [|done|].
  - unfold node_left in Hk. assert (steps_left (budget handle s0 s) (n_group st) <= sum_list_with (fun p => turns p.2) (g_running (n_group st)))%nat;
      [|destruct (n_signal st); lia].
    unfold steps_left. induction (g_running (n_group st)) as [|[c x] run IH]; simpl; [lia|].
    pose proof (budget_turns handle s0 s c x). simpl in *. lia.
  - destruct (g_running (n_group st')) as [|p run] eqn:Er; [left; unfold groupWait; rewrite Er; by eexists|right].
    eapply cancelled_moves; [intros c x; by apply alive|exact Hg|exact Hd'|by rewrite Er].
Qed.
End Supervision.

(** ** Instance and witnesses *)

(** A group that keeps its first error. *)
#[export] Instance firstGroup : ErrGroup := {|
  group := option error; WithContext := None;
  fnReturned g r := match g with Some e => Some e | None => r end;
  selfCancelled g := bool_decide (g <> None); Wait g := g |}.

Lemma firstGroup_after rs : @after firstGroup rs = firstErr rs.
Proof.
  assert (forall g, foldl (@fnReturned firstGroup) g rs = match g with Some e => Some e | None => firstErr rs end) as Hg.
  { induction rs as [|r rs IH]; intros g; simpl; [by destruct g|]. rewrite IH. by destruct g, r. }
  apply (Hg None).
Qed.
#[export] Instance firstGroup_laws : ErrGroupLaws firstGroup.
Proof. split; intros rs; rewrite firstGroup_after; reflexivity. Defined.

(** The sample node: its listener fails, and the rest shuts down. *)
Definition listenErr : error := ENew "listen tcp :8443: bind: address already in use".
Definition noBatches (u : unit) (batch : list JMsg) : unit * list unit := (u, []).
Definition sampleReach : node -> Prop :=
  @nreach sample_lib map_headers ok_writer firstGroup unit unit noBatches tt [] sample.
Definition sampleStep : node -> node -> Prop :=
  @nstep sample_lib map_headers ok_writer firstGroup unit unit noBatches tt [] sample.
Definition sampleFns : list (component * @life ok_writer firstGroup) :=
  (fun c => (c, born sample c)) <$> wired sample.
Definition listenerLife : @life ok_writer firstGroup := LServer (Some (ListenReturned listenErr)).
Definition failedListener : @node ok_writer firstGroup :=
  mkNode false (@mkGroup firstGroup _ _ (Some listenErr) (tl sampleFns) [(ConnectionSrv, listenerLife, Some listenErr)]).

Lemma failedListener_reach : sampleReach failedListener.
Proof.
  eapply n_next; [eapply n_next; [apply n_init|]|].
  - apply n_moves. apply (g_life _ _ false ConnectionSrv _ listenerLife (None : @group firstGroup) [] (tl sampleFns) []); [reflexivity|].
    by apply server_lives.
  - apply n_moves. by apply (g_return _ _ false ConnectionSrv listenerLife (Some listenErr) (None : @group firstGroup) [] (tl sampleFns) []).
Defined.

Lemma sampleWorkers : 1 <= Workers (Sink.applyDefaults (sinkConfig sample (walPartitions sample))).
Proof. vm_compute. discriminate. Defined.

Lemma run_exits_for_cause_witness :
  exists st, sampleReach st /\ n_signal st = false /\ groupWait (n_group st) = Some (Some listenErr) /\
    exists c x, head (g_returned (n_group st)) = Some (c, x, Some listenErr) /\ @cause sample_lib map_headers ok_writer firstGroup [] sample c x listenErr.
Proof.
  destruct (@node_finishes sample_lib map_headers ok_writer firstGroup firstGroup_laws unit unit noBatches tt [] sample failedListener sampleWorkers failedListener_reach eq_refl) as (st & Hr & Hs & He & Hp).
  assert (groupWait (n_group st) = Some (Some listenErr)) as Hw.
  { unfold groupWait. rewrite He. rewrite (gi_group _ _ _ _ (ni_group _ _ _ _ _ (nreach_inv _ _ _ _ _ Hr))), Wait_first.
    destruct Hp as [more ->]. reflexivity. }
  exists st. split; [exact Hr|]. split; [exact Hs|]. split; [exact Hw|].
  pose proof (@run_exits_for_cause sample_lib map_headers ok_writer firstGroup firstGroup_laws unit unit noBatches tt [] sample (fun _ => None) st (Some listenErr) Hr Hw) as Hc.
  change (run (Ok sample) (fun _ => None) (Some listenErr)) with (Some listenErr) in Hc.
  destruct Hc as [(b & Hb & Hbe)|(before & c & x & rest & Hret & _ & _ & Hc & Hn)].
  - exfalso. assert (Hf : Forall (fun b => stepErr sample (fun _ => None) b = None) (bootPlan sample)) by (vm_compute; by repeat constructor).
    rewrite Forall_forall in Hf. apply Hf in Hb. congruence.
  - exists c, x. rewrite Hret, (Hn Hs). split; [reflexivity|exact Hc].
Defined.

(** The maintainer of the sample node: its fourth failed cycle in a row, after a success,
    ends it; a success in between does not. *)
Definition badCycle : option error * bool := (Some (ENew "merge failed"), false).
Lemma strikes_in_a_row :
  cresult MaintainerOf (LMaint (mkMaintLife false ([badCycle; (None, false)] ++ replicate 3 badCycle)) : @life ok_writer firstGroup) = None /\
  exists e, cresult MaintainerOf (LMaint (mkMaintLife false ([badCycle; (None, false)] ++ replicate 4 badCycle)) : @life ok_writer firstGroup) = Some (Some e).
Proof. split; [reflexivity|by eexists]. Qed.

Lemma shutdown_completes_witness :
  exists st, sampleStep failedListener st /\ n_done st = true /\
    (is_Some (groupWait (n_group st)) \/ exists g, gstep (@clives sample_lib map_headers ok_writer firstGroup unit unit noBatches tt [] sample) cresult false (n_group st) g).
Proof.
  set (st := mkNode false (@mkGroup firstGroup _ _ (Some listenErr) ((AttestationSrv, LServer (Some (CtxDone None))) :: tl (tl sampleFns))
    [(ConnectionSrv, listenerLife, Some listenErr)])).
  assert (Hs : sampleStep failedListener st).
  { apply n_moves. apply (g_life _ _ false AttestationSrv (LServer None) (LServer (Some (CtxDone None))) (Some listenErr : @group firstGroup) [] (tl (tl sampleFns))); [reflexivity|].
    by apply server_lives. }
  exists st. split; [exact Hs|].
  destruct (@shutdown_completes sample_lib map_headers ok_writer firstGroup firstGroup_laws unit unit noBatches tt [] sample failedListener 1 st sampleWorkers failedListener_reach eq_refl
    (nsteps_once _ _ Hs)) as (_ & Hd & Hm).
  split; [exact Hd|exact Hm].
Defined.
