(* ===== verification/Metrics.v ===== *)
(** * The exported metrics: who registers what, and what an outcome is counted as

    The families the packages declare (sink.go, publisher.go, middleware.go,
    decodestream.go, maintain.go), their registration at package initialisation and,
    for the maintainer's, by the first NewMaintainer. The registry of client_golang is a
    parameter ([Prometheus]) with its rule: one family per name. Also the label a publish
    outcome is counted under, against the answer the device gets. *)

From S2P Require Import Prelude GoStd Float CloudEvent Stream Publisher Convert Attest Blob Handler Responses LakeWriter Sink Maintain Config Supervise.
Import config wiring.

(** ** Families *)

Inductive metricKind := Counter | Gauge | Histogram | Summary.
Record family := mkFamily { fam_name : string; fam_kind : metricKind; fam_labels : list string }.

(** sink.go *)
Definition redeliveries : family := mkFamily "din_sink_redeliveries_total" Counter [].
Definition poisonRows : family := mkFamily "din_sink_poison_rows_total" Counter [].
Definition commitsTotal : family := mkFamily "din_sink_commits_total" Counter [].
Definition commitFailuresTotal : family := mkFamily "din_sink_commit_failures_total" Counter [].
Definition sinkGauges : list family :=
  [mkFamily "din_sink_buffered_footprint_bytes" Gauge ["sink"]; mkFamily "din_sink_inflight_footprint_bytes" Gauge ["sink"];
   mkFamily "din_wal_pending_messages" Gauge ["sink"]].
(** publisher.go *)
Definition publishFamilies : list family :=
  [mkFamily "din_publish_ack_seconds" Histogram []; mkFamily "din_publish_total" Counter ["outcome"]].
(** middleware.go, decodestream.go *)
Definition httpHandlerPanics : family := mkFamily "din_http_handler_panics_total" Counter [].
Definition decodestreamFetchErrors : family := mkFamily "din_decodestream_fetch_errors_total" Counter [].

(** What promauto registers when the packages are initialised. *)
Definition packageFamilies : list family :=
  publishFamilies ++ [httpHandlerPanics; redeliveries; poisonRows; commitsTotal; commitFailuresTotal] ++ sinkGauges ++
  [decodestreamFetchErrors].

(** maintain.go *)
Definition maintFamilies : list family :=
  [mkFamily "din_lake_maintenance_cycles_total" Counter []; mkFamily "din_lake_maintenance_errors_total" Counter ["step"];
   mkFamily "din_lake_maintenance_step_seconds" Summary ["step"];
   mkFamily "din_lake_oldest_unexpired_snapshot_age_seconds" Gauge [];
   mkFamily "din_lake_last_successful_cycle_timestamp_seconds" Gauge []; mkFamily "din_lake_expiry_floor_binding" Gauge [];
   mkFamily "din_lake_stale_consumers" Gauge []; mkFamily "din_lake_consumer_dropped_total" Counter ["consumer"];
   mkFamily "din_lake_data_files" Gauge ["table"]; mkFamily "din_lake_avg_data_file_bytes" Gauge ["table"];
   mkFamily "din_lake_merge_oom_backoff_total" Counter []; mkFamily "din_lake_merge_files_per_call" Gauge []].

(** ** The registry *)

Class Prometheus := {
  registry : Type;
  Register : registry -> family -> registry * option error
}.
(** A family is refused exactly if its name is taken. *)
Class PrometheusLaws (P : Prometheus) := {
  exported : registry -> gset string;
  Register_taken r f : fam_name f ∈ exported r -> (Register r f).2 <> None;
  Register_new r f : fam_name f ∉ exported r -> (Register r f).2 = None /\ exported (Register r f).1 = {[fam_name f]} ∪ exported r
}.

Section Process.
Context `{Prometheus}.

(** prometheus.MustRegister; None where it panics. *)
Fixpoint MustRegister (r : registry) (fs : list family) : option registry :=
  match fs with
  | [] => Some r
  | f :: fs' => match Register r f with (r', None) => MustRegister r' fs' | (_, Some _) => None end
  end.

(** A process: its default registry, and whether registerMaintenanceMetricsOnce is done. *)
Definition process : Type := registry * bool.
Definition initPackages (r : registry) : option process := r' ← MustRegister r packageFamilies; Some (r', false).
Definition registerMaintenanceMetrics (p : process) : option process :=
  if p.2 then Some p else r' ← MustRegister p.1 maintFamilies; Some (r', true).

(** [n] maintainers constructed one after the other. *)
Fixpoint newMaintainers (n : nat) (p : process) : option process :=
  match n with O => Some p | S n' => p' ← registerMaintenanceMetrics p; newMaintainers n' p' end.

(** The maintainers a node constructs. *)
Definition isMaintainer (c : component) : bool := match c with MaintainerOf => true | _ => false end.
Definition maintainersOf (s : Settings) : nat := length (List.filter isMaintainer (wired s)).
Definition nodeMetrics (s : Settings) (r : registry) : option process := p ← initPackages r; newMaintainers (maintainersOf s) p.
End Process.

(** ** Lemmas *)

Section Registration.
Context `{P : Prometheus} `{L : !PrometheusLaws P}.

Lemma MustRegister_spec fs r :
  NoDup (fam_name <$> fs) -> (forall f, f ∈ fs -> fam_name f ∉ exported r) ->
  exists r', MustRegister r fs = Some r' /\ forall x, x ∈ exported r' <-> x ∈ exported r \/ x ∈ fam_name <$> fs.
Proof.
  revert r. induction fs as [|f fs IH]; intros r Hnd Hno.
  { exists r. split; [done|]. set_solver. }
  rewrite fmap_cons in Hnd. apply NoDup_cons in Hnd as [Hf Hnd].
  destruct (Register_new r f) as [He Hx]; [apply Hno; set_solver|]. cbn [MustRegister].
  destruct (Register r f) as [r1 e] eqn:E. simpl in *. subst e.
  destruct (IH r1 Hnd) as (r' & Hr' & Hin).
  { intros g Hg. rewrite Hx, elem_of_union, elem_of_singleton. intros [He|He].
    - apply Hf. rewrite <- He. by apply list_elem_of_fmap_2.
    - by apply (Hno g); [set_solver|]. }
  exists r'. split; [done|]. intros x. rewrite Hin, Hx. set_solver.
Qed.

Lemma newMaintainers_done n r : newMaintainers n (r, true) = Some (r, true).
Proof. induction n as [|n IH]; [done|]. simpl. exact IH. Qed.
End Registration.

(** No name is declared twice, and all are din's. *)
Lemma family_names : NoDup (fam_name <$> packageFamilies ++ maintFamilies).
Proof. apply (bool_decide_unpack _). vm_compute. exact I. Qed.
Definition dinName (x : string) : bool := HasPrefix x "din_".
Lemma family_prefix f : f ∈ packageFamilies ++ maintFamilies -> dinName (fam_name f) = true.
Proof. revert f. apply Forall_forall. repeat constructor. Qed.

Lemma maintainersOf_spec s : maintainersOf s = if LakeMaintenanceEnabled s then 1%nat else 0%nat.
Proof.
  unfold maintainersOf, wired. rewrite !List.filter_app, !length_app.
  replace (List.filter isMaintainer (SinkOf <$> _)) with (@nil component).
  2: { symmetry. induction (Z.of_nat <$> _) as [|i l IH]; [done|]. rewrite fmap_cons. exact IH. }
  destruct (LakeMaintenanceEnabled s), (DecodeStreamEnabled s); reflexivity.
Qed.

(** ** Properties *)

(** Only a process with a maintainer exports the maintenance series. On a registry that
    holds no din_ family, a node registers its metrics without a panic, however many
    maintainers it constructs, and then exports the families of its packages and, exactly
    if LAKE_MAINTENANCE_ENABLED is set, those of the maintainer: on a pod that only
    ingests none of them is present, not even as zero. *)
Theorem maintenance_series_owned `{P : Prometheus} `{L : !PrometheusLaws P} s r n :
  (forall x, x ∈ exported r -> dinName x = false) ->
  (exists p, nodeMetrics s r = Some p /\
     forall x, x ∈ exported p.1 <->
       x ∈ exported r \/ x ∈ fam_name <$> packageFamilies \/ (LakeMaintenanceEnabled s = true /\ x ∈ fam_name <$> maintFamilies)) /\
  (exists p, initPackages r ≫= newMaintainers n = Some p).
Proof.
  intros Hr. pose proof family_names as Hnd. rewrite fmap_app in Hnd. apply NoDup_app in Hnd as (Hnp & Hdis & Hnm).
  assert (forall f, f ∈ packageFamilies ++ maintFamilies -> fam_name f ∉ exported r) as Hno.
  { intros f Hf Hx. apply Hr in Hx. by rewrite (family_prefix f Hf) in Hx. }
  destruct (MustRegister_spec packageFamilies r Hnp) as (r1 & H1 & Hx1); [intros f Hf; apply Hno, elem_of_app; by left|].
  destruct (MustRegister_spec maintFamilies r1 Hnm) as (r2 & H2 & Hx2).
  { intros f Hf. rewrite Hx1. intros [Hx|Hx]; [by apply (Hno f); [apply elem_of_app; right|]|].
    by apply (Hdis _ Hx), list_elem_of_fmap_2. }
  assert (forall k, newMaintainers (S k) (r1, false) = Some (r2, true)) as Hn.
  { intros k. cbn [newMaintainers]. unfold registerMaintenanceMetrics. cbn [fst snd]. rewrite H2. apply newMaintainers_done. }
  unfold nodeMetrics, initPackages. rewrite H1. cbn [mbind option_bind]. split.
  - rewrite maintainersOf_spec. destruct (LakeMaintenanceEnabled s).
    + rewrite Hn. eexists. split; [done|]. intros x. simpl. rewrite Hx2, Hx1. clear -x. tauto.
    + eexists. split; [done|]. intros x. simpl. rewrite Hx1. intuition discriminate.
  - destruct n; [by eexists|]. rewrite Hn. by eexists.
Qed.

(** What din_publish_total counts an outcome as, and what the device is told: an
    acknowledged publish is counted ok; of the others a rejected payload is counted too_large
    and answered 413, a missing ack is counted unavailable and answered 503. Only an event
    that cannot be marshalled is counted unavailable and answered 500. *)
Theorem outcome_label_matches_answer `{CloudEventLib} `{NatsHeaderLib} `{J : JetStreamPublish} `{B : !BrokerErrors J}
    partitions js (event : StoredEvent) js' outs err :
  Publish partitions js event = (js', outs, err) ->
  match MarshalJSON event, err with
  | Ok _, None => outs = [PubOk]
  | Ok _, Some e =>
      (outs = [PubTooLarge] /\ status (writeError e) = StatusRequestEntityTooLarge) \/
      (outs = [PubUnavailable] /\ status (writeError e) = StatusServiceUnavailable)
  | Err e0, Some e => foreign e0 -> outs = [PubUnavailable] /\ status (writeError e) = StatusInternalServerError
  | Err _, None => False
  end.
Proof.
  assert (forall e, outage e -> (observePublish (Some e) = PubTooLarge /\ status (writeError e) = StatusRequestEntityTooLarge) \/
    (observePublish (Some e) = PubUnavailable /\ status (writeError e) = StatusServiceUnavailable)) as Hout.
  { intros e (Hc & Hv & Hm). unfold observePublish, writeError. rewrite Hm, Hv. destruct (errors_is e ErrPayloadTooLarge) eqn:Ep; [by left|right].
    destruct Hc as [?|Hu]; [congruence|]. by rewrite Hu. }
  unfold Publish, submitAsync. destruct (MarshalJSON event) as [body|e0].
  - destruct (PublishMsgAsync js _) as [js1 [f|e]] eqn:Ep.
    + destruct (awaitAck js1 f) as [js2 o] eqn:Ea. intros [= _ <- <-]. destruct o as [e|]; [|done].
      destruct (Hout e) as [[Ho Hs]|[Ho Hs]]; [by eapply awaitAck_outage|left|right]; (split; [exact (f_equal (fun o => [o]) Ho)|exact Hs]).
    + intros [= _ <- <-]. destruct (Hout (classifyPublishErr e)) as [[Ho Hs]|[Ho Hs]];
      [by eapply classify_outage, publish_foreign|left|right]; (split; [exact (f_equal (fun o => [o]) Ho)|exact Hs]).
  - intros [= _ <- <-] (Hv & Hu & Hp & Hm). unfold observePublish, writeError. simpl. by rewrite Hp, Hv, Hu, Hm.
Qed.

(** ** A registry for the witness *)

Definition mapRegistry : Prometheus := {|
  registry := gset string;
  Register r f := if decide (fam_name f ∈ r) then (r, Some (ENew "duplicate metrics collector registration attempted"))
                  else ({[fam_name f]} ∪ r, None)
|}.
#[export] Instance mapRegistry_laws : PrometheusLaws mapRegistry.
Proof.
  refine {| exported := fun r : @registry mapRegistry => r |}; intros r f Hf; simpl; by case_decide.
Defined.

Definition goMetrics : gset string := {["go_goroutines"; "process_cpu_seconds_total"]}.
Lemma maintenance_series_owned_witness :
  exists p, @nodeMetrics mapRegistry sample goMetrics = Some p /\ "din_lake_stale_consumers" ∉ p.1.
Proof.
  destruct (@maintenance_series_owned mapRegistry mapRegistry_laws sample goMetrics 0) as [(p & Hp & Hx) _].
  - intros x Hin. simpl in Hin. unfold goMetrics in Hin. rewrite elem_of_union, !elem_of_singleton in Hin. by destruct Hin as [->| ->].
  - assert ("din_lake_stale_consumers" ∉ fam_name <$> packageFamilies) as Hn by (apply (bool_decide_unpack _); vm_compute; exact I).
    exists p. split; [exact Hp|]. intros Hin. apply Hx in Hin as [Hin|[Hin|[Hin _]]]; [|by apply Hn|discriminate Hin].
    simpl in Hin. unfold goMetrics in Hin. rewrite elem_of_union, !elem_of_singleton in Hin. by destruct Hin.
Defined.
